(* ===== verification/_CoqProject ===== *)
-Q . S2P
Prelude.v
UvPrio.v
UvHeap.v
UvHeapSpec.v
UvQueue.v
UvHeapProps.v
UvLoop.v
UvCore.v
UvInv.v
UvTimer.v
UvFire.v
UvWatch.v
UvClose.v
UvInit.v
UvRun.v
UvProps.v
UvRunProps.v
UvRings.v
UvPool.v
UvPoolInv.v
UvPoolStep.v
UvPoolDone.v
UvPoolReach.v
UvPoolLive.v
UvPoolProps.v
UvInet.v
UvInet4.v
UvInet6.v
UvInetProps.v
Number.v
LuaApi.v
LuaRun.v
LuaRef.v
LuaDemo.v
LuaProps.v
Bpf.v
BpfLoad.v
BpfRun.v
BpfDemo.v
BpfProps.v
BpfLoadRun.v
BpfLoadProps.v
LuaAux.v
LuaLib.v
BpfMaps.v
UvErr.v
Luv.v
LuvHandle.v
LuvRun.v
LuvConst.v
LuvOpen.v
Shark.v
LuvDemo.v
SharkProps.v
LuvProps.v
LjStr.v
LjStrCmp.v
LjStrTab.v
LjStrProps.v
LjTab.v
LjTabKeys.v
LjTabChain.v
LjTabFind.v
LjTabOk.v
LjTabPairs.v
LjTabCount.v
LjTabResize.v
LjTabWalk.v
LjTabLen.v
LjTabProps.v
LjPat.v
LjPatLib.v
LjPatSem.v
LjPatRead.v
LjPatCap.v
LjPatItem.v
LjPatProps.v
LjPatFind.v
LjPatGsub.v
