(* ===== verification/Prelude.v ===== *)
(** * A verification library for shark

    shark is a Linux performance tool in C around LuaJIT and libuv: Lua scripts
    load BPF programs, read their maps as Lua tables, and run callbacks from an
    event loop.  This development models the C code below the scripts and proves
    what it does.

    ** The parts of the program and where they are modelled

    - The timer heap, [core/libuv/src/heap-inl.h]: [UvHeap] (nodes as records of
      pointers in a store, each function on that store), [UvHeapSpec] (the heap as
      a level-order array, and as a priority queue), [UvHeapProps].
    - The intrusive queues, [core/libuv/src/queue.h]: [UvQueue], on a memory of
      next and previous pointers, with the rings they form.
    - The event loop: [UvLoop] (handles and their flags, [uv-common.h]; timers,
      [unix/timer.c]; prepare, check and idle watchers, [unix/loop-watcher.c]) and
      [UvCore] (closing, running, walking and aliveness, [unix/core.c],
      [uv-common.c], [unix/loop.c]).  The loop is written against the interface
      [PrioQueue] of [UvPrio], which [UvHeapSpec] implements.  A callback is a
      value whose effect is a parameter, so the loop is verified for every
      behaviour of its callbacks, or for callbacks that work outside the loop
      where a theorem says so.
    - The invariant of the loop, [UvInv]: the heap holds the active timers, the
      rings hold the active watchers, the closing list holds the handles being
      closed, and [active_handles] counts the active and referenced handles.
      [UvTimer], [UvFire], [UvWatch], [UvClose] and [UvInit] show what each
      operation does and that it keeps the invariant; [UvProps] collects the
      properties and runs them.  [UvRun] and [UvRunProps] run the whole loop, on a
      clock that polling moves: [uv_run] ends and fires every timer of a loop of
      one-shot timers, and what a timer started after its close does.
    - The thread pool, [core/libuv/src/threadpool.c] with the sending of
      [unix/async.c]: [UvPool] has every thread as a state machine whose states are
      places in its code; a step is an operation on a lock, or the code between two.
      [UvRings] has many queues in one memory, by their heads.  [UvPoolInv] is the
      invariant: where each request is, who holds which lock, and who will look at a
      queue that is not empty.  [UvPoolStep] and [UvPoolDone] show that each place
      keeps it, [UvPoolReach] that it holds in every reachable state, [UvPoolLive]
      that every step lowers a measure; [UvPoolProps] has the properties.  It meets
      the loop at [uv__work_done], which the loop calls when the descriptor of its
      handle [wq_async] is readable.
    - Internet addresses as text, [core/libuv/src/inet.c] and the socket addresses
      of [uv-common.c]: [UvInet]; [UvInet4] and [UvInet6] have the texts that are
      printed and how they are read, [UvInetProps] the properties.
    - Error codes of libuv: [UvErr] ([uv-common.c], the table of [uv.h]).
    - Lua values and the C API: [Number] (doubles, their conversions to C
      integers), [LuaApi] ([core/luajit/src/lj_api.c], [lib_aux.c], [lj_meta.c],
      on tables as finite maps), [LuaRun] (a calculus of its runs), [LuaRef]
      (references in the registry), [LuaDemo] (a virtual machine for runs) and
      [LuaProps].  [LuaAux] and [LuaLib] have modules and errors ([lib_aux.c],
      [lj_err.c]): [luaL_openlib] and what it leaves in the tables.
    - The strings of LuaJIT, [core/luajit/src/lj_str.c]: [LjStr] (interning, the
      string table, comparisons), [LjStrCmp] and [LjStrTab] (what comparisons and
      the table do), [LjStrProps].
    - The tables of LuaJIT, [core/luajit/src/lj_tab.c]: [LjTab] is the code, on an
      array of slots and an array of nodes linked into chains.  [LjTabKeys] has the
      keys and their main positions; [LjTabChain] the invariant of the chains and
      the three ways a key is placed; [LjTabFind] the searches and a new key
      without a resize; [LjTabOk] the invariant of a table, getters and stores;
      [LjTabPairs] its pairs in order; [LjTabCount] and [LjTabResize] the counting
      of integer keys and resizing; [LjTabWalk] and [LjTabLen] traversal and
      length; [LjTabProps] the properties.  [lj_tab_newkey] and [lj_tab_set] call
      each other through a resize; the recursion has fuel 2, as a resize makes room
      for all the keys it sets and the new one.  [LjTabProps] shows that such a
      table is the finite map that [LuaApi] takes tables to be.
    - The string functions with patterns, [core/luajit/src/lib_string.c]: [LjPat]
      is the matcher, with its captures and levels, and the table of characters of
      [lj_char.c]; [LjPatLib] has [string.find], [match], [gmatch] and [gsub].
      [LjPatSem] says what patterns mean: a pattern is read into items, and items
      have a list of ways to match, the preferred one first.  [LjPatRead],
      [LjPatCap] and [LjPatItem] relate the two; [LjPatProps] has the property of
      the matcher, [LjPatFind] and [LjPatGsub] those of the functions.  The
      matcher calls itself with a later position of the pattern each time, so the
      length of the pattern is enough fuel for it; its loops over the subject have
      the length of the subject.
    - BPF maps as Lua tables: [Bpf] ([bpf/bpf.c], the generated accessors
      [bpf/bpf_map_index_func.h], [bpf_map_newindex_func.h],
      [bpf_map_next_func.h], and [bpf/libbpf/libbpf.c]), [BpfLoad] (the object
      loader, [bpf/libbpf/bpf_load.c]), [BpfRun] (the kernel's contract and the
      runs of the accessors), [BpfDemo] (a kernel for runs), [BpfProps],
      [BpfLoadRun] (relocation and the passes over the sections),
      [BpfLoadProps], and [BpfMaps] (what creating the maps leaves for a script).
    - The Lua bindings of the loop, [core/luv]: [Luv] (the records behind handles
      and requests, callbacks, results: [lhandle.c], [lreq.c], [util.c]),
      [LuvHandle] ([handle.c], [timer.c], [prepare.c], [check.c], [idle.c],
      [loop.c]), [LuvConst] ([constants.c]), [LuvOpen] ([luv.c], [req.c]).  They
      run on one state, [luv_state]: the loop of [UvCore], whose world is the Lua
      state, the records of luv and the system; [luv_call] ties the knot, as the
      callbacks the loop makes are those of luv, which call Lua.  [LuvRun] has
      their runs, [LuvDemo] a state and a machine for whole scripts, [LuvProps]
      the properties.
    - The program itself, [core/shark.c], with [luaL_openlibs] of [lib_init.c]:
      [Shark] (command line, the library of scripts, [main]) and [SharkProps].

    ** How state and effects are modelled

    Every C function is a computation in one monad [M], below, over the state
    of its component: it returns, raises a Lua error, exits, or faults.  A fault
    is what C leaves undefined or aborts on: a NULL or dangling pointer, a write
    outside an object, a failed [assert].  So a theorem that a function returns
    also says that it does none of these.  Integers are [Z] with their
    conversions written out; pointers are [positive], objects live in finite
    maps.  A loop whose number of rounds is not structural takes fuel and ends in
    [OutOfFuel] when it is used up; the theorems about such loops give an amount
    that is enough, so they show termination.

    ** What the theorems show

    - Data structures: the heap and the queues refine a priority queue and lists.
    - The loop: every operation keeps [loop_inv]; timers fire when they are due,
      once and in order; closing ends; [uv_run] ends (the fuel that is enough is
      the number of due timers, of closing handles, and of timers for the loop).
    - The thread pool: for every number of workers and loops and every order of steps,
      nothing faults and locks exclude; a request runs at most once and its callback
      runs once, with the right status; the threads come to rest, and then no request
      waits; a message to exit reaches every worker.
    - Addresses: an IPv4 or IPv6 address is read back from its text, the IPv4
      reader takes nothing else, and no text makes a reader leave its buffers.
    - Lua: the stack, fields, index chains, protected calls, references and
      modules do what the manual says, errors included.
    - Tables: getting and setting refine lookup and update of a finite map, through
      collisions, moves and resizes (for fewer than [2^26] pairs, the largest hash
      part); every reachable table is well formed; a traversal visits each pair
      once, also when pairs are changed or removed on the way; the length is a
      border; and what a refused resize leaves.
    - Strings: comparisons by words are the order and equality of texts; a text has
      one interned object, which the string table keeps while it grows.
    - Patterns: for every subject and pattern, well formed or not, the matcher
      finds the first of the ways to match, with its captures, or the first error,
      and always ends inside its arrays; the functions give the first match, the
      next one, or the text with the matches replaced.
    - BPF maps: creating them gives a script a table per map with its accessors;
      what a script stores it reads back, within the ranges where that
      holds, and the ways the accessors fail otherwise; the loader relocates
      exactly the instructions of the table and loads every program once, in
      order.
    - luv: starting a timer from Lua keeps the callback and the loop consistent, a
      callback ends in the caller's stack or in an exit, and closing gives back
      everything the handle held; names of constants read back.
    - shark: the options, the table [arg], references and addresses, and the
      early exits of [main].

    ** What is not modelled

    The LuaJIT compiler, interpreter and collector (so an object that is no longer
    used stays), and the streams, files and processes of libuv, which are
    third-party code below the interfaces used here; the program's own async handles,
    calls of [uv_queue_work] without work, and what other threads do after [exit] has
    destroyed the locks; the sharing of a block by a
    table and its array, and copies of tables; libelf, the operating system and the [bpf] system call,
    which are parameters with their documented behaviour; messages the BPF
    loader prints; the string functions without patterns, and the checks of
    arguments before a pattern is matched; Lua's coroutines, so a C function that yields faults; the
    bindings of luv for streams, files, processes, names and threads; and the
    Lua modules. *)

From stdpp Require Import base option list gmap strings.
From Stdlib Require Export ZArith Lia ZifyNat.

(** [lia] decides [/] and [mod] by a constant. *)
Ltac Zify.zify_post_hook ::= Z.to_euclidean_division_equations.

(** ** Pointers

    C pointers to objects are positives; [NULL] is [None]. *)

Abbreviation ptr := positive.

(** ** Effects

    The C code is run in one monad.  A run ends by returning a value, by
    raising a Lua error (a [longjmp], which keeps the state), by [exit], or by
    a fault: a failed [assert] or [abort], a NULL or dangling dereference, a
    write outside an object, or exhausted fuel of a modelled loop. *)

Inductive fault :=
  | AssertFail
  | NullDeref
  | OutOfBounds
  | OutOfFuel
  | Unspecified.

#[export] Instance fault_eq_dec : EqDecision fault.
Proof. solve_decision. Defined.

Inductive outcome (S E A : Type) :=
  | Ret (a : A) (s : S)
  | Raise (e : E) (s : S)
  | Halt (code : Z) (s : S)
  | Fault (why : fault).

Arguments Ret {S E A} a s.
Arguments Raise {S E A} e s.
Arguments Halt {S E A} code s.
Arguments Fault {S E A} why.

Definition M (S E A : Type) : Type := S -> outcome S E A.

Definition ret {S E A} (a : A) : M S E A := fun s => Ret a s.

Definition bind {S E A B} (m : M S E A) (k : A -> M S E B) : M S E B :=
  fun s =>
    match m s with
    | Ret a s' => k a s'
    | Raise e s' => Raise e s'
    | Halt c s' => Halt c s'
    | Fault w => Fault w
    end.

Definition get {S E} : M S E S := fun s => Ret s s.
Definition put {S E} (s : S) : M S E unit := fun _ => Ret tt s.
Definition modify {S E} (f : S -> S) : M S E unit := fun s => Ret tt (f s).
Definition gets {S E A} (f : S -> A) : M S E A := fun s => Ret (f s) s.
Definition raise {S E A} (e : E) : M S E A := fun s => Raise e s.
Definition halt {S E A} (code : Z) : M S E A := fun s => Halt code s.
Definition fail {S E A} (w : fault) : M S E A := fun _ => Fault w.

(** [assert(b)] *)
Definition assertM {S E} (b : bool) : M S E unit :=
  if b then ret tt else fail AssertFail.

(** The value of an option, or the fault [w]. *)
Definition orfail {S E A} (w : fault) (o : option A) : M S E A :=
  match o with Some a => ret a | None => fail w end.

Definition skip {S E} : M S E unit := ret tt.

Declare Scope prog_scope.
Delimit Scope prog_scope with prog.

Notation "x <- m ;; k" := (bind m (fun x => k))
  (at level 100, m at next level, right associativity) : prog_scope.
Notation "m ;;; k" := (bind m (fun _ => k))
  (at level 100, right associativity) : prog_scope.
Notation "'when' b 'do' m" := (if b then m else skip)
  (at level 99, b at level 9, m at level 99) : prog_scope.

Section MonadLaws.
Context {S E : Type}.

Lemma bind_ret {A B} (a : A) (k : A -> M S E B) s :
  bind (ret a) k s = k a s.
Proof. reflexivity. Qed.

Lemma bind_Ret_inv {A B} (m : M S E A) (k : A -> M S E B) s b s' :
  bind m k s = Ret b s' -> exists a s1, m s = Ret a s1 /\ k a s1 = Ret b s'.
Proof. unfold bind. destruct (m s); naive_solver. Qed.

Lemma bind_assoc {A B C} (m : M S E A) (f : A -> M S E B) (g : B -> M S E C) s :
  bind (bind m f) g s = bind m (fun a => bind (f a) g) s.
Proof. unfold bind. by destruct (m s). Qed.
End MonadLaws.

Lemma bind_step {S E A B} (m : M S E A) (k : A -> M S E B) s a s' : m s = Ret a s' -> bind m k s = k a s'.
Proof. unfold bind. by intros ->. Qed.

Lemma orfail_run {S E A} w (o : option A) a (s : S) : o = Some a -> orfail (E := E) w o s = Ret a s.
Proof. by intros ->. Qed.

(** Runs one step of a bind chain whose head is known to return. *)
Ltac run_inv H :=
  let a := fresh "a" in let s := fresh "s" in
  let H1 := fresh "Hrun" in
  apply bind_Ret_inv in H as (a & s & H1 & H).

(** ** Machine integers

    C integers are [Z]; an operation that may wrap is followed by the
    conversion to its width. *)

Definition wrap_u (w z : Z) : Z := (z mod 2 ^ w)%Z.
Definition wrap_s (w z : Z) : Z := ((z + 2 ^ (w - 1)) mod 2 ^ w - 2 ^ (w - 1))%Z.

Abbreviation u8 := (wrap_u 8).
Abbreviation u16 := (wrap_u 16).
Abbreviation u32 := (wrap_u 32).
Abbreviation u64 := (wrap_u 64).
Abbreviation i8 := (wrap_s 8).
Abbreviation i16 := (wrap_s 16).
Abbreviation i32 := (wrap_s 32).
Abbreviation i64 := (wrap_s 64).

Definition UINT_MAX : Z := 4294967295.
Definition INT_MAX : Z := 2147483647.
Definition UINT64_MAX : Z := 18446744073709551615.

Section Ints.
Local Open Scope Z_scope.

Lemma wrap_u_range w z : 0 <= w -> 0 <= wrap_u w z < 2 ^ w.
Proof. intros. apply Z.mod_pos_bound. by apply Z.pow_pos_nonneg. Qed.

Lemma wrap_u_small w z : 0 <= z < 2 ^ w -> wrap_u w z = z.
Proof. apply Z.mod_small. Qed.

Lemma wrap_u_idem w z : 0 <= w -> wrap_u w (wrap_u w z) = wrap_u w z.
Proof. intros. by apply wrap_u_small, wrap_u_range. Qed.

Lemma wrap_s_range w z : 1 <= w -> - 2 ^ (w - 1) <= wrap_s w z < 2 ^ (w - 1).
Proof.
  intros. unfold wrap_s.
  pose proof (Z.mod_pos_bound (z + 2 ^ (w - 1)) (2 ^ w)
                ltac:(apply Z.pow_pos_nonneg; lia)).
  replace (2 ^ w) with (2 * 2 ^ (w - 1)) in *
    by (rewrite <- Z.pow_succ_r by lia; f_equal; lia).
  lia.
Qed.

Lemma wrap_s_small w z : 1 <= w -> - 2 ^ (w - 1) <= z < 2 ^ (w - 1) -> wrap_s w z = z.
Proof.
  intros. unfold wrap_s.
  replace (2 ^ w) with (2 * 2 ^ (w - 1))
    by (rewrite <- Z.pow_succ_r by lia; f_equal; lia).
  rewrite Z.mod_small; lia.
Qed.

(** Two words side by side, the low one of [n] bits. *)
Lemma lor_add a b n : 0 <= n -> 0 <= b < 2 ^ n -> Z.lor (Z.shiftl a n) b = a * 2 ^ n + b.
Proof.
  intros Hn Hb. rewrite <- Z.shiftl_mul_pow2 by done.
  assert (Z.land (Z.shiftl a n) b = 0) as Hl; [|by rewrite Z.add_nocarry_lxor, Z.lxor_lor].
  apply Z.bits_inj'. intros m Hm. rewrite Z.land_spec, Z.bits_0.
  destruct (decide (m < n)); [by rewrite Z.shiftl_spec_low|].
  rewrite <- (Z.mod_small b (2 ^ n)), Z.mod_pow2_bits_high, andb_false_r by lia. done.
Qed.

Definition is_byte (b : Z) : Prop := 0 <= b <= 255.
End Ints.

Create HintDb ints.
#[export] Hint Resolve wrap_u_small wrap_s_small wrap_u_range wrap_s_range : ints.

(** ** Lists *)

Section Lists.
Context {A : Type}.
Implicit Types (l : list A) (i j : nat) (x y : A).

Lemma NoDup_lookup_inj l i j x :
  NoDup l -> l !! i = Some x -> l !! j = Some x -> i = j.
Proof. intros. by eapply NoDup_lookup. Qed.

(** [l] with the elements at [i] and [j] exchanged. *)
Definition exchange l i j : list A :=
  match l !! i, l !! j with
  | Some x, Some y => <[j := x]> (<[i := y]> l)
  | _, _ => l
  end.

Lemma exchange_length l i j : length (exchange l i j) = length l.
Proof.
  unfold exchange. destruct (l !! i), (l !! j); try done.
  by rewrite !length_insert.
Qed.

Lemma exchange_lookup l i j x y k :
  l !! i = Some x -> l !! j = Some y ->
  exchange l i j !! k =
    if decide (k = i) then Some y else if decide (k = j) then Some x else l !! k.
Proof.
  intros Hi Hj. unfold exchange. rewrite Hi, Hj.
  pose proof (lookup_lt_Some _ _ _ Hi). pose proof (lookup_lt_Some _ _ _ Hj).
  destruct (decide (k = j)) as [->|].
  { rewrite list_lookup_insert_eq by by rewrite length_insert.
    case_decide; [congruence|done]. }
  rewrite list_lookup_insert_ne by done.
  destruct (decide (k = i)) as [->|]; [by rewrite list_lookup_insert_eq|].
  by rewrite list_lookup_insert_ne.
Qed.

Lemma exchange_Permutation l i j : exchange l i j ≡ₚ l.
Proof.
  unfold exchange. destruct (l !! i) as [x|] eqn:Hi; [|done].
  destruct (l !! j) as [y|] eqn:Hj; [|done].
  by apply Permutation_insert_swap.
Qed.

Lemma lookup_removelast l i :
  i < length l - 1 -> removelast l !! i = l !! i.
Proof.
  destruct (decide (l = [])) as [->|Hne]; [done|].
  destruct (exists_last Hne) as (l' & a & ->).
  rewrite removelast_last, length_app; simpl. intros.
  rewrite lookup_app_l; [done|lia].
Qed.
End Lists.

Lemma elem_of_concat {A} (cs : list (list A)) i : i ∈ concat cs <-> exists c, i ∈ c /\ c ∈ cs.
Proof.
  induction cs as [|c cs IH]; simpl; [set_solver|]. rewrite elem_of_app, IH. set_solver.
Qed.

#[export] Instance concat_Permutation {A} : Proper ((≡ₚ) ==> (≡ₚ)) (@concat A).
Proof.
  induction 1 as [|c cs cs' _ IH|c c' cs|cs cs' cs'' _ IH1 _ IH2]; simpl; [done|by rewrite IH| |by rewrite IH1].
  rewrite !app_assoc. by rewrite (Permutation_app_comm c).
Qed.
