(* ===== verification/UvPrio.v ===== *)
(** * The interface between the timers and the heap of libuv

    [timer.c] uses [heap-inl.h] through four functions and one comparison.
    [PrioQueue] is that signature, [PrioQueueSpec] what the timers rely on;
    [UvHeapSpec] discharges it for the pointer heap. *)

From stdpp Require Import base option list gmap.
From Stdlib Require Import ZArith Lia.
From S2P Require Import Prelude.

(** [less_than] is the strict part of a total preorder. *)
Class TotalPreorder (lt : ptr -> ptr -> bool) : Prop := {
  lt_asym x y : lt x y = true -> lt y x = false;
  le_trans x y z : lt y x = false -> lt z y = false -> lt z x = false
}.

Class PrioQueue (Q : Type) := {
  pq_init : Q;
  pq_min : Q -> option ptr;
  pq_insert : (ptr -> ptr -> bool) -> ptr -> Q -> option Q;
  pq_remove : (ptr -> ptr -> bool) -> ptr -> Q -> option Q
}.

Class PrioQueueSpec (Q : Type) `{!PrioQueue Q} := {
  (** [q] is well formed for the comparison and holds the nodes of the set. *)
  pq_ok : (ptr -> ptr -> bool) -> Q -> gset ptr -> Prop;
  pq_init_ok lt : pq_ok lt pq_init ∅;
  pq_min_ok lt q (X : gset ptr) : TotalPreorder lt -> pq_ok lt q X ->
    match pq_min q with
    | None => X = ∅
    | Some x => x ∈ X /\ forall y, y ∈ X -> lt y x = false
    end;
  pq_insert_ok lt q (X : gset ptr) x : TotalPreorder lt -> pq_ok lt q X -> x ∉ X ->
    (Z.of_nat (size X) < UINT_MAX)%Z ->
    exists q', pq_insert lt x q = Some q' /\ pq_ok lt q' ({[x]} ∪ X);
  pq_remove_ok lt q (X : gset ptr) x : TotalPreorder lt -> pq_ok lt q X -> x ∈ X ->
    exists q', pq_remove lt x q = Some q' /\ pq_ok lt q' (X ∖ {[x]});
  pq_ext lt lt' q (X : gset ptr) :
    (forall x y, x ∈ X -> y ∈ X -> lt x y = lt' x y) -> pq_ok lt q X -> pq_ok lt' q X
}.
