(* ===== verification/UvHeap.v ===== *)
(** * The intrusive binary heap of libuv ([core/libuv/src/heap-inl.h])

    Heap nodes are C structs linked by [left], [right] and [parent] pointers;
    they live in a store [gmap ptr heap_node] next to the [struct heap].  Every
    function is the sequence of reads and writes of the C code; a NULL or
    unmapped dereference and exhausted fuel are [None].

    [repr st arr] says that the pointer structure is the complete binary tree
    whose level order is [arr]; the theorems transfer the heap order of [arr]
    through every pointer operation. *)

From stdpp Require Import base option list gmap.
From Stdlib Require Import ZArith Lia.
From S2P Require Import Prelude UvPrio.

Record heap_node := HeapNode {
  left : option ptr;
  right : option ptr;
  parent : option ptr
}.

Record heap := Heap { min : option ptr; nelts : Z }.

Record hstate := HState { hp : heap; nodes : gmap ptr heap_node }.

(** The lvalues the code takes the address of:
    [&heap->min], [&n->left] and [&n->right]. *)
Inductive slot := SMin | SLeft (n : ptr) | SRight (n : ptr).

Definition set_left (v : option ptr) (n : heap_node) : heap_node :=
  HeapNode v (right n) (parent n).
Definition set_right (v : option ptr) (n : heap_node) : heap_node :=
  HeapNode (left n) v (parent n).
Definition set_parent (v : option ptr) (n : heap_node) : heap_node :=
  HeapNode (left n) (right n) v.

(** [p->f = v] for the field whose setter is given. *)
Definition store (f : heap_node -> heap_node) (p : ptr) (m : gmap ptr heap_node) :
    option (gmap ptr heap_node) :=
  n ← m !! p; Some (<[p := f n]> m).

(** [if (p != NULL) p->f = v] *)
Definition store_opt (f : heap_node -> heap_node) (p : option ptr)
    (m : gmap ptr heap_node) : option (gmap ptr heap_node) :=
  match p with Some p => store f p m | None => Some m end.

Definition read_slot (s : slot) (st : hstate) : option (option ptr) :=
  match s with
  | SMin => Some (min (hp st))
  | SLeft p => n ← nodes st !! p; Some (left n)
  | SRight p => n ← nodes st !! p; Some (right n)
  end.

Definition write_slot (s : slot) (v : option ptr) (st : hstate) : option hstate :=
  match s with
  | SMin => Some (HState (Heap v (nelts (hp st))) (nodes st))
  | SLeft p => m ← store (set_left v) p (nodes st); Some (HState (hp st) m)
  | SRight p => m ← store (set_right v) p (nodes st); Some (HState (hp st) m)
  end.

Definition heap_init : heap := Heap None 0.

Definition heap_min (h : heap) : option ptr := min h.

(** Swap parent with child: struct copies first, then the links around them. *)
Definition heap_node_swap (p c : ptr) (st : hstate) : option hstate :=
  t ← nodes st !! p;
  cn ← nodes st !! c;
  let m := <[c := t]> (<[p := cn]> (nodes st)) in
  m ← store (set_parent (Some c)) p m;
  cn ← m !! c;
  m ← (if decide (left cn = Some c)
       then store (set_left (Some p)) c m
       else store (set_right (Some p)) c m);
  let sibling := if decide (left cn = Some c) then right cn else left cn in
  m ← store_opt (set_parent (Some c)) sibling m;
  pn ← m !! p;
  m ← store_opt (set_parent (Some p)) (left pn) m;
  pn ← m !! p;
  m ← store_opt (set_parent (Some p)) (right pn) m;
  cn ← m !! c;
  match parent cn with
  | None => Some (HState (Heap (Some c) (nelts (hp st))) m)
  | Some g =>
      gn ← m !! g;
      m ← (if decide (left gn = Some p)
           then store (set_left (Some c)) g m
           else store (set_right (Some c)) g m);
      Some (HState (hp st) m)
  end.

(** [for (k = k0, n = n0; n >= 2; k += 1, n /= 2) path = (path << 1) | (n & 1)] *)
Fixpoint path_loop (fuel : nat) (n path : Z) (k : nat) : option (Z * nat) :=
  if (n <? 2)%Z then Some (path, k) else
  match fuel with
  | O => None
  | S fuel => path_loop fuel (n / 2)%Z (u32 (Z.lor (Z.shiftl path 1) (Z.land n 1))) (S k)
  end.

(** An [unsigned int] is halved at most 31 times before it is below 2. *)
Definition path_fuel : nat := 31.

(** The loop [while (k > 0)]: [parent] becomes [child], [child] becomes the
    address of the right or left field of the node it holds, as the low bit of
    [path] says, and [path] is shifted right. *)
Fixpoint traverse (k : nat) (path : Z) (par child : slot) (st : hstate) :
    option (slot * slot) :=
  match k with
  | O => Some (par, child)
  | S k =>
      x ← read_slot child st;
      x ← x;
      traverse k (Z.shiftr path 1) child
        (if Z.odd path then SRight x else SLeft x) st
  end.

Section Code.
(** [less_than(a, b)]; the comparison reads fields outside the heap links. *)
Context (less_than : ptr -> ptr -> bool).

(** [while (x->parent != NULL && less_than(x, x->parent))
       heap_node_swap(heap, x->parent, x)] *)
Fixpoint walk_up (fuel : nat) (x : ptr) (st : hstate) : option hstate :=
  n ← nodes st !! x;
  match parent n with
  | None => Some st
  | Some p =>
      if less_than x p then
        match fuel with
        | O => None
        | S fuel => st ← heap_node_swap p x st; walk_up fuel x st
        end
      else Some st
  end.

(** [if (c != NULL && less_than(c, smallest)) smallest = c] *)
Definition pick (c : option ptr) (smallest : ptr) : ptr :=
  match c with
  | Some c => if less_than c smallest then c else smallest
  | None => smallest
  end.

Fixpoint walk_down (fuel : nat) (x : ptr) (st : hstate) : option hstate :=
  n ← nodes st !! x;
  let smallest := pick (right n) (pick (left n) x) in
  if decide (smallest = x) then Some st else
  match fuel with
  | O => None
  | S fuel => st ← heap_node_swap x smallest st; walk_down fuel x st
  end.

Definition heap_insert (newnode : ptr) (st : hstate) : option hstate :=
  let st := HState (hp st) (<[newnode := HeapNode None None None]> (nodes st)) in
  '(path, k) ← path_loop path_fuel (u32 (1 + nelts (hp st))) 0 0;
  '(par, child) ← traverse k path SMin SMin st;
  pv ← read_slot par st;
  m ← store (set_parent pv) newnode (nodes st);
  st ← write_slot child (Some newnode) (HState (hp st) m);
  let st := HState (Heap (min (hp st)) (u32 (nelts (hp st) + 1))) (nodes st) in
  walk_up (Z.to_nat (nelts (hp st))) newnode st.

(** In [heap_remove]: [child] takes the place of [node]. *)
Definition heap_replace (node child : ptr) (st : hstate) : option hstate :=
  n ← nodes st !! node;
  m ← store (set_left (left n)) child (nodes st);
  n ← m !! node;
  m ← store (set_right (right n)) child m;
  n ← m !! node;
  m ← store (set_parent (parent n)) child m;
  cn ← m !! child;
  m ← store_opt (set_parent (Some child)) (left cn) m;
  cn ← m !! child;
  m ← store_opt (set_parent (Some child)) (right cn) m;
  n ← m !! node;
  match parent n with
  | None => Some (HState (Heap (Some child) (nelts (hp st))) m)
  | Some g =>
      gn ← m !! g;
      m ← (if decide (left gn = Some node)
           then store (set_left (Some child)) g m
           else store (set_right (Some child)) g m);
      Some (HState (hp st) m)
  end.

Definition heap_remove (node : ptr) (st : hstate) : option hstate :=
  if (nelts (hp st) =? 0)%Z then Some st else
  '(path, k) ← path_loop path_fuel (nelts (hp st)) 0 0;
  '(_, max) ← traverse k path SMin SMin st;
  let st := HState (Heap (min (hp st)) (u32 (nelts (hp st) - 1))) (nodes st) in
  child ← read_slot max st;
  st ← write_slot max None st;
  child ← child;
  if decide (child = node) then
    if decide (Some child = min (hp st))
    then Some (HState (Heap None (nelts (hp st))) (nodes st))
    else Some st
  else
    st ← heap_replace node child st;
    st ← walk_down (Z.to_nat (nelts (hp st))) child st;
    walk_up (Z.to_nat (nelts (hp st))) child st.

Definition heap_dequeue (st : hstate) : option hstate :=
  if (nelts (hp st) =? 0)%Z then Some st else
  x ← min (hp st); heap_remove x st.
End Code.

(** The heap behind the interface the timers use. *)
#[export] Instance heap_prio : PrioQueue hstate := {|
  pq_init := HState heap_init ∅;
  pq_min := fun st => heap_min (hp st);
  pq_insert := heap_insert;
  pq_remove := heap_remove
|}.

(** ** Representation *)

(** The parent of index [i] in the level order of a complete binary tree. *)
Definition par (i : nat) : nat := (i - 1) / 2.

Definition node_at (arr : list ptr) (i : nat) : heap_node :=
  HeapNode (arr !! (2 * i + 1)) (arr !! (2 * i + 2))
           (if decide (i = 0) then None else arr !! par i).

#[global] Arguments par : simpl never.

Definition arr_ok (arr : list ptr) : Prop :=
  NoDup arr /\ (Z.of_nat (length arr) <= UINT_MAX)%Z.

Definition linked (arr : list ptr) (m : gmap ptr heap_node) : Prop :=
  forall i x, arr !! i = Some x -> m !! x = Some (node_at arr i).

Definition repr (st : hstate) (arr : list ptr) : Prop :=
  arr_ok arr /\ nelts (hp st) = Z.of_nat (length arr) /\
  min (hp st) = arr !! 0 /\ linked arr (nodes st).

(** The lvalue that holds index [i]. *)
Definition slot_of (arr : list ptr) (i : nat) : option slot :=
  if decide (i = 0) then Some SMin
  else x ← arr !! par i; Some (if Nat.odd i then SLeft x else SRight x).

(** ** Paths *)

Lemma par_lt i : 0 < i -> par i < i.
Proof. unfold par. intros. lia. Qed.

Lemma par_child i : par (2 * i + 1) = i /\ par (2 * i + 2) = i.
Proof. unfold par. lia. Qed.

(** Odd indices are left children, even ones right children. *)
Lemma par_odd i : 0 < i -> i = if Nat.odd i then 2 * par i + 1 else 2 * par i + 2.
Proof.
  unfold par. intros. destruct (Nat.odd i) eqn:Ho.
  - apply Nat.odd_spec in Ho as [k ->]. lia.
  - rewrite <- Nat.negb_even, negb_false_iff in Ho.
    apply Nat.even_spec in Ho as [k ->]. lia.
Qed.

(** Reading the slot of index [i] gives the element at [i]. *)
Lemma read_slot_of st arr i s :
  linked arr (nodes st) -> min (hp st) = arr !! 0 -> slot_of arr i = Some s ->
  read_slot s st = Some (arr !! i).
Proof.
  unfold slot_of. intros Hl Hm Hs. case_decide; simplify_eq; [simpl; by rewrite Hm|].
  destruct (arr !! par i) as [x|] eqn:Hx; [|done].
  pose proof (par_odd i ltac:(lia)) as Hpar. injection Hs as <-.
  destruct (Nat.odd i); unfold read_slot; rewrite (Hl _ _ Hx);
    cbn -[Nat.mul par]; by rewrite <- Hpar.
Qed.

Lemma slot_of_is_Some arr i : i <= length arr -> is_Some (slot_of arr i).
Proof.
  unfold slot_of. intros. case_decide; [done|].
  destruct (lookup_lt_is_Some_2 arr (par i)) as [x Hx].
  { pose proof (par_lt i). lia. }
  by rewrite Hx.
Qed.

(** One step of the path loop pushes the low bit of [n]. *)
Lemma path_push path n k :
  (0 <= path < 2 ^ Z.of_nat k)%Z -> (2 <= n)%Z -> (n * 2 ^ Z.of_nat k <= UINT_MAX)%Z ->
  u32 (Z.lor (Z.shiftl path 1) (Z.land n 1)) = (2 * path + n mod 2)%Z /\
  (0 <= 2 * path + n mod 2 < 2 ^ Z.of_nat (S k))%Z /\
  (n / 2 * 2 ^ Z.of_nat (S k) <= UINT_MAX)%Z.
Proof.
  intros Hp Hn Hb.
  assert (Hpow : (2 ^ Z.of_nat (S k) = 2 * 2 ^ Z.of_nat k)%Z)
    by (rewrite Nat2Z.inj_succ, Z.pow_succ_r; lia).
  assert (Hor : Z.lor (Z.shiftl path 1) (Z.land n 1) = (2 * path + n mod 2)%Z).
  { change 1%Z with (Z.ones 1) at 2. rewrite Z.land_ones by lia.
    rewrite Z.shiftl_mul_pow2 by lia.
    change (2 ^ 1)%Z with 2%Z. rewrite (Z.mul_comm path). pose proof (Z.mod_pos_bound n 2 ltac:(lia)).
    assert (n mod 2 = 0 \/ n mod 2 = 1)%Z as [->| ->] by lia.
    - rewrite Z.lor_0_r. lia.
    - by destruct path as [|[]|[]]. }
  rewrite Hor. unfold UINT_MAX in *.
  pose proof (Z.mod_pos_bound n 2 ltac:(lia)). pose proof (Z.div_mod n 2 ltac:(lia)).
  repeat split; [|nia..]. apply wrap_u_small. change (2 ^ 32)%Z with 4294967296%Z. nia.
Qed.

(** The path loop ends within its fuel. *)
Lemma path_loop_Some fuel : forall n path k,
  (0 <= n < 2 ^ (Z.of_nat fuel + 1))%Z -> is_Some (path_loop fuel n path k).
Proof.
  induction fuel as [|fuel IH]; intros n path k Hn; simpl;
    destruct (Z.ltb_spec n 2); eauto.
  - change (2 ^ (Z.of_nat 0 + 1))%Z with 2%Z in Hn. lia.
  - apply IH. rewrite Nat2Z.inj_succ in Hn.
    replace (Z.succ (Z.of_nat fuel) + 1)%Z with (Z.succ (Z.of_nat fuel + 1)) in Hn by lia.
    rewrite Z.pow_succ_r in Hn by lia. nia.
Qed.

(** Walking the path of [n] leads to the 1-based position [n]: whatever the
    path was when the loop reached [n], it is what is left after the walk. *)
Lemma path_traverse st arr :
  linked arr (nodes st) -> min (hp st) = arr !! 0 ->
  forall fuel n path k P K,
    (1 <= n)%Z -> (n <= Z.of_nat (length arr) + 1)%Z ->
    (0 <= path < 2 ^ Z.of_nat k)%Z -> (n * 2 ^ Z.of_nat k <= UINT_MAX)%Z ->
    path_loop fuel n path k = Some (P, K) ->
    exists q s, slot_of arr (Z.to_nat n - 1) = Some s /\
      traverse K P SMin SMin st = traverse k path q s st /\
      (if decide (n = 1%Z) then q = SMin
       else slot_of arr (par (Z.to_nat n - 1)) = Some q).
Proof.
  intros Hl Hm fuel. induction fuel as [|fuel IH]; intros n path k P K Hn Hlen Hp Hb;
    simpl; destruct (Z.ltb_spec n 2) as [Hn2|Hn2]; intros Hrun; simplify_eq;
    try (replace n with 1%Z by lia; by exists SMin, SMin).
  destruct (path_push path n k) as (He & Hp' & Hb'); [done..|]. rewrite He in Hrun.
  pose proof (Z.div_mod n 2 ltac:(lia)) as Hdm.
  pose proof (Z.mod_pos_bound n 2 ltac:(lia)) as Hmb.
  destruct (IH (n / 2)%Z (2 * path + n mod 2)%Z (S k) P K) as (q & s & Hs & Ht & _);
    [lia|lia|done|done|done|].
  set (i := Z.to_nat n - 1). assert (Hpar : par i = Z.to_nat (n / 2) - 1)
    by (subst i; unfold par; lia).
  destruct (lookup_lt_is_Some_2 arr (par i)) as [x Hx]; [lia|].
  exists s, (if Nat.odd i then SLeft x else SRight x).
  rewrite decide_False by lia. rewrite <- Hpar in Hs. split; [|split; [|done]].
  - unfold slot_of. rewrite decide_False by lia. by rewrite Hx.
  - rewrite Ht. simpl. rewrite (read_slot_of st arr (par i) s) by done.
    rewrite Hx. simpl. f_equal.
    + rewrite Z.shiftr_div_pow2 by lia. change (2 ^ 1)%Z with 2%Z. lia.
    + assert (Z.odd (2 * path + n mod 2) = negb (Nat.odd i)) as ->; [|by destruct (Nat.odd i)].
      rewrite Z.odd_add, Z.odd_mul. simpl.
      pose proof (par_odd i ltac:(lia)). destruct (Nat.odd i);
        [replace (n mod 2)%Z with 0%Z by lia|replace (n mod 2)%Z with 1%Z by lia]; done.
Qed.

(** ** Stores described by index

    [rep arr m F]: the node of [arr !! k] holds [F k].  Every write of the C
    code becomes a point update of [F]. *)

Definition rep (arr : list ptr) (m : gmap ptr heap_node) (F : nat -> heap_node) : Prop :=
  forall k x, arr !! k = Some x -> m !! x = Some (F k).

Definition upd (f : heap_node -> heap_node) (a : nat) (F : nat -> heap_node) (k : nat) :
    heap_node :=
  if decide (k = a) then f (F k) else F k.

Lemma upd_ne f a F k : k <> a -> upd f a F k = F k.
Proof. unfold upd. intros. by rewrite decide_False. Qed.

Lemma left_upd_parent v a F k : left (upd (set_parent v) a F k) = left (F k).
Proof. unfold upd. by case_decide. Qed.

Lemma right_upd_parent v a F k : right (upd (set_parent v) a F k) = right (F k).
Proof. unfold upd. by case_decide. Qed.

Lemma parent_upd_child (P : Prop) {HP : Decision P} v a F k :
  parent (upd (if decide P then set_left v else set_right v) a F k) = parent (F k).
Proof. unfold upd. by repeat case_decide. Qed.

(** Two stores agree outside the heap. *)
Definition frame (arr : list ptr) (m m' : gmap ptr heap_node) : Prop :=
  forall x, x ∉ arr -> m' !! x = m !! x.

Lemma frame_refl arr m : frame arr m m.
Proof. done. Qed.

Lemma frame_trans arr m1 m2 m3 : frame arr m1 m2 -> frame arr m2 m3 -> frame arr m1 m3.
Proof. intros H1 H2 x Hx. by rewrite H2, H1. Qed.

Lemma store_opt_rep arr m F f a :
  NoDup arr -> rep arr m F ->
  exists m', store_opt f (arr !! a) m = Some m' /\ rep arr m' (upd f a F) /\ frame arr m m'.
Proof.
  intros Hnd Hrep. destruct (arr !! a) as [y|] eqn:Ha; simpl.
  - unfold store. rewrite (Hrep _ _ Ha). simpl. eexists. split; [done|]. split.
    + intros k x Hk. unfold upd. destruct (decide (k = a)) as [->|Hne].
      * rewrite Ha in Hk. simplify_eq. by rewrite lookup_insert_eq.
      * rewrite lookup_insert_ne; [by apply Hrep|].
        intros ->. by eapply Hne, NoDup_lookup.
    + intros x Hx. apply lookup_insert_ne. intros ->. by apply Hx, (list_elem_of_lookup_2 _ a).
  - eexists. split; [done|]. split; [|done].
    intros k x Hk. unfold upd. case_decide; [congruence|]. by apply Hrep.
Qed.

Lemma store_rep arr m F f a y :
  NoDup arr -> rep arr m F -> arr !! a = Some y ->
  exists m', store f y m = Some m' /\ rep arr m' (upd f a F) /\ frame arr m m'.
Proof.
  intros Hnd Hrep Ha. destruct (store_opt_rep arr m F f a) as (m' & H); [done..|].
  rewrite Ha in H. eauto.
Qed.

(** The branch that redirects the link of the parent of a replaced node. *)
Lemma store_link_rep arr m F (P : Prop) {HP : Decision P} v a y :
  NoDup arr -> rep arr m F -> arr !! a = Some y ->
  exists m', (if decide P then store (set_left v) y m else store (set_right v) y m) = Some m' /\
    rep arr m' (upd (if decide P then set_left v else set_right v) a F) /\ frame arr m m'.
Proof. intros. case_decide; by apply store_rep. Qed.

(** Takes one store of the goal [exists st', ... = Some st' /\ ...]. *)
Ltac store_step m Hm Hf :=
  match goal with
  | Hnd : NoDup ?arr |- context [if decide ?P then store (set_left ?v) ?y ?m0 else _] =>
      match goal with
      | Hr : rep arr m0 ?F, Hy : arr !! ?a = Some y |- _ =>
          destruct (store_link_rep arr m0 F P v a y Hnd Hr Hy) as (m & -> & Hm & Hf);
          cbn [mbind option_bind]
      end
  | Hnd : NoDup ?arr |- context [store ?f ?y ?m0] =>
      match goal with
      | Hr : rep arr m0 ?F, Hy : arr !! ?a = Some y |- _ =>
          destruct (store_rep arr m0 F f a y Hnd Hr Hy) as (m & -> & Hm & Hf);
          cbn [mbind option_bind]
      end
  | Hnd : NoDup ?arr |- context [store_opt ?f (?arr !! ?a) ?m0] =>
      match goal with
      | Hr : rep arr m0 ?F |- _ =>
          destruct (store_opt_rep arr m0 F f a Hnd Hr) as (m & -> & Hm & Hf);
          cbn [mbind option_bind]
      end
  end.

Lemma node_eq_idx arr a k (x y : ptr) :
  NoDup arr -> arr !! a = Some x -> arr !! k = Some y -> x = y <-> a = k.
Proof.
  intros Hnd Ha Hk. split; [|congruence]. intros ->. by eapply NoDup_lookup.
Qed.

Definition swap_nodes (i c : nat) (F : nat -> heap_node) (k : nat) : heap_node :=
  if decide (k = c) then F i else if decide (k = i) then F c else F k.

Lemma rep_copy_swap arr m F i c p ch :
  NoDup arr -> rep arr m F -> arr !! i = Some p -> arr !! c = Some ch -> i <> c ->
  rep arr (<[ch := F i]> (<[p := F c]> m)) (swap_nodes i c F) /\
  frame arr m (<[ch := F i]> (<[p := F c]> m)).
Proof.
  intros Hnd Hrep Hi Hc Hne. split.
  - intros k x Hk. unfold swap_nodes.
    destruct (decide (k = c)) as [->|Hkc]; [by simplify_eq; rewrite lookup_insert_eq|].
    rewrite lookup_insert_ne by (intros ->; by eapply Hkc, NoDup_lookup).
    destruct (decide (k = i)) as [->|Hki]; [by simplify_eq; rewrite lookup_insert_eq|].
    rewrite lookup_insert_ne by (intros ->; by eapply Hki, NoDup_lookup). by apply Hrep.
  - intros x Hx. rewrite !lookup_insert_ne; [done|..];
      intros ->; apply Hx; by eapply list_elem_of_lookup_2.
Qed.

(** The node table after [heap_node_swap], write by write. *)
Definition swap_table (arr : list ptr) (i c : nat) (p ch : ptr) : nat -> heap_node :=
  let b := decide (c = 2 * i + 1) in
  let F := upd (set_parent (Some ch)) i (swap_nodes i c (node_at arr)) in
  let F := upd (if b then set_left (Some p) else set_right (Some p)) c F in
  let F := upd (set_parent (Some ch)) (if b then 2 * i + 2 else 2 * i + 1) F in
  let F := upd (set_parent (Some p)) (2 * c + 1) F in
  let F := upd (set_parent (Some p)) (2 * c + 2) F in
  fun k =>
    if decide (i = 0) then F k
    else upd (if decide (i = 2 * par i + 1) then set_left (Some ch) else set_right (Some ch))
             (par i) F k.

Lemma heap_node_ext (a b : heap_node) :
  left a = left b -> right a = right b -> parent a = parent b -> a = b.
Proof. destruct a, b; simpl; congruence. Qed.

Lemma par_spec i : i = 0 /\ par i = 0 \/ i = 2 * par i + 1 \/ i = 2 * par i + 2.
Proof. unfold par. lia. Qed.

Lemma par_eq i j : 0 < i -> i = 2 * j + 1 \/ i = 2 * j + 2 -> par i = j.
Proof. unfold par. lia. Qed.

(** Decides an index equation of the goal with [lia]. *)
Ltac dec_idx :=
  repeat match goal with
  | |- context [decide (?a = ?b)] =>
      first [ rewrite (decide_True (P := a = b)) by lia
            | rewrite (decide_False (P := a = b)) by lia ]
  end.

Ltac simpl_node := cbn [left right parent set_left set_right set_parent].

(** Unfolds the setters as well, for an equation between two nodes. *)
Ltac unfold_node := unfold set_left, set_right, set_parent; cbn [left right parent].

(** Closes an equation between lookups of one list at equal indices. *)
Ltac lookup_idx :=
  first
    [ done
    | f_equal; lia
    | match goal with
      | H : ?arr !! ?a = Some ?p |- ?arr !! _ = Some ?p => rewrite <- H; f_equal; lia
      | H : ?arr !! ?a = Some ?p |- Some ?p = ?arr !! _ => rewrite <- H; f_equal; lia
      end ].

Lemma swap_table_ok arr i c p ch k j :
  arr !! i = Some p -> arr !! c = Some ch -> c = 2 * i + 1 \/ c = 2 * i + 2 ->
  k = c /\ j = i \/ k = i /\ j = c \/ k <> c /\ k <> i /\ j = k ->
  swap_table arr i c p ch k = node_at (exchange arr i c) j.
Proof.
  intros Hi Hc Hcc Hj. pose proof (par_spec i) as Hpi. pose proof (par_spec k) as Hpk.
  assert (Hpc : par c = i) by (apply par_eq; lia).
  unfold node_at. rewrite !(exchange_lookup arr i c p ch) by done.
  unfold swap_table, upd, swap_nodes, node_at. cbv beta zeta.
  destruct Hj as [[-> ->]|[[-> ->]|(Hkc & Hki & ->)]].
  - destruct Hcc, (decide (i = 0)); dec_idx; simpl_node; f_equal; lookup_idx.
  - destruct Hcc, (decide (i = 0)); dec_idx; simpl_node; f_equal; lookup_idx.
  - clear Hi Hc Hpc. set (pi := par i) in *. set (pk := par k) in *. clearbody pi pk.
    destruct (decide (pk = c)) as [->|Hpkc]; [|destruct (decide (pk = i)) as [->|Hpki]].
    + destruct Hcc, Hpk as [|[|]]; try lia; destruct (decide (i = 0)), (decide (k = 0));
        try lia; dec_idx; simpl_node; f_equal; lookup_idx.
    + destruct Hcc, Hpk as [|[|]], (decide (i = 0)); try lia;
        try (destruct (decide (k = 0)); try lia);
        dec_idx; simpl_node; f_equal; lookup_idx.
    + destruct (decide (i = 0)) as [->|]; [|destruct (decide (k = pi)) as [->|]].
      * destruct Hcc, Hpk as [|[|]]; try lia; dec_idx; simpl_node; f_equal; lookup_idx.
      * destruct Hcc, Hpi as [|[|]], Hpk as [|[|]]; try lia;
          dec_idx; simpl_node; f_equal; lookup_idx.
      * destruct Hcc, Hpi as [|[|]], Hpk as [|[|]]; try lia;
          dec_idx; simpl_node; f_equal; lookup_idx.
Qed.
