(* ===== verification/UvHeapSpec.v ===== *)
(** * Correctness of the libuv heap

    [heap_node_swap], [heap_insert], [heap_remove] and [heap_dequeue] of
    [UvHeap] keep the pointer structure a complete binary tree
    ([UvHeap.repr]) whose level order is heap ordered, with exactly the
    expected elements.  The comparison is any total preorder, which the timer
    order of [UvTimer] instantiates. *)

From stdpp Require Import base option list gmap.
From Stdlib Require Import ZArith Lia.
From S2P Require Import Prelude UvPrio UvHeap.

(** ** [heap_node_swap] exchanges two adjacent indices *)

Lemma exchange_idx (arr : list ptr) i c p ch j x :
  NoDup arr -> arr !! i = Some p -> arr !! c = Some ch -> i <> c ->
  exchange arr i c !! j = Some x ->
  exists k, arr !! k = Some x /\
    (k = c /\ j = i \/ k = i /\ j = c \/ k <> c /\ k <> i /\ j = k).
Proof.
  intros Hnd Hi Hc Hne. rewrite (exchange_lookup arr i c p ch) by done.
  destruct (decide (j = i)) as [->|]; [intros; simplify_eq; exists c; auto|].
  destruct (decide (j = c)) as [->|]; [intros; simplify_eq; exists i; auto|].
  intros. exists j. auto 10.
Qed.

Lemma link_table_repr st arr i c p ch m h :
  repr st arr -> arr !! i = Some p -> arr !! c = Some ch ->
  c = 2 * i + 1 \/ c = 2 * i + 2 ->
  rep arr m (swap_table arr i c p ch) ->
  nelts h = nelts (hp st) -> min h = (if decide (i = 0) then Some ch else min (hp st)) ->
  repr (HState h m) (exchange arr i c).
Proof.
  intros ([Hnd Hlen] & Hn & Hmin & Hlk) Hi Hc Hcc Hrep Hne Hm.
  assert (i <> c) by lia. split_and!; simpl.
  - split; [|by rewrite exchange_length].
    by rewrite exchange_Permutation.
  - by rewrite exchange_length, <- Hn.
  - rewrite Hm, (exchange_lookup arr i c p ch) by done. rewrite (decide_False (P := 0 = c)) by lia.
    destruct (decide (i = 0)) as [->|]; [by rewrite decide_True|].
    by rewrite decide_False by lia.
  - intros j x Hj. apply (exchange_idx arr i c p ch) in Hj as (k & Hk & Hcases); [|done..].
    rewrite (Hrep _ _ Hk). f_equal. by apply swap_table_ok.
Qed.

(** The index of an element that occurs. *)
Lemma lookup_idx_iff (arr : list ptr) a k :
  NoDup arr -> is_Some (arr !! k) -> arr !! a = arr !! k <-> k = a.
Proof.
  intros Hnd [x Hk]. split; [|by intros ->]. intros Ha.
  eapply NoDup_lookup; [done|exact Hk|by rewrite Ha].
Qed.

(** Evaluates the table at the indices the goal reads. *)
Ltac eval_reads := unfold upd, swap_nodes; dec_idx; simpl_node.

Lemma heap_node_swap_spec st arr i c p ch :
  repr st arr -> arr !! i = Some p -> arr !! c = Some ch ->
  c = 2 * i + 1 \/ c = 2 * i + 2 ->
  exists st', heap_node_swap p ch st = Some st' /\ repr st' (exchange arr i c) /\
    frame arr (nodes st) (nodes st').
Proof.
  intros Hrepr Hi Hc Hcc. pose proof Hrepr as ([Hnd Hlen] & Hn & Hmin & Hlk).
  assert (Hne : i <> c) by lia. pose proof (par_spec i) as Hpi. unfold heap_node_swap.
  rewrite (Hlk _ _ Hi), (Hlk _ _ Hc). cbn [mbind option_bind].
  destruct (rep_copy_swap arr (nodes st) (node_at arr) i c p ch) as [Hr0 Hf0]; [done..|].
  cbv zeta. store_step m1 Hr1 Hf1. rewrite (Hr1 _ _ Hc). cbn [mbind option_bind].
  eval_reads.
  rewrite !(decide_ext (left (node_at arr i) = Some ch) (c = 2 * i + 1))
    by (rewrite <- Hc; apply lookup_idx_iff; [done|eauto]).
  store_step m2 Hr2 Hf2.
  replace (if decide (c = 2 * i + 1) then right (node_at arr i) else left (node_at arr i))
    with (arr !! (if decide (c = 2 * i + 1) then 2 * i + 2 else 2 * i + 1)) by by case_decide.
  store_step m3 Hr3 Hf3. rewrite (Hr3 _ _ Hi). cbn [mbind option_bind].
  assert (Hpi' : swap_nodes i c (node_at arr) i = node_at arr c) by (eval_reads; done).
  rewrite left_upd_parent, upd_ne, left_upd_parent, Hpi' by done.
  change (left (node_at arr c)) with (arr !! (2 * c + 1)).
  store_step m4 Hr4 Hf4. rewrite (Hr4 _ _ Hi). cbn [mbind option_bind].
  rewrite !right_upd_parent, upd_ne, right_upd_parent, Hpi' by done.
  change (right (node_at arr c)) with (arr !! (2 * c + 2)).
  store_step m5 Hr5 Hf5. rewrite (Hr5 _ _ Hc). cbn [mbind option_bind].
  rewrite (upd_ne _ (2 * c + 2)), (upd_ne _ (2 * c + 1)), upd_ne, parent_upd_child, upd_ne
    by (try case_decide; lia).
  replace (swap_nodes i c (node_at arr) c) with (node_at arr i) by (eval_reads; done).
  change (parent (node_at arr i)) with (if decide (i = 0) then None else arr !! par i).
  assert (Hf05 : frame arr (nodes st) m5) by eauto 10 using frame_trans.
  destruct (decide (i = 0)) as [Hi0|Hi0].
  - eexists. split; [done|]. split; [|done].
    eapply link_table_repr; [done..| |done|by rewrite decide_True].
    intros k x Hk. rewrite (Hr5 _ _ Hk). unfold swap_table. by rewrite (decide_True (P := i = 0)).
  - destruct (lookup_lt_is_Some_2 arr (par i)) as [g Hg].
    { apply lookup_lt_Some in Hi. pose proof (par_lt i). lia. }
    rewrite Hg, (Hr5 _ _ Hg). cbn [mbind option_bind].
    rewrite (upd_ne _ (2 * c + 2)), (upd_ne _ (2 * c + 1)), upd_ne, upd_ne, upd_ne
      by (try case_decide; lia).
    replace (swap_nodes i c (node_at arr) (par i)) with (node_at arr (par i)) by (eval_reads; done).
    rewrite !(decide_ext (left (node_at arr (par i)) = Some p) (i = 2 * par i + 1))
      by (rewrite <- Hi; apply lookup_idx_iff; [done|eauto]).
    store_step m6 Hr6 Hf6. eexists. split; [done|]. split; [|by eapply frame_trans].
    eapply link_table_repr; [done..| |done|by rewrite decide_False].
    intros k x Hk. rewrite (Hr6 _ _ Hk). unfold swap_table. by rewrite (decide_False (P := i = 0)).
Qed.

(** ** Heap order

    [le x y] is [less_than(y, x) == 0]. *)

Definition le_at (lt : ptr -> ptr -> bool) (arr : list ptr) (a b : nat) : Prop :=
  forall x y, arr !! a = Some x -> arr !! b = Some y -> lt y x = false.

Definition ordered (lt : ptr -> ptr -> bool) (arr : list ptr) : Prop :=
  forall j, 0 < j -> le_at lt arr (par j) j.

(** Heap order except between index [i] and its neighbours; the children of
    [i] are not below the parent of [i]. *)
Definition almost (lt : ptr -> ptr -> bool) (arr : list ptr) (i : nat) : Prop :=
  (forall j, 0 < j -> j <> i -> par j <> i -> le_at lt arr (par j) j) /\
  (forall j, 0 < j -> par j = i -> 0 < i -> le_at lt arr (par i) j).

Definition below (lt : ptr -> ptr -> bool) (arr : list ptr) (i : nat) : Prop :=
  forall j, 0 < j -> par j = i -> le_at lt arr i j.

Section Order.
Context (lt : ptr -> ptr -> bool) `{!TotalPreorder lt}.

Lemma le_refl x : lt x x = false.
Proof. destruct (lt x x) eqn:E; [|done]. by rewrite (lt_asym _ _ E) in E. Qed.

Lemma le_at_trans arr a b c :
  is_Some (arr !! b) -> le_at lt arr a b -> le_at lt arr b c -> le_at lt arr a c.
Proof. intros [y Hy] H1 H2 x z Hx Hz. eapply (le_trans x y z); eauto. Qed.

Lemma almost_ordered arr i :
  almost lt arr i -> below lt arr i -> (0 < i -> le_at lt arr (par i) i) -> ordered lt arr.
Proof.
  intros [Ha _] Hb Hi j Hj. destruct (decide (j = i)) as [->|]; [by apply Hi|].
  destruct (decide (par j = i)) as [<-|]; [by apply Hb|by apply Ha].
Qed.

Lemma ordered_almost arr i : ordered lt arr -> almost lt arr i.
Proof.
  intros Ho. split; [by intros; apply Ho|]. intros j Hj <- Hp.
  destruct (arr !! par j) as [p|] eqn:E.
  - eapply (le_at_trans _ _ (par j)); eauto.
  - intros x y Hx Hy. pose proof (par_lt j Hj).
    apply lookup_lt_Some in Hy. apply lookup_ge_None in E. lia.
Qed.

(** The root of an ordered array is a minimum. *)
Lemma ordered_min arr r :
  ordered lt arr -> arr !! 0 = Some r -> forall y, y ∈ arr -> lt y r = false.
Proof.
  intros Ho Hr y Hy. apply list_elem_of_lookup in Hy as [j Hj]. revert y Hj.
  induction j as [j IH] using lt_wf_ind. intros y Hj.
  destruct (decide (j = 0)) as [->|Hj0].
  { rewrite Hr in Hj. simplify_eq. apply le_refl. }
  pose proof (par_lt j ltac:(lia)) as Hp.
  destruct (lookup_lt_is_Some_2 arr (par j)) as [z Hz].
  { apply lookup_lt_Some in Hj. lia. }
  apply (le_trans r z y); [by apply (IH (par j))|]. by eapply (Ho j); first lia.
Qed.

(** Evaluates lookups in an exchanged array inside [le_at]. *)
Ltac le_at_exchange :=
  match goal with
  | Hi : ?arr !! ?i = Some ?x, Hc : ?arr !! ?c = Some ?y |- le_at _ (exchange ?arr ?i ?c) _ _ =>
      intros u v; rewrite !(exchange_lookup arr i c x y) by done; dec_idx
  end.

Lemma almost_up arr i x p :
  almost lt arr i -> below lt arr i -> 0 < i ->
  arr !! i = Some x -> arr !! par i = Some p -> lt x p = true ->
  almost lt (exchange arr (par i) i) (par i) /\ below lt (exchange arr (par i) i) (par i).
Proof.
  intros [Ha Hb] Hbe Hi Hx Hp Hlt. pose proof (par_lt i Hi) as Hpi.
  pose proof (lt_asym _ _ Hlt) as Hle. split; [split|].
  - intros j Hj Hjq Hpj. pose proof (par_lt j Hj).
    destruct (decide (par j = i)) as [E|Hji].
    + le_at_exchange. intros [= <-]. intros Hv. eapply (Hb j); eauto.
    + destruct (decide (j = i)) as [->|]; [done|]. le_at_exchange. by apply Ha.
  - intros j Hj Hpj Hq. pose proof (par_lt (par i) Hq). pose proof (par_lt j Hj).
    destruct (decide (j = i)) as [->|Hji]; le_at_exchange.
    + intros Hu [= <-]. eapply (Ha (par i)); eauto; lia.
    + intros Hu Hv. eapply (le_trans u p v).
      * eapply (Ha (par i)); eauto; lia.
      * eapply (Ha j); rewrite ?Hpj; eauto; lia.
  - intros j Hj Hpj. pose proof (par_lt j Hj).
    destruct (decide (j = i)) as [->|Hji]; le_at_exchange.
    + by intros [= <-] [= <-].
    + intros [= <-] Hv. eapply (le_trans x p v); [done|].
      eapply (Ha j); rewrite ?Hpj; eauto; lia.
Qed.

Lemma almost_down arr i c x s :
  almost lt arr i -> arr !! i = Some x -> arr !! c = Some s -> 0 < c -> par c = i ->
  (forall j, 0 < j -> par j = i -> le_at lt arr c j) ->
  almost lt (exchange arr i c) c.
Proof.
  intros [Ha Hb] Hx Hs Hc Hpc Hmin. pose proof (par_lt c Hc). split.
  - intros j Hj Hjc Hpj. pose proof (par_lt j Hj).
    destruct (decide (j = i)) as [->|Hji]; [|destruct (decide (par j = i)) as [E|Hpi]].
    + le_at_exchange. intros Hu [= <-]. eapply (Hb c); eauto; lia.
    + le_at_exchange. intros [= <-] Hv. eapply (Hmin j); eauto.
    + le_at_exchange. by apply Ha.
  - intros j Hj Hpj _. rewrite Hpc. pose proof (par_lt j Hj). le_at_exchange.
    intros [= <-] Hv. eapply (Ha j); rewrite ?Hpj; eauto; lia.
Qed.

(** ** The two walks *)

Lemma walk_up_spec fuel : forall st arr i x,
  repr st arr -> almost lt arr i -> below lt arr i -> arr !! i = Some x -> i <= fuel ->
  exists st' arr', walk_up lt fuel x st = Some st' /\ repr st' arr' /\
    arr' ≡ₚ arr /\ ordered lt arr' /\ frame arr (nodes st) (nodes st').
Proof.
  induction fuel as [|fuel IH]; intros st arr i x Hrepr Ha Hb Hx Hf;
    pose proof Hrepr as (_ & _ & _ & Hlk); simpl;
    rewrite (Hlk _ _ Hx); cbn [mbind option_bind node_at parent].
  - rewrite decide_True by lia. exists st, arr. split_and!; try done.
    eapply almost_ordered; eauto. lia.
  - destruct (decide (i = 0)) as [Hi0|Hi0].
    { exists st, arr. split_and!; try done. eapply almost_ordered; eauto. lia. }
    pose proof (par_lt i ltac:(lia)) as Hpi.
    destruct (lookup_lt_is_Some_2 arr (par i)) as [p Hp].
    { apply lookup_lt_Some in Hx. lia. }
    rewrite Hp. destruct (lt x p) eqn:Hlt.
    + destruct (almost_up arr i x p) as [Ha' Hb']; [done..|lia|done|done|done|].
      destruct (heap_node_swap_spec st arr (par i) i p x) as (st1 & -> & Hr1 & Hf1);
        [done..|pose proof (par_spec i); lia|]. cbn [mbind option_bind].
      destruct (IH st1 (exchange arr (par i) i) (par i) x) as (st2 & arr2 & -> & Hr2 & Hp2 & Ho & Hf2);
        [done..| |lia|].
      { rewrite (exchange_lookup arr (par i) i p x) by done. by rewrite decide_True. }
      exists st2, arr2. rewrite exchange_Permutation in Hp2. split_and!; try done.
      eapply frame_trans; [done|]. intros y Hy. apply Hf2. by rewrite exchange_Permutation.
    + exists st, arr. split_and!; try done. eapply almost_ordered; eauto.
      intros _ u v Hu Hv. congruence.
Qed.

Definition pick_idx (arr : list ptr) (i : nat) (x s : ptr) : Prop :=
  s = x /\ below lt arr i \/
  exists c, arr !! c = Some s /\ (c = 2 * i + 1 \/ c = 2 * i + 2) /\
    (forall j, 0 < j -> par j = i -> le_at lt arr c j).

(** [pick] finds the smallest of an element and its children. *)
Lemma pick_spec arr i x :
  arr !! i = Some x ->
  pick_idx arr i x (pick lt (arr !! (2 * i + 2)) (pick lt (arr !! (2 * i + 1)) x)).
Proof.
  intros Hx. unfold pick_idx, below.
  assert (Hch : forall j, 0 < j -> par j = i -> j = 2 * i + 1 \/ j = 2 * i + 2)
    by (intros j; pose proof (par_spec j); lia).
  (* the smallest element [s] at [c] is below every child *)
  assert (Hpick : forall c s, arr !! c = Some s ->
    (forall l, arr !! (2 * i + 1) = Some l -> lt l s = false) ->
    (forall r, arr !! (2 * i + 2) = Some r -> lt r s = false) ->
    forall j, 0 < j -> par j = i -> le_at lt arr c j).
  { intros c s Hs Hl Hr j Hj Hpj u v Hu Hv.
    destruct (Hch j Hj Hpj); subst j; simplify_eq; eauto. }
  destruct (arr !! (2 * i + 1)) as [l|] eqn:Hl, (arr !! (2 * i + 2)) as [r|] eqn:Hr;
    simpl; [| |apply lookup_ge_None in Hl; apply lookup_lt_Some in Hr; lia|];
    [destruct (lt l x) eqn:Hlx; [destruct (lt r l) eqn:Hrs|destruct (lt r x) eqn:Hrs]
    |destruct (lt l x) eqn:Hlx|];
    first [ left; split; [done|]; apply (Hpick i x); [done|..]
          | right; exists (2 * i + 2); split; [done|]; split; [lia|];
            apply (Hpick (2 * i + 2) r); [done|..]
          | right; exists (2 * i + 1); split; [done|]; split; [lia|];
            apply (Hpick (2 * i + 1) l); [done|..] ];
    intros ? ?; simplify_eq; eauto using lt_asym, le_refl, le_trans.
Qed.

Lemma walk_down_spec fuel : forall st arr i x,
  repr st arr -> almost lt arr i -> arr !! i = Some x -> length arr <= i + fuel ->
  exists st' arr' i', walk_down lt fuel x st = Some st' /\ repr st' arr' /\
    arr' ≡ₚ arr /\ almost lt arr' i' /\ below lt arr' i' /\ arr' !! i' = Some x /\
    frame arr (nodes st) (nodes st').
Proof.
  induction fuel as [|fuel IH]; intros st arr i x Hrepr Ha Hx Hf.
  { apply lookup_lt_Some in Hx. lia. }
  pose proof Hrepr as ([Hnd _] & _ & _ & Hlk). cbn [walk_down].
  rewrite (Hlk _ _ Hx). cbn [mbind option_bind].
  change (left (node_at arr i)) with (arr !! (2 * i + 1)).
  change (right (node_at arr i)) with (arr !! (2 * i + 2)).
  destruct (pick_spec arr i x Hx) as [[-> Hb]|(c & Hs & Hcc & Hmin)]; cbv zeta.
  { rewrite decide_True by done. exists st, arr, i. by split_and!. }
  set (s := pick _ _ _) in *. rewrite decide_False by (intros E; rewrite E in Hs;
    assert (c = i) by (by eapply NoDup_lookup); lia).
  destruct (heap_node_swap_spec st arr i c x s) as (st1 & -> & Hr1 & Hf1); [done..|].
  cbn [mbind option_bind].
  destruct (IH st1 (exchange arr i c) c x) as (st2 & arr2 & i2 & -> & Hr2 & Hp2 & H2).
  - done.
  - apply (almost_down arr i c x s); auto; [lia|]. apply par_eq; lia.
  - rewrite (exchange_lookup arr i c x s) by done. dec_idx. done.
  - rewrite exchange_length. lia.
  - exists st2, arr2, i2. rewrite exchange_Permutation in Hp2. destruct_and!.
    split_and!; try done. eapply frame_trans; [done|].
    intros y Hy. match goal with H : frame _ _ _ |- _ => apply H end.
    by rewrite exchange_Permutation.
Qed.

(** ** Insertion *)

(** The traversal finds the lvalue of index [n] and that of its parent. *)
Lemma locate st arr n :
  linked arr (nodes st) -> min (hp st) = arr !! 0 ->
  n <= length arr -> (Z.of_nat n < UINT_MAX)%Z ->
  exists P K q s, path_loop path_fuel (Z.of_nat n + 1) 0 0 = Some (P, K) /\
    traverse K P SMin SMin st = Some (q, s) /\ slot_of arr n = Some s /\
    (if decide (n = 0) then q = SMin else slot_of arr (par n) = Some q).
Proof.
  intros Hl Hm Hn Hmax.
  destruct (path_loop_Some path_fuel (Z.of_nat n + 1) 0 0) as [[P K] HPK].
  { unfold UINT_MAX in *. change (2 ^ (Z.of_nat path_fuel + 1))%Z with 4294967296%Z. lia. }
  destruct (path_traverse st arr Hl Hm path_fuel (Z.of_nat n + 1)%Z 0%Z 0 P K ltac:(lia) ltac:(lia) ltac:(done)
              ltac:(unfold UINT_MAX in *; simpl; lia) HPK) as (q & s & Hs & Ht & Hq).
  exists P, K, q, s. split; [done|]. rewrite Ht.
  replace (Z.to_nat (Z.of_nat n + 1) - 1) with n in * by lia.
  split; [done|]. split; [done|].
  destruct (decide (n = 0)); [rewrite decide_True in Hq by lia|rewrite decide_False in Hq by lia]; done.
Qed.

Definition fresh_table (arr : list ptr) (k : nat) : heap_node :=
  if decide (k = length arr) then HeapNode None None None else node_at arr k.

Lemma rep_fresh arr m x :
  linked arr m -> x ∉ arr -> rep (arr ++ [x]) (<[x := HeapNode None None None]> m) (fresh_table arr).
Proof.
  intros Hl Hx k y Hk. unfold fresh_table.
  apply lookup_app_Some in Hk as [Hk|[Hge Hk]].
  - pose proof (lookup_lt_Some _ _ _ Hk). rewrite decide_False by lia.
    rewrite lookup_insert_ne; [by apply Hl|]. intros ->. by eapply Hx, list_elem_of_lookup_2.
  - apply list_lookup_singleton_Some in Hk as [Hk <-].
    rewrite decide_True by lia. by rewrite lookup_insert_eq.
Qed.

(** The node table after linking [x] in as index [length arr]. *)
Definition insert_table (arr : list ptr) (x : ptr) (k : nat) : heap_node :=
  let n := length arr in
  let F := upd (set_parent (if decide (n = 0) then None else arr !! par n)) n (fresh_table arr) in
  if decide (n = 0) then F k
  else upd (if decide (n = 2 * par n + 1) then set_left (Some x) else set_right (Some x)) (par n) F k.

Lemma lookup_snoc (arr : list ptr) x k :
  (arr ++ [x]) !! k = if decide (k = length arr) then Some x else arr !! k.
Proof.
  destruct (decide (k = length arr)) as [->|]; [by apply list_lookup_middle|].
  destruct (decide (k < length arr)); [by rewrite lookup_app_l|].
  rewrite !lookup_ge_None_2; [done|lia|rewrite length_app; simpl; lia].
Qed.

Lemma insert_table_ok arr x k :
  k <= length arr -> insert_table arr x k = node_at (arr ++ [x]) k.
Proof.
  intros Hk. unfold insert_table, fresh_table, node_at, upd. cbv zeta.
  rewrite !lookup_snoc. pose proof (par_spec (length arr)) as Hp. pose proof (par_spec k) as Hpk.
  set (n := length arr) in *.
  assert (Hout : forall j, n <= j -> arr !! j = None) by (intros; apply lookup_ge_None_2; lia).
  destruct (decide (n = 0)), (decide (k = n)); try lia;
    [dec_idx; simpl_node; rewrite (Hout (2 * k + 1)), (Hout (2 * k + 2)) by lia; done
    |subst k; dec_idx; simpl_node; rewrite (Hout (2 * n + 1)), (Hout (2 * n + 2)) by lia; done|].
  destruct Hp as [|[|]]; try lia;
    destruct (decide (k = par n)) as [->|]; try (destruct (decide (k = 0)));
    destruct Hpk as [|[|]]; try lia; dec_idx; simpl_node; done.
Qed.

Lemma write_slot_rep arr h m F i s v :
  NoDup arr -> rep arr m F -> slot_of arr i = Some s -> i <> 0 ->
  exists m', write_slot s v (HState h m) = Some (HState h m') /\
    rep arr m' (upd (if decide (i = 2 * par i + 1) then set_left v else set_right v) (par i) F) /\
    frame arr m m'.
Proof.
  unfold slot_of. intros Hnd Hrep Hs Hi. rewrite decide_False in Hs by done.
  destruct (arr !! par i) as [y|] eqn:Hy; [|done]. injection Hs as <-.
  destruct (store_link_rep arr m F (i = 2 * par i + 1) v (par i) y) as (m' & Hst & Hr & Hf);
    [done..|]. exists m'. split; [|done]. pose proof (par_odd i ltac:(lia)) as Ho.
  destruct (Nat.odd i); [rewrite decide_True in Hst by lia|rewrite decide_False in Hst by lia];
    simpl; by rewrite Hst.
Qed.

(** The table of [insert_table] is a heap with one node more. *)
Lemma insert_done h arr x m : NoDup (arr ++ [x]) -> (Z.of_nat (length arr) < UINT_MAX)%Z ->
  rep (arr ++ [x]) m (insert_table arr x) -> min h = (arr ++ [x]) !! 0 -> nelts h = Z.of_nat (length arr) ->
  Z.to_nat (nelts (Heap (min h) (u32 (nelts h + 1)))) = S (length arr) /\
  repr (HState (Heap (min h) (u32 (nelts h + 1))) m) (arr ++ [x]).
Proof.
  intros Hnd Hmax Hr Hmn ->. assert (length (arr ++ [x]) = S (length arr)) as Hl by (rewrite length_app; simpl; lia).
  rewrite wrap_u_small by (unfold UINT_MAX in *; simpl; lia). cbn [nelts].
  split; [lia|]. split_and!; simpl; [split; [done|]|..].
  - rewrite Hl. unfold UINT_MAX in *. lia.
  - rewrite Hl. lia.
  - done.
  - intros k y Hk. rewrite (Hr _ _ Hk). f_equal. apply insert_table_ok.
    apply lookup_lt_Some in Hk. lia.
Qed.

(** A fresh node changes nothing of the heap. *)
Lemma linked_fresh arr m x N : linked arr m -> x ∉ arr ->
  linked arr (<[x := N]> m) /\ frame (arr ++ [x]) m (<[x := N]> m).
Proof.
  intros Hl Hx. split.
  - intros k y Hk. rewrite lookup_insert_ne; [by apply Hl|]. intros ->. by eapply Hx, list_elem_of_lookup_2.
  - intros y Hy. apply lookup_insert_ne. intros ->. apply Hy. set_solver.
Qed.

(** What [heap_insert] reads through the parent's lvalue. *)
Lemma read_parent arr st n q : linked arr (nodes st) -> min (hp st) = arr !! 0 -> n <= length arr ->
  (if decide (n = 0) then q = SMin else slot_of arr (par n) = Some q) -> (n = 0 -> length arr = 0) ->
  read_slot q st = Some (if decide (n = 0) then None else arr !! par n).
Proof.
  intros Hl Hmin Hn Hq He. destruct (decide (n = 0)) as [Hn0|Hn0].
  - subst q. simpl. rewrite Hmin. by rewrite (lookup_ge_None_2 arr 0) by (rewrite He by done; lia).
  - by rewrite (read_slot_of _ arr (par n) q).
Qed.

Lemma insert_linked st arr x :
  repr st arr -> x ∉ arr -> (Z.of_nat (length arr) < UINT_MAX)%Z ->
  exists st', heap_insert lt x st = walk_up lt (S (length arr)) x st' /\
    repr st' (arr ++ [x]) /\ frame (arr ++ [x]) (nodes st) (nodes st').
Proof.
  intros ([Hnd _] & Hn & Hmin & Hlk) Hx Hmax. unfold heap_insert. cbv zeta.
  set (m0 := <[x := _]> (nodes st)). cbn [hp nodes]. set (n := length arr) in *.
  assert (Hnd' : NoDup (arr ++ [x])).
  { apply NoDup_app. split_and!; [done| |apply NoDup_singleton].
    intros y Hy ->%list_elem_of_singleton. done. }
  pose proof (rep_fresh arr (nodes st) x Hlk Hx) as Hr0. fold m0 in Hr0.
  destruct (linked_fresh arr (nodes st) x (HeapNode None None None) Hlk Hx) as [Hlk0 Hf0].
  fold m0 in Hlk0, Hf0.
  rewrite Hn, wrap_u_small by (unfold UINT_MAX in *; simpl; lia).
  rewrite (Z.add_comm 1).
  destruct (locate (HState (hp st) m0) arr n) as (P & K & q & s & -> & Ht & Hs & Hq); [done..|].
  cbn [mbind option_bind]. rewrite Ht. cbn [mbind option_bind].
  rewrite (read_parent arr (HState (hp st) m0) n q) by (done || lia). cbn [mbind option_bind].
  assert (Hxn : (arr ++ [x]) !! n = Some x) by by apply list_lookup_middle.
  store_step m1 Hr1 Hf1.
  assert (Hdone : forall h m, rep (arr ++ [x]) m (insert_table arr x) -> frame (arr ++ [x]) m1 m ->
    min h = (arr ++ [x]) !! 0 -> nelts h = nelts (hp st) ->
    exists st', walk_up lt (Z.to_nat (nelts (Heap (min h) (u32 (nelts h + 1))))) x
        (HState (Heap (min h) (u32 (nelts h + 1))) m) = walk_up lt (S n) x st' /\
      repr st' (arr ++ [x]) /\ frame (arr ++ [x]) (nodes st) (nodes st')).
  { intros h m Hr Hf Hmn Hnn. rewrite Hn in Hnn.
    destruct (insert_done h arr x m Hnd' Hmax Hr Hmn Hnn) as [-> Hrep].
    eexists. split; [done|]. split; [done|]. simpl. eauto using frame_trans. }
  destruct (decide (n = 0)) as [Hn0|Hn0].
  - unfold slot_of in Hs. rewrite decide_True in Hs by done. injection Hs as <-.
    cbn [write_slot mbind option_bind nodes hp].
    apply (Hdone (Heap (Some x) (nelts (hp st))) m1); [|done| |done].
    + intros k y Hk. rewrite (Hr1 _ _ Hk). unfold insert_table. fold n.
      by rewrite !(decide_True (P := n = 0)).
    + simpl. by rewrite <- Hxn, Hn0.
  - destruct (write_slot_rep (arr ++ [x]) (hp st) m1 _ n s (Some x) Hnd' Hr1)
      as (m2 & -> & Hr2 & Hf2); [|done|].
    { rewrite <- Hs. unfold slot_of. rewrite !decide_False by done.
      rewrite lookup_app_l; [done|]. apply par_lt. lia. }
    cbn [mbind option_bind nodes hp]. apply (Hdone (hp st) m2); [|done| |done].
    + intros k y Hk. rewrite (Hr2 _ _ Hk). unfold insert_table. fold n.
      by rewrite !(decide_False (P := n = 0)).
    + rewrite Hmin, lookup_app_l; [done|lia].
Qed.

(** Inserting a new node into an ordered heap succeeds, keeps the heap well
    formed and ordered, and adds exactly the new node. *)
Lemma heap_insert_spec st arr x :
  repr st arr -> ordered lt arr -> x ∉ arr -> (Z.of_nat (length arr) < UINT_MAX)%Z ->
  exists st' arr', heap_insert lt x st = Some st' /\ repr st' arr' /\
    ordered lt arr' /\ arr' ≡ₚ x :: arr /\ frame (x :: arr) (nodes st) (nodes st').
Proof.
  intros Hr Ho Hx Hmax. destruct (insert_linked st arr x Hr Hx Hmax) as (st1 & -> & Hr1 & Hf1).
  assert (Hnone : forall j, length arr < j -> (arr ++ [x]) !! j = None)
    by (intros; apply lookup_ge_None_2; rewrite length_app; simpl; lia).
  destruct (walk_up_spec (S (length arr)) st1 (arr ++ [x]) (length arr) x)
    as (st2 & arr2 & -> & Hr2 & Hp & Ho2 & Hf2).
  - done.
  - split.
    + intros j Hj Hjn Hpj u v. rewrite !lookup_snoc, !decide_False by lia. by apply Ho.
    + intros j Hj Hpj Hn u v _ Hv. pose proof (par_lt j Hj). by rewrite Hnone in Hv by lia.
  - intros j Hj Hpj u v _ Hv. pose proof (par_lt j Hj). by rewrite Hnone in Hv by lia.
  - by apply list_lookup_middle.
  - lia.
  - exists st2, arr2. assert (HP : arr2 ≡ₚ x :: arr) by (rewrite Hp; apply Permutation_app_comm).
    split_and!; try done. intros y Hy. rewrite elem_of_cons in Hy.
    rewrite Hf2, Hf1; [done|..]; rewrite elem_of_app, list_elem_of_singleton; tauto.
Qed.

(** ** Removal *)

(** Clearing the lvalue of the last index leaves the tree of the others. *)
Lemma unlink_last arr h m s e :
  NoDup arr -> linked arr m -> min h = arr !! 0 -> S e = length arr ->
  slot_of arr e = Some s ->
  exists h1 m1, write_slot s None (HState h m) = Some (HState h1 m1) /\
    linked (take e arr) m1 /\ min h1 = take e arr !! 0 /\ nelts h1 = nelts h /\
    frame (take e arr) m m1.
Proof.
  intros Hnd Hl Hm He Hs. destruct (decide (e = 0)) as [->|He0].
  - injection Hs as <-. exists (Heap None (nelts h)), m. by split_and!.
  - destruct (write_slot_rep arr h m (node_at arr) e s None) as (m1 & Hw & Hr & Hf); [done..|].
    exists h, m1. rewrite lookup_take, decide_True by lia.
    split_and!; try done.
    + intros k y Hk. rewrite lookup_take in Hk. case_decide; [|done].
      rewrite (Hr _ _ Hk). f_equal. unfold upd, node_at. rewrite !lookup_take.
      pose proof (par_spec k). pose proof (par_spec e) as Hpe.
      assert (Hout : forall j, e < j -> arr !! j = None) by (intros; apply lookup_ge_None_2; lia).
      destruct Hpe as [|[|]]; [lia|..]; destruct (decide (k = par e));
        try destruct (decide (k = 0));
        repeat (case_decide; try lia); unfold_node; f_equal; try done; apply Hout; lia.
    + intros y Hy. destruct (decide (arr !! e = Some y)) as [Hey|Hey].
      * rewrite (Hr _ _ Hey), (Hl _ _ Hey), upd_ne; [done|]. pose proof (par_lt e). lia.
      * apply Hf. intros [k Hk]%list_elem_of_lookup. apply Hy.
        apply (list_elem_of_lookup_2 _ k). rewrite lookup_take.
        rewrite decide_True; [done|]. pose proof (lookup_lt_Some _ _ _ Hk).
        destruct (decide (k = e)) as [->|]; [done|lia].
Qed.

(** The node table when [child] takes the links of index [i] of [B]. *)
Definition replace_table (B : list ptr) (i : nat) (child : ptr) (k : nat) : heap_node :=
  let F := upd (set_parent (Some child)) (2 * i + 2)
             (upd (set_parent (Some child)) (2 * i + 1) (node_at B)) in
  if decide (i = 0) then F k
  else upd (if decide (i = 2 * par i + 1) then set_left (Some child) else set_right (Some child))
           (par i) F k.

Lemma lookup_insert_idx (B : list ptr) i x k :
  i < length B -> <[i := x]> B !! k = if decide (k = i) then Some x else B !! k.
Proof.
  intros. destruct (decide (k = i)) as [->|]; [by apply list_lookup_insert_eq|].
  by apply list_lookup_insert_ne.
Qed.

Lemma replace_table_ok B i child k :
  i < length B -> replace_table B i child k = node_at (<[i := child]> B) k.
Proof.
  intros Hi. unfold replace_table, node_at, upd. rewrite !lookup_insert_idx by done.
  cbv zeta. pose proof (par_spec i) as Hpi. pose proof (par_spec k) as Hpk.
  destruct (decide (i = 0)) as [Hi0|Hi0]; [|destruct (decide (k = par i)) as [Hk|Hk]].
  - destruct (decide (par k = i)), (decide (k = 0)); try lia;
      try (destruct Hpk as [|[|]]; try lia); dec_idx; unfold_node; done.
  - destruct (decide (k = 0)); destruct Hpi as [|[|]]; try lia;
      destruct Hpk as [|[|]]; try lia; dec_idx; unfold_node; done.
  - destruct (decide (par k = i)), (decide (k = 0)); try lia;
      destruct Hpi as [|[|]]; try lia; destruct Hpk as [|[|]]; try lia;
      dec_idx; unfold_node; done.
Qed.

Lemma store_Some f (p : ptr) m n : m !! p = Some n -> store f p m = Some (<[p := f n]> m).
Proof. unfold store. by intros ->. Qed.

(** The first three stores copy the links of [node] into [child]. *)
Lemma copy_links (m : gmap ptr heap_node) node child N :
  m !! node = Some N -> is_Some (m !! child) -> child <> node ->
  forall (k : gmap ptr heap_node -> option hstate),
  (n ← m !! node; m ← store (set_left (left n)) child m;
   n ← m !! node; m ← store (set_right (right n)) child m;
   n ← m !! node; m ← store (set_parent (parent n)) child m; k m) = k (<[child := N]> m).
Proof.
  intros Hn [c Hc] Hne k. rewrite Hn. cbn [mbind option_bind].
  rewrite (store_Some _ _ _ _ Hc). cbn [mbind option_bind].
  rewrite lookup_insert_ne, Hn by done. cbn [mbind option_bind].
  rewrite (store_Some _ _ _ _ (lookup_insert_eq _ _ _)). cbn [mbind option_bind].
  rewrite insert_insert_eq, lookup_insert_ne, Hn by done. cbn [mbind option_bind].
  rewrite (store_Some _ _ _ _ (lookup_insert_eq _ _ _)). cbn [mbind option_bind].
  rewrite insert_insert_eq. by destruct N.
Qed.

(** The array with [child] in place of the node of index [i]. *)
Lemma replaced_array B i node child :
  arr_ok B -> B !! i = Some node -> child ∉ B ->
  arr_ok (<[i := child]> B) /\ node ∉ <[i := child]> B.
Proof.
  intros [HndB HlenB] Hi Hc. pose proof (lookup_lt_Some _ _ _ Hi) as Hlt.
  assert (Hcx : forall j, B !! j <> Some child) by (intros j ?; by eapply Hc, list_elem_of_lookup_2).
  split; [split; [apply NoDup_alt; intros j k x|by rewrite length_insert]
         |intros [j Hj]%list_elem_of_lookup; revert Hj]; rewrite !lookup_insert_idx by done.
  - repeat case_decide; intros; simplify_eq; try done; try (exfalso; eapply Hcx; eassumption).
    by eapply NoDup_lookup.
  - case_decide as Hji; intros Hj; [apply (Hcx i); congruence|].
    apply Hji. by apply (NoDup_lookup_inj B _ _ node).
Qed.

(** After [child] took the links of index [i], it stands for it. *)
Lemma rep_copied B m i child :
  linked B m -> i < length B -> child ∉ B ->
  rep (<[i := child]> B) (<[child := node_at B i]> m) (node_at B) /\
  frame (<[i := child]> B) m (<[child := node_at B i]> m).
Proof.
  intros Hl Hi Hc. split.
  - intros k x Hk. rewrite lookup_insert_idx in Hk by done. case_decide; simplify_eq.
    + by rewrite lookup_insert_eq.
    + rewrite lookup_insert_ne by (intros ->; by eapply Hc, list_elem_of_lookup_2). by apply Hl.
  - intros y Hy. apply lookup_insert_ne. intros ->. apply Hy.
    apply (list_elem_of_lookup_2 _ i). by rewrite lookup_insert_idx, decide_True.
Qed.

Lemma replace_spec B h m i node child :
  arr_ok B -> linked B m -> nelts h = Z.of_nat (length B) -> min h = B !! 0 ->
  B !! i = Some node -> child ∉ B -> is_Some (m !! child) ->
  exists st', heap_replace node child (HState h m) = Some st' /\
    repr st' (<[i := child]> B) /\ frame (<[i := child]> B) m (nodes st').
Proof.
  intros HB Hl Hn Hm Hi Hc Hsc. pose proof (lookup_lt_Some _ _ _ Hi) as Hlt.
  assert (Hne : child <> node) by (intros ->; by eapply Hc, list_elem_of_lookup_2).
  assert (HAk : forall k, <[i := child]> B !! k = if decide (k = i) then Some child else B !! k)
    by (intros; by apply lookup_insert_idx).
  destruct (replaced_array B i node child HB Hi Hc) as [[Hnd HlA] HnA].
  destruct (rep_copied B m i child Hl Hlt Hc) as [Hr0 Hf0]. set (A := <[i := child]> B) in *.
  unfold heap_replace. cbn [nodes hp]. rewrite (copy_links m node child (node_at B i)) by eauto.
  set (m0 := <[child := _]> m) in *.
  assert (HAi : A !! i = Some child) by by rewrite HAk, decide_True.
  assert (Hnn : forall m', frame A m0 m' -> m' !! node = Some (node_at B i)).
  { intros m' Hf. rewrite Hf, Hf0 by done. by apply Hl. }
  rewrite (Hr0 _ _ HAi). cbn [mbind option_bind].
  replace (left (node_at B i)) with (A !! (2 * i + 1)) by (rewrite HAk; by dec_idx).
  store_step m1 Hr1 Hf1. rewrite (Hr1 _ _ HAi). cbn [mbind option_bind].
  rewrite right_upd_parent.
  replace (right (node_at B i)) with (A !! (2 * i + 2)) by (rewrite HAk; by dec_idx).
  store_step m2 Hr2 Hf2. rewrite Hnn by eauto using frame_trans. cbn [mbind option_bind].
  change (parent (node_at B i)) with (if decide (i = 0) then None else B !! par i).
  assert (Hend : forall h' m', rep A m' (replace_table B i child) -> frame A m2 m' ->
    nelts h' = nelts h -> min h' = A !! 0 ->
    repr (HState h' m') A /\ frame A m m').
  { intros h' m' Hr Hf Hn' Hm'. split; [|by eauto using frame_trans].
    assert (length A = length B) as HlAB by apply length_insert.
    split_and!; simpl; [done|by rewrite HlAB, Hn'|done|].
    intros k x Hk. rewrite (Hr _ _ Hk). f_equal. by apply replace_table_ok. }
  destruct (decide (i = 0)) as [Hi0|Hi0].
  - eexists. split; [done|]. cbn [nodes]. apply Hend; [|done|done|].
    + intros k x Hk. rewrite (Hr2 _ _ Hk). unfold replace_table.
      by rewrite (decide_True (P := i = 0)).
    + simpl. by rewrite <- HAi, Hi0.
  - pose proof (par_lt i ltac:(lia)) as Hp.
    destruct (lookup_lt_is_Some_2 B (par i)) as [g Hg]; [lia|].
    assert (HgA : A !! par i = Some g) by (rewrite HAk; by dec_idx).
    rewrite Hg, (Hr2 _ _ HgA). cbn [mbind option_bind]. rewrite !upd_ne by lia.
    rewrite !(decide_ext (left (node_at B (par i)) = Some node) (i = 2 * par i + 1))
      by (rewrite <- Hi; apply lookup_idx_iff; [apply HB|eauto]).
    store_step m3 Hr3 Hf3. eexists. split; [done|]. cbn [nodes]. apply Hend; [|done|done|].
    + intros k x Hk. rewrite (Hr3 _ _ Hk). unfold replace_table.
      by rewrite (decide_False (P := i = 0)).
    + rewrite HAk, Hm. by dec_idx.
Qed.

Lemma replace_last_Permutation (arr : list ptr) e i node child :
  S e = length arr -> i < e -> arr !! i = Some node -> arr !! e = Some child ->
  node :: <[i := child]> (take e arr) ≡ₚ arr.
Proof.
  intros He Hi Hn Hc.
  assert (Hn' : take e arr !! i = Some node) by (rewrite lookup_take, decide_True; done).
  assert (arr = take e arr ++ [child]) as Harr.
  { rewrite <- (take_drop_middle _ _ _ Hc) at 1. by rewrite drop_ge by lia. }
  rewrite Harr at 2. set (B := take e arr) in *. clearbody B.
  rewrite insert_take_drop by (by eapply lookup_lt_Some).
  pose proof (take_drop_middle B i node Hn') as HB. revert HB.
  generalize (take i B), (drop (S i) B). intros B1 B2 <-. rewrite <- app_assoc. simpl.
  rewrite <- !Permutation_middle, app_nil_r. done.
Qed.

Lemma almost_replace arr e i child :
  ordered lt arr -> i < e -> e <= length arr -> almost lt (<[i := child]> (take e arr)) i.
Proof.
  intros Ho Hi He. assert (Hk : forall k, k <> i -> forall v,
    <[i := child]> (take e arr) !! k = Some v -> arr !! k = Some v).
  { intros k Hk v. rewrite lookup_insert_idx by (rewrite length_take; lia).
    rewrite decide_False, lookup_take by done. by case_decide. }
  pose proof (ordered_almost arr i Ho) as [Ha Hb]. split.
  - intros j Hj Hji Hpj u v Hu%Hk Hv%Hk; [|done..]. by eapply (Ha j).
  - intros j Hj Hpj Hi0 u v Hu%Hk Hv%Hk; [by eapply (Hb j)| |].
    + intros ->. pose proof (par_lt _ Hj). lia.
    + pose proof (par_lt _ Hi0). lia.
Qed.

(** The last node takes the place of the removed one, and moves to where it
    belongs. *)
Lemma resift_spec arr e i node child h m :
  ordered lt arr -> S e = length arr -> i < e -> arr !! i = Some node -> arr !! e = Some child ->
  arr_ok (take e arr) -> linked (take e arr) m -> nelts h = Z.of_nat (length (take e arr)) ->
  min h = take e arr !! 0 -> child ∉ take e arr -> is_Some (m !! child) ->
  exists st' arr', (st ← heap_replace node child (HState h m);
      st ← walk_down lt (Z.to_nat (nelts (hp st))) child st;
      walk_up lt (Z.to_nat (nelts (hp st))) child st) = Some st' /\
    repr st' arr' /\ ordered lt arr' /\ arr' ≡ₚ <[i := child]> (take e arr) /\
    frame (<[i := child]> (take e arr)) m (nodes st').
Proof.
  intros Ho He Hie Hi Hc HB Hl Hn Hm HcB Hsc. set (B := take e arr) in *.
  assert (HlB : length B = e) by (unfold B; rewrite length_take; lia).
  destruct (replace_spec B h m i node child) as (st2 & -> & Hr2 & Hf2); try done.
  { unfold B. by rewrite lookup_take, decide_True. }
  cbn [mbind option_bind].
  assert (Hla : length (<[i := child]> B) = e) by by rewrite length_insert.
  assert (Hfuel : forall st0 arr0, repr st0 arr0 -> arr0 ≡ₚ <[i := child]> B ->
            Z.to_nat (nelts (hp st0)) = e).
  { intros st0 arr0 (_ & Hn0 & _) HP. apply Permutation_length in HP. lia. }
  rewrite (Hfuel st2 _ Hr2) by done.
  destruct (walk_down_spec e st2 (<[i := child]> B) i child)
    as (st3 & arr3 & i3 & -> & Hr3 & Hp3 & Ha3 & Hb3 & Hc3 & Hf3); try done.
  { apply almost_replace; [done|lia|lia]. }
  { rewrite lookup_insert_idx by lia. by rewrite decide_True. }
  { lia. }
  cbn [mbind option_bind]. rewrite (Hfuel st3 _ Hr3) by done.
  destruct (walk_up_spec e st3 arr3 i3 child)
    as (st4 & arr4 & -> & Hr4 & Hp4 & Ho4 & Hf4); try done.
  { apply lookup_lt_Some in Hc3. apply Permutation_length in Hp3. lia. }
  exists st4, arr4. split_and!; try done; [by rewrite Hp4, Hp3|].
  intros y Hy. rewrite Hf4, Hf3, Hf2; rewrite ?Hp3; done.
Qed.

(** Without its last node the heap is a heap of the others. *)
Lemma removed_last arr e child h m :
  NoDup arr -> (Z.of_nat (length arr) <= UINT_MAX)%Z -> ordered lt arr -> S e = length arr ->
  arr !! e = Some child -> linked (take e arr) m ->
  min h = take e arr !! 0 -> nelts h = Z.of_nat e ->
  repr (HState h m) (take e arr) /\ ordered lt (take e arr) /\
  arr = take e arr ++ [child] /\ child ∉ take e arr.
Proof.
  intros Hnd Hmax Ho He Hc Hl Hm Hn.
  assert (arr = take e arr ++ [child]) as Harr
    by (rewrite <- (take_drop_middle _ _ _ Hc) at 1; by rewrite drop_ge by lia).
  assert (HlB : length (take e arr) = e) by (rewrite length_take; lia).
  rewrite Harr in Hnd. apply NoDup_app in Hnd as (HndB & Hdis & _).
  split; [|split; [|split; [done|]]].
  - split; [split; [done|rewrite HlB; lia]|]. split; [simpl; by rewrite Hn, HlB|done].
  - intros j Hj u v. rewrite !lookup_take. repeat case_decide; try done. by apply Ho.
  - intros Hin. by apply (Hdis child Hin), list_elem_of_singleton.
Qed.

(** Removing a node of an ordered heap succeeds, keeps the heap well formed
    and ordered, and takes out exactly that node. *)
Lemma heap_remove_spec st arr node :
  repr st arr -> ordered lt arr -> node ∈ arr ->
  exists st' arr', heap_remove lt node st = Some st' /\ repr st' arr' /\
    ordered lt arr' /\ node :: arr' ≡ₚ arr /\ frame arr (nodes st) (nodes st').
Proof.
  intros ([Hnd Hlen] & Hn & Hmin & Hlk) Ho [i Hi]%list_elem_of_lookup.
  pose proof (lookup_lt_Some _ _ _ Hi) as Hlt.
  destruct (length arr) as [|e] eqn:He; [lia|]. unfold heap_remove.
  rewrite Hn. rewrite (proj2 (Z.eqb_neq _ 0)) by lia.
  replace (Z.of_nat (S e)) with (Z.of_nat e + 1)%Z by lia.
  destruct (locate st arr e Hlk Hmin ltac:(lia) ltac:(lia)) as (P & K & q & s & -> & Ht & Hs & _).
  cbn [mbind option_bind]. rewrite Ht. cbn [mbind option_bind hp nodes min nelts].
  rewrite wrap_u_small by (unfold UINT_MAX in *; simpl; lia).
  replace (Z.of_nat e + 1 - 1)%Z with (Z.of_nat e) by lia.
  destruct (lookup_lt_is_Some_2 arr e) as [child Hc]; [lia|].
  rewrite (read_slot_of _ arr e s), Hc by done. cbn [mbind option_bind].
  destruct (unlink_last arr (Heap (min (hp st)) (Z.of_nat e)) (nodes st) s e)
    as (h1 & m1 & -> & Hl1 & Hm1 & Hn1 & Hf1); [done..|]. cbn [mbind option_bind hp nodes].
  destruct (removed_last arr e child h1 m1 Hnd) as (Hr1 & Ho1 & Hfe & HcB); try done; [lia|].
  assert (HlB : length (take e arr) = e) by (rewrite length_take; lia).
  assert (Hroot : min h1 = Some node -> i = 0).
  { rewrite Hm1, lookup_take. case_decide; [|done]. intros E. by apply (NoDup_lookup_inj arr _ _ node). }
  destruct (decide (child = node)) as [->|Hne].
  - assert (i = e) by by apply (NoDup_lookup_inj arr _ _ node).
    rewrite decide_False.
    2: { intros E. specialize (Hroot (eq_sym E)). rewrite Hm1, (lookup_ge_None_2 (take e arr) 0) in E; [done|lia]. }
    exists (HState h1 m1), (take e arr). split_and!; [done..| |].
    + rewrite Hfe at 2. apply (Permutation_app_comm [node]).
    + intros y Hy. apply Hf1. intros Hin. apply Hy. rewrite Hfe. set_solver.
  - assert (Hie : i < e) by (destruct (decide (i = e)) as [->|]; [congruence|lia]).
    destruct (resift_spec arr e i node child h1 m1)
      as (st4 & arr4 & -> & Hr4 & Ho4 & Hp4 & Hf4); try done; [apply Hr1|by rewrite Hn1, HlB| |].
    { rewrite Hf1 by done. rewrite (Hlk _ _ Hc). eauto. }
    exists st4, arr4. split_and!; try done.
    + rewrite Hp4. by eapply replace_last_Permutation.
    + intros y Hy. rewrite Hfe, not_elem_of_app, not_elem_of_cons in Hy. destruct Hy as (HyB & Hyc & _).
      rewrite Hf4, Hf1; [done..|]. intros [k Hk]%list_elem_of_lookup.
      rewrite lookup_insert_idx in Hk by lia.
      case_decide; [congruence|]. by eapply HyB, list_elem_of_lookup_2.
Qed.
End Order.

(** ** The heap discharges the interface of the timers *)

Definition heap_ok (lt : ptr -> ptr -> bool) (st : hstate) (X : gset ptr) : Prop :=
  exists arr, repr st arr /\ ordered lt arr /\ X = list_to_set arr.

Lemma heap_init_ok lt : heap_ok lt pq_init ∅.
Proof.
  exists ([] : list ptr). split; [|split; [by intros j Hj x y Hx|done]].
  split; [split; [constructor|done]|]. split; [done|]. split; [done|]. by intros i x Hi.
Qed.

Lemma heap_min_ok lt `{!TotalPreorder lt} st (X : gset ptr) :
  heap_ok lt st X ->
  match heap_min (hp st) with
  | None => X = ∅
  | Some x => x ∈ X /\ forall y, y ∈ X -> lt y x = false
  end.
Proof.
  intros (arr & (_ & _ & Hm & _) & Ho & ->). unfold heap_min. rewrite Hm.
  destruct (arr !! 0) as [x|] eqn:Hx.
  - split; [by eapply elem_of_list_to_set, list_elem_of_lookup_2|].
    intros y Hy%elem_of_list_to_set. by eapply ordered_min.
  - apply lookup_ge_None in Hx. destruct arr; [done|simpl in Hx; lia].
Qed.

Lemma heap_insert_ok lt `{!TotalPreorder lt} st (X : gset ptr) x :
  heap_ok lt st X -> x ∉ X -> (Z.of_nat (size X) < UINT_MAX)%Z ->
  exists st', heap_insert lt x st = Some st' /\ heap_ok lt st' ({[x]} ∪ X).
Proof.
  intros (arr & Hr & Ho & ->) Hx Hs. rewrite elem_of_list_to_set in Hx.
  rewrite size_list_to_set in Hs by apply Hr.
  destruct (heap_insert_spec lt st arr x Hr Ho Hx Hs) as (st' & arr' & -> & Hr' & Ho' & HP & _).
  exists st'. split; [done|]. exists arr'. split_and!; [done..|].
  apply set_eq. intros y. rewrite !elem_of_list_to_set, HP. set_solver.
Qed.

Lemma heap_remove_ok lt `{!TotalPreorder lt} st (X : gset ptr) x :
  heap_ok lt st X -> x ∈ X ->
  exists st', heap_remove lt x st = Some st' /\ heap_ok lt st' (X ∖ {[x]}).
Proof.
  intros (arr & Hr & Ho & ->) Hx. rewrite elem_of_list_to_set in Hx.
  destruct (heap_remove_spec lt st arr x Hr Ho Hx) as (st' & arr' & -> & Hr' & Ho' & HP & _).
  exists st'. split; [done|]. exists arr'. split_and!; [done..|].
  assert (Hnd : NoDup (x :: arr')) by (rewrite HP; apply Hr).
  apply NoDup_cons in Hnd as [Hx' _]. apply set_eq. intros y.
  rewrite elem_of_difference, !elem_of_list_to_set, <- HP, elem_of_cons, elem_of_singleton.
  split; [naive_solver|]. intros Hy. split; [auto|by intros ->].
Qed.

Lemma heap_ok_ext (lt lt' : ptr -> ptr -> bool) st (X : gset ptr) :
  (forall x y, x ∈ X -> y ∈ X -> lt x y = lt' x y) -> heap_ok lt st X -> heap_ok lt' st X.
Proof.
  intros He (arr & Hr & Ho & ->). exists arr. split_and!; [done| |done].
  intros j Hj x y Hx Hy. rewrite <- He by (by eapply elem_of_list_to_set, list_elem_of_lookup_2).
  by eapply Ho.
Qed.

#[export] Instance heap_prio_spec : PrioQueueSpec hstate := {|
  pq_ok := heap_ok;
  pq_init_ok := heap_init_ok;
  pq_min_ok lt q X H := heap_min_ok lt q X;
  pq_insert_ok lt q X x H := heap_insert_ok lt q X x;
  pq_remove_ok lt q X x H := heap_remove_ok lt q X x;
  pq_ext := heap_ok_ext
|}.
