(* ===== verification/UvQueue.v ===== *)
(** * The intrusive circular queues of libuv ([core/libuv/src/queue.h])

    A [QUEUE] is a pair of pointers inside a struct, next and previous.  The
    store keeps the two fields of every queue node by address; reading a field
    that was never written is [None].  The macros are sequences of field
    writes; [is_queue m h xs] says that the ring through the head [h] carries
    the nodes [xs] in order, and the lemmas give the macros their list
    meaning. *)

From stdpp Require Import base option list gmap.
From Stdlib Require Import ZArith Lia.
From S2P Require Import Prelude.

Record qmem (A : Type) `{Countable A} := QMem {
  nexts : gmap A A;
  prevs : gmap A A
}.

Arguments QMem {A _ _} nexts prevs.
Arguments nexts {A _ _} q.
Arguments prevs {A _ _} q.

Section Queue.
Context {A : Type} `{Countable A}.
Implicit Types (h n q a b : A) (m : qmem A) (xs ys l : list A).

Definition QUEUE_NEXT q m : option A := nexts m !! q.
Definition QUEUE_PREV q m : option A := prevs m !! q.

Definition set_next q v m : qmem A := QMem (<[q := v]> (nexts m)) (prevs m).
Definition set_prev q v m : qmem A := QMem (nexts m) (<[q := v]> (prevs m)).

(** [QUEUE_PREV_NEXT(q) = v] and [QUEUE_NEXT_PREV(q) = v] *)
Definition set_prev_next q v m : option (qmem A) :=
  p ← QUEUE_PREV q m; Some (set_next p v m).
Definition set_next_prev q v m : option (qmem A) :=
  p ← QUEUE_NEXT q m; Some (set_prev p v m).

Definition QUEUE_EMPTY q m : option bool :=
  p ← QUEUE_NEXT q m; Some (bool_decide (q = p)).

Definition QUEUE_HEAD q m : option A := QUEUE_NEXT q m.

Definition QUEUE_INIT q m : qmem A := set_prev q q (set_next q q m).

Definition QUEUE_ADD h n m : option (qmem A) :=
  nn ← QUEUE_NEXT n m;
  m ← set_prev_next h nn m;
  hp ← QUEUE_PREV h m;
  m ← set_next_prev n hp m;
  np ← QUEUE_PREV n m;
  let m := set_prev h np m in
  set_prev_next h h m.

Definition QUEUE_SPLIT h q n m : option (qmem A) :=
  hp ← QUEUE_PREV h m;
  let m := set_prev n hp m in
  m ← set_prev_next n n m;
  let m := set_next n q m in
  qp ← QUEUE_PREV q m;
  let m := set_prev h qp m in
  m ← set_prev_next h h m;
  Some (set_prev q n m).

Definition QUEUE_INSERT_HEAD h q m : option (qmem A) :=
  hn ← QUEUE_NEXT h m;
  let m := set_next q hn m in
  let m := set_prev q h m in
  m ← set_next_prev q q m;
  Some (set_next h q m).

Definition QUEUE_INSERT_TAIL h q m : option (qmem A) :=
  let m := set_next q h m in
  hp ← QUEUE_PREV h m;
  let m := set_prev q hp m in
  m ← set_prev_next q q m;
  Some (set_prev h q m).

Definition QUEUE_REMOVE q m : option (qmem A) :=
  qn ← QUEUE_NEXT q m;
  m ← set_prev_next q qn m;
  qp ← QUEUE_PREV q m;
  set_next_prev q qp m.

(** ** Representation *)

(** Consecutive elements of [l] are linked both ways. *)
Fixpoint links m l : Prop :=
  match l with
  | a :: ((b :: _) as t) => nexts m !! a = Some b /\ prevs m !! b = Some a /\ links m t
  | _ => True
  end.

#[global] Arguments links : simpl nomatch.

Definition is_queue m h xs : Prop := NoDup (h :: xs) /\ links m (h :: xs ++ [h]).

(** Two stores agree on the nodes that satisfy [P]. *)
Definition agree (P : A -> Prop) m m' : Prop :=
  forall a, P a -> nexts m' !! a = nexts m !! a /\ prevs m' !! a = prevs m !! a.

Lemma links_app m l1 a l2 :
  links m (l1 ++ a :: l2) <-> links m (l1 ++ [a]) /\ links m (a :: l2).
Proof.
  induction l1 as [|b l1 IH]; simpl; [tauto|].
  destruct l1 as [|c l1]; simpl in *; [tauto|]. rewrite IH. tauto.
Qed.

Lemma links_agree P m m' l :
  agree P m m' -> (forall a, a ∈ l -> P a) -> links m l -> links m' l.
Proof.
  intros Ha. induction l as [|a [|b l] IH]; simpl; [done..|]. intros HP (H1 & H2 & H3).
  destruct (Ha a) as [-> _]; [apply HP; set_solver|].
  destruct (Ha b) as [_ ->]; [apply HP; set_solver|].
  split_and!; [done..|]. apply IH; [|done]. intros. apply HP. set_solver.
Qed.

Lemma is_queue_agree P m m' h xs :
  agree P m m' -> (forall a, a ∈ h :: xs -> P a) -> is_queue m h xs -> is_queue m' h xs.
Proof.
  intros Ha HP [Hnd Hl]. split; [done|]. eapply links_agree; [done| |done].
  intros a Hin. apply HP. set_solver.
Qed.

(** Writes of [next] spare a list whose elements but the last differ from the
    written node; writes of [prev] one whose tail does. *)
Lemma links_set_next m l x q v :
  q ∉ l -> links (set_next q v m) (l ++ [x]) <-> links m (l ++ [x]).
Proof.
  induction l as [|a l IH]; intros Hq; [done|].
  rewrite not_elem_of_cons in Hq. destruct Hq as [Hqa Hq].
  destruct l as [|b l]; simpl; (rewrite lookup_insert_ne by done).
  - done.
  - apply and_iff_compat_l, and_iff_compat_l. by apply IH.
Qed.

Lemma links_set_prev m l q v : forall x,
  q ∉ l -> links (set_prev q v m) (x :: l) <-> links m (x :: l).
Proof.
  induction l as [|b l IH]; intros x Hq; [done|].
  rewrite not_elem_of_cons in Hq. destruct Hq as [Hqb Hq]. simpl.
  rewrite lookup_insert_ne by done.
  apply and_iff_compat_l, and_iff_compat_l. by apply IH.
Qed.

Lemma is_queue_next m h xs : is_queue m h xs -> QUEUE_NEXT h m = Some (hd h xs).
Proof. intros [_ Hl]. destruct xs; simpl in Hl; apply Hl. Qed.

Lemma is_queue_prev m h xs : is_queue m h xs -> QUEUE_PREV h m = Some (List.last xs h).
Proof.
  intros [_ Hl]. destruct xs as [|x xs _] using rev_ind; [apply Hl|].
  rewrite last_last. rewrite <- app_assoc in Hl.
  apply (links_app m (h :: xs)) in Hl as [_ Hl]. apply Hl.
Qed.

Lemma queue_empty_spec m h xs :
  is_queue m h xs -> QUEUE_EMPTY h m = Some (bool_decide (xs = [])).
Proof.
  intros Hq. unfold QUEUE_EMPTY. rewrite (is_queue_next _ _ _ Hq). simpl. f_equal.
  apply bool_decide_ext. destruct xs as [|x xs]; simpl; [tauto|]. split; [|done].
  intros ->. destruct Hq as [Hnd _]. apply NoDup_cons in Hnd as [Hnd _]. set_solver.
Qed.

Lemma queue_init_spec m h : is_queue (QUEUE_INIT h m) h [].
Proof.
  split; [apply NoDup_singleton|]. simpl. by rewrite !lookup_insert_eq.
Qed.

Lemma is_queue_middle m h xs q ys :
  is_queue m h (xs ++ q :: ys) ->
  QUEUE_NEXT q m = Some (hd h ys) /\ QUEUE_PREV q m = Some (List.last xs h).
Proof.
  intros [_ Hl]. rewrite <- app_assoc in Hl.
  apply (links_app m (h :: xs) q (ys ++ [h])) in Hl as [H1 H2]. split.
  - destruct ys; apply H2.
  - destruct xs as [|x xs _] using rev_ind; [apply H1|].
    rewrite last_last. rewrite app_comm_cons, <- app_assoc in H1.
    apply (links_app m (h :: xs)) in H1 as [_ H1]. apply H1.
Qed.

Lemma snoc_cons h xs : exists l, h :: xs = l ++ [List.last xs h].
Proof.
  destruct xs as [|x xs _] using rev_ind; [by exists []|].
  rewrite last_last. by exists (h :: xs).
Qed.

(** ** The macros on the lists they carry *)

Lemma queue_insert_tail_spec m h xs q :
  is_queue m h xs -> q ∉ h :: xs ->
  exists m', QUEUE_INSERT_TAIL h q m = Some m' /\ is_queue m' h (xs ++ [q]) /\
    agree (fun a => a ∉ q :: h :: xs) m m'.
Proof.
  intros Hq Hn. pose proof (is_queue_prev _ _ _ Hq) as Hp. destruct Hq as [Hnd Hl].
  destruct (snoc_cons h xs) as [l E]. set (p := List.last xs h) in *.
  unfold QUEUE_INSERT_TAIL. change (QUEUE_PREV h (set_next q h m)) with (QUEUE_PREV h m).
  rewrite Hp. cbn [mbind option_bind]. unfold set_prev_next. 
  assert (Hpq : QUEUE_PREV q (set_prev q p (set_next q h m)) = Some p) by apply lookup_insert_eq.
  rewrite Hpq. cbn [mbind option_bind].
  set (m' := set_prev h q _). exists m'. split; [done|].
  assert (Hndl : NoDup (l ++ [p])) by by rewrite <- E.
  apply NoDup_app in Hndl as (_ & Hpl & _).
  assert (Hql : q ∉ l ++ [p]) by by rewrite <- E.
  rewrite not_elem_of_app, list_elem_of_singleton in Hql. destruct Hql as [Hql Hqp].
  split; [split|].
  - rewrite app_comm_cons. apply NoDup_app. split_and!; [done| |apply NoDup_singleton].
    by intros a Ha ->%list_elem_of_singleton.
  - rewrite <- app_assoc, app_comm_cons, E, <- app_assoc. simpl. apply links_app. split.
    + rewrite <- E. apply links_set_prev; [by apply NoDup_cons in Hnd as [? _]|].
      rewrite E. apply links_set_next; [intros Hin; by eapply Hpl, list_elem_of_singleton|].
      rewrite <- E. apply links_set_prev; [set_solver|]. rewrite E.
      apply links_set_next; [done|]. rewrite <- E.
      rewrite app_comm_cons, E in Hl. rewrite <- app_assoc in Hl.
      apply links_app in Hl as [Hl _]. by rewrite E.
    + simpl. assert (q <> h) by set_solver.
      rewrite lookup_insert_eq, (lookup_insert_ne _ p q), lookup_insert_eq by done.
      rewrite (lookup_insert_ne _ h q) by done. by rewrite !lookup_insert_eq.
  - intros a Ha. rewrite !not_elem_of_cons in Ha. destruct Ha as (? & ? & ?).
    assert (a <> p).
    { intros ->. assert (p ∈ h :: xs) by (rewrite E; set_solver). set_solver. }
    simpl. by rewrite !lookup_insert_ne.
Qed.

Lemma cons_snoc xs h : exists r, xs ++ [h] = hd h xs :: r /\
  (hd h xs ∈ r -> xs <> [] /\ hd h xs ∈ tail xs ++ [h]).
Proof. destruct xs as [|x xs]; [exists []|exists (xs ++ [h])]; split; set_solver. Qed.

(** Joining a ring prefix that ends in [p] to a suffix that starts with [n]
    by writing [p->next = n] and [n->prev = p]. *)
Lemma links_join m h xs n r :
  NoDup (h :: xs) -> n ∉ xs -> n ∉ r -> List.last xs h ∉ removelast (n :: r) ->
  links m (h :: xs) -> links m (n :: r) ->
  links (set_prev n (List.last xs h) (set_next (List.last xs h) n m)) ((h :: xs) ++ n :: r).
Proof.
  intros Hnd Hnx Hnr Hpr Hl1 Hl2. destruct (snoc_cons h xs) as [l E].
  set (p := List.last xs h) in *. rewrite E, <- app_assoc. simpl. apply links_app. split.
  - rewrite <- E. apply links_set_prev; [done|]. rewrite E. apply links_set_next.
    + rewrite E in Hnd. apply NoDup_app in Hnd as (_ & Hd & _).
      intros Hin. eapply Hd; [done|by apply list_elem_of_singleton].
    + by rewrite <- E.
  - change (nexts (set_prev n p (set_next p n m)) !! p = Some n /\
            prevs (set_prev n p (set_next p n m)) !! n = Some p /\
            links (set_prev n p (set_next p n m)) (n :: r)).
    simpl. rewrite !lookup_insert_eq. split_and!; [done..|].
    apply links_set_prev; [done|].
    destruct (exists_last (l := n :: r)) as (r' & z & Hr'); [done|].
    rewrite Hr' in Hpr |- *. rewrite removelast_last in Hpr.
    apply links_set_next; [done|]. by rewrite <- Hr'.
Qed.

Lemma last_in h xs : List.last xs h ∈ h :: xs.
Proof. destruct (snoc_cons h xs) as [l ->]. set_solver. Qed.

Lemma hd_in xs h : hd h xs ∈ xs ++ [h].
Proof. destruct (cons_snoc xs h) as (r & -> & _). set_solver. Qed.

Lemma queue_remove_spec m h xs q ys :
  is_queue m h (xs ++ q :: ys) ->
  exists m', QUEUE_REMOVE q m = Some m' /\ is_queue m' h (xs ++ ys) /\
    agree (fun a => a ∉ h :: xs ++ ys) m m'.
Proof.
  intros Hq. destruct (is_queue_middle _ _ _ _ _ Hq) as [Hn Hp]. destruct Hq as [Hnd Hl].
  set (n := hd h ys) in *. set (p := List.last xs h) in *.
  pose proof (last_in h xs : p ∈ h :: xs) as Hpin.
  pose proof (hd_in ys h : n ∈ ys ++ [h]) as Hnin.
  rewrite NoDup_cons, NoDup_app, NoDup_cons, not_elem_of_app, not_elem_of_cons in Hnd.
  destruct Hnd as ((Hhx & Hhq & Hhy) & Hndx & Hxy & Hqy & Hndy).
  assert (Hqp : q <> p) by set_solver.
  unfold QUEUE_REMOVE, set_prev_next, set_next_prev.
  rewrite Hn, Hp. cbn [mbind option_bind].
  change (QUEUE_PREV q (set_next p n m)) with (QUEUE_PREV q m). rewrite Hp. cbn [mbind option_bind].
  assert (QUEUE_NEXT q (set_next p n m) = Some n) as ->.
  { unfold QUEUE_NEXT. simpl. by rewrite lookup_insert_ne. }
  cbn [mbind option_bind]. eexists. split; [done|]. split; [split|].
  - rewrite NoDup_cons, NoDup_app, not_elem_of_app. set_solver.
  - destruct (cons_snoc ys h) as (r & Hr & Hnr). fold n in Hr, Hnr.
    rewrite <- app_assoc, Hr, app_comm_cons.
    rewrite <- app_assoc in Hl. apply (links_app m (h :: xs) q (ys ++ [h])) in Hl as [Hl1 Hl2].
    apply links_join.
    + apply NoDup_cons. done.
    + intros Hin. apply elem_of_app in Hnin as [Hy| ->%list_elem_of_singleton]; [|done].
      by apply (Hxy _ Hin), elem_of_cons; right.
    + intros Hin. destruct (Hnr Hin) as [Hy Hin2]. subst n. destruct ys as [|y ys]; [done|].
      simpl in Hin2. apply NoDup_cons in Hndy as [Hndy _].
      apply elem_of_app in Hin2 as [?| ->%list_elem_of_singleton]; [done|].
      by apply Hhy, elem_of_cons; left.
    + rewrite <- Hr, removelast_last. intros Hin.
      apply elem_of_cons in Hpin as [Hph|Hpx]; [apply Hhy; by rewrite <- Hph|].
      by apply (Hxy _ Hpx), elem_of_cons; right.
    + destruct (snoc_cons h xs) as [l E]. rewrite E in Hl1 |- *. 
      rewrite <- app_assoc in Hl1. simpl in Hl1. by apply links_app in Hl1 as [? _].
    + rewrite Hr in Hl2. apply (links_app m [q] n r) in Hl2 as [_ ?]. done.
  - intros a Ha. simpl. rewrite !lookup_insert_ne by set_solver. done.
Qed.

Lemma queue_insert_head_spec m h xs q :
  is_queue m h xs -> q ∉ h :: xs ->
  exists m', QUEUE_INSERT_HEAD h q m = Some m' /\ is_queue m' h (q :: xs) /\
    agree (fun a => a ∉ q :: h :: xs) m m'.
Proof.
  intros Hq Hni. pose proof (is_queue_next _ _ _ Hq) as Hn. destruct Hq as [Hnd Hl].
  set (n := hd h xs) in *. pose proof (hd_in xs h : n ∈ xs ++ [h]) as Hnin.
  rewrite not_elem_of_cons in Hni. destruct Hni as [Hqh Hqx].
  assert (Hqn : n <> q).
  { intros ->. by apply elem_of_app in Hnin as [?|?%list_elem_of_singleton]. }
  unfold QUEUE_INSERT_HEAD, set_next_prev. rewrite Hn. cbn [mbind option_bind].
  assert (QUEUE_NEXT q (set_prev q h (set_next q n m)) = Some n) as ->
    by apply lookup_insert_eq.
  cbn [mbind option_bind]. eexists. split; [done|]. split; [split|].
  - apply NoDup_cons in Hnd as [? ?]. apply NoDup_cons. split; [set_solver|by apply NoDup_cons].
  - destruct (cons_snoc xs h) as (r & Hr & Hnr). fold n in Hr, Hnr.
    rewrite <- app_comm_cons, Hr. set (m1 := set_next h q _).
    apply NoDup_cons in Hnd as [Hhx Hnd].
    change (nexts m1 !! h = Some q /\ prevs m1 !! q = Some h /\ nexts m1 !! q = Some n /\
            prevs m1 !! n = Some q /\ links m1 (n :: r)).
    split_and!; [by simpl; rewrite lookup_insert_eq| | | |].
    + simpl. rewrite lookup_insert_ne by done. by rewrite lookup_insert_eq.
    + simpl. rewrite lookup_insert_ne by done. by rewrite lookup_insert_eq.
    + simpl. by rewrite lookup_insert_eq.
    + rewrite <- Hr. unfold m1. apply links_set_next; [done|]. rewrite Hr.
      apply links_set_prev.
      { intros Hin. destruct (Hnr Hin) as [Hy Hin2]. subst n. destruct xs as [|x xs]; [done|].
        simpl in *. apply NoDup_cons in Hnd as [Hx _].
        apply elem_of_app in Hin2 as [?| ->%list_elem_of_singleton]; [done|].
        by apply Hhx, elem_of_cons; left. }
      apply links_set_prev.
      { intros Hin. assert (Hin' : q ∈ xs ++ [h]) by (rewrite Hr; by apply elem_of_cons; right).
        by apply elem_of_app in Hin' as [?|?%list_elem_of_singleton]. }
      rewrite <- Hr.
      apply links_set_next; [done|]. rewrite Hr in Hl |- *.
      by apply (links_app m [h] n r) in Hl as [_ ?].
  - intros a Ha. simpl. rewrite !lookup_insert_ne by set_solver. done.
Qed.
End Queue.
