(* ===== verification/UvHeapProps.v ===== *)
(** * Heaps and queues of libuv: what their operations guarantee

    The properties of the pointer heap ([UvHeap]) and of the intrusive queues
    ([UvQueue]), with runs on concrete structures. *)

From stdpp Require Import base option list gmap sorting.
From Stdlib Require Import ZArith Lia Sorted.
From S2P Require Import Prelude UvPrio UvHeap UvHeapSpec UvQueue.

Section Heap.
Context (less_than : ptr -> ptr -> bool).

(** Inserting nodes one after another, and dequeuing until the heap is
    empty: clients of the heap. *)
Fixpoint insert_all (xs : list ptr) (st : hstate) : option hstate :=
  match xs with
  | [] => Some st
  | x :: xs => st ← heap_insert less_than x st; insert_all xs st
  end.

Fixpoint drain (n : nat) (st : hstate) : option (list ptr * hstate) :=
  match heap_min (hp st), n with
  | None, _ => Some ([], st)
  | Some _, O => None
  | Some x, S n =>
      st ← heap_dequeue less_than st;
      '(xs, st) ← drain n st;
      Some (x :: xs, st)
  end.

Context `{!TotalPreorder less_than}.

(** C32 [heap_insert] links a new node into a heap of fewer than [UINT_MAX]
    nodes: every pointer it follows is valid, and the result is again a
    complete binary tree of pointers, in heap order, with exactly one more
    node. *)
Theorem heap_insert_correct st arr x :
  repr st arr -> ordered less_than arr -> x ∉ arr -> (Z.of_nat (length arr) < UINT_MAX)%Z ->
  exists st' arr', heap_insert less_than x st = Some st' /\ repr st' arr' /\
    ordered less_than arr' /\ arr' ≡ₚ x :: arr.
Proof.
  intros Hr Ho Hx Hs.
  destruct (heap_insert_spec less_than st arr x Hr Ho Hx Hs) as (st' & arr' & ? & ? & ? & HP & _).
  eauto 10.
Qed.

(** C33 [heap_remove] unlinks a node of the heap, wherever it stands: the
    result is a complete binary tree of the other nodes in heap order. *)
Theorem heap_remove_correct st arr x :
  repr st arr -> ordered less_than arr -> x ∈ arr ->
  exists st' arr', heap_remove less_than x st = Some st' /\ repr st' arr' /\
    ordered less_than arr' /\ x :: arr' ≡ₚ arr.
Proof.
  intros Hr Ho Hx.
  destruct (heap_remove_spec less_than st arr x Hr Ho Hx) as (st' & arr' & ? & ? & ? & HP & _).
  eauto 10.
Qed.

Lemma insert_all_ok xs : forall st (X : gset ptr),
  heap_ok less_than st X -> NoDup xs -> (forall x, x ∈ xs -> x ∉ X) ->
  (Z.of_nat (size X) + Z.of_nat (length xs) < UINT_MAX)%Z ->
  exists st', insert_all xs st = Some st' /\ heap_ok less_than st' (list_to_set xs ∪ X).
Proof.
  induction xs as [|x xs IH]; intros st X Hok Hnd Hf Hs; simpl in *.
  - exists st. split; [done|]. by rewrite union_empty_l_L.
  - apply NoDup_cons in Hnd as [Hx Hnd].
    destruct (heap_insert_ok less_than st X x Hok) as (st1 & H1 & Hok1); [set_solver|lia|].
    destruct (IH st1 ({[x]} ∪ X) Hok1 Hnd) as (st' & H' & Hok').
    + intros y Hy [->%elem_of_singleton|?]%elem_of_union; [done|]. by apply (Hf y); [set_solver|].
    + rewrite size_union by (specialize (Hf x); set_solver). rewrite size_singleton. lia.
    + exists st'. rewrite H1. simpl. split; [done|].
      by replace ({[x]} ∪ list_to_set xs ∪ X) with (list_to_set xs ∪ ({[x]} ∪ X)) by set_solver.
Qed.

Lemma dequeue_ok st (X : gset ptr) x :
  heap_ok less_than st X -> heap_min (hp st) = Some x ->
  exists st', heap_dequeue less_than st = Some st' /\ heap_ok less_than st' (X ∖ {[x]}) /\ x ∈ X.
Proof.
  intros Hok Hm. pose proof (heap_min_ok less_than st X Hok) as Hx. rewrite Hm in Hx.
  destruct Hx as [Hx _]. destruct (heap_remove_ok less_than st X x Hok Hx) as (st' & H1 & H2).
  exists st'. split; [|done]. unfold heap_dequeue. unfold heap_min in Hm. rewrite Hm. simpl.
  destruct Hok as (arr & (_ & -> & _ & _) & _ & ->).
  destruct (Z.eqb_spec (Z.of_nat (length arr)) 0); [|done].
  destruct arr; [set_solver|simpl in *; lia].
Qed.

Lemma drain_ok n : forall st (X : gset ptr),
  heap_ok less_than st X -> (size X <= n)%nat ->
  exists xs st', drain n st = Some (xs, st') /\ heap_ok less_than st' ∅ /\ NoDup xs /\
    list_to_set xs = X /\ StronglySorted (fun x y => less_than y x = false) xs.
Proof.
  induction n as [|n IH]; intros st X Hok Hs; pose proof (heap_min_ok less_than st X Hok) as Hm;
    simpl; destruct (heap_min (hp st)) as [x|] eqn:Hx.
  2,4: subst X; exists [], st; repeat split; [done|constructor|constructor].
  - destruct Hm as [Hm _]. assert (size X <> 0%nat); [|lia]. intros ?%size_empty_inv. set_solver.
  - destruct Hm as [Hin Hle]. destruct (dequeue_ok st X x Hok Hx) as (st1 & -> & Hok1 & _). simpl.
    destruct (IH st1 (X ∖ {[x]}) Hok1) as (xs & st' & -> & Hok' & Hnd & Hset & Hsort).
    { rewrite size_difference by set_solver. rewrite size_singleton. lia. }
    assert (forall y, y ∈ xs -> y ∈ X /\ y <> x) as Hxs.
    { intros y Hy%(elem_of_list_to_set (C := gset ptr)). rewrite Hset in Hy. set_solver. }
    exists (x :: xs), st'. split_and!; [done|done| | |].
    + apply NoDup_cons. split; [|done]. by intros [_ ?]%Hxs.
    + simpl. rewrite Hset. apply set_eq. intros y. destruct (decide (y = x)); set_solver.
    + constructor; [done|]. apply Forall_forall. intros y Hy. by apply Hle, Hxs.
Qed.

(** C29 Filling the heap with distinct nodes and dequeuing it returns exactly
    those nodes, each once, smallest first, and ends with the empty heap. *)
Theorem heap_sorts xs :
  NoDup xs -> (Z.of_nat (length xs) < UINT_MAX)%Z ->
  exists st ys st', insert_all xs (HState heap_init ∅) = Some st /\
    drain (length xs) st = Some (ys, st') /\ ys ≡ₚ xs /\
    StronglySorted (fun x y => less_than y x = false) ys /\ heap_min (hp st') = None.
Proof.
  intros Hnd Hs. destruct (insert_all_ok xs (HState heap_init ∅) ∅) as (st & H1 & Hok);
    [apply heap_init_ok|done|set_solver|by rewrite size_empty|].
  rewrite union_empty_r_L in Hok.
  destruct (drain_ok (length xs) st _ Hok) as (ys & st' & H2 & Hok' & Hnd' & Hset & Hsort).
  { by rewrite size_list_to_set. }
  exists st, ys, st'. split_and!; try done.
  - apply NoDup_Permutation; [done..|]. intros x.
    by rewrite <- !(elem_of_list_to_set (C := gset ptr)), Hset.
  - pose proof (heap_min_ok less_than st' ∅ Hok') as Hm.
    destruct (heap_min (hp st')); [set_solver|done].
Qed.
End Heap.

(** ** Queues *)

Section Queue.
Context {A : Type} `{Countable A}.
Implicit Types (m : qmem A) (h q : A) (xs ys : list A).

(** C40 The queue macros are the list operations on the ring they are given:
    initialising, testing for emptiness, inserting a foreign node at either
    end and removing a member, with no other node of the memory changed. *)
Theorem queue_macros_refine_lists m h q xs ys :
  is_queue (QUEUE_INIT h m) h [] /\
  (is_queue m h xs -> QUEUE_EMPTY h m = Some (bool_decide (xs = [])) /\
     QUEUE_NEXT h m = Some (hd h xs)) /\
  (is_queue m h xs -> q ∉ h :: xs ->
     (exists m', QUEUE_INSERT_TAIL h q m = Some m' /\ is_queue m' h (xs ++ [q]) /\
        agree (fun a => a ∉ q :: h :: xs) m m') /\
     (exists m', QUEUE_INSERT_HEAD h q m = Some m' /\ is_queue m' h (q :: xs) /\
        agree (fun a => a ∉ q :: h :: xs) m m')) /\
  (is_queue m h (xs ++ q :: ys) ->
     exists m', QUEUE_REMOVE q m = Some m' /\ is_queue m' h (xs ++ ys) /\
       agree (fun a => a ∉ h :: xs ++ ys) m m').
Proof.
  split_and!.
  - apply queue_init_spec.
  - intros Hq. split; [by apply queue_empty_spec|by apply is_queue_next].
  - intros Hq Hn. split; [by apply queue_insert_tail_spec|by apply queue_insert_head_spec].
  - apply queue_remove_spec.
Qed.
End Queue.

(** ** Runs that meet the hypotheses *)

Section Witnesses.
Definition ptr_lt (x y : ptr) : bool := (x <? y)%positive.

#[local] Instance ptr_lt_preorder : TotalPreorder ptr_lt.
Proof. split; unfold ptr_lt; intros *; rewrite ?Pos.ltb_lt, ?Pos.ltb_ge; lia. Qed.

Definition st1 : hstate := HState (Heap (Some 2%positive) 1) {[ 2%positive := HeapNode None None None ]}.

Lemma st1_repr : repr st1 [2%positive] /\ ordered ptr_lt [2%positive].
Proof.
  split; [|intros [|j] Hj x y Hx Hy; [lia|done]].
  split; [split; [apply NoDup_singleton|simpl; unfold UINT_MAX; lia]|].
  split; [done|]. split; [done|]. by intros [|[|i]] x [= <-].
Qed.

Lemma heap_insert_correct_witness :
  exists st' arr', heap_insert ptr_lt 1 st1 = Some st' /\ repr st' arr' /\ ordered ptr_lt arr' /\
    arr' ≡ₚ [1; 2]%positive.
Proof.
  apply (heap_insert_correct ptr_lt st1 [2%positive] 1);
    [apply st1_repr|apply st1_repr|set_solver|done].
Defined.

Lemma heap_remove_correct_witness :
  exists st' arr', heap_remove ptr_lt 2 st1 = Some st' /\ repr st' arr' /\ ordered ptr_lt arr' /\
    2%positive :: arr' ≡ₚ [2%positive].
Proof.
  apply (heap_remove_correct ptr_lt st1 [2%positive] 2);
    [apply st1_repr|apply st1_repr|set_solver].
Defined.

Lemma heap_sorts_witness :
  exists st ys st', insert_all ptr_lt [5; 3; 9; 1; 7]%positive (HState heap_init ∅) = Some st /\
    drain ptr_lt 5 st = Some (ys, st') /\ ys = [1; 3; 5; 7; 9]%positive.
Proof.
  destruct (heap_sorts ptr_lt [5; 3; 9; 1; 7]%positive) as (st & ys & st' & H1 & H2 & _).
  - by apply (bool_decide_unpack _); vm_compute.
  - done.
  - exists st, ys, st'. split; [exact H1|]. split; [exact H2|].
    vm_compute in H1. injection H1 as <-. vm_compute in H2. by injection H2 as <- _.
Defined.

Lemma queue_macros_refine_lists_witness :
  exists m', QUEUE_REMOVE 2%positive (QMem {[1 := 2; 2 := 3; 3 := 1]} {[1 := 3; 2 := 1; 3 := 2]})%positive = Some m' /\
    is_queue m' 1%positive [3%positive].
Proof.
  destruct (queue_macros_refine_lists (QMem {[1 := 2; 2 := 3; 3 := 1]} {[1 := 3; 2 := 1; 3 := 2]})%positive
    1%positive 2%positive [] [3%positive]) as (_ & _ & _ & H).
  destruct H as (m' & H1 & H2 & _).
  - split; [by apply (bool_decide_unpack _); vm_compute|by vm_compute].
  - exists m'. split; [exact H1|exact H2].
Defined.
End Witnesses.
