(* ===== verification/UvLoop.v ===== *)
(** * The libuv event loop

    Handles, their flags and the reference count of the loop
    ([core/libuv/src/uv-common.h]), timers ([unix/timer.c]), prepare, check
    and idle watchers ([unix/loop-watcher.c]), and the loop itself
    ([unix/core.c], [unix/loop.c], [uv-common.c]).

    The state is one loop with its handles.  The timer queue is any
    [PrioQueue]; queue nodes live in one [qmem].  User callbacks are values of
    a type [cb]; what calling one does to the state is the parameter [run_cb],
    so that the loop is verified for every behaviour of its callbacks. *)

From stdpp Require Import base option list gmap.
From Stdlib Require Import ZArith Lia.
From S2P Require Import Prelude UvPrio UvQueue.

Local Open Scope Z_scope.
Local Open Scope prog_scope.

(** ** Constants *)

Definition EINVAL : Z := 22.
Definition EBUSY : Z := 16.
Definition EBADF : Z := 9.
Definition UV_EINVAL : Z := - EINVAL.
Definition UV_EBUSY : Z := - EBUSY.
Definition UV_EBADF : Z := - EBADF.

Definition UV_CLOSING : Z := 0x01.
Definition UV_CLOSED : Z := 0x02.
Definition UV__HANDLE_INTERNAL : Z := 0x8000.
Definition UV__HANDLE_ACTIVE : Z := 0x4000.
Definition UV__HANDLE_REF : Z := 0x2000.

Inductive uv_handle_type :=
  | UV_UNKNOWN_HANDLE | UV_ASYNC | UV_CHECK | UV_FS_EVENT | UV_FS_POLL | UV_HANDLE
  | UV_IDLE | UV_NAMED_PIPE | UV_POLL | UV_PREPARE | UV_PROCESS | UV_STREAM | UV_TCP
  | UV_TIMER | UV_TTY | UV_UDP | UV_SIGNAL | UV_FILE.

#[export] Instance uv_handle_type_eq_dec : EqDecision uv_handle_type.
Proof. solve_decision. Defined.

Inductive uv_run_mode := UV_RUN_DEFAULT | UV_RUN_ONCE | UV_RUN_NOWAIT.

#[export] Instance uv_run_mode_eq_dec : EqDecision uv_run_mode.
Proof. solve_decision. Defined.

(** The three kinds of [UV_LOOP_WATCHER_DEFINE]. *)
Inductive watcher := Prepare | Check_ | Idle.

#[export] Instance watcher_eq_dec : EqDecision watcher.
Proof. solve_decision. Defined.

Definition watcher_type (k : watcher) : uv_handle_type :=
  match k with Prepare => UV_PREPARE | Check_ => UV_CHECK | Idle => UV_IDLE end.

(** ** Addresses of queue nodes

    The heads inside the loop, and the nodes inside handles and requests. *)

Inductive qaddr :=
  | Q_handle_queue
  | Q_watchers (k : watcher)
  | Q_active_reqs
  | N_handle_queue (h : ptr)
  | N_queue (h : ptr)
  | N_active_queue (r : ptr).

#[export] Instance qaddr_eq_dec : EqDecision qaddr.
Proof. solve_decision. Defined.

Definition qaddr_code (q : qaddr) : positive * positive :=
  match q with
  | Q_handle_queue => (1, 1)%positive
  | Q_watchers Prepare => (2, 1)%positive
  | Q_watchers Check_ => (3, 1)%positive
  | Q_watchers Idle => (4, 1)%positive
  | Q_active_reqs => (5, 1)%positive
  | N_handle_queue h => (6, h)%positive
  | N_queue h => (7, h)%positive
  | N_active_queue r => (8, r)%positive
  end.

Definition qaddr_decode (c : positive * positive) : option qaddr :=
  match c with
  | (1, _)%positive => Some Q_handle_queue
  | (2, _)%positive => Some (Q_watchers Prepare)
  | (3, _)%positive => Some (Q_watchers Check_)
  | (4, _)%positive => Some (Q_watchers Idle)
  | (5, _)%positive => Some Q_active_reqs
  | (6, h)%positive => Some (N_handle_queue h)
  | (7, h)%positive => Some (N_queue h)
  | (8, r)%positive => Some (N_active_queue r)
  | _ => None
  end.

#[export] Instance qaddr_countable : Countable qaddr.
Proof.
  apply (inj_countable qaddr_code qaddr_decode). by intros [|[]| | | |].
Defined.

(** ** State *)

Record uv_handle (cb : Type) := UvHandle {
  type : uv_handle_type;
  flags : Z;
  close_cb : option cb;
  next_closing : option ptr;
  data : option ptr;
  (* uv_timer_t *)
  timer_cb : option cb;
  timeout : Z;
  repeat_ : Z;
  start_id : Z;
  (* uv_prepare_t, uv_check_t, uv_idle_t *)
  watcher_cb : option cb;
  (* uv_signal_t *)
  signal_cb : option cb;
  signum : Z
}.

Arguments UvHandle {cb}.
Arguments type {cb} u.
Arguments flags {cb} u.
Arguments close_cb {cb} u.
Arguments next_closing {cb} u.
Arguments data {cb} u.
Arguments timer_cb {cb} u.
Arguments timeout {cb} u.
Arguments repeat_ {cb} u.
Arguments start_id {cb} u.
Arguments watcher_cb {cb} u.
Arguments signal_cb {cb} u.
Arguments signum {cb} u.

(** The loop, its handles and the rest of the world. *)
Record uv_state (Q cb X : Type) := UvState {
  time : Z;
  timer_counter : Z;
  timer_heap : Q;
  active_handles : Z;
  closing_handles : option ptr;
  stop_flag : Z;
  backend_fd : Z;
  queues : qmem qaddr;
  handles : gmap ptr (uv_handle cb);
  env : X
}.

Arguments UvState {Q cb X}.
Arguments time {Q cb X} u.
Arguments timer_counter {Q cb X} u.
Arguments timer_heap {Q cb X} u.
Arguments active_handles {Q cb X} u.
Arguments closing_handles {Q cb X} u.
Arguments stop_flag {Q cb X} u.
Arguments backend_fd {Q cb X} u.
Arguments queues {Q cb X} u.
Arguments handles {Q cb X} u.
Arguments env {Q cb X} u.

Section Setters.
Context {Q cb X : Type}.
Implicit Types (h : uv_handle cb) (s : uv_state Q cb X).

Definition set_type v h := UvHandle v (flags h) (close_cb h) (next_closing h) (data h)
  (timer_cb h) (timeout h) (repeat_ h) (start_id h) (watcher_cb h) (signal_cb h) (signum h).
Definition set_flags v h := UvHandle (type h) v (close_cb h) (next_closing h) (data h)
  (timer_cb h) (timeout h) (repeat_ h) (start_id h) (watcher_cb h) (signal_cb h) (signum h).
Definition set_close_cb v h := UvHandle (type h) (flags h) v (next_closing h) (data h)
  (timer_cb h) (timeout h) (repeat_ h) (start_id h) (watcher_cb h) (signal_cb h) (signum h).
Definition set_next_closing v h := UvHandle (type h) (flags h) (close_cb h) v (data h)
  (timer_cb h) (timeout h) (repeat_ h) (start_id h) (watcher_cb h) (signal_cb h) (signum h).
Definition set_data v h := UvHandle (type h) (flags h) (close_cb h) (next_closing h) v
  (timer_cb h) (timeout h) (repeat_ h) (start_id h) (watcher_cb h) (signal_cb h) (signum h).
Definition set_timer_cb v h := UvHandle (type h) (flags h) (close_cb h) (next_closing h) (data h)
  v (timeout h) (repeat_ h) (start_id h) (watcher_cb h) (signal_cb h) (signum h).
Definition set_timeout v h := UvHandle (type h) (flags h) (close_cb h) (next_closing h) (data h)
  (timer_cb h) v (repeat_ h) (start_id h) (watcher_cb h) (signal_cb h) (signum h).
Definition set_repeat v h := UvHandle (type h) (flags h) (close_cb h) (next_closing h) (data h)
  (timer_cb h) (timeout h) v (start_id h) (watcher_cb h) (signal_cb h) (signum h).
Definition set_start_id v h := UvHandle (type h) (flags h) (close_cb h) (next_closing h) (data h)
  (timer_cb h) (timeout h) (repeat_ h) v (watcher_cb h) (signal_cb h) (signum h).
Definition set_watcher_cb v h := UvHandle (type h) (flags h) (close_cb h) (next_closing h) (data h)
  (timer_cb h) (timeout h) (repeat_ h) (start_id h) v (signal_cb h) (signum h).
Definition set_signal_cb v h := UvHandle (type h) (flags h) (close_cb h) (next_closing h) (data h)
  (timer_cb h) (timeout h) (repeat_ h) (start_id h) (watcher_cb h) v (signum h).
Definition set_signum v h := UvHandle (type h) (flags h) (close_cb h) (next_closing h) (data h)
  (timer_cb h) (timeout h) (repeat_ h) (start_id h) (watcher_cb h) (signal_cb h) v.

Definition set_time v s := UvState v (timer_counter s) (timer_heap s) (active_handles s)
  (closing_handles s) (stop_flag s) (backend_fd s) (queues s) (handles s) (env s).
Definition set_timer_counter v s := UvState (time s) v (timer_heap s) (active_handles s)
  (closing_handles s) (stop_flag s) (backend_fd s) (queues s) (handles s) (env s).
Definition set_timer_heap (v : Q) s := UvState (time s) (timer_counter s) v (active_handles s)
  (closing_handles s) (stop_flag s) (backend_fd s) (queues s) (handles s) (env s).
Definition set_active_handles v s := UvState (time s) (timer_counter s) (timer_heap s) v
  (closing_handles s) (stop_flag s) (backend_fd s) (queues s) (handles s) (env s).
Definition set_closing_handles v s := UvState (time s) (timer_counter s) (timer_heap s)
  (active_handles s) v (stop_flag s) (backend_fd s) (queues s) (handles s) (env s).
Definition set_stop_flag v s := UvState (time s) (timer_counter s) (timer_heap s)
  (active_handles s) (closing_handles s) v (backend_fd s) (queues s) (handles s) (env s).
Definition set_queues (v : qmem qaddr) s := UvState (time s) (timer_counter s) (timer_heap s)
  (active_handles s) (closing_handles s) (stop_flag s) (backend_fd s) v (handles s) (env s).
Definition set_handles (v : gmap ptr (uv_handle cb)) s := UvState (time s) (timer_counter s) (timer_heap s)
  (active_handles s) (closing_handles s) (stop_flag s) (backend_fd s) (queues s) v (env s).
Definition set_env (v : X) s := UvState (time s) (timer_counter s) (timer_heap s)
  (active_handles s) (closing_handles s) (stop_flag s) (backend_fd s) (queues s) (handles s) v.
End Setters.

(** [timer_less_than]: earlier timeout first, then lower [start_id].  The
    nodes compared are those of timers in the store. *)
Definition timer_less_than {cb} (hs : gmap ptr (uv_handle cb)) (ha hb : ptr) : bool :=
  match hs !! ha, hs !! hb with
  | Some a, Some b =>
      if timeout a <? timeout b then true
      else if timeout b <? timeout a then false
      else if start_id a <? start_id b then true
      else if start_id b <? start_id a then false
      else false
  | Some _, None => true
  | None, _ => false
  end.

Section Code.
Context {Q : Type} `{!PrioQueue Q} {cb X E : Type}.

Let st : Type := uv_state Q cb X.
Let prog (A : Type) : Type := M st E A.

(** What calling a user callback on a handle does. *)
Context (run_cb : cb -> ptr -> prog unit).
(** [uv__hrtime(UV_CLOCK_FAST)], a reading of the kernel clock. *)
Context (hrtime : X -> Z * X).
(** [uv__run_pending] and [uv__io_poll]: the descriptors of the loop. *)
Context (run_pending : prog Z) (io_poll : Z -> prog unit).
(** The close functions of the handle kinds modelled elsewhere. *)
Context (close_other : uv_handle_type -> ptr -> prog unit).
Context (finish_close_other : uv_handle_type -> ptr -> prog unit).

(** [*p] and a write to a field of [*p] *)
Definition deref (p : ptr) : prog (uv_handle cb) :=
  fun s => orfail NullDeref (handles s !! p) s.
Definition assign (p : ptr) (f : uv_handle cb -> uv_handle cb) : prog unit :=
  h <- deref p ;; modify (fun s => set_handles (<[p := f h]> (handles s)) s).

Definition on_queues (f : qmem qaddr -> option (qmem qaddr)) : prog unit :=
  s <- get ;; m <- orfail NullDeref (f (queues s)) ;; modify (set_queues m).
Definition ask_queue {A} (f : qmem qaddr -> option A) : prog A :=
  s <- get ;; orfail NullDeref (f (queues s)).

Definition has_flag (h : uv_handle cb) (f : Z) : bool := negb (Z.land (flags h) f =? 0).

(** ** [uv-common.h] *)

Definition uv__is_active (h : uv_handle cb) : bool := has_flag h UV__HANDLE_ACTIVE.
Definition uv__is_closing (h : uv_handle cb) : bool := has_flag h (Z.lor UV_CLOSING UV_CLOSED).
Definition uv__has_ref (h : uv_handle cb) : bool := has_flag h UV__HANDLE_REF.
Definition uv__has_active_handles (s : st) : bool := 0 <? active_handles s.

Definition uv__has_active_reqs : prog bool :=
  e <- ask_queue (QUEUE_EMPTY Q_active_reqs) ;; ret (negb e).

Definition uv__active_handle_add : prog unit :=
  modify (fun s => set_active_handles (u32 (active_handles s + 1)) s).
Definition uv__active_handle_rm : prog unit :=
  modify (fun s => set_active_handles (u32 (active_handles s - 1)) s).

Definition or_flags (f : Z) (h : uv_handle cb) : uv_handle cb := set_flags (Z.lor (flags h) f) h.
Definition clear_flags (f : Z) (h : uv_handle cb) : uv_handle cb :=
  set_flags (Z.ldiff (flags h) f) h.

Definition uv__handle_start (p : ptr) : prog unit :=
  h <- deref p ;;
  if has_flag h UV__HANDLE_ACTIVE then skip else
  assign p (or_flags UV__HANDLE_ACTIVE) ;;;
  when (has_flag h UV__HANDLE_REF) do uv__active_handle_add.

Definition uv__handle_stop (p : ptr) : prog unit :=
  h <- deref p ;;
  if negb (has_flag h UV__HANDLE_ACTIVE) then skip else
  assign p (clear_flags UV__HANDLE_ACTIVE) ;;;
  when (has_flag h UV__HANDLE_REF) do uv__active_handle_rm.

Definition uv__handle_ref (p : ptr) : prog unit :=
  h <- deref p ;;
  if has_flag h UV__HANDLE_REF then skip else
  assign p (or_flags UV__HANDLE_REF) ;;;
  when (has_flag h UV__HANDLE_ACTIVE) do uv__active_handle_add.

Definition uv__handle_unref (p : ptr) : prog unit :=
  h <- deref p ;;
  if negb (has_flag h UV__HANDLE_REF) then skip else
  assign p (clear_flags UV__HANDLE_REF) ;;;
  when (has_flag h UV__HANDLE_ACTIVE) do uv__active_handle_rm.

(** The memory of a handle before [uv__handle_init]: its fields are the ones
    of [h0], whatever they are. *)
Definition uv__handle_init (p : ptr) (h0 : uv_handle cb) (t : uv_handle_type) : prog unit :=
  modify (fun s => set_handles (<[p := set_flags UV__HANDLE_REF (set_type t h0)]> (handles s)) s) ;;;
  on_queues (QUEUE_INSERT_TAIL Q_handle_queue (N_handle_queue p)) ;;;
  assign p (set_next_closing None).

(** ** [unix/timer.c] *)

Definition uv_timer_init (p : ptr) (h0 : uv_handle cb) : prog Z :=
  uv__handle_init p h0 UV_TIMER ;;;
  assign p (set_timer_cb None) ;;;
  assign p (set_repeat 0) ;;;
  ret 0.

Definition uv_timer_stop (p : ptr) : prog Z :=
  h <- deref p ;;
  if negb (uv__is_active h) then ret 0 else
  s <- get ;;
  q <- orfail NullDeref (pq_remove (timer_less_than (handles s)) p (timer_heap s)) ;;
  modify (set_timer_heap q) ;;;
  uv__handle_stop p ;;;
  ret 0.

Definition clamp_timeout (now timeout : Z) : Z :=
  let clamped_timeout := u64 (now + timeout) in
  if clamped_timeout <? timeout then UINT64_MAX else clamped_timeout.

Definition uv_timer_start (p : ptr) (c : option cb) (timeout repeat : Z) : prog Z :=
  match c with
  | None => ret (- EINVAL)
  | Some c =>
      h <- deref p ;;
      (when (uv__is_active h) do (uv_timer_stop p ;;; skip)) ;;;
      s <- get ;;
      assign p (set_timer_cb (Some c)) ;;;
      assign p (set_timeout (clamp_timeout (time s) timeout)) ;;;
      assign p (set_repeat repeat) ;;;
      assign p (set_start_id (timer_counter s)) ;;;
      modify (fun s => set_timer_counter (u64 (timer_counter s + 1)) s) ;;;
      s <- get ;;
      q <- orfail NullDeref (pq_insert (timer_less_than (handles s)) p (timer_heap s)) ;;
      modify (set_timer_heap q) ;;;
      uv__handle_start p ;;;
      ret 0
  end.

Definition uv_timer_again (p : ptr) : prog Z :=
  h <- deref p ;;
  match timer_cb h with
  | None => ret (- EINVAL)
  | Some _ =>
      (when (negb (repeat_ h =? 0)) do
        (uv_timer_stop p ;;; h <- deref p ;;
         uv_timer_start p (timer_cb h) (repeat_ h) (repeat_ h) ;;; skip)) ;;;
      ret 0
  end.

Definition uv_timer_set_repeat (p : ptr) (repeat : Z) : prog unit := assign p (set_repeat repeat).

Definition uv_timer_get_repeat (p : ptr) : prog Z := h <- deref p ;; ret (repeat_ h).

Definition uv__next_timeout : prog Z :=
  s <- get ;;
  match pq_min (timer_heap s) with
  | None => ret (-1)
  | Some p =>
      h <- deref p ;;
      if timeout h <=? time s then ret 0 else
      let diff := u64 (timeout h - time s) in
      ret (if INT_MAX <? diff then INT_MAX else diff)
  end.

(** [handle->timer_cb(handle)] *)
Definition call_opt (c : option cb) (p : ptr) : prog unit :=
  match c with Some c => run_cb c p | None => fail NullDeref end.

(** The [for (;;)] of the C code; [fuel] bounds its iterations. *)
Fixpoint uv__run_timers (fuel : nat) : prog unit :=
  s <- get ;;
  match pq_min (timer_heap s) with
  | None => skip
  | Some p =>
      h <- deref p ;;
      if time s <? timeout h then skip else
      match fuel with
      | O => fail OutOfFuel
      | S fuel =>
          uv_timer_stop p ;;;
          uv_timer_again p ;;;
          h <- deref p ;;
          call_opt (timer_cb h) p ;;;
          uv__run_timers fuel
      end
  end.

Definition uv__timer_close (p : ptr) : prog unit := uv_timer_stop p ;;; skip.

(** ** [unix/loop-watcher.c] *)

Definition uv_watcher_init (k : watcher) (p : ptr) (h0 : uv_handle cb) : prog Z :=
  uv__handle_init p h0 (watcher_type k) ;;;
  assign p (set_watcher_cb None) ;;;
  ret 0.

Definition uv_watcher_start (k : watcher) (p : ptr) (c : option cb) : prog Z :=
  h <- deref p ;;
  if uv__is_active h then ret 0 else
  match c with
  | None => ret (- EINVAL)
  | Some c =>
      on_queues (QUEUE_INSERT_HEAD (Q_watchers k) (N_queue p)) ;;;
      assign p (set_watcher_cb (Some c)) ;;;
      uv__handle_start p ;;;
      ret 0
  end.

Definition uv_watcher_stop (p : ptr) : prog Z :=
  h <- deref p ;;
  if negb (uv__is_active h) then ret 0 else
  on_queues (QUEUE_REMOVE (N_queue p)) ;;;
  uv__handle_stop p ;;;
  ret 0.

(** [QUEUE_FOREACH(q, &loop->name_handles)]: the next node is read after the
    callback of the current one. *)
Fixpoint run_watchers_from (fuel : nat) (k : watcher) (q : qaddr) : prog unit :=
  if decide (q = Q_watchers k) then skip else
  match fuel, q with
  | O, _ => fail OutOfFuel
  | S fuel, N_queue p =>
      h <- deref p ;;
      call_opt (watcher_cb h) p ;;;
      q <- ask_queue (QUEUE_NEXT q) ;;
      run_watchers_from fuel k q
  | _, _ => fail Unspecified
  end.

Definition uv__run_watchers (fuel : nat) (k : watcher) : prog unit :=
  q <- ask_queue (QUEUE_NEXT (Q_watchers k)) ;; run_watchers_from fuel k q.

Definition uv__watcher_close (p : ptr) : prog unit := uv_watcher_stop p ;;; skip.
End Code.
