(* ===== verification/UvCore.v ===== *)
(** * Closing handles and running the loop

    [core/libuv/src/unix/core.c], the handle functions of
    [core/libuv/src/uv-common.c] and the initial state of
    [core/libuv/src/unix/loop.c], over the state of [UvLoop]. *)

From stdpp Require Import base option list gmap.
From Stdlib Require Import ZArith Lia.
From S2P Require Import Prelude UvPrio UvQueue UvLoop.

Local Open Scope Z_scope.
Local Open Scope prog_scope.

Section Code.
Context {Q : Type} `{!PrioQueue Q} {cb X E : Type}.

Let st : Type := uv_state Q cb X.
Let prog (A : Type) : Type := M st E A.

Context (run_cb : cb -> ptr -> prog unit).
Context (hrtime : X -> Z * X).
Context (run_pending : prog Z) (io_poll : Z -> prog unit).
(** [uv__pipe_close], [uv__tcp_close], ... and the destroy functions of
    [uv__finish_close], for the kinds of handle that own descriptors. *)
Context (close_other finish_close_other : uv_handle_type -> ptr -> prog unit).

Definition uv__update_time : prog unit :=
  s <- get ;;
  let '(t, x) := hrtime (env s) in
  modify (fun s => set_time (t / 1000000) (set_env x s)).

Definition uv__make_close_pending (p : ptr) : prog unit :=
  h <- deref p ;;
  assertM (has_flag h UV_CLOSING) ;;;
  assertM (negb (has_flag h UV_CLOSED)) ;;;
  s <- get ;;
  assign p (set_next_closing (closing_handles s)) ;;;
  modify (set_closing_handles (Some p)).

Definition uv_close (p : ptr) (close_cb : option cb) : prog unit :=
  h <- deref p ;;
  assertM (negb (has_flag h (Z.lor UV_CLOSING UV_CLOSED))) ;;;
  assign p (or_flags UV_CLOSING) ;;;
  assign p (set_close_cb close_cb) ;;;
  match type h with
  | UV_PREPARE | UV_CHECK | UV_IDLE => uv__watcher_close p ;;; uv__make_close_pending p
  | UV_TIMER => uv__timer_close p ;;; uv__make_close_pending p
  | UV_NAMED_PIPE | UV_TTY | UV_TCP | UV_UDP | UV_ASYNC | UV_PROCESS
  | UV_FS_EVENT | UV_POLL | UV_FS_POLL => close_other (type h) p ;;; uv__make_close_pending p
  | UV_SIGNAL => close_other UV_SIGNAL p
  | _ => fail AssertFail
  end.

Definition uv__finish_close (p : ptr) : prog unit :=
  h <- deref p ;;
  assertM (has_flag h UV_CLOSING) ;;;
  assertM (negb (has_flag h UV_CLOSED)) ;;;
  assign p (or_flags UV_CLOSED) ;;;
  match type h with
  | UV_PREPARE | UV_CHECK | UV_IDLE | UV_ASYNC | UV_TIMER | UV_PROCESS
  | UV_FS_EVENT | UV_FS_POLL | UV_POLL | UV_SIGNAL => skip
  | UV_NAMED_PIPE | UV_TCP | UV_TTY | UV_UDP => finish_close_other (type h) p
  | _ => fail AssertFail
  end ;;;
  uv__handle_unref p ;;;
  on_queues (QUEUE_REMOVE (N_handle_queue p)) ;;;
  h <- deref p ;;
  match close_cb h with Some c => run_cb c p | None => skip end.

(** The [while (p)] loop over a closing list already taken off the loop. *)
Fixpoint finish_closing (fuel : nat) (p : option ptr) : prog unit :=
  match p, fuel with
  | None, _ => skip
  | Some _, O => fail OutOfFuel
  | Some p, S fuel =>
      h <- deref p ;;
      uv__finish_close p ;;;
      finish_closing fuel (next_closing h)
  end.

Definition uv__run_closing_handles (fuel : nat) : prog unit :=
  s <- get ;;
  modify (set_closing_handles None) ;;;
  finish_closing fuel (closing_handles s).

Definition uv_is_closing (p : ptr) : prog bool := h <- deref p ;; ret (uv__is_closing h).
Definition uv_is_active (p : ptr) : prog bool := h <- deref p ;; ret (uv__is_active h).
Definition uv_backend_fd : prog Z := gets backend_fd.
Definition uv_update_time : prog unit := uv__update_time.

Definition uv_backend_timeout : prog Z :=
  s <- get ;;
  if negb (stop_flag s =? 0) then ret 0 else
  reqs <- uv__has_active_reqs ;;
  if negb (uv__has_active_handles s) && negb reqs then ret 0 else
  e <- ask_queue (QUEUE_EMPTY (Q_watchers Idle)) ;;
  if negb e then ret 0 else
  match closing_handles s with
  | Some _ => ret 0
  | None => uv__next_timeout
  end.

Definition uv__loop_alive : prog bool :=
  s <- get ;;
  reqs <- uv__has_active_reqs ;;
  ret (uv__has_active_handles s || reqs || bool_decide (is_Some (closing_handles s))).

Definition uv_loop_alive : prog bool := uv__loop_alive.

(** One iteration of the [while] of [uv_run]. *)
Definition run_once (fuel : nat) (mode : uv_run_mode) : prog unit :=
  uv__update_time ;;;
  uv__run_timers run_cb fuel ;;;
  ran_pending <- run_pending ;;
  uv__run_watchers run_cb fuel Idle ;;;
  uv__run_watchers run_cb fuel Prepare ;;;
  timeout <- (if (bool_decide (mode = UV_RUN_ONCE) && (ran_pending =? 0))
                 || bool_decide (mode = UV_RUN_DEFAULT)
              then uv_backend_timeout else ret 0) ;;
  io_poll timeout ;;;
  uv__run_watchers run_cb fuel Check_ ;;;
  uv__run_closing_handles fuel ;;;
  when (bool_decide (mode = UV_RUN_ONCE)) do
    (uv__update_time ;;; uv__run_timers run_cb fuel).

(** [while (r != 0 && loop->stop_flag == 0) { ... }]; [n] bounds the
    iterations, [fuel] the loops inside one. *)
Fixpoint run_while (n fuel : nat) (mode : uv_run_mode) (r : bool) : prog bool :=
  s <- get ;;
  if negb r || negb (stop_flag s =? 0) then ret r else
  match n with
  | O => fail OutOfFuel
  | S n =>
      run_once fuel mode ;;;
      r <- uv__loop_alive ;;
      match mode with
      | UV_RUN_DEFAULT => run_while n fuel mode r
      | UV_RUN_ONCE | UV_RUN_NOWAIT => ret r
      end
  end.

Definition uv_run (n fuel : nat) (mode : uv_run_mode) : prog bool :=
  r <- uv__loop_alive ;;
  (when (negb r) do uv__update_time) ;;;
  r <- run_while n fuel mode r ;;
  (s <- get ;; when (negb (stop_flag s =? 0)) do modify (set_stop_flag 0)) ;;;
  ret r.

(** ** [uv-common.c] *)

Definition uv_ref (p : ptr) : prog unit := uv__handle_ref p.
Definition uv_unref (p : ptr) : prog unit := uv__handle_unref p.
Definition uv_has_ref (p : ptr) : prog bool := h <- deref p ;; ret (uv__has_ref h).
Definition uv_stop : prog unit := modify (set_stop_flag 1).
Definition uv_now : prog Z := gets time.

(** [QUEUE_FOREACH(q, &loop->handle_queue)] with a callback on the handles
    that are not internal. *)
Fixpoint walk_from (fuel : nat) (walk_cb : ptr -> prog unit) (q : qaddr) : prog unit :=
  if decide (q = Q_handle_queue) then skip else
  match fuel, q with
  | O, _ => fail OutOfFuel
  | S fuel, N_handle_queue p =>
      h <- deref p ;;
      (when (negb (has_flag h UV__HANDLE_INTERNAL)) do walk_cb p) ;;;
      q <- ask_queue (QUEUE_NEXT q) ;;
      walk_from fuel walk_cb q
  | _, _ => fail Unspecified
  end.

Definition uv_walk (fuel : nat) (walk_cb : ptr -> prog unit) : prog unit :=
  q <- ask_queue (QUEUE_NEXT Q_handle_queue) ;; walk_from fuel walk_cb q.

(** The [QUEUE_FOREACH] of [uv_loop_close]: is some handle not internal? *)
Fixpoint external_from (fuel : nat) (q : qaddr) : prog bool :=
  if decide (q = Q_handle_queue) then ret false else
  match fuel, q with
  | O, _ => fail OutOfFuel
  | S fuel, N_handle_queue p =>
      h <- deref p ;;
      if negb (has_flag h UV__HANDLE_INTERNAL) then ret true else
      q <- ask_queue (QUEUE_NEXT q) ;; external_from fuel q
  | _, _ => fail Unspecified
  end.

(** [loop_cleanup] is [uv__loop_close], which releases the descriptors. *)
Definition uv_loop_close (loop_cleanup : prog unit) (fuel : nat) : prog Z :=
  reqs <- uv__has_active_reqs ;;
  if reqs then ret UV_EBUSY else
  q <- ask_queue (QUEUE_NEXT Q_handle_queue) ;;
  ext <- external_from fuel q ;;
  if ext then ret UV_EBUSY else
  loop_cleanup ;;; ret 0.

(** The loop after [memset], [heap_init] and the [QUEUE_INIT]s of
    [uv_loop_init]; the clock is read into [time]. *)
Definition uv_loop_init_fields (x : X) : st :=
  let '(t, x) := hrtime x in
  UvState (t / 1000000) 0 pq_init 0 None 0 (-1)
    (QUEUE_INIT Q_handle_queue (QUEUE_INIT (Q_watchers Prepare)
      (QUEUE_INIT (Q_watchers Check_) (QUEUE_INIT (Q_watchers Idle)
        (QUEUE_INIT Q_active_reqs (QMem ∅ ∅))))))
    ∅ x.
End Code.
