(* ===== verification/UvInv.v ===== *)
(** * The invariant of the libuv loop

    [loop_inv] ties the counters, the timer heap and the queues of the loop to
    the flags of its handles.  This file states it and proves the facts the
    operations share: flag arithmetic, sets of handles, and what one changed
    handle does to each clause. *)

From stdpp Require Import base option list gmap.
From Stdlib Require Import ZArith Lia.
From S2P Require Import Prelude UvPrio UvQueue UvLoop.

Local Open Scope Z_scope.

(** ** Sets of handles by a test on their fields *)

Section Where.
Context {H : Type}.
Implicit Types (f : H -> bool) (m : gmap ptr H) (p : ptr).

Definition set_where f m : gset ptr := dom (filter (fun kv => f kv.2 = true) m).

Lemma elem_of_where f m p : p ∈ set_where f m <-> exists h, m !! p = Some h /\ f h = true.
Proof.
  unfold set_where. rewrite elem_of_dom. split.
  - intros [h Hh]. apply map_lookup_filter_Some in Hh as [? ?]. eauto.
  - intros (h & ? & ?). exists h. by apply map_lookup_filter_Some.
Qed.

Lemma not_elem_of_where f m p h : m !! p = Some h -> f h = false -> p ∉ set_where f m.
Proof. intros Hp Hf (h' & ? & ?)%elem_of_where. congruence. Qed.

Lemma where_insert f m p h :
  set_where f (<[p := h]> m) = if f h then {[p]} ∪ set_where f m else set_where f m ∖ {[p]}.
Proof.
  apply set_eq. intros q. rewrite elem_of_where.
  destruct (decide (q = p)) as [->|Hne].
  - rewrite lookup_insert_eq. destruct (f h) eqn:Hf; [set_solver by eauto|].
    split; [intros (? & [= <-] & ?); congruence|set_solver].
  - rewrite lookup_insert_ne by done. rewrite <- elem_of_where. destruct (f h); set_solver.
Qed.

Lemma where_insert_same f m p h h' :
  m !! p = Some h -> f h' = f h -> set_where f (<[p := h']> m) = set_where f m.
Proof.
  intros Hp Hf. rewrite where_insert, Hf. destruct (f h) eqn:E.
  - assert (p ∈ set_where f m) by (apply elem_of_where; eauto). set_solver.
  - pose proof (not_elem_of_where f m p h Hp E). set_solver.
Qed.

Lemma where_insert_size f m p h h' :
  m !! p = Some h ->
  (size (set_where f (<[p := h']> m)) + Nat.b2n (f h))%nat =
  (size (set_where f m) + Nat.b2n (f h'))%nat.
Proof.
  intros Hp. destruct (Bool.bool_dec (f h') (f h)) as [E|Hne].
  { rewrite (where_insert_same f m p h h') by done. by rewrite E. }
  rewrite where_insert. destruct (f h') eqn:E', (f h) eqn:E; try done; simpl.
  - rewrite size_union; [rewrite size_singleton; lia|].
    pose proof (not_elem_of_where f m p h Hp E). set_solver.
  - assert (p ∈ set_where f m) by (apply elem_of_where; eauto).
    rewrite size_difference by set_solver. rewrite size_singleton.
    assert (size (set_where f m) <> 0%nat); [|lia].
    intros ?%size_empty_inv. set_solver.
Qed.

Lemma where_size f m : (size (set_where f m) <= size m)%nat.
Proof.
  rewrite <- (size_dom (D := gset ptr) m). unfold set_where.
  apply subseteq_size, subseteq_dom, map_filter_subseteq.
Qed.
End Where.

(** ** Flags *)

Section Flags.
Context {cb : Type}.
Implicit Types (h : uv_handle cb) (f g : Z).

Lemma has_or_same h f : f <> 0 -> has_flag (or_flags f h) f = true.
Proof.
  intros Hf. unfold has_flag, or_flags. simpl. rewrite Z.land_lor_distr_l, Z.land_diag.
  apply negb_true_iff, Z.eqb_neq. intros [_ ?]%Z.lor_eq_0_iff. done.
Qed.

Lemma has_or_other h f g : Z.land f g = 0 -> has_flag (or_flags f h) g = has_flag h g.
Proof.
  intros Hf. unfold has_flag, or_flags. simpl. by rewrite Z.land_lor_distr_l, Hf, Z.lor_0_r.
Qed.

Lemma has_clear_same h f : has_flag (clear_flags f h) f = false.
Proof. unfold has_flag, clear_flags. simpl. by rewrite Z.land_ldiff. Qed.

Lemma has_clear_other h f g : Z.land f g = 0 -> has_flag (clear_flags f h) g = has_flag h g.
Proof.
  intros Hf. unfold has_flag, clear_flags. simpl. do 2 f_equal. apply Z.bits_inj'. intros n Hn.
  assert (Z.testbit (Z.land f g) n = false) as Hb by (rewrite Hf; apply Z.bits_0).
  rewrite !Z.land_spec in *. rewrite Z.ldiff_spec.
  destruct (Z.testbit f n), (Z.testbit g n), (Z.testbit (flags h) n); done.
Qed.

Lemma has_flag_lor h f g : has_flag h (Z.lor f g) = has_flag h f || has_flag h g.
Proof.
  unfold has_flag. rewrite Z.land_lor_distr_r, <- negb_andb. f_equal.
  apply eq_true_iff_eq. rewrite andb_true_iff, !Z.eqb_eq. apply Z.lor_eq_0_iff.
Qed.

Lemma clear_absent h f : has_flag h f = false -> clear_flags f h = h.
Proof.
  intros Hf%negb_false_iff%Z.eqb_eq. unfold clear_flags.
  assert (Z.ldiff (flags h) f = flags h) as ->; [|by destruct h].
  apply Z.bits_inj'. intros n Hn. rewrite Z.ldiff_spec.
  assert (Z.testbit (Z.land (flags h) f) n = false) as Hb by (rewrite Hf; apply Z.bits_0).
  rewrite Z.land_spec in Hb. destruct (Z.testbit (flags h) n), (Z.testbit f n); done.
Qed.

(** For the flags of libuv, which are one bit each. *)
Lemma or_present h n : 0 <= n -> has_flag h (2 ^ n) = true -> or_flags (2 ^ n) h = h.
Proof.
  intros Hn Hf%negb_true_iff%Z.eqb_neq. unfold or_flags.
  assert (Z.lor (flags h) (2 ^ n) = flags h) as ->; [|by destruct h].
  assert (Z.testbit (flags h) n = true) as Hb.
  { apply not_false_iff_true. intros Hb. apply Hf, Z.bits_inj'. intros k Hk.
    rewrite Z.land_spec, Z.pow2_bits_eqb, Z.bits_0 by done.
    destruct (Z.eqb_spec n k) as [->|]; [by rewrite Hb|apply andb_false_r]. }
  apply Z.bits_inj'. intros k Hk. rewrite Z.lor_spec, Z.pow2_bits_eqb by done.
  destruct (Z.eqb_spec n k) as [->|]; [by rewrite Hb|apply orb_false_r].
Qed.

Lemma or_present_active h :
  has_flag h UV__HANDLE_ACTIVE = true -> or_flags UV__HANDLE_ACTIVE h = h.
Proof. by apply (or_present h 14). Qed.

Lemma or_present_ref h : has_flag h UV__HANDLE_REF = true -> or_flags UV__HANDLE_REF h = h.
Proof. by apply (or_present h 13). Qed.
End Flags.

Create Rewrite HintDb flags.
#[export] Hint Rewrite @has_or_same @has_or_other @has_clear_same @has_clear_other
  using (done || reflexivity) : flags.
#[export] Hint Rewrite @has_flag_lor : flags.

(** ** The timer order *)

#[export] Instance timer_less_than_preorder {cb} (hs : gmap ptr (uv_handle cb)) :
  TotalPreorder (timer_less_than hs).
Proof.
  split.
  - intros x y. unfold timer_less_than.
    destruct (hs !! x) as [a|], (hs !! y) as [b|]; try done.
    repeat case_match; rewrite ?Z.ltb_lt, ?Z.ltb_ge in *; try done; lia.
  - intros x y z. unfold timer_less_than.
    destruct (hs !! x) as [a|], (hs !! y) as [b|], (hs !! z) as [c|]; try done.
    repeat case_match; rewrite ?Z.ltb_lt, ?Z.ltb_ge in *; try done; lia.
Qed.

Section Inv.
Context {Q : Type} `{!PrioQueue Q} `{!PrioQueueSpec Q} {cb X : Type}.

Let st : Type := uv_state Q cb X.
Implicit Types (h : uv_handle cb) (s : st) (p : ptr) (m : gmap ptr (uv_handle cb)).

(** The handles that keep the loop alive. *)
Definition counted h : bool := uv__is_active h && uv__has_ref h.
Definition active_of (t : uv_handle_type) h : bool := uv__is_active h && bool_decide (type h = t).
Definition not_closed h : bool := negb (has_flag h UV_CLOSED).

(** The list of closing handles, linked by [next_closing]. *)
Fixpoint chain m (o : option ptr) (ps : list ptr) : Prop :=
  match ps with
  | [] => o = None
  | p :: ps => o = Some p /\ exists h, m !! p = Some h /\ has_flag h UV_CLOSING = true /\
      has_flag h UV_CLOSED = false /\ chain m (next_closing h) ps
  end.

(** An active handle has its callback, and the fields are in range. *)
Record handle_ok h : Prop := {
  ho_repeat : 0 <= repeat_ h <= UINT64_MAX;
  ho_timeout : 0 <= timeout h <= UINT64_MAX;
  ho_timer_cb : uv__is_active h = true -> type h = UV_TIMER -> is_Some (timer_cb h);
  ho_watcher_cb k : uv__is_active h = true -> type h = watcher_type k -> is_Some (watcher_cb h)
}.

(** The reference count is exact, and the handles too few to overflow it. *)
Record count_inv s : Prop := {
  ci_count : active_handles s = Z.of_nat (size (set_where counted (handles s)));
  ci_small : Z.of_nat (size (handles s)) < UINT_MAX
}.

Record loop_inv s : Prop := {
  li_count : count_inv s;
  li_ok : map_Forall (fun _ h => handle_ok h) (handles s);
  li_heap : pq_ok (timer_less_than (handles s)) (timer_heap s)
              (set_where (active_of UV_TIMER) (handles s));
  li_watch : forall k, exists ps, is_queue (queues s) (Q_watchers k) (N_queue <$> ps) /\
    list_to_set ps = set_where (active_of (watcher_type k)) (handles s);
  li_open : exists ps, is_queue (queues s) Q_handle_queue (N_handle_queue <$> ps) /\
    list_to_set ps = set_where not_closed (handles s);
  li_reqs : exists rs, is_queue (queues s) Q_active_reqs (N_active_queue <$> rs);
  li_closing : exists ps, NoDup ps /\ chain (handles s) (closing_handles s) ps
}.

(** ** One changed handle *)

Definition upd p h s : st := set_handles (<[p := h]> (handles s)) s.

(** The loop with its count taken anew from the handles. *)
Definition recount s : st :=
  set_active_handles (Z.of_nat (size (set_where counted (handles s)))) s.

Lemma recount_id s : count_inv s -> recount s = s.
Proof. intros Hi. unfold recount. rewrite <- (ci_count _ Hi). by destruct s. Qed.

Definition same_close h h' : Prop :=
  next_closing h' = next_closing h /\
  has_flag h' UV_CLOSING = has_flag h UV_CLOSING /\
  has_flag h' UV_CLOSED = has_flag h UV_CLOSED.

Lemma chain_upd m o ps p h h' :
  m !! p = Some h -> same_close h h' -> chain m o ps -> chain (<[p := h']> m) o ps.
Proof.
  intros Hp (E1 & E2 & E3). revert o. induction ps as [|q ps IH]; intros o; [done|].
  intros (-> & g & Hg & ? & ? & ?). split; [done|]. destruct (decide (q = p)) as [->|Hne].
  - exists h'. rewrite lookup_insert_eq. simplify_eq. split; [done|]. rewrite E1, E2, E3. auto.
  - exists g. rewrite lookup_insert_ne by done. auto.
Qed.

Lemma size_insert_same m p h h' : m !! p = Some h -> size (<[p := h']> m) = size m.
Proof. intros Hp. by rewrite map_size_insert, Hp. Qed.

Lemma same_close_not_closed h h' : same_close h h' -> not_closed h' = not_closed h.
Proof. intros (_ & _ & E). unfold not_closed. by rewrite E. Qed.

(** A change of the handle [p] that spares its close state, with a new timer
    heap and new rings for the watchers. *)
Lemma loop_inv_upd s p h h' (q' : Q) (m' : qmem qaddr) :
  loop_inv s -> handles s !! p = Some h -> same_close h h' -> handle_ok h' ->
  pq_ok (timer_less_than (<[p := h']> (handles s))) q'
    (set_where (active_of UV_TIMER) (<[p := h']> (handles s))) ->
  (forall k, exists ps, is_queue m' (Q_watchers k) (N_queue <$> ps) /\
    list_to_set ps = set_where (active_of (watcher_type k)) (<[p := h']> (handles s))) ->
  agree (fun a => match a with Q_watchers _ | N_queue _ => False | _ => True end)
    (queues s) m' ->
  loop_inv (recount (upd p h' (set_queues m' (set_timer_heap q' s)))).
Proof.
  intros [] Hp Hc Hok Hheap Hw Ha. split; simpl; try done.
  - split; [done|]. simpl. rewrite (size_insert_same _ _ h) by done. apply li_count0.
  - by apply map_Forall_insert_2.
  - destruct li_open0 as (ps & Hq & Hps). exists ps. split.
    + eapply is_queue_agree; [done| |done]. intros a [->|(? & -> & ?)%list_elem_of_fmap]%elem_of_cons; done.
    + rewrite Hps. symmetry. eapply where_insert_same; [done|]. by apply same_close_not_closed.
  - destruct li_reqs0 as (rs & Hq). exists rs. eapply is_queue_agree; [done| |done].
    intros a [->|(? & -> & ?)%list_elem_of_fmap]%elem_of_cons; done.
  - destruct li_closing0 as (ps & ? & ?). exists ps. split; [done|]. by eapply chain_upd.
Qed.

(** The watcher rings after a change that spares the activity of a handle. *)
Lemma watch_upd_same s p h h' :
  loop_inv s -> handles s !! p = Some h ->
  (forall k, active_of (watcher_type k) h' = active_of (watcher_type k) h) ->
  forall k, exists ps, is_queue (queues s) (Q_watchers k) (N_queue <$> ps) /\
    list_to_set ps = set_where (active_of (watcher_type k)) (<[p := h']> (handles s)).
Proof.
  intros Hi Hp E k. destruct (li_watch _ Hi k) as (ps & Hq & Hps). exists ps. split; [done|].
  rewrite Hps. symmetry. by eapply where_insert_same.
Qed.

Lemma timer_less_than_insert m p h h' x y :
  m !! p = Some h -> timeout h' = timeout h -> start_id h' = start_id h ->
  timer_less_than (<[p := h']> m) x y = timer_less_than m x y.
Proof.
  intros Hp E1 E2. unfold timer_less_than.
  destruct (decide (x = p)) as [->|]; [rewrite lookup_insert_eq, Hp|rewrite (lookup_insert_ne _ p x) by done];
    (destruct (decide (y = p)) as [->|]; [rewrite lookup_insert_eq, Hp|rewrite (lookup_insert_ne _ p y) by done]);
    rewrite ?E1, ?E2; done.
Qed.

(** The timer heap after a change that spares the keys of the active timers. *)
Lemma heap_upd_same s p h h' :
  loop_inv s -> handles s !! p = Some h -> active_of UV_TIMER h' = active_of UV_TIMER h ->
  (active_of UV_TIMER h = true -> timeout h' = timeout h /\ start_id h' = start_id h) ->
  pq_ok (timer_less_than (<[p := h']> (handles s))) (timer_heap s)
    (set_where (active_of UV_TIMER) (<[p := h']> (handles s))).
Proof.
  intros Hi Hp E Hk. rewrite (where_insert_same _ _ _ h h') by done.
  eapply pq_ext, (li_heap _ Hi). intros x y Hx Hy. destruct (active_of UV_TIMER h) eqn:Ha.
  - destruct Hk as [E1 E2]; [done|]. symmetry. by eapply timer_less_than_insert.
  - pose proof (not_elem_of_where _ _ _ _ Hp Ha). unfold timer_less_than.
    rewrite !lookup_insert_ne by congruence. done.
Qed.
End Inv.

