(* ===== verification/UvTimer.v ===== *)
(** * Handles and timers keep the loop consistent

    What the reference-count macros of [uv-common.h] and the functions of
    [unix/timer.c] do to a consistent loop, as equations on its state. *)

From stdpp Require Import base option list gmap.
From Stdlib Require Import ZArith Lia.
From S2P Require Import Prelude UvPrio UvQueue UvLoop UvInv.

Local Open Scope Z_scope.

(** Decides the tests on the flags of a handle whose flags were just set. *)
Ltac flags_simpl :=
  unfold uv__is_active, uv__has_ref, uv__is_closing in *;
  repeat first
    [ rewrite has_or_same in * by done
    | rewrite has_clear_same in *
    | rewrite has_or_other in * by done
    | rewrite has_clear_other in * by done ].

Section Handles.
Context {Q : Type} `{!PrioQueue Q} `{!PrioQueueSpec Q} {cb X E : Type}.

Let st : Type := uv_state Q cb X.
Implicit Types (h : uv_handle cb) (s : st) (p : ptr).

Lemma deref_run s p h : handles s !! p = Some h -> deref (E := E) p s = Ret h s.
Proof. intros Hp. unfold deref. by rewrite Hp. Qed.

Lemma assign_run s p h f :
  handles s !! p = Some h -> assign (E := E) p f s = Ret tt (upd p (f h) s).
Proof. intros Hp. unfold assign, bind. by rewrite (deref_run _ _ _ Hp). Qed.

Lemma counted_bound s p h :
  Z.of_nat (size (handles s)) < UINT_MAX -> handles s !! p = Some h ->
  0 <= Z.of_nat (size (set_where counted (handles s))) < UINT_MAX.
Proof. intros ? _. pose proof (where_size counted (handles s)). lia. Qed.

(** The count after a change of one handle. *)
Lemma count_upd s p h h' :
  count_inv s -> handles s !! p = Some h ->
  u32 (active_handles s + (Z.b2z (counted h') - Z.b2z (counted h))) =
  Z.of_nat (size (set_where counted (<[p := h']> (handles s)))).
Proof.
  intros Hi Hp. pose proof (where_insert_size counted _ _ h h' Hp) as Hs.
  pose proof (counted_bound s p h (ci_small _ Hi) Hp) as Hb.
  pose proof (where_size counted (<[p := h']> (handles s))) as Hn.
  rewrite (size_insert_same _ _ h) in Hn by done.
  pose proof (ci_small _ Hi). pose proof (ci_count _ Hi) as Hc. unfold UINT_MAX in *.
  rewrite wrap_u_small; [rewrite Hc; destruct (counted h), (counted h'); simpl in *; lia|].
  rewrite Hc. destruct (counted h), (counted h'); simpl in *; lia.
Qed.

(** The four macros of [uv-common.h] set their flag and leave the counter
    equal to the number of handles that are active and referenced. *)
Definition toggles (prog : ptr -> M st E unit) (f : uv_handle cb -> uv_handle cb) : Prop :=
  forall s p h, count_inv s -> handles s !! p = Some h ->
    prog p s = Ret tt (recount (upd p (f h) s)).

Lemma toggle_same s p h : count_inv s -> handles s !! p = Some h -> recount (upd p h s) = s.
Proof.
  intros Hi Hp. rewrite <- (recount_id s) at 2 by done. unfold recount, upd. simpl.
  rewrite insert_id by done. by destruct s.
Qed.

Lemma toggle_set s p h h' d :
  count_inv s -> handles s !! p = Some h -> Z.b2z (counted h') - Z.b2z (counted h) = d ->
  set_active_handles (u32 (active_handles s + d)) (upd p h' s) = recount (upd p h' s).
Proof. intros Hi Hp <-. unfold recount, upd. simpl. by rewrite (count_upd s p h h'). Qed.

Lemma toggle_skip s p h h' :
  count_inv s -> handles s !! p = Some h -> counted h' = counted h ->
  upd p h' s = recount (upd p h' s).
Proof.
  intros Hi Hp Hc. rewrite <- (toggle_set s p h h' 0) by (try done; rewrite Hc; lia).
  rewrite Z.add_0_r, wrap_u_small; [by destruct s|].
  rewrite (ci_count _ Hi). pose proof (counted_bound s p h (ci_small _ Hi) Hp).
  unfold UINT_MAX in *. lia.
Qed.

Ltac toggle_branch s p h :=
  unfold bind; rewrite (assign_run s p h) by done; cbn beta iota;
  first [ apply (f_equal (Ret tt)); apply (toggle_set s p h)
        | apply (f_equal (Ret tt)); apply (toggle_skip s p h) ]; try done;
  unfold counted; flags_simpl.

Lemma handle_start_run : toggles uv__handle_start (or_flags UV__HANDLE_ACTIVE).
Proof.
  intros s p h Hi Hp. unfold uv__handle_start, bind. rewrite (deref_run _ _ _ Hp).
  destruct (has_flag h UV__HANDLE_ACTIVE) eqn:Ha.
  { rewrite or_present_active by done. by rewrite toggle_same. }
  destruct (has_flag h UV__HANDLE_REF) eqn:Hr; toggle_branch s p h; by rewrite Ha, Hr.
Qed.

Lemma handle_stop_run : toggles uv__handle_stop (clear_flags UV__HANDLE_ACTIVE).
Proof.
  intros s p h Hi Hp. unfold uv__handle_stop, bind. rewrite (deref_run _ _ _ Hp).
  destruct (has_flag h UV__HANDLE_ACTIVE) eqn:Ha; simpl.
  2:{ rewrite clear_absent by done. by rewrite toggle_same. }
  destruct (has_flag h UV__HANDLE_REF) eqn:Hr; toggle_branch s p h; by rewrite Ha, Hr.
Qed.

Lemma handle_ref_run : toggles uv__handle_ref (or_flags UV__HANDLE_REF).
Proof.
  intros s p h Hi Hp. unfold uv__handle_ref, bind. rewrite (deref_run _ _ _ Hp).
  destruct (has_flag h UV__HANDLE_REF) eqn:Hr.
  { rewrite or_present_ref by done. by rewrite toggle_same. }
  destruct (has_flag h UV__HANDLE_ACTIVE) eqn:Ha; toggle_branch s p h; by rewrite Ha, ?Hr.
Qed.

Lemma handle_unref_run : toggles uv__handle_unref (clear_flags UV__HANDLE_REF).
Proof.
  intros s p h Hi Hp. unfold uv__handle_unref, bind. rewrite (deref_run _ _ _ Hp).
  destruct (has_flag h UV__HANDLE_REF) eqn:Hr; simpl.
  2:{ rewrite clear_absent by done. by rewrite toggle_same. }
  destruct (has_flag h UV__HANDLE_ACTIVE) eqn:Ha; toggle_branch s p h; by rewrite Ha, ?Hr.
Qed.
End Handles.

(** ** Timers *)

Section Timers.
Context {Q : Type} `{!PrioQueue Q} `{!PrioQueueSpec Q} {cb X E : Type}.

Let st : Type := uv_state Q cb X.
Implicit Types (h : uv_handle cb) (s : st) (p : ptr) (q : Q).

Lemma upd_upd s p h h' : upd p h' (upd p h s) = upd p h' s.
Proof. unfold upd. simpl. by rewrite insert_insert_eq. Qed.

Lemma count_inv_recount s : Z.of_nat (size (handles s)) < UINT_MAX -> count_inv (recount s).
Proof. by split. Qed.

Lemma count_inv_upd s p h h' :
  count_inv s -> handles s !! p = Some h -> count_inv (recount (upd p h' s)).
Proof.
  intros Hi Hp. apply count_inv_recount. simpl. rewrite (size_insert_same _ _ h) by done.
  apply Hi.
Qed.

Lemma union_absorb (Y : gset ptr) p : {[p]} ∪ Y ∖ {[p]} = {[p]} ∪ Y.
Proof. apply set_eq. intros x. destruct (decide (x = p)); set_solver. Qed.

Lemma count_inv_ext s s' :
  handles s' = handles s -> active_handles s' = active_handles s -> count_inv s -> count_inv s'.
Proof. intros E1 E2 []. split; by rewrite ?E1, ?E2. Qed.

(** The timer after [uv_timer_start]: the four assignments. *)
Definition arm s (c : cb) (t r : Z) h : uv_handle cb :=
  set_start_id (timer_counter s) (set_repeat r
    (set_timeout (clamp_timeout (time s) t) (set_timer_cb (Some c) h))).

Lemma has_arm s c t r h f : has_flag (arm s c t r h) f = has_flag h f.
Proof. done. Qed.

Lemma arm_active s c t r h :
  active_of UV_TIMER (or_flags UV__HANDLE_ACTIVE (arm s c t r h)) = bool_decide (type h = UV_TIMER).
Proof. unfold active_of. by flags_simpl. Qed.

Lemma arm_same_close s c t r h :
  same_close h (or_flags UV__HANDLE_ACTIVE (arm s c t r (clear_flags UV__HANDLE_ACTIVE h))).
Proof. split; [done|]. by rewrite !has_or_other, !has_arm, !has_clear_other by done. Qed.

Lemma handle_ok_clear h : handle_ok h -> handle_ok (clear_flags UV__HANDLE_ACTIVE h).
Proof. intros []. split; [done..|intros; exfalso; by flags_simpl| intros; exfalso; by flags_simpl]. Qed.

Lemma clamp_timeout_range now t : 0 <= clamp_timeout now t <= UINT64_MAX.
Proof.
  unfold clamp_timeout. pose proof (wrap_u_range 64 (now + t) ltac:(done)) as H.
  change (2 ^ 64) with 18446744073709551616 in H. unfold UINT64_MAX. case_match; lia.
Qed.

Lemma handle_ok_arm s c t r h :
  type h = UV_TIMER -> 0 <= r <= UINT64_MAX ->
  handle_ok (or_flags UV__HANDLE_ACTIVE (arm s c t r h)).
Proof. 
  intros Ht Hr. split; simpl; [done|apply clamp_timeout_range|eauto|].
  rewrite Ht. by intros [].
Qed.

Definition after_stop s p h q : st :=
  recount (upd p (clear_flags UV__HANDLE_ACTIVE h) (set_timer_heap q s)).

Definition after_start s p c t r h q : st :=
  recount (upd p (or_flags UV__HANDLE_ACTIVE (arm s c t r (clear_flags UV__HANDLE_ACTIVE h)))
    (set_timer_counter (u64 (timer_counter s + 1)) (set_timer_heap q s))).

Lemma active_timer s p h :
  handles s !! p = Some h -> type h = UV_TIMER -> uv__is_active h = true ->
  p ∈ set_where (active_of UV_TIMER) (handles s).
Proof.
  intros Hp Ht Ha. apply elem_of_where. exists h. split; [done|].
  unfold active_of. by rewrite Ha, bool_decide_eq_true_2.
Qed.

Lemma watch_timer s p h h' :
  loop_inv s -> handles s !! p = Some h -> type h = UV_TIMER -> type h' = UV_TIMER ->
  forall k, exists ps, is_queue (queues s) (Q_watchers k) (N_queue <$> ps) /\
    list_to_set ps = set_where (active_of (watcher_type k)) (<[p := h']> (handles s)).
Proof.
  intros Hi Hp Ht Ht'. apply (watch_upd_same s p h h'); [done..|]. intros k.
  unfold active_of. rewrite Ht, Ht'. rewrite bool_decide_eq_false_2 by by destruct k.
  by rewrite !andb_false_r.
Qed.

Lemma loop_inv_timer s p h h' q :
  loop_inv s -> handles s !! p = Some h -> type h = UV_TIMER -> type h' = UV_TIMER ->
  same_close h h' -> handle_ok h' ->
  pq_ok (timer_less_than (<[p := h']> (handles s))) q
    (set_where (active_of UV_TIMER) (<[p := h']> (handles s))) ->
  loop_inv (recount (upd p h' (set_timer_heap q s))).
Proof.
  intros Hi Hp Ht Ht' Hc Hok Hq.
  pose proof (loop_inv_upd s p h h' q (queues s) Hi Hp Hc Hok Hq (watch_timer _ _ _ _ Hi Hp Ht Ht')) as H.
  apply H. by intros a _.
Qed.

Lemma same_close_clear h : same_close h (clear_flags UV__HANDLE_ACTIVE h).
Proof. split; [done|]. by rewrite !has_clear_other by done. Qed.

Lemma timer_stop_run s p h :
  loop_inv s -> handles s !! p = Some h -> type h = UV_TIMER ->
  exists q, uv_timer_stop (E := E) p s = Ret 0 (after_stop s p h q) /\
    loop_inv (after_stop s p h q).
Proof.
  intros Hi Hp Ht. unfold uv_timer_stop, bind. rewrite (deref_run _ _ _ Hp).
  destruct (uv__is_active h) eqn:Ha; simpl.
  - destruct (pq_remove_ok (timer_less_than (handles s)) (timer_heap s)
      (set_where (active_of UV_TIMER) (handles s)) p _ (li_heap _ Hi) (active_timer _ _ _ Hp Ht Ha))
      as (q & Hq & Hok). exists q. rewrite Hq. simpl.
    rewrite (handle_stop_run (set_timer_heap q s) p h) by (done || by apply (count_inv_ext s), li_count).
    split; [done|]. apply (loop_inv_timer _ _ h); try done;
      [apply same_close_clear|apply handle_ok_clear; by eapply (li_ok _ Hi)|].
    rewrite where_insert. unfold active_of at 1. flags_simpl. simpl.
    eapply pq_ext; [|done]. intros x y Hx Hy. symmetry.
    by apply (timer_less_than_insert _ _ h).
  - exists (timer_heap s). unfold after_stop. rewrite clear_absent by done.
    assert (set_timer_heap (timer_heap s) s = s) as -> by by destruct s.
    rewrite (toggle_same s p h) by (done || by apply li_count). done.
Qed.

Lemma loop_inv_counter s v : loop_inv s -> loop_inv (set_timer_counter v s).
Proof. intros []. split; try done. by apply (count_inv_ext s). Qed.

Lemma arm_run s p h c t r (k : M st E Z) :
  handles s !! p = Some h ->
  (assign p (set_timer_cb (Some c)) ;;;
   assign p (set_timeout (clamp_timeout (time s) t)) ;;;
   assign p (set_repeat r) ;;;
   assign p (set_start_id (timer_counter s)) ;;;
   modify (fun s => set_timer_counter (u64 (timer_counter s + 1)) s) ;;; k)%prog s =
  k (set_timer_counter (u64 (timer_counter s + 1)) (upd p (arm s c t r h) s)).
Proof.
  intros Hp. unfold bind.
  rewrite (assign_run s p h) by done. cbn beta iota.
  do 3 (erewrite assign_run by apply lookup_insert_eq; rewrite upd_upd; cbn beta iota).
  done.
Qed.

Lemma timer_start_run s p h c t r :
  loop_inv s -> handles s !! p = Some h -> type h = UV_TIMER -> 0 <= r <= UINT64_MAX ->
  exists q, uv_timer_start (E := E) p (Some c) t r s = Ret 0 (after_start s p c t r h q) /\
    loop_inv (after_start s p c t r h q).
Proof.
  intros Hi Hp Ht Hr. unfold uv_timer_start.
  destruct (timer_stop_run s p h Hi Hp Ht) as (q1 & Hstop & Hi1).
  set (h1 := clear_flags UV__HANDLE_ACTIVE h) in *. set (h2 := arm s c t r h1).
  assert ((when (uv__is_active h) do (uv_timer_stop (E := E) p;;; skip))%prog s =
          Ret tt (after_stop s p h q1)) as Hfirst.
  { destruct (uv__is_active h) eqn:Ha; [unfold bind; by rewrite Hstop|].
    unfold uv_timer_stop, bind in Hstop. rewrite (deref_run _ _ _ Hp), Ha in Hstop.
    by injection Hstop as <-. }
  unfold bind at 1. rewrite (deref_run _ _ _ Hp). unfold bind at 1. rewrite Hfirst.
  assert (handles (after_stop s p h q1) !! p = Some h1) as Hp1 by apply lookup_insert_eq.
  unfold bind at 1. unfold get at 1. rewrite (arm_run _ p h1) by done.
  set (s2 := set_timer_counter _ _).
  assert (Hp2 : handles s2 !! p = Some h2) by apply lookup_insert_eq.
  assert (Hh2 : handles s2 = <[p := h2]> (handles s)) by (simpl; by rewrite insert_insert_eq).
  assert (Hna : active_of UV_TIMER h1 = false).
  { unfold active_of, h1. by flags_simpl. }
  assert (Hheap : pq_ok (timer_less_than (handles s2)) q1
            (set_where (active_of UV_TIMER) (handles s2))).
  { pose proof (heap_upd_same (after_stop s p h q1) p h1 h2 Hi1 Hp1) as H. simpl in H.
    rewrite insert_insert_eq in H. rewrite Hh2. apply H; [done|]. by rewrite Hna. }
  destruct (pq_insert_ok (timer_less_than (handles s2)) q1 _ p _ Hheap) as (q & Hins & Hok).
  { by eapply not_elem_of_where. }
  { pose proof (where_size (active_of UV_TIMER) (handles s2)) as Hle.
    rewrite Hh2, (size_insert_same _ _ h) in Hle by done.
    pose proof (ci_small _ (li_count _ Hi)). rewrite Hh2. lia. }
  exists q. unfold bind, get. cbn beta iota. change (timer_heap s2) with q1. rewrite Hins. simpl.
  rewrite (handle_start_run (set_timer_heap q s2) p h2); [|..|done].
  2:{ apply (count_inv_ext (recount (upd p h2 (after_stop s p h q1)))); [done| |].
      - simpl. rewrite (where_insert_same _ _ p h1 h2) by done. done.
      - eapply count_inv_upd; [apply Hi1|done]. }
  assert (recount (upd p (or_flags UV__HANDLE_ACTIVE h2) (set_timer_heap q s2)) =
          after_start s p c t r h q) as Hend.
  { unfold after_start, recount, upd. simpl. by rewrite !insert_insert_eq. }
  unfold ret. rewrite Hend. split; [done|].
  apply (loop_inv_counter (recount (upd p (or_flags UV__HANDLE_ACTIVE h2) (set_timer_heap q s)))).
  apply (loop_inv_timer _ _ h); [done..|apply arm_same_close|by apply handle_ok_arm|].
  rewrite where_insert. unfold h2 at 2. rewrite arm_active, bool_decide_eq_true_2 by done.
  rewrite Hh2, where_insert in Hok. change (active_of UV_TIMER h2) with (active_of UV_TIMER h1) in Hok.
  rewrite Hna, union_absorb in Hok.
  eapply pq_ext; [|done]. intros x y _ _.
  rewrite <- (insert_insert_eq (handles s) p (or_flags UV__HANDLE_ACTIVE h2) h2).
  symmetry. by apply (timer_less_than_insert _ _ h2); [apply lookup_insert_eq|..].
Qed.

Lemma timer_again_run s p h c :
  loop_inv s -> handles s !! p = Some h -> type h = UV_TIMER -> timer_cb h = Some c ->
  exists s', uv_timer_again (E := E) p s = Ret 0 s' /\ loop_inv s' /\
    if repeat_ h =? 0 then s' = s
    else exists q, s' = after_start s p c (repeat_ h) (repeat_ h) h q.
Proof.
  intros Hi Hp Ht Hc. unfold uv_timer_again, bind. rewrite (deref_run _ _ _ Hp), Hc.
  destruct (repeat_ h =? 0) eqn:Hr; simpl; [by exists s|].
  destruct (timer_stop_run s p h Hi Hp Ht) as (q1 & Hstop & Hi1). rewrite Hstop.
  set (s1 := after_stop s p h q1) in *.
  set (h1 := clear_flags UV__HANDLE_ACTIVE h) in *.
  assert (Hp1 : handles s1 !! p = Some h1) by apply lookup_insert_eq.
  rewrite (deref_run _ _ _ Hp1). simpl. rewrite Hc.
  destruct (timer_start_run s1 p h1 c (repeat_ h) (repeat_ h) Hi1 Hp1 Ht
              (ho_repeat _ (li_ok _ Hi _ _ Hp))) as (q & Hstart & Hi2).
  rewrite Hstart. eexists. split; [done|]. split; [done|]. exists q.
  unfold after_start, recount, upd. simpl. rewrite !insert_insert_eq.
  unfold h1. by rewrite (clear_absent (clear_flags _ h)) by apply has_clear_same.
Qed.
End Timers.
