(* ===== verification/UvFire.v ===== *)
(** * Running the timers

    [uv__run_timers] fires exactly the timers that are due, each once, in the
    order of the heap, whatever their callbacks do outside the loop; and how
    long the loop may sleep, [uv__next_timeout]. *)

From stdpp Require Import base option list gmap.
From Stdlib Require Import ZArith Lia Sorted.
From S2P Require Import Prelude UvPrio UvQueue UvLoop UvInv UvTimer.

Local Open Scope Z_scope.

Section Fire.
Context {Q : Type} `{!PrioQueue Q} `{!PrioQueueSpec Q} {cb X E : Type}.

Let st : Type := uv_state Q cb X.
Implicit Types (h : uv_handle cb) (s : st) (p : ptr) (q : Q).

(** A timer that [uv__run_timers] calls at the time [now]. *)
Definition due (now : Z) h : bool := active_of UV_TIMER h && (timeout h <=? now).

Lemma clamp_timeout_late now r :
  0 <= now < UINT64_MAX -> 0 < r <= UINT64_MAX -> now < clamp_timeout now r.
Proof.
  unfold clamp_timeout, UINT64_MAX, wrap_u. intros. change (2 ^ 64) with 18446744073709551616.
  destruct (Z.ltb_spec ((now + r) mod 18446744073709551616) r); lia.
Qed.

(** What running timers leaves alone. *)
Definition same_rest s s' : Prop :=
  queues s' = queues s /\ closing_handles s' = closing_handles s /\ stop_flag s' = stop_flag s.

Lemma same_rest_trans s s1 s2 : same_rest s s1 -> same_rest s1 s2 -> same_rest s s2.
Proof. unfold same_rest. intuition congruence. Qed.

(** One turn of the loop of [uv__run_timers], before the callback. *)
Lemma fire_step s p h c :
  loop_inv s -> handles s !! p = Some h -> type h = UV_TIMER -> timer_cb h = Some c ->
  0 <= time s < UINT64_MAX ->
  exists s' h', bind (uv_timer_stop (E := E) p) (fun _ => uv_timer_again p) s = Ret 0 s' /\
    loop_inv s' /\ handles s' = <[p := h']> (handles s) /\ time s' = time s /\ env s' = env s /\
    timer_cb h' = Some c /\ due (time s) h' = false /\ same_rest s s' /\
    (repeat_ h = 0 -> h' = clear_flags UV__HANDLE_ACTIVE h).
Proof.
  intros Hi Hp Ht Hc Htime.
  destruct (timer_stop_run (E := E) s p h Hi Hp Ht) as (q & Hstop & Hi1).
  set (s1 := after_stop s p h q) in *.
  set (h1 := clear_flags UV__HANDLE_ACTIVE h) in *.
  assert (Hp1 : handles s1 !! p = Some h1) by apply lookup_insert_eq.
  destruct (timer_again_run (E := E) s1 p h1 c Hi1 Hp1 Ht Hc) as (s2 & Hag & Hi2 & Hs2).
  unfold bind. rewrite Hstop, Hag. exists s2. change (repeat_ h1) with (repeat_ h) in Hs2.
  destruct (Z.eqb_spec (repeat_ h) 0).
  - exists h1. subst s2. split_and!; try done. unfold due, active_of, h1. by flags_simpl.
  - destruct Hs2 as (q2 & ->).
    exists (or_flags UV__HANDLE_ACTIVE
      (arm s1 c (repeat_ h) (repeat_ h) (clear_flags UV__HANDLE_ACTIVE h1))).
    split_and!; try done.
    + simpl. by rewrite insert_insert_eq.
    + unfold due. rewrite arm_active, bool_decide_eq_true_2 by exact Ht. simpl.
      apply Z.leb_gt, clamp_timeout_late; [done|].
      pose proof (ho_repeat _ (li_ok _ Hi _ _ Hp)). lia.
Qed.

(** Callbacks that work outside the loop: each one only changes [env]. *)
Context (record : cb -> ptr -> X -> X).
Definition external (c : cb) (p : ptr) : M st E unit :=
  modify (fun s => set_env (record c p (env s)) s).

(** The callbacks of the timers [ps], in order. *)
Fixpoint called (m : gmap ptr (uv_handle cb)) (ps : list ptr) (x : X) : X :=
  match ps with
  | [] => x
  | p :: ps =>
      called m ps match m !! p ≫= timer_cb with Some c => record c p x | None => x end
  end.

Lemma called_upd m p h ps x : p ∉ ps -> called (<[p := h]> m) ps x = called m ps x.
Proof.
  revert x. induction ps as [|q ps IH]; intros x Hn; [done|].
  rewrite not_elem_of_cons in Hn. destruct Hn as [Hq Hn]. simpl.
  rewrite lookup_insert_ne by done. by apply IH.
Qed.

(** Increasing in the timer order. *)
Definition in_order (m : gmap ptr (uv_handle cb)) (ps : list ptr) : Prop :=
  StronglySorted (fun x y => timer_less_than m y x = false) ps.

Lemma in_order_upd m p h ps : p ∉ ps -> in_order (<[p := h]> m) ps -> in_order m ps.
Proof.
  intros Hn Hs. induction Hs as [|a l Hs IH Ha]; [constructor|].
  rewrite not_elem_of_cons in Hn. destruct Hn as [Hq Hn]. constructor; [by apply IH|].
  rewrite Forall_forall in Ha |- *. intros b Hb. pose proof (Ha b Hb) as Hab.
  assert (b <> p) by (intros ->; done). unfold timer_less_than in *.
  by rewrite !lookup_insert_ne in Hab by done.
Qed.

Lemma loop_inv_env s x : loop_inv s -> loop_inv (set_env x s).
Proof. intros []. split; try done. by apply (count_inv_ext s). Qed.

Lemma loop_inv_time s v : loop_inv s -> loop_inv (set_time v s).
Proof. intros []. split; try done. by apply (count_inv_ext s). Qed.

Lemma due_active s p h :
  handles s !! p = Some h -> due (time s) h = true -> p ∈ set_where (active_of UV_TIMER) (handles s).
Proof. intros Hp [Ha _]%andb_true_iff. apply elem_of_where. eauto. Qed.

(** The loop stops when no timer is due. *)
Lemma none_due s p h :
  loop_inv s -> pq_min (timer_heap s) = Some p -> handles s !! p = Some h ->
  (time s <? timeout h) = true -> set_where (due (time s)) (handles s) = ∅.
Proof.
  intros Hi Hmin Hp Hlt. pose proof (pq_min_ok _ _ _ _ (li_heap _ Hi)) as Hm.
  rewrite Hmin in Hm. destruct Hm as [_ Hm]. apply set_eq. intros x. split; [|set_solver].
  intros (g & Hg & Hd)%elem_of_where. exfalso.
  pose proof (Hm x (due_active _ _ _ Hg Hd)) as Hle. unfold timer_less_than in Hle.
  rewrite Hg, Hp in Hle. apply andb_true_iff in Hd as [_ Hd].
  destruct (Z.ltb_spec (timeout g) (timeout h)); [done|]. lia.
Qed.

(** The loop fires [ps], all the due timers. *)
Definition fires s s' (ps : list ptr) : Prop :=
  NoDup ps /\ list_to_set ps = set_where (due (time s)) (handles s) /\
  in_order (handles s) ps /\ env s' = called (handles s) ps (env s) /\
  time s' = time s /\ set_where (due (time s)) (handles s') = ∅ /\
  same_rest s s' /\ (forall x, x ∉ ps -> handles s' !! x = handles s !! x) /\
  (forall x h, x ∈ ps -> handles s !! x = Some h -> repeat_ h = 0 ->
     handles s' !! x = Some (clear_flags UV__HANDLE_ACTIVE h)).

Lemma fires_cons s s1 s' p h c h1 ps :
  loop_inv s -> pq_min (timer_heap s) = Some p -> handles s !! p = Some h ->
  timer_cb h = Some c -> due (time s) h = true ->
  handles s1 = <[p := h1]> (handles s) -> time s1 = time s -> env s1 = record c p (env s) ->
  due (time s) h1 = false -> same_rest s s1 -> (repeat_ h = 0 -> h1 = clear_flags UV__HANDLE_ACTIVE h) ->
  fires s1 s' ps -> fires s s' (p :: ps).
Proof.
  intros Hi Hmin Hp Hc Hd E1 E2 E3 Hd1 Hr1 Hrep (Hnd & Hset & Ho & He & Ht & Hno & Hr & Hout & Hone).
  rewrite E1, E2, where_insert, Hd1 in Hset.
  assert (Hpn : p ∉ ps).
  { intros Hin%(elem_of_list_to_set (C := gset ptr)). rewrite Hset in Hin. set_solver. }
  assert (Hin : p ∈ set_where (due (time s)) (handles s)) by (apply elem_of_where; eauto).
  pose proof (pq_min_ok _ _ _ _ (li_heap _ Hi)) as Hm. rewrite Hmin in Hm. destruct Hm as [_ Hm].
  split_and!.
  - by apply NoDup_cons.
  - simpl. rewrite Hset, union_absorb. set_solver.
  - rewrite E1 in Ho. constructor; [by eapply in_order_upd|]. apply Forall_forall. intros y Hy.
    apply Hm. apply (elem_of_list_to_set (C := gset ptr)) in Hy. rewrite Hset in Hy.
    apply elem_of_difference in Hy as [(g & Hg & Hdg)%elem_of_where _]. by eapply due_active.
  - simpl. rewrite Hp. simpl. rewrite Hc, He, E1, E3. by apply called_upd.
  - congruence.
  - congruence.
  - by eapply same_rest_trans.
  - intros x [Hx Hxs]%not_elem_of_cons. by rewrite Hout, E1, lookup_insert_ne.
  - intros x g [->|Hx]%elem_of_cons Hg Hg0.
    + rewrite Hout, E1, lookup_insert_eq by done. f_equal. simplify_eq. by apply Hrep.
    + apply (Hone x g); [done| |done]. rewrite E1, lookup_insert_ne by by intros ->. done.
Qed.

Lemma fires_none s : set_where (due (time s)) (handles s) = ∅ -> fires s s [].
Proof. intros He. split_and!; try done; [constructor..|]. by intros x h []%not_elem_of_nil. Qed.

(** The node at the top of the heap. *)
Lemma min_timer s p :
  loop_inv s -> pq_min (timer_heap s) = Some p ->
  exists h c, handles s !! p = Some h /\ type h = UV_TIMER /\ timer_cb h = Some c /\
    due (time s) h = negb (time s <? timeout h).
Proof.
  intros Hi Hmin. pose proof (pq_min_ok _ _ _ _ (li_heap _ Hi)) as Hm. rewrite Hmin in Hm.
  destruct Hm as [(h & Hp & Hat)%elem_of_where _].
  pose proof Hat as [Ha Ht%bool_decide_eq_true]%andb_true_iff.
  destruct (ho_timer_cb _ (li_ok _ Hi _ _ Hp) Ha Ht) as [c Hc]. exists h, c.
  split_and!; try done. unfold due. by rewrite Hat, Z.leb_antisym.
Qed.

Lemma no_timer s : loop_inv s -> pq_min (timer_heap s) = None ->
  set_where (due (time s)) (handles s) = ∅.
Proof.
  intros Hi Hmin. pose proof (pq_min_ok _ _ _ _ (li_heap _ Hi)) as Hm. rewrite Hmin in Hm.
  apply set_eq. intros x. split; [|set_solver]. intros (h & Hp & Hd)%elem_of_where.
  pose proof (due_active _ _ _ Hp Hd). set_solver.
Qed.

Lemma run_timers_fires fuel : forall s,
  loop_inv s -> 0 <= time s < UINT64_MAX ->
  (size (set_where (due (time s)) (handles s)) <= fuel)%nat ->
  exists s' ps, uv__run_timers (E := E) external fuel s = Ret tt s' /\ loop_inv s' /\ fires s s' ps.
Proof.
  induction fuel as [|fuel IH]; intros s Hi Ht Hsz.
  all: simpl; unfold bind at 1, get at 1.
  all: destruct (pq_min (timer_heap s)) as [p|] eqn:Hmin;
    [|exists s, []; split_and!; [done..|by apply fires_none, no_timer]].
  all: destruct (min_timer s p Hi Hmin) as (h & c & Hp & Hty & Hc & Hd).
  all: unfold bind at 1; rewrite (deref_run _ _ _ Hp).
  all: destruct (time s <? timeout h) eqn:Hlt;
    [exists s, []; split_and!; [done..|by eapply fires_none, none_due]|].
  all: pose proof (where_insert_size (due (time s)) _ _ h (set_flags 0 h) Hp) as Hs;
    rewrite Hd in Hs; simpl in Hs.
  - lia.
  - destruct (fire_step s p h c Hi Hp Hty Hc Ht)
      as (s1 & h1 & Hrun & Hi1 & Hh1 & Ht1 & He1 & Hc1 & Hd1 & Hr1 & Hrep).
    rewrite <- bind_assoc. unfold bind at 1. rewrite Hrun. unfold bind at 1.
    rewrite (deref_run s1 p h1) by by rewrite Hh1, lookup_insert_eq.
    rewrite Hc1. simpl. unfold bind at 1, external, modify.
    pose proof (where_insert_size (due (time s)) _ _ h h1 Hp) as Hs1.
    rewrite Hd, Hd1 in Hs1. simpl in Hs1.
    destruct (IH (set_env (record c p (env s1)) s1)) as (s' & ps & Hrun' & Hi' & Hf).
    + by apply loop_inv_env.
    + simpl. by rewrite Ht1.
    + simpl. rewrite Ht1, Hh1. lia.
    + exists s', (p :: ps). split; [done|]. split; [done|].
      apply (fires_cons s (set_env (record c p (env s1)) s1) s' p h c h1); try done.
      simpl. by rewrite He1.
Qed.

(** ** How long the loop may sleep *)

Lemma next_timeout_run s :
  loop_inv s -> 0 <= time s ->
  exists v, uv__next_timeout (E := E) s = Ret v s /\
    if decide (set_where (active_of UV_TIMER) (handles s) = ∅) then v = -1
    else 0 <= v <= INT_MAX /\
      (exists p h, handles s !! p = Some h /\ active_of UV_TIMER h = true /\
         v = Z.min INT_MAX (Z.max 0 (timeout h - time s))) /\
      (forall p h, handles s !! p = Some h -> active_of UV_TIMER h = true ->
         v <= Z.max 0 (timeout h - time s)).
Proof.
  intros Hi Ht. unfold uv__next_timeout, bind, get.
  pose proof (pq_min_ok _ _ _ _ (li_heap _ Hi)) as Hm.
  destruct (pq_min (timer_heap s)) as [p|]; [|exists (-1); split; [done|]; by rewrite decide_True].
  destruct Hm as [Hin Hle]. pose proof Hin as (h & Hp & Ha)%elem_of_where. rewrite (deref_run _ _ _ Hp).
  pose proof (ho_timeout _ (li_ok _ Hi _ _ Hp)) as Hr.
  eexists (Z.min INT_MAX (Z.max 0 (timeout h - time s))). split.
  - unfold ret, INT_MAX, wrap_u, UINT64_MAX in *.
    change (2 ^ 64) with 18446744073709551616.
    destruct (Z.leb_spec (timeout h) (time s)); [do 2 f_equal; lia|].
    rewrite Z.mod_small by lia.
    case_match; do 2 f_equal; lia.
  - rewrite decide_False by set_solver.
    split; [unfold INT_MAX; lia|]. split; [eauto|]. intros q g Hq Hg.
    assert (timeout h <= timeout g); [|lia].
    pose proof (Hle q ltac:(apply elem_of_where; eauto)) as Hqp. unfold timer_less_than in Hqp.
    rewrite Hp, Hq in Hqp. destruct (Z.ltb_spec (timeout g) (timeout h)); [done|lia].
Qed.
End Fire.
