(* ===== verification/UvWatch.v ===== *)
(** * Prepare, check and idle watchers

    [unix/loop-watcher.c] over consistent loops: starting and stopping a
    watcher keeps the ring of its kind, and a pass over a ring calls the
    watchers it holds. *)

From stdpp Require Import base option list gmap.
From Stdlib Require Import ZArith Lia.
From S2P Require Import Prelude UvPrio UvQueue UvLoop UvInv UvTimer.

Local Open Scope Z_scope.

Section Watch.
Context {Q : Type} `{!PrioQueue Q} `{!PrioQueueSpec Q} {cb X E : Type}.

Let st : Type := uv_state Q cb X.
Implicit Types (h : uv_handle cb) (s : st) (p : ptr) (k : watcher) (ps : list ptr).

(** The ring of the watchers of one kind carries [ps]. *)
Definition ring s k ps : Prop :=
  is_queue (queues s) (Q_watchers k) (N_queue <$> ps) /\
  list_to_set ps = set_where (active_of (watcher_type k)) (handles s).

Lemma watcher_type_inj k k' : watcher_type k = watcher_type k' -> k = k'.
Proof. by destruct k, k'. Qed.

Lemma in_ring s k ps p :
  ring s k ps -> p ∈ ps <-> exists h, handles s !! p = Some h /\ active_of (watcher_type k) h = true.
Proof. intros [_ Hs]. by rewrite <- (elem_of_list_to_set (C := gset ptr)), Hs, elem_of_where. Qed.

(** The rings after the activity of one watcher changed. *)
Lemma rings_upd s k p h h' ps' (m' : qmem qaddr) :
  loop_inv s -> handles s !! p = Some h -> type h = watcher_type k -> type h' = type h ->
  is_queue m' (Q_watchers k) (N_queue <$> ps') ->
  list_to_set ps' = set_where (active_of (watcher_type k)) (<[p := h']> (handles s)) ->
  (forall k' qs, k' <> k -> ring s k' qs ->
     forall a, a ∈ Q_watchers k' :: (N_queue <$> qs) ->
     nexts m' !! a = nexts (queues s) !! a /\ prevs m' !! a = prevs (queues s) !! a) ->
  forall k', exists qs, is_queue m' (Q_watchers k') (N_queue <$> qs) /\
    list_to_set qs = set_where (active_of (watcher_type k')) (<[p := h']> (handles s)).
Proof.
  intros Hi Hp Ht Ht' Hq Hps Ha k'. destruct (decide (k' = k)) as [->|Hk]; [by exists ps'|].
  destruct (li_watch _ Hi k') as (qs & Hqs & Hset). exists qs. split.
  - eapply is_queue_agree; [|by intros a H; exact H|done].
    intros a Hin. by apply (Ha k' qs).
  - rewrite Hset. symmetry. eapply where_insert_same; [done|]. unfold active_of.
    rewrite Ht', Ht. rewrite bool_decide_eq_false_2 by by intros ?%watcher_type_inj.
    by rewrite !andb_false_r.
Qed.

(** Nodes of other kinds are outside the ring of [k]. *)
Lemma other_ring s k k' ps qs :
  k' <> k -> (forall x h, x ∈ ps -> handles s !! x = Some h -> type h = watcher_type k) ->
  ring s k' qs -> forall a, a ∈ Q_watchers k' :: (N_queue <$> qs) ->
  a ∉ Q_watchers k :: (N_queue <$> ps).
Proof.
  intros Hk Hps Hqs a [->|(x & -> & Hx)%list_elem_of_fmap]%elem_of_cons.
  - intros [?|(? & ? & _)%list_elem_of_fmap]%elem_of_cons; congruence.
  - intros [?|(y & [= ->] & Hy)%list_elem_of_fmap]%elem_of_cons; [done|].
    apply (in_ring _ _ _ _ Hqs) in Hx as (h & Hh & [_ Hth%bool_decide_eq_true]%andb_true_iff).
    apply Hk, watcher_type_inj. rewrite <- Hth. by eapply Hps.
Qed.

Lemma ring_typed s k ps :
  ring s k ps -> forall x h, x ∈ ps -> handles s !! x = Some h -> type h = watcher_type k.
Proof.
  intros Hr x h Hx Hh. apply (in_ring _ _ _ _ Hr) in Hx as (h' & ? & [_ ?%bool_decide_eq_true]%andb_true_iff).
  congruence.
Qed.

(** The heap of the timers after a change of a watcher. *)
Lemma heap_watcher s k p h h' :
  loop_inv s -> handles s !! p = Some h -> type h = watcher_type k -> type h' = type h ->
  pq_ok (timer_less_than (<[p := h']> (handles s))) (timer_heap s)
    (set_where (active_of UV_TIMER) (<[p := h']> (handles s))).
Proof.
  intros Hi Hp Ht Ht'.
  assert (active_of UV_TIMER h = false /\ active_of UV_TIMER h' = false) as [E1 E2].
  { unfold active_of. rewrite Ht', Ht.
    rewrite bool_decide_eq_false_2 by by destruct k. by rewrite !andb_false_r. }
  eapply heap_upd_same; [done..|by rewrite E1|by rewrite E1].
Qed.

Definition started (c : cb) h : uv_handle cb :=
  or_flags UV__HANDLE_ACTIVE (set_watcher_cb (Some c) h).

Lemma watcher_start_run s k p h c ps :
  loop_inv s -> handles s !! p = Some h -> type h = watcher_type k -> uv__is_active h = false ->
  ring s k ps ->
  exists m', let s' := recount (upd p (started c h) (set_queues m' s)) in
    uv_watcher_start (E := E) k p (Some c) s = Ret 0 s' /\ loop_inv s' /\ ring s' k (p :: ps).
Proof.
  intros Hi Hp Ht Ha Hr. assert (Hn : p ∉ ps).
  { intros (h' & Hh' & [Ha' _]%andb_true_iff)%(in_ring _ _ _ _ Hr). congruence. }
  destruct Hr as [Hq Hset].
  destruct (queue_insert_head_spec _ _ _ (N_queue p) Hq) as (m' & Hm' & Hq' & Hag).
  { intros [?|(? & [= ->] & ?)%list_elem_of_fmap]%elem_of_cons; done. }
  assert (Hset' : list_to_set (p :: ps) =
            set_where (active_of (watcher_type k)) (<[p := started c h]> (handles s))).
  { rewrite where_insert. unfold started, active_of at 1. flags_simpl. simpl.
    rewrite Ht, bool_decide_eq_true_2 by done. by rewrite Hset. }
  exists m'. set (s' := recount _). assert (Hrun : uv_watcher_start (E := E) k p (Some c) s = Ret 0 s').
  { unfold uv_watcher_start, bind. rewrite (deref_run _ _ _ Hp), Ha. unfold on_queues, bind, get.
    rewrite Hm'. simpl. rewrite (assign_run _ p h) by done.
    rewrite (handle_start_run _ p (set_watcher_cb (Some c) h)); [|..|apply lookup_insert_eq].
    2:{ apply (count_inv_ext (recount (upd p (set_watcher_cb (Some c) h) s))); [done| |].
        - simpl. rewrite (where_insert_same _ _ _ h _ Hp) by done. apply Hi.
        - eapply count_inv_upd; [apply Hi|done]. }
    unfold ret, s'. do 2 f_equal. unfold recount, upd. simpl. by rewrite !insert_insert_eq. }
  split; [done|]. split; [|by split].
  assert (s' = recount (upd p (started c h) (set_queues m' (set_timer_heap (timer_heap s) s)))) as ->.
  { by destruct s. }
  apply (loop_inv_upd _ _ h); try done.
  - split; [done|]. unfold started. by rewrite !has_or_other by done.
  - pose proof (li_ok _ Hi _ _ Hp) as []. split; try done; simpl.
    intros _. rewrite Ht. by destruct k.
  - by eapply heap_watcher.
  - apply (rings_upd s k p h (started c h) (p :: ps)); try done. intros k' qs Hk Hr a Hin. apply Hag.
    apply (other_ring s k k' (p :: ps) qs) in Hin; [|done| |done]; [set_solver|].
    intros x g [->|Hx]%elem_of_cons Hg; [congruence|]. by eapply (ring_typed s k ps).
  - intros a Hpa. apply Hag. intros Hin. set_unfold. 
    destruct Hin as [->|[->|(? & -> & _)]]; done.
Qed.

Lemma agree_loop_nodes k ps (m m' : qmem qaddr) :
  agree (fun a => a ∉ Q_watchers k :: (N_queue <$> ps)) m m' ->
  agree (fun a => match a with Q_watchers _ | N_queue _ => False | _ => True end) m m'.
Proof.
  intros Hag a Ha. apply Hag.
  intros [->|(? & -> & _)%list_elem_of_fmap]%elem_of_cons; done.
Qed.

Lemma watcher_stop_run s k p h xs ys :
  loop_inv s -> handles s !! p = Some h -> type h = watcher_type k ->
  ring s k (xs ++ p :: ys) ->
  exists m', let s' := recount (upd p (clear_flags UV__HANDLE_ACTIVE h) (set_queues m' s)) in
    uv_watcher_stop (E := E) p s = Ret 0 s' /\ loop_inv s' /\ ring s' k (xs ++ ys).
Proof.
  intros Hi Hp Ht Hr. assert (Ha : uv__is_active h = true).
  { assert (Hin : p ∈ xs ++ p :: ys) by set_solver.
    apply (in_ring _ _ _ _ Hr) in Hin as (h' & ? & [? _]%andb_true_iff). congruence. }
  pose proof Hr as [Hq Hset]. rewrite fmap_app, fmap_cons in Hq.
  destruct (queue_remove_spec _ _ _ _ _ Hq) as (m' & Hm' & Hq' & Hag).
  rewrite <- fmap_app in Hq', Hag.
  assert (Hn : p ∉ xs ++ ys).
  { destruct Hq as [Hnd _]. apply NoDup_cons in Hnd as [_ Hnd].
    rewrite <- fmap_cons, <- fmap_app in Hnd. apply NoDup_fmap_1 in Hnd.
    apply NoDup_app in Hnd as (_ & H1 & [H2 _]%NoDup_cons).
    intros [Hx|Hy]%elem_of_app; [|done]. by apply (H1 p Hx), elem_of_cons; left. }
  set (h' := clear_flags UV__HANDLE_ACTIVE h).
  assert (Hset' : list_to_set (xs ++ ys) =
            set_where (active_of (watcher_type k)) (<[p := h']> (handles s))).
  { rewrite where_insert. unfold h', active_of at 1. flags_simpl. simpl. rewrite <- Hset.
    rewrite !list_to_set_app_L, list_to_set_cons. 
    rewrite not_elem_of_app in Hn. destruct Hn.
    assert (p ∉ (list_to_set xs : gset ptr) ∪ list_to_set ys) by set_solver. set_solver. }
  exists m'. set (s' := recount _). assert (Hrun : uv_watcher_stop (E := E) p s = Ret 0 s').
  { unfold uv_watcher_stop, bind. rewrite (deref_run _ _ _ Hp), Ha. cbn [negb]. unfold on_queues, bind, get.
    rewrite Hm'. simpl. rewrite (handle_stop_run _ p h); [done| |done].
    by apply (count_inv_ext s), li_count. }
  split; [done|]. split; [|by split].
  assert (s' = recount (upd p h' (set_queues m' (set_timer_heap (timer_heap s) s)))) as -> by by destruct s.
  apply (loop_inv_upd _ _ h); try done.
  - apply same_close_clear.
  - by apply handle_ok_clear, (li_ok _ Hi p).
  - by eapply heap_watcher.
  - apply (rings_upd s k p h h' (xs ++ ys)); try done. intros k' qs Hk Hr' a Hin. apply Hag.
    apply (other_ring s k k' (xs ++ ys) qs) in Hin; [done|done| |done].
    intros x g Hx. apply (ring_typed s k _ Hr). set_solver.
  - by apply (agree_loop_nodes k (xs ++ ys)).
Qed.

(** ** A pass over a ring, when the callbacks work outside the loop *)

Context (record : cb -> ptr -> X -> X).
Let external (c : cb) (p : ptr) : M st E unit :=
  modify (fun s => set_env (record c p (env s)) s).

Fixpoint watched (m : gmap ptr (uv_handle cb)) ps (x : X) : X :=
  match ps with
  | [] => x
  | p :: ps =>
      watched m ps match m !! p ≫= watcher_cb with Some c => record c p x | None => x end
  end.

Lemma run_watchers_from_spec fuel k : forall ys xs s,
  is_queue (queues s) (Q_watchers k) (N_queue <$> xs ++ ys) ->
  (forall p, p ∈ ys -> exists h c, handles s !! p = Some h /\ watcher_cb h = Some c) ->
  (length ys <= fuel)%nat ->
  run_watchers_from external fuel k (hd (Q_watchers k) (N_queue <$> ys)) s =
  Ret tt (set_env (watched (handles s) ys (env s)) s).
Proof.
  induction fuel as [|fuel IH]; intros [|p ys] xs s Hq Hcb Hf; simpl in *; try lia.
  1,2: rewrite decide_True by done; by destruct s.
  destruct (Hcb p) as (h & c & Hp & Hc); [set_solver|]. unfold bind at 1.
  rewrite (deref_run _ _ _ Hp), Hc, Hp. simpl. rewrite Hc. unfold bind at 1, external, modify.
  rewrite fmap_app, fmap_cons in Hq.
  destruct (is_queue_middle _ _ _ _ _ Hq) as [Hn _]. unfold bind, ask_queue, bind, get.
  simpl. rewrite Hn. simpl.
  apply (IH ys (xs ++ [p]) (set_env (record c p (env s)) s)); [|set_solver|lia].
  simpl. by rewrite <- app_assoc, fmap_app.
Qed.

Lemma run_watchers_run fuel s k ps :
  loop_inv s -> ring s k ps -> (length ps <= fuel)%nat ->
  uv__run_watchers external fuel k s = Ret tt (set_env (watched (handles s) ps (env s)) s).
Proof.
  intros Hi Hr Hf. unfold uv__run_watchers, ask_queue, bind, get.
  rewrite (is_queue_next _ _ _ (proj1 Hr)). simpl.
  apply (run_watchers_from_spec fuel k ps []); [apply Hr| |done].
  intros p Hp. apply (in_ring _ _ _ _ Hr) in Hp as (h & Hh & [Ha Ht%bool_decide_eq_true]%andb_true_iff).
  destruct (ho_watcher_cb _ (li_ok _ Hi _ _ Hh) _ Ha Ht) as [c Hc]. eauto.
Qed.
End Watch.
