(* ===== verification/UvClose.v ===== *)
(** * Closing handles

    [uv_close] marks a handle and puts it on the closing list;
    [uv__run_closing_handles] finishes every handle of that list: the two
    halves of the close state machine of [unix/core.c]. *)

From stdpp Require Import base option list gmap.
From Stdlib Require Import ZArith Lia.
From S2P Require Import Prelude UvPrio UvQueue UvLoop UvCore UvInv UvTimer UvWatch.

Local Open Scope Z_scope.

Section Close.
Context {Q : Type} `{!PrioQueue Q} `{!PrioQueueSpec Q} {cb X E : Type}.

Let st : Type := uv_state Q cb X.
Implicit Types (h : uv_handle cb) (s : st) (p : ptr) (ps : list ptr).

Context (close_other : uv_handle_type -> ptr -> M st E unit).

(** The handles waiting for their close callback, latest first. *)
Definition closing_list s ps : Prop := NoDup ps /\ chain (handles s) (closing_handles s) ps.

Lemma chain_in (m : gmap ptr (uv_handle cb)) ps : forall o p,
  chain m o ps -> p ∈ ps ->
  exists h, m !! p = Some h /\ has_flag h UV_CLOSING = true /\ has_flag h UV_CLOSED = false.
Proof.
  induction ps as [|q ps IH]; intros o p; [set_solver|].
  intros (_ & h & Hh & ? & ? & Hc) [->|Hp]%elem_of_cons; [eauto|]. by eapply IH.
Qed.

Lemma chain_ne (m : gmap ptr (uv_handle cb)) ps h p : forall o,
  p ∉ ps -> chain m o ps -> chain (<[p := h]> m) o ps.
Proof.
  induction ps as [|q ps IH]; intros o Hn; [done|]. rewrite not_elem_of_cons in Hn.
  destruct Hn as [Hpq Hn]. intros (-> & g & Hg & ? & ? & Hc). split; [done|]. exists g.
  rewrite lookup_insert_ne by done. split_and!; [done..|]. by apply IH.
Qed.

Definition marked (c : option cb) h : uv_handle cb := set_close_cb c (or_flags UV_CLOSING h).

Lemma has_marked c h f : Z.land UV_CLOSING f = 0 -> has_flag (marked c h) f = has_flag h f.
Proof. apply has_or_other. Qed.

(** The handle is now closing; nothing else changed. *)
Lemma loop_inv_mark s p h c ps :
  loop_inv s -> handles s !! p = Some h -> has_flag h UV_CLOSING = false -> closing_list s ps ->
  loop_inv (upd p (marked c h) s) /\ closing_list (upd p (marked c h) s) ps /\ p ∉ ps.
Proof.
  intros Hi Hp Hn [Hnd Hc]. assert (Hps : p ∉ ps).
  { intros Hin. destruct (chain_in _ _ _ _ Hc Hin) as (g & ? & ? & _). congruence. }
  assert (forall t, active_of t (marked c h) = active_of t h) as Ha.
  { intros t. unfold active_of, uv__is_active. by rewrite has_marked. }
  assert (closing_list (upd p (marked c h) s) ps) as Hcl by (split; [done|by apply chain_ne]).
  split_and!; [|done|done]. pose proof (li_ok _ Hi _ _ Hp) as Hok. split.
  - split; simpl.
    + rewrite (where_insert_same _ _ _ h) by
        (done || unfold counted, uv__is_active, uv__has_ref; by rewrite !has_marked). apply Hi.
    + rewrite (size_insert_same _ _ h) by done. apply Hi.
  - apply map_Forall_insert_2; [|apply Hi]. destruct Hok as [? ? H1 H2].
    split; [done..| |]; unfold uv__is_active in *; rewrite has_marked by done; [exact H1|exact H2].
  - apply (heap_upd_same s p h); [done..|apply Ha|done].
  - apply (watch_upd_same s p h); [done..|]. intros k. apply Ha.
  - destruct (li_open _ Hi) as (qs & Hq & Hs). exists qs. split; [done|]. rewrite Hs. symmetry.
    eapply where_insert_same; [done|]. unfold not_closed. by rewrite has_marked.
  - apply (li_reqs _ Hi).
  - exists ps. apply Hcl.
Qed.

Lemma make_close_pending_run s p h ps :
  loop_inv s -> handles s !! p = Some h -> has_flag h UV_CLOSING = true ->
  has_flag h UV_CLOSED = false -> closing_list s ps -> p ∉ ps ->
  exists s', uv__make_close_pending (E := E) p s = Ret tt s' /\
    s' = set_closing_handles (Some p) (upd p (set_next_closing (closing_handles s) h) s) /\
    loop_inv s' /\ closing_list s' (p :: ps).
Proof.
  intros Hi Hp Hg Hd [Hnd Hc] Hps. eexists. split; [|split; [reflexivity|]].
  { unfold uv__make_close_pending, bind. rewrite (deref_run _ _ _ Hp), Hg, Hd. simpl.
    by rewrite (assign_run s p h). }
  set (h' := set_next_closing _ h).
  assert (closing_list (set_closing_handles (Some p) (upd p h' s)) (p :: ps)) as Hcl.
  { split; [by apply NoDup_cons|]. simpl. split; [done|]. exists h'.
    rewrite lookup_insert_eq. split_and!; try done. by apply chain_ne. }
  split; [|done]. split.
  - split; simpl; [rewrite (where_insert_same _ _ _ h) by done; apply Hi|].
    rewrite (size_insert_same _ _ h) by done. apply Hi.
  - apply map_Forall_insert_2; [|apply Hi]. by destruct (li_ok _ Hi _ _ Hp).
  - by apply (heap_upd_same s p h).
  - by apply (watch_upd_same s p h).
  - destruct (li_open _ Hi) as (qs & Hq & Hs). exists qs. split; [done|]. rewrite Hs. symmetry.
    by eapply where_insert_same.
  - apply (li_reqs _ Hi).
  - exists (p :: ps). apply Hcl.
Qed.

(** Stopping a timer or a watcher, as [uv_close] does. *)
Definition stopped s s' p h : Prop :=
  loop_inv s' /\ handles s' = <[p := clear_flags UV__HANDLE_ACTIVE h]> (handles s) /\
  closing_handles s' = closing_handles s /\ env s' = env s.

Lemma timer_close_run s p h :
  loop_inv s -> handles s !! p = Some h -> type h = UV_TIMER ->
  exists s', uv__timer_close (E := E) p s = Ret tt s' /\ stopped s s' p h.
Proof.
  intros Hi Hp Ht. destruct (timer_stop_run (E := E) s p h Hi Hp Ht) as (q & Hrun & Hi').
  eexists. split; [unfold uv__timer_close, bind; by rewrite Hrun|]. done.
Qed.

Lemma watcher_close_run s k p h :
  loop_inv s -> handles s !! p = Some h -> type h = watcher_type k ->
  exists s', uv__watcher_close (E := E) p s = Ret tt s' /\ stopped s s' p h.
Proof.
  intros Hi Hp Ht. unfold uv__watcher_close, bind. destruct (uv__is_active h) eqn:Ha.
  - destruct (li_watch _ Hi k) as (qs & Hq & Hs).
    assert (p ∈ qs) as (xs & ys & ->)%list_elem_of_split.
    { apply (in_ring s k qs p (conj Hq Hs)). exists h. split; [done|].
      unfold active_of. by rewrite Ha, bool_decide_eq_true_2. }
    destruct (watcher_stop_run (E := E) s k p h xs ys Hi Hp Ht (conj Hq Hs)) as (m' & Hrun & Hi' & _).
    rewrite Hrun. by eexists.
  - unfold uv_watcher_stop, bind. rewrite (deref_run _ _ _ Hp), Ha. exists s. split; [done|].
    split_and!; try done. by rewrite clear_absent, insert_id.
Qed.

Definition closable (t : uv_handle_type) : Prop := t = UV_TIMER \/ exists k, t = watcher_type k.

Lemma closing_list_upd s s' p h h' ps :
  closing_list s ps -> handles s !! p = Some h -> same_close h h' ->
  handles s' = <[p := h']> (handles s) -> closing_handles s' = closing_handles s ->
  closing_list s' ps.
Proof. intros [? ?] Hp Hc E1 E2. split; [done|]. rewrite E1, E2. by eapply chain_upd. Qed.

Lemma close_run s p h c ps :
  loop_inv s -> handles s !! p = Some h -> closable (type h) -> uv__is_closing h = false ->
  closing_list s ps ->
  exists s' h', uv_close close_other p c s = Ret tt s' /\ loop_inv s' /\
    closing_list s' (p :: ps) /\ env s' = env s /\ handles s' = <[p := h']> (handles s) /\
    type h' = type h /\ close_cb h' = c /\ uv__is_active h' = false /\
    has_flag h' UV_CLOSING = true /\ has_flag h' UV_CLOSED = false.
Proof.
  intros Hi Hp Ht Hn Hcl. pose proof Hn as Hn'. unfold uv__is_closing in Hn'.
  rewrite has_flag_lor in Hn'. apply orb_false_iff in Hn' as [Hn1 Hn2].
  destruct (loop_inv_mark s p h c ps Hi Hp Hn1 Hcl) as (Hi1 & Hcl1 & Hps).
  set (s1 := upd p (marked c h) s) in *.
  assert (Hp1 : handles s1 !! p = Some (marked c h)) by apply lookup_insert_eq.
  assert (exists s2, stopped s1 s2 p (marked c h) /\
    uv_close close_other p c s = uv__make_close_pending (E := E) p s2) as (s2 & Hs2 & ->).
  { unfold uv_close. unfold bind at 1. rewrite (deref_run _ _ _ Hp). cbn beta iota.
    unfold uv__is_closing in Hn. rewrite Hn. unfold bind at 1, assertM, ret; simpl.
    unfold bind at 1. rewrite (assign_run s p h) by done. unfold bind at 1.
    erewrite assign_run by apply lookup_insert_eq. rewrite upd_upd. fold (marked c h). fold s1.
    destruct Ht as [Ht|[k Ht]].
    - destruct (timer_close_run s1 p _ Hi1 Hp1 Ht) as (s2 & Hrun & Hst). exists s2.
      split; [done|]. rewrite Ht. unfold bind. by rewrite Hrun.
    - destruct (watcher_close_run s1 k p _ Hi1 Hp1 Ht) as (s2 & Hrun & Hst). exists s2.
      split; [done|]. rewrite Ht. unfold bind. destruct k; cbn [watcher_type]; by rewrite Hrun. }
  destruct Hs2 as (Hi2 & E1 & E2 & E3).
  set (h2 := clear_flags UV__HANDLE_ACTIVE (marked c h)) in *.
  assert (Hp2 : handles s2 !! p = Some h2) by (rewrite E1; apply lookup_insert_eq).
  assert (has_flag h2 UV_CLOSING = true) as Hg.
  { unfold h2. rewrite has_clear_other by done. by apply has_or_same. }
  assert (has_flag h2 UV_CLOSED = false) as Hd.
  { unfold h2. rewrite has_clear_other by done. by rewrite has_marked. }
  assert (closing_list s2 ps) as Hcl2.
  { eapply closing_list_upd; [exact Hcl1|done| |done|done]. apply same_close_clear. }
  destruct (make_close_pending_run s2 p h2 ps Hi2 Hp2 Hg Hd Hcl2 Hps) as (s3 & Hrun & -> & Hi3 & Hcl3).
  eexists _, (set_next_closing (closing_handles s2) h2).
  split; [done|]. split_and!; try done.
  - simpl. rewrite E1. simpl. by rewrite !insert_insert_eq.
  - unfold uv__is_active. apply has_clear_same.
Qed.

End Close.

(** ** Finishing *)

Section Finish.
Context {Q : Type} `{!PrioQueue Q} `{!PrioQueueSpec Q} {cb X E : Type}.

Let st : Type := uv_state Q cb X.
Implicit Types (h : uv_handle cb) (s : st) (p : ptr) (ps : list ptr).

Context (finish_close_other : uv_handle_type -> ptr -> M st E unit).
Context (record : cb -> ptr -> X -> X).
Let external (c : cb) (p : ptr) : M st E unit :=
  modify (fun s => set_env (record c p (env s)) s).

Definition simple (t : uv_handle_type) : Prop :=
  t ∈ [UV_PREPARE; UV_CHECK; UV_IDLE; UV_ASYNC; UV_TIMER; UV_PROCESS; UV_FS_EVENT;
       UV_FS_POLL; UV_POLL; UV_SIGNAL].

Definition finished h : uv_handle cb :=
  clear_flags UV__HANDLE_REF (or_flags UV_CLOSED h).

Definition close_called h p (x : X) : X :=
  match close_cb h with Some c => record c p x | None => x end.

(** A handle leaves the list of the open handles. *)
Lemma open_remove s p h h' :
  loop_inv s -> handles s !! p = Some h -> not_closed h = true -> not_closed h' = false ->
  exists m', QUEUE_REMOVE (N_handle_queue p) (queues s) = Some m' /\
    (exists ps, is_queue m' Q_handle_queue (N_handle_queue <$> ps) /\
       list_to_set ps = set_where not_closed (<[p := h']> (handles s))) /\
    agree (fun a => match a with Q_handle_queue | N_handle_queue _ => False | _ => True end)
      (queues s) m'.
Proof.
  intros Hi Hp Ho Hc. destruct (li_open _ Hi) as (ps & Hq & Hs).
  assert (p ∈ ps) as (xs & ys & ->)%list_elem_of_split.
  { apply (elem_of_list_to_set (C := gset ptr)). rewrite Hs. apply elem_of_where. eauto. }
  rewrite fmap_app, fmap_cons in Hq.
  destruct (queue_remove_spec _ _ _ _ _ Hq) as (m' & Hm' & Hq' & Hag). exists m'.
  split; [done|]. split.
  - exists (xs ++ ys). rewrite fmap_app. split; [done|]. rewrite where_insert, Hc, <- Hs.
    destruct Hq as [[_ Hnd]%NoDup_cons _]. rewrite <- fmap_cons, <- fmap_app in Hnd.
    apply NoDup_fmap_1, NoDup_app in Hnd as (_ & H1 & [H2 _]%NoDup_cons).
    assert (p ∉ xs) by (intros Hx; by apply (H1 _ Hx), elem_of_cons; left).
    rewrite !list_to_set_app_L, list_to_set_cons.
    assert (p ∉ (list_to_set xs : gset ptr) ∪ list_to_set ys) by set_solver. set_solver.
  - intros a Ha. apply Hag. intros [->|Hin]%elem_of_cons; [done|].
    rewrite <- fmap_app in Hin. by apply list_elem_of_fmap in Hin as (? & -> & _).
Qed.

Lemma loop_inv_finish s p h (m' : qmem qaddr) :
  loop_inv s -> handles s !! p = Some h -> closing_handles s = None ->
  (exists ps, is_queue m' Q_handle_queue (N_handle_queue <$> ps) /\
       list_to_set ps = set_where not_closed (<[p := finished h]> (handles s))) ->
  agree (fun a => match a with Q_handle_queue | N_handle_queue _ => False | _ => True end)
      (queues s) m' ->
  loop_inv (recount (upd p (finished h) (set_queues m' s))).
Proof.
  intros Hi Hp Hcl Ho Hag. assert (forall t, active_of t (finished h) = active_of t h) as Ha.
  { intros t. unfold active_of, finished. by flags_simpl. }
  split; simpl.
  - eapply count_inv_upd; [|done]. by apply (count_inv_ext s), li_count.
  - apply map_Forall_insert_2; [|apply Hi]. destruct (li_ok _ Hi _ _ Hp) as [? ? H1 H2].
    unfold finished. split; [done..| |]; flags_simpl; [exact H1|exact H2].
  - apply (heap_upd_same s p h); [done..|apply Ha|done].
  - intros k. destruct (watch_upd_same s p h (finished h) Hi Hp (fun k => Ha _) k) as (qs & Hq & Hs).
    exists qs. split; [|done]. eapply is_queue_agree; [done| |done].
    intros a [->|(? & -> & ?)%list_elem_of_fmap]%elem_of_cons; done.
  - done.
  - destruct (li_reqs _ Hi) as (rs & Hq). exists rs. eapply is_queue_agree; [done| |done].
    intros a [->|(? & -> & ?)%list_elem_of_fmap]%elem_of_cons; done.
  - exists []. split; [constructor|]. done.
Qed.

Lemma finish_close_run s p h :
  loop_inv s -> handles s !! p = Some h -> simple (type h) -> closing_handles s = None ->
  has_flag h UV_CLOSING = true -> has_flag h UV_CLOSED = false ->
  exists s', uv__finish_close external finish_close_other p s = Ret tt s' /\ loop_inv s' /\
    handles s' = <[p := finished h]> (handles s) /\ closing_handles s' = None /\
    env s' = close_called h p (env s).
Proof.
  intros Hi Hp Ht Hcl Hg Hd.
  destruct (open_remove s p h (finished h) Hi Hp) as (m' & Hm' & Ho & Hag).
  { unfold not_closed. by rewrite Hd. }
  { unfold not_closed, finished. rewrite has_clear_other by done. by rewrite has_or_same. }
  pose proof (loop_inv_finish s p h m' Hi Hp Hcl Ho Hag) as Hi'.
  set (s' := recount _) in Hi'.
  exists (set_env (close_called h p (env s)) s').
  split; [|split_and!; try done].
  2:{ destruct Hi'. split; try done. by apply (count_inv_ext s'). }
  unfold uv__finish_close. unfold bind at 1. rewrite (deref_run _ _ _ Hp), Hg, Hd.
  unfold bind at 1, assertM, ret; simpl. unfold bind at 1; simpl. unfold bind at 1.
  rewrite (assign_run s p h) by done.
  set (s1 := upd p (or_flags UV_CLOSED h) s).
  assert (Hp1 : handles s1 !! p = Some (or_flags UV_CLOSED h)) by apply lookup_insert_eq.
  assert (Hc1 : count_inv s1).
  { apply (count_inv_ext (recount s1)); [done| |eapply count_inv_upd; [apply Hi|done]].
    simpl. rewrite (where_insert_same _ _ _ h) by
      (done || unfold counted; by flags_simpl). apply Hi. }
  transitivity ((uv__handle_unref p ;;; on_queues (QUEUE_REMOVE (N_handle_queue p)) ;;;
    h0 <- deref p ;; match close_cb h0 with Some c => external c p | None => skip end)%prog s1).
  { unfold simple in Ht. repeat (apply elem_of_cons in Ht as [->|Ht]; [done|]).
    by apply not_elem_of_nil in Ht. }
  unfold bind at 1. rewrite (handle_unref_run s1 p _ Hc1 Hp1). fold (finished h).
  unfold s1. simpl. rewrite upd_upd.
  unfold bind at 1, on_queues, bind at 1, get. simpl. unfold bind at 1. rewrite Hm'. simpl.
  unfold bind. rewrite (deref_run _ p (finished h)) by apply lookup_insert_eq.
  unfold close_called. change (close_cb (finished h)) with (close_cb h).
  destruct (close_cb h); done.
Qed.

(** The handles [ps] are finished, all others as before. *)
Fixpoint finish_all (m : gmap ptr (uv_handle cb)) ps : gmap ptr (uv_handle cb) :=
  match ps with
  | [] => m
  | p :: ps => finish_all (alter finished p m) ps
  end.

Fixpoint close_calls (m : gmap ptr (uv_handle cb)) ps (x : X) : X :=
  match ps with
  | [] => x
  | p :: ps => close_calls m ps match m !! p with Some h => close_called h p x | None => x end
  end.

Lemma close_calls_ne m p h ps x : p ∉ ps -> close_calls (<[p := h]> m) ps x = close_calls m ps x.
Proof.
  revert x. induction ps as [|q ps IH]; intros x Hn; [done|]. rewrite not_elem_of_cons in Hn.
  destruct Hn as [? ?]. simpl. rewrite lookup_insert_ne by done. by apply IH.
Qed.

Lemma finish_closing_run fuel ps : forall s o,
  loop_inv s -> closing_handles s = None -> NoDup ps -> chain (handles s) o ps ->
  (forall p h, p ∈ ps -> handles s !! p = Some h -> simple (type h)) ->
  (length ps <= fuel)%nat ->
  exists s', finish_closing external finish_close_other fuel o s = Ret tt s' /\ loop_inv s' /\
    closing_handles s' = None /\ handles s' = finish_all (handles s) ps /\
    env s' = close_calls (handles s) ps (env s).
Proof.
  revert fuel. induction ps as [|p ps IH]; intros [|fuel] s o Hi Hcl Hnd Hc Hty Hf;
    simpl in Hf; try lia.
  1,2: rewrite Hc; by exists s.
  destruct Hc as (-> & h & Hp & Hg & Hd & Hc). apply NoDup_cons in Hnd as [Hn Hnd].
  destruct (finish_close_run s p h Hi Hp) as (s1 & Hrun & Hi1 & E1 & E2 & E3);
    [by apply (Hty p); [set_solver|]|done..|].
  simpl. unfold bind at 1. rewrite (deref_run _ _ _ Hp). unfold bind. rewrite Hrun.
  destruct (IH fuel s1 (next_closing h)) as (s' & Hrun' & Hi' & F1 & F2 & F3); try done.
  - rewrite E1. by apply chain_ne.
  - intros q g Hq Hg'. rewrite E1, lookup_insert_ne in Hg' by by intros ->.
    apply (Hty q); [set_solver|done].
  - lia.
  - exists s'. split_and!; try done.
    + rewrite F2, E1. f_equal. apply map_eq. intros q. destruct (decide (q = p)) as [->|].
      * by rewrite lookup_insert_eq, lookup_alter_eq, Hp.
      * by rewrite lookup_insert_ne, lookup_alter_ne by done.
    + by rewrite F3, E1, E3, Hp, close_calls_ne.
Qed.
Lemma closing_run fuel s ps :
  loop_inv s -> closing_list s ps ->
  (forall p h, p ∈ ps -> handles s !! p = Some h -> simple (type h)) ->
  (length ps <= fuel)%nat ->
  exists s', uv__run_closing_handles external finish_close_other fuel s = Ret tt s' /\
    loop_inv s' /\ closing_handles s' = None /\ handles s' = finish_all (handles s) ps /\
    env s' = close_calls (handles s) ps (env s).
Proof.
  intros Hi [Hnd Hc] Hty Hf. unfold uv__run_closing_handles, bind, get, modify.
  apply (finish_closing_run fuel ps (set_closing_handles None s)); try done.
  destruct Hi. split; try done; [by apply (count_inv_ext s)|].
  exists []. split; [constructor|done].
Qed.
End Finish.
