(* ===== verification/UvInit.v ===== *)
(** * Fresh loops and fresh handles

    The state [uv_loop_init_fields] sets up is consistent, and initialising a handle
    keeps a loop consistent. *)

From stdpp Require Import base option list gmap.
From Stdlib Require Import ZArith Lia.
From S2P Require Import Prelude UvPrio UvQueue UvLoop UvCore UvInv UvTimer.

Local Open Scope Z_scope.

Section Init.
Context {Q : Type} `{!PrioQueue Q} `{!PrioQueueSpec Q} {cb X E : Type}.

Let st : Type := uv_state Q cb X.
Implicit Types (h : uv_handle cb) (s : st) (p : ptr).

Lemma where_empty (f : uv_handle cb -> bool) : set_where f (∅ : gmap ptr (uv_handle cb)) = ∅.
Proof. apply set_eq. intros x. rewrite elem_of_where. set_solver. Qed.

Lemma loop_init_inv (hrtime : X -> Z * X) x : loop_inv (uv_loop_init_fields hrtime x : st).
Proof.
  unfold uv_loop_init_fields. destruct (hrtime x) as [t y]. split; simpl; rewrite ?where_empty.
  - split; simpl; rewrite ?where_empty; done.
  - apply map_Forall_empty.
  - apply pq_init_ok.
  - intros k. exists []. rewrite where_empty. split; [|done].
    split; [apply NoDup_singleton|by destruct k].
  - exists []. split; [|done]. split; [apply NoDup_singleton|done].
  - exists []. split; [apply NoDup_singleton|done].
  - exists []. split; [constructor|done].
Qed.

(** The fields every [uv_*_init] leaves in the handle. *)
Definition blank (t : uv_handle_type) h0 : uv_handle cb :=
  set_next_closing None (set_flags UV__HANDLE_REF (set_type t h0)).

Lemma where_fresh (f : uv_handle cb -> bool) (m : gmap ptr (uv_handle cb)) p h :
  m !! p = None -> f h = false -> set_where f (<[p := h]> m) = set_where f m.
Proof.
  intros Hp Hf. rewrite where_insert, Hf.
  assert (p ∉ set_where f m); [|set_solver].
  intros (g & ? & _)%elem_of_where. congruence.
Qed.

Lemma blank_inactive t h0 t' : active_of t' (blank t h0) = false.
Proof. done. Qed.

(** The queues and the handles after [uv__handle_init]. *)
Lemma handle_init_run s p h0 t :
  loop_inv s -> handles s !! p = None -> Z.of_nat (size (handles s)) + 1 < UINT_MAX ->
  exists m', uv__handle_init (E := E) p h0 t s = Ret tt (upd p (blank t h0) (set_queues m' s)) /\
    (exists ps, is_queue m' Q_handle_queue (N_handle_queue <$> ps) /\
       list_to_set ps = {[p]} ∪ set_where not_closed (handles s)) /\
    agree (fun a => match a with Q_handle_queue | N_handle_queue _ => False | _ => True end)
      (queues s) m'.
Proof.
  intros Hi Hp Hsz. destruct (li_open _ Hi) as (ps & Hq & Hs).
  assert (Hn : p ∉ ps).
  { intros Hin%(elem_of_list_to_set (C := gset ptr)). rewrite Hs in Hin.
    apply elem_of_where in Hin as (g & ? & _). congruence. }
  destruct (queue_insert_tail_spec _ _ _ (N_handle_queue p) Hq) as (m' & Hm' & Hq' & Hag).
  { intros [?|(? & [= ->] & ?)%list_elem_of_fmap]%elem_of_cons; done. }
  exists m'. split_and!.
  - unfold uv__handle_init, bind, modify, on_queues, bind, get. cbn [queues set_handles].
    rewrite Hm'. simpl. erewrite assign_run by apply lookup_insert_eq.
    unfold blank, upd. simpl. by rewrite insert_insert_eq.
  - exists (ps ++ [p]). rewrite fmap_app. split; [done|].
    rewrite list_to_set_app_L, Hs. set_solver.
  - intros a Ha. apply Hag. rewrite !not_elem_of_cons. split_and!; [by intros ->..|].
    intros (? & -> & _)%list_elem_of_fmap. done.
Qed.

Lemma init_inv s p h t (m' : qmem qaddr) :
  loop_inv s -> handles s !! p = None -> Z.of_nat (size (handles s)) + 1 < UINT_MAX ->
  uv__is_active h = false -> not_closed h = true -> handle_ok h -> type h = t ->
  (exists ps, is_queue m' Q_handle_queue (N_handle_queue <$> ps) /\
     list_to_set ps = {[p]} ∪ set_where not_closed (handles s)) ->
  agree (fun a => match a with Q_handle_queue | N_handle_queue _ => False | _ => True end)
    (queues s) m' ->
  loop_inv (upd p h (set_queues m' s)).
Proof.
  intros Hi Hp Hsz Ha Ho Hok Ht Hopen Hag.
  assert (forall t, active_of t h = false) as Hna by (intros t'; unfold active_of; by rewrite Ha).
  split; simpl.
  - split; simpl.
    + rewrite where_fresh by (done || unfold counted; by rewrite Ha). apply Hi.
    + rewrite map_size_insert_None by done. lia.
  - apply map_Forall_insert_2; [done|apply Hi].
  - rewrite where_fresh by done. eapply pq_ext, (li_heap _ Hi). intros x y Hx Hy.
    apply elem_of_where in Hx as (? & ? & _). apply elem_of_where in Hy as (? & ? & _).
    unfold timer_less_than. by rewrite !lookup_insert_ne by congruence.
  - intros k. destruct (li_watch _ Hi k) as (qs & Hq & Hs). exists qs.
    rewrite where_fresh by done. split; [|done]. eapply is_queue_agree; [done| |done].
    intros a [->|(? & -> & ?)%list_elem_of_fmap]%elem_of_cons; done.
  - destruct Hopen as (qs & Hq & Hs). exists qs. split; [done|]. by rewrite where_insert, Ho.
  - destruct (li_reqs _ Hi) as (rs & Hq). exists rs. eapply is_queue_agree; [done| |done].
    intros a [->|(? & -> & ?)%list_elem_of_fmap]%elem_of_cons; done.
  - destruct (li_closing _ Hi) as (qs & Hnd & Hc). exists qs. split; [done|].
    clear -Hc Hp. revert Hc. generalize (closing_handles s).
    induction qs as [|q qs IH]; intros o; [done|]. intros (-> & g & Hg & ? & ? & Hc).
    split; [done|]. exists g. rewrite lookup_insert_ne by congruence. split_and!; [done..|]. by apply IH.
Qed.

(** A handle in memory whose unsigned fields are in range. *)
Definition typed h0 : Prop := 0 <= repeat_ h0 <= UINT64_MAX /\ 0 <= timeout h0 <= UINT64_MAX.

Lemma timer_init_run s p h0 :
  loop_inv s -> handles s !! p = None -> Z.of_nat (size (handles s)) + 1 < UINT_MAX -> typed h0 ->
  exists s', uv_timer_init (E := E) p h0 s = Ret 0 s' /\ loop_inv s' /\
    handles s' = <[p := set_repeat 0 (set_timer_cb None (blank UV_TIMER h0))]> (handles s) /\
    time s' = time s /\ env s' = env s.
Proof.
  intros Hi Hp Hsz [Hr Ht]. destruct (handle_init_run s p h0 UV_TIMER Hi Hp Hsz) as (m' & Hrun & Ho & Hag).
  eexists. split_and!.
  - unfold uv_timer_init, bind. rewrite Hrun.
    rewrite (assign_run _ p (blank UV_TIMER h0)) by apply lookup_insert_eq. rewrite upd_upd.
    erewrite assign_run by apply lookup_insert_eq. rewrite upd_upd. done.
  - apply (init_inv s p _ UV_TIMER); try done.
  - done.
  - done.
  - done.
Qed.

Lemma watcher_init_run s k p h0 :
  loop_inv s -> handles s !! p = None -> Z.of_nat (size (handles s)) + 1 < UINT_MAX -> typed h0 ->
  exists s', uv_watcher_init (E := E) k p h0 s = Ret 0 s' /\ loop_inv s' /\
    handles s' = <[p := set_watcher_cb None (blank (watcher_type k) h0)]> (handles s) /\
    time s' = time s /\ env s' = env s.
Proof.
  intros Hi Hp Hsz [Hr Ht].
  destruct (handle_init_run s p h0 (watcher_type k) Hi Hp Hsz) as (m' & Hrun & Ho & Hag).
  eexists. split_and!.
  - unfold uv_watcher_init, bind. rewrite Hrun.
    erewrite assign_run by apply lookup_insert_eq. rewrite upd_upd. done.
  - apply (init_inv s p _ (watcher_type k)); try done.
  - done.
  - done.
  - done.
Qed.
End Init.
