(* ===== verification/UvRun.v ===== *)
(** * Running the loop until nothing is left

    How long [uv_run] sleeps and when it goes on, and a loop whose only active
    handles are one-shot timers: [uv_run] fires them all, in order and never
    early, and returns.  The world outside the loop is a clock that does not go
    back, a poll that sleeps as long as it is told, and callbacks that are
    recorded with the time they ran. *)

From stdpp Require Import base option list gmap sorting.
From Stdlib Require Import ZArith Lia Sorted.
From S2P Require Import Prelude UvPrio UvQueue UvLoop UvCore UvInv UvTimer UvFire UvWatch UvClose.

Local Open Scope Z_scope.

Section Loop.
Context {Q : Type} `{!PrioQueue Q} `{!PrioQueueSpec Q} {cb X E : Type}.

Let st : Type := uv_state Q cb X.
Implicit Types (h : uv_handle cb) (s : st) (p : ptr).

Lemma backend_timeout_run s rs ps :
  loop_inv s -> 0 <= time s ->
  is_queue (queues s) Q_active_reqs (N_active_queue <$> rs) -> ring s Idle ps ->
  exists v, uv_backend_timeout s = Ret (E := E) v s /\
    if negb (stop_flag s =? 0) || (bool_decide (rs = []) && (active_handles s =? 0))
       || negb (bool_decide (ps = [])) || bool_decide (is_Some (closing_handles s))
    then v = 0
    else if decide (set_where (active_of UV_TIMER) (handles s) = ∅) then v = -1
    else 0 <= v <= INT_MAX /\
      (exists p h, handles s !! p = Some h /\ active_of UV_TIMER h = true /\
         v = Z.min INT_MAX (Z.max 0 (timeout h - time s))) /\
      (forall p h, handles s !! p = Some h -> active_of UV_TIMER h = true ->
         v <= Z.max 0 (timeout h - time s)).
Proof.
  intros Hi Ht Hr Hring.
  assert (uv__has_active_reqs s = Ret (E := E) (negb (bool_decide (rs = []))) s) as Hreqs.
  { unfold uv__has_active_reqs, ask_queue, bind, get. rewrite (queue_empty_spec _ _ _ Hr).
    by destruct rs. }
  assert (ask_queue (QUEUE_EMPTY (Q_watchers Idle)) s = Ret (E := E) (bool_decide (ps = [])) s) as Hidle.
  { unfold ask_queue, bind, get. rewrite (queue_empty_spec _ _ _ (proj1 Hring)). by destruct ps. }
  unfold uv_backend_timeout, bind, get, uv__has_active_handles.
  pose proof (ci_count _ (li_count _ Hi)) as Hc.
  assert (negb (0 <? active_handles s) = (active_handles s =? 0)) as ->.
  { destruct (Z.ltb_spec 0 (active_handles s)), (Z.eqb_spec (active_handles s) 0); simpl; lia. }
  destruct (stop_flag s =? 0); simpl; [|by exists 0].
  rewrite Hreqs, negb_involutive, (andb_comm (bool_decide _)).
  destruct ((active_handles s =? 0) && bool_decide (rs = [])); simpl; [by exists 0|].
  rewrite Hidle. destruct (bool_decide (ps = [])); simpl; [|by exists 0].
  destruct (closing_handles s) as [q|]; simpl.
  - by exists 0.
  - by apply next_timeout_run.
Qed.

Lemma loop_alive_run s rs :
  count_inv s -> is_queue (queues s) Q_active_reqs (N_active_queue <$> rs) ->
  exists b, uv__loop_alive s = Ret (E := E) b s /\
    (b = true <-> (exists p h, handles s !! p = Some h /\ uv__is_active h = true /\
                    uv__has_ref h = true) \/ rs <> [] \/ closing_handles s <> None).
Proof.
  intros Hi Hr. unfold uv__loop_alive, uv__has_active_reqs, ask_queue, bind, get.
  rewrite (queue_empty_spec _ _ _ Hr). simpl. eexists. split; [done|].
  assert (uv__has_active_handles s = true <->
    exists p h, handles s !! p = Some h /\ uv__is_active h = true /\ uv__has_ref h = true) as <-.
  { unfold uv__has_active_handles. rewrite (ci_count _ Hi), Z.ltb_lt.
    transitivity (set_where counted (handles s) ≢ ∅).
    - rewrite <- size_non_empty_iff. lia.
    - setoid_rewrite <- andb_true_iff. split.
      + intros (p & Hp)%set_choose. apply elem_of_where in Hp as (h & ? & ?). eauto.
      + intros (p & h & ? & ?). assert (p ∈ set_where counted (handles s)); [|set_solver].
        apply elem_of_where. eauto. }
  rewrite !orb_true_iff, negb_true_iff, bool_decide_eq_false, bool_decide_eq_true.
  rewrite <- not_eq_None_Some. destruct rs; naive_solver.
Qed.
End Loop.

(** ** The world outside the loop

    [calls] is the record of the callbacks run, with the time [now] they ran
    at; [HORIZON] is the last millisecond [uv__hrtime] can count to. *)

Definition HORIZON : Z := UINT64_MAX / 1000000.

Class World (cb X : Type) := {
  now : X -> Z;
  calls : X -> list (cb * ptr * Z);
  hrtime : X -> Z * X;
  wait : Z -> X -> X;
  record : cb -> ptr -> X -> X
}.

Class WorldLaws (cb X : Type) `{!World cb X} : Prop := {
  now_range x : 0 <= now x <= HORIZON;
  hrtime_now x : now x <= (hrtime x).1 / 1000000 /\ now (hrtime x).2 = (hrtime x).1 / 1000000;
  hrtime_calls x : calls (hrtime x).2 = calls x;
  wait_now t x : 0 <= t -> Z.min HORIZON (now x + t) <= now (wait t x);
  wait_calls t x : calls (wait t x) = calls x;
  record_now c p x : now x <= now (record c p x);
  record_calls c p x : calls (record c p x) = calls x ++ [(c, p, now x)]
}.

Section World.
Context {Q : Type} `{!PrioQueue Q} `{!PrioQueueSpec Q} {cb X E : Type} `{!World cb X} `{!WorldLaws cb X}.

Let st : Type := uv_state Q cb X.
Implicit Types (h : uv_handle cb) (s : st) (p : ptr) (m : gmap ptr (uv_handle cb)).

Definition epoll (t : Z) : M st E unit := modify (fun s => set_env (wait t (env s)) s).

Definition uv_run_world (n fuel : nat) (mode : uv_run_mode) : M st E bool :=
  uv_run (external record) hrtime (ret 0) epoll (fun _ _ => skip) n fuel mode.

(** ** A loop of one-shot timers *)

(** The timers are due within [INT_MAX] milliseconds from [t0], which is the
    longest a poll can sleep, and the time of the loop is behind the clock. *)
Record oneshot (t0 : Z) s : Prop := {
  os_inv : loop_inv s;
  os_timers p h : handles s !! p = Some h -> uv__is_active h = true ->
    type h = UV_TIMER /\ uv__has_ref h = true /\ repeat_ h = 0 /\
    timeout h <= Z.min HORIZON (t0 + INT_MAX);
  os_time : 0 <= t0 <= time s /\ time s <= now (env s);
  os_reqs : is_queue (queues s) Q_active_reqs [];
  os_closing : closing_handles s = None;
  os_stop : stop_flag s = 0
}.

Definition running s : gset ptr := set_where (active_of UV_TIMER) (handles s).

(** The callback of the timer [p] ran, at its due time or later. *)
Definition fired m p (e : cb * ptr * Z) : Prop :=
  exists h c t, m !! p = Some h /\ timer_cb h = Some c /\ e = (c, p, t) /\ timeout h <= t.

Lemma set_env_id s : set_env (env s) s = s.
Proof. by destruct s. Qed.

Lemma oneshot_env t0 s x : oneshot t0 s -> now (env s) <= now x -> oneshot t0 (set_env x s).
Proof. intros [? ? ? ? ? ?] Hx. split; try done; [by apply loop_inv_env|simpl; lia]. Qed.

Definition updated s : st := set_time (now (hrtime (env s)).2) (set_env (hrtime (env s)).2 s).

Lemma update_time_run s : uv__update_time (E := E) hrtime s = Ret tt (updated s).
Proof.
  unfold uv__update_time, bind, get, modify, updated. destruct (hrtime_now (env s)) as [_ ->].
  by destruct (hrtime (env s)).
Qed.

Lemma oneshot_updated t0 s : oneshot t0 s -> oneshot t0 (updated s) /\ now (env s) <= time (updated s).
Proof.
  intros Ho. pose proof (os_time _ _ Ho) as Ht. destruct (hrtime_now (env s)) as [H1 H2].
  split; [|simpl; lia].
  apply (oneshot_env _ _ (hrtime (env s)).2) in Ho; [|lia]. destruct Ho.
  split; try done; [by apply loop_inv_time|simpl; lia].
Qed.

Lemma no_watchers t0 s k : oneshot t0 s -> ring s k [].
Proof.
  intros Ho. destruct (li_watch _ (os_inv _ _ Ho) k) as (ps & Hq & Hs).
  destruct ps as [|p ps]; [by split|exfalso].
  assert (p ∈ set_where (active_of (watcher_type k)) (handles s)) as Hp by (rewrite <- Hs; set_solver).
  apply elem_of_where in Hp as (h & Hh & [Ha Ht%bool_decide_eq_true]%andb_true_iff).
  destruct (os_timers _ _ Ho _ _ Hh Ha) as [Ht' _]. rewrite Ht in Ht'. by destruct k.
Qed.

Lemma watchers_idle t0 fuel k s : oneshot t0 s -> uv__run_watchers (external (E := E) record) fuel k s = Ret tt s.
Proof.
  intros Ho. rewrite <- (set_env_id s) at 2.
  apply (run_watchers_run record fuel s k []); [by eapply os_inv|by eapply no_watchers|simpl; lia].
Qed.

Lemma closing_idle t0 fuel s : oneshot t0 s ->
  uv__run_closing_handles (external (E := E) record) (fun _ _ => skip) fuel s = Ret tt s.
Proof.
  intros Ho. unfold uv__run_closing_handles, bind, get, modify. rewrite (os_closing _ _ Ho).
  assert (set_closing_handles None s = s) as -> by (rewrite <- (os_closing _ _ Ho); by destruct s).
  by destruct fuel.
Qed.

Lemma called_calls m ps t0 : forall x,
  t0 <= now x ->
  (forall p, p ∈ ps -> exists h c, m !! p = Some h /\ timer_cb h = Some c /\ timeout h <= t0) ->
  exists es, calls (called record m ps x) = calls x ++ es /\ Forall2 (fired m) ps es /\
    now x <= now (called record m ps x).
Proof.
  induction ps as [|p ps IH]; intros x Hx Hps; simpl.
  { exists []. rewrite app_nil_r. split_and!; [done|constructor|lia]. }
  destruct (Hps p) as (h & c & Hp & Hc & Ht); [set_solver|]. rewrite Hp. simpl. rewrite Hc.
  pose proof (record_now c p x).
  destruct (IH (record c p x)) as (es & He & Hf & Hn); [lia|set_solver|].
  exists ((c, p, now x) :: es). rewrite He, record_calls, <- app_assoc. split_and!; [done| |lia].
  constructor; [|done]. exists h, c, (now x). split_and!; [done..|lia].
Qed.
(** One run of the due timers. *)
Record batch s s' (ps : list ptr) (es : list (cb * ptr * Z)) : Prop := {
  b_nodup : NoDup ps;
  b_subset : list_to_set ps ⊆ running s;
  b_order : in_order (handles s) ps;
  b_calls : calls (env s') = calls (env s) ++ es;
  b_fired : Forall2 (fired (handles s)) ps es;
  b_running : running s' = running s ∖ list_to_set ps;
  b_same x : x ∉ ps -> handles s' !! x = handles s !! x
}.

Lemma due_running t0 s p h :
  oneshot t0 s -> handles s !! p = Some h -> due (time s) h = true ->
  exists c, timer_cb h = Some c /\ timeout h <= time s /\ repeat_ h = 0.
Proof.
  intros Ho Hp [[Ha Ht%bool_decide_eq_true]%andb_true_iff Hd%Z.leb_le]%andb_true_iff.
  destruct (ho_timer_cb _ (li_ok _ (os_inv _ _ Ho) _ _ Hp) Ha Ht) as [c Hc].
  exists c. split_and!; [done..|]. by apply (os_timers _ _ Ho _ _ Hp).
Qed.

Lemma due_subset s : set_where (due (time s)) (handles s) ⊆ running s.
Proof. intros p (h & Hp & [Ha _]%andb_true_iff)%elem_of_where. apply elem_of_where. eauto. Qed.

Lemma batch_run t0 fuel s :
  oneshot t0 s -> time s = now (env s) -> (size (running s) <= fuel)%nat ->
  exists s' ps es, uv__run_timers (external (E := E) record) fuel s = Ret tt s' /\
    oneshot t0 s' /\ time s' = time s /\ batch s s' ps es /\
    list_to_set ps = set_where (due (time s)) (handles s).
Proof.
  intros Ho Hnow Hf. pose proof (subseteq_size _ _ (due_subset s)). pose proof (now_range (env s)) as Hr.
  destruct (run_timers_fires (E := E) record fuel s (os_inv _ _ Ho)) as (s' & ps & Hrun & Hi & Hfi).
  { rewrite Hnow. unfold HORIZON, UINT64_MAX in *. lia. } { lia. }
  destruct Hfi as (Hnd & Hset & Hord & Henv & Ht & Hno & (Hq & Hc & Hst) & Hout & Hone).
  assert (forall p, p ∈ ps -> exists h, handles s !! p = Some h /\ due (time s) h = true) as Hps.
  { intros p Hp%(elem_of_list_to_set (C := gset ptr)). rewrite Hset in Hp. by apply elem_of_where. }
  destruct (called_calls (handles s) ps (time s) (env s)) as (es & He & Hfe & Hn); [lia| |].
  { intros p (h & Hh & Hd)%Hps. destruct (due_running _ _ _ _ Ho Hh Hd) as (c & ? & ? & _). eauto. }
  assert (forall p h, p ∈ ps -> handles s' !! p = Some h -> uv__is_active h = false) as Hin.
  { intros p h Hp Hh. destruct (Hps p Hp) as (g & Hg & Hd).
    destruct (due_running _ _ _ _ Ho Hg Hd) as (c & _ & _ & Hr0).
    rewrite (Hone p g Hp Hg Hr0) in Hh. injection Hh as <-. apply has_clear_same. }
  exists s', ps, es. split_and!; [done| |done| |done].
  - split; [done| | | | |].
    + intros p h Hp Ha. destruct (decide (p ∈ ps)) as [Hpin|Hpn].
      * by rewrite (Hin p h) in Ha.
      * rewrite Hout in Hp by done. by apply (os_timers _ _ Ho p).
    + rewrite Ht, Henv. pose proof (os_time _ _ Ho). lia.
    + rewrite Hq. apply (os_reqs _ _ Ho).
    + rewrite Hc. apply (os_closing _ _ Ho).
    + rewrite Hst. apply (os_stop _ _ Ho).
  - split; try done; [rewrite Hset; apply due_subset|by rewrite Henv|]. apply set_eq. intros p.
    rewrite elem_of_difference, elem_of_list_to_set. unfold running. rewrite !elem_of_where. split.
    + intros (h & Hh & Ha). destruct (decide (p ∈ ps)) as [Hpin|Hpn].
      * apply andb_true_iff in Ha as [Ha _]. by rewrite (Hin p h) in Ha.
      * rewrite Hout in Hh by done. eauto.
    + intros [(h & Hh & Ha) Hpn]. exists h. by rewrite Hout.
Qed.
Lemma counted_running t0 s : oneshot t0 s -> set_where counted (handles s) = running s.
Proof.
  intros Ho. apply set_eq. intros p. unfold running. rewrite !elem_of_where. unfold counted, active_of.
  split; intros (h & Hp & [Ha _]%andb_true_iff); exists h; (split; [done|]);
    destruct (os_timers _ _ Ho _ _ Hp Ha) as (Ht & Hr & _).
  - by rewrite Ha, Ht.
  - by rewrite Ha, Hr.
Qed.

Lemma active_count t0 s : oneshot t0 s -> active_handles s = Z.of_nat (size (running s)).
Proof. intros Ho. rewrite <- (counted_running _ _ Ho). apply (li_count _ (os_inv _ _ Ho)). Qed.

Lemma alive_run t0 s : oneshot t0 s ->
  uv__loop_alive (E := E) s = Ret (bool_decide (running s <> ∅)) s.
Proof.
  intros Ho. unfold uv__loop_alive, uv__has_active_reqs, ask_queue, bind, get.
  rewrite (queue_empty_spec _ _ [] (os_reqs _ _ Ho)), (os_closing _ _ Ho). simpl.
  rewrite !orb_false_r. unfold ret, uv__has_active_handles. f_equal. rewrite (active_count _ _ Ho).
  apply eq_true_iff_eq. rewrite Z.ltb_lt, bool_decide_eq_true.
  destruct (size (running s)) eqn:Hz; split; intros H; try lia.
  - by apply size_empty_iff in Hz as ?%leibniz_equiv.
  - intros Hr. by rewrite Hr, size_empty in Hz.
Qed.

(** The next timer is due by the clock. *)
Definition ready s : Prop :=
  running s = ∅ \/ exists p h, handles s !! p = Some h /\ active_of UV_TIMER h = true /\
                       timeout h <= now (env s).

Lemma sleep_run t0 s : oneshot t0 s -> exists v,
  uv_backend_timeout s = Ret (E := E) v s /\ 0 <= v /\ ready (set_env (wait v (env s)) s).
Proof.
  intros Ho. pose proof (os_time _ _ Ho) as Ht.
  destruct (backend_timeout_run (E := E) s [] [] (os_inv _ _ Ho) ltac:(lia) (os_reqs _ _ Ho)
    (no_watchers _ _ _ Ho)) as (v & Hrun & Hv).
  exists v. split; [done|]. rewrite (os_stop _ _ Ho), (os_closing _ _ Ho) in Hv. simpl in Hv.
  rewrite orb_false_r in Hv.
  rewrite (active_count _ _ Ho) in Hv. fold (running s) in Hv.
  destruct (decide (running s = ∅)) as [He|Hne].
  - rewrite He, size_empty in Hv. simpl in Hv. subst v. split; [lia|]. by left.
  - destruct (Z.eqb_spec (Z.of_nat (size (running s))) 0) as [E0|E0]; simpl in Hv.
    + exfalso. apply Hne, leibniz_equiv, size_empty_iff. lia.
    + destruct Hv as (Hv & (p & h & Hp & Ha & Hvp) & _). split; [lia|]. right.
      exists p, h. split_and!; [done..|]. simpl. pose proof (wait_now v (env s) ltac:(lia)).
      pose proof Ha as [Hact _]%andb_true_iff.
      destruct (os_timers _ _ Ho _ _ Hp Hact) as (_ & _ & _ & Hto). lia.
Qed.

(** One turn of [uv_run]. *)
Lemma turn t0 fuel s :
  oneshot t0 s -> (size (running s) <= fuel)%nat ->
  exists s' ps es,
    run_once (external (E := E) record) hrtime (ret 0) epoll (fun _ _ => skip) fuel UV_RUN_DEFAULT s =
      Ret tt s' /\ oneshot t0 s' /\ ready s' /\ batch s s' ps es /\
    (forall x h, x ∉ ps -> handles s !! x = Some h -> active_of UV_TIMER h = true ->
       now (env s) < timeout h /\ forall y g, y ∈ ps -> handles s !! y = Some g -> timeout g < timeout h).
Proof.
  intros Ho Hf. destruct (oneshot_updated _ _ Ho) as [Ho1 Hn1]. set (s1 := updated s) in *.
  destruct (batch_run t0 fuel s1 Ho1 eq_refl Hf) as (s2 & ps & es & Hrun & Ho2 & Ht2 & Hb & Hset).
  destruct (sleep_run _ _ Ho2) as (v & Hto & Hv & Hready).
  set (s3 := set_env (wait v (env s2)) s2) in *.
  pose proof (wait_now v (env s2) Hv). pose proof (now_range (env s2)).
  assert (oneshot t0 s3) as Ho3 by (apply oneshot_env; [done|lia]).
  exists s3, ps, es. split; [|split_and!; [done|done| |]].
  - unfold run_once, bind at 1. rewrite update_time_run. fold s1. unfold bind at 1. rewrite Hrun.
    do 3 (unfold bind at 1; first [rewrite (watchers_idle t0) by done|unfold ret at 1]). simpl.
    unfold bind at 1. rewrite Hto. unfold bind at 1. unfold epoll, modify. fold s3.
    unfold bind at 1. rewrite (watchers_idle t0) by done. unfold bind.
    by rewrite (closing_idle t0) by done.
  - destruct Hb. split; try done; simpl.
    rewrite wait_calls, b_calls0. simpl. by rewrite hrtime_calls.
  - intros x h Hx Hh Ha.
    assert (due (time s1) h = false) as Hd.
    { apply not_true_iff_false. intros Hd. apply Hx.
      apply (elem_of_list_to_set (C := gset ptr)). rewrite Hset. apply elem_of_where. eauto. }
    unfold due in Hd. rewrite Ha in Hd. apply Z.leb_gt in Hd. split; [lia|].
    intros y g Hy%(elem_of_list_to_set (C := gset ptr)) Hg. rewrite Hset in Hy.
    apply elem_of_where in Hy as (g' & Hg' & [_ Hd'%Z.leb_le]%andb_true_iff).
    change (handles s1) with (handles s) in Hg'. simplify_eq. lia.
Qed.
Lemma in_order_ext m m' ps : (forall x, x ∈ ps -> m !! x = m' !! x) -> in_order m ps -> in_order m' ps.
Proof.
  intros He Hs. induction Hs as [|a l Hs IH Ha]; [constructor|].
  constructor; [apply IH; set_solver|]. rewrite Forall_forall in Ha |- *. intros b Hb.
  pose proof (Ha b Hb) as Hab. unfold timer_less_than in *. rewrite <- !He by set_solver. done.
Qed.

Lemma fired_ext m m' ps es :
  (forall x, x ∈ ps -> m !! x = m' !! x) -> Forall2 (fired m) ps es -> Forall2 (fired m') ps es.
Proof.
  intros He Hs. induction Hs as [|p e ps es (h & c & t & Hp & ?)]; constructor; [|set_solver].
  exists h, c, t. by rewrite <- He by set_solver.
Qed.

Lemma batch_nil s : batch s s [] [].
Proof.
  split; [apply NoDup_nil_2|set_solver|apply SSorted_nil|by rewrite app_nil_r|apply Forall2_nil_2| |done].
  set_solver.
Qed.

(** The batches of two runs, one after the other. *)
Lemma batch_app s s1 s2 ps qs es fs :
  batch s s1 ps es -> batch s1 s2 qs fs ->
  (forall x h, x ∉ ps -> handles s !! x = Some h -> active_of UV_TIMER h = true ->
     forall y g, y ∈ ps -> handles s !! y = Some g -> timeout g < timeout h) ->
  batch s s2 (ps ++ qs) (es ++ fs).
Proof.
  intros [N1 Hps O1 C1 F1 R1 S1] [N2 Hqs O2 C2 F2 R2 S2] Hlt.
  assert (forall q, q ∈ qs -> (q ∉ ps) /\ (q ∈ running s)) as Hq.
  { intros q Hq%(elem_of_list_to_set (C := gset ptr)). apply Hqs in Hq. rewrite R1 in Hq. set_solver. }
  assert (forall q, q ∈ qs -> handles s1 !! q = handles s !! q) as Hs by naive_solver.
  split.
  - apply NoDup_app. split_and!; [done| |done]. intros x Hx Hxq. by apply Hq in Hxq as [? _].
  - rewrite list_to_set_app_L, R1 in *. set_solver.
  - apply StronglySorted_app_2; [|done|by eapply in_order_ext].
    intros x y Hx Hy. destruct (Hq y Hy) as [Hn (h & Hh & Ha)%elem_of_where].
    assert (x ∈ running s) as (g & Hg & _)%elem_of_where.
    { apply Hps. by apply elem_of_list_to_set. }
    pose proof (Hlt y h Hn Hh Ha x g Hx Hg). unfold timer_less_than. rewrite Hh, Hg.
    destruct (Z.ltb_spec (timeout h) (timeout g)); [lia|].
    by destruct (Z.ltb_spec (timeout g) (timeout h)); [|lia].
  - by rewrite C2, C1, app_assoc.
  - apply Forall2_app; [done|]. by eapply fired_ext.
  - rewrite R2, R1, list_to_set_app_L. set_solver.
  - intros x [H1 H2]%not_elem_of_app. by rewrite S2, S1.
Qed.

(** [n] turns are enough for the timers that run, one more when the first one is
    not due yet. *)
Lemma run_while_run t0 fuel n : forall s,
  oneshot t0 s -> (size (running s) <= fuel)%nat ->
  (size (running s) < n)%nat \/ (size (running s) <= n)%nat /\ ready s ->
  exists s' ps es,
    run_while (external (E := E) record) hrtime (ret 0) epoll (fun _ _ => skip) n fuel UV_RUN_DEFAULT
      (bool_decide (running s <> ∅)) s = Ret false s' /\
    oneshot t0 s' /\ batch s s' ps es /\ list_to_set ps = running s.
Proof.
  induction n as [|n IH]; intros s Ho Hf Hn; simpl; unfold bind at 1, get at 1;
    rewrite (os_stop _ _ Ho); simpl; rewrite orb_false_r.
  all: destruct (bool_decide_reflect (running s <> ∅)) as [Hne|He]; simpl; cycle 1.
  1,3: apply dec_stable in He; exists s, [], []; split_and!; [done|done|apply batch_nil|by rewrite He].
  2: { exfalso. apply Hne, leibniz_equiv, size_empty_iff. lia. }
  destruct (turn t0 fuel s Ho Hf) as (s1 & ps & es & Hrun & Ho1 & Hr1 & Hb & Hlate).
  unfold bind at 1. rewrite Hrun. unfold bind at 1. rewrite (alive_run _ _ Ho1).
  pose proof (b_running _ _ _ _ Hb) as Hr.
  pose proof (b_subset _ _ _ _ Hb) as Hps.
  assert (size (running s1) + size (list_to_set ps : gset ptr) = size (running s))%nat as Hsz.
  { rewrite Hr, size_difference by done. pose proof (subseteq_size _ _ Hps). lia. }
  destruct (IH s1 Ho1) as (s' & qs & fs & Hrun' & Ho' & Hb' & Hqs); [lia| |].
  { destruct Hn as [Hn|[Hn [?|(p & h & Hp & Ha & Hto)]]]; [right; split; [lia|done]|done|].
    right. split; [|done]. assert (p ∈ (list_to_set ps : gset ptr)) as Hin.
    { apply elem_of_list_to_set, dec_stable. intros Hnp. destruct (Hlate p h Hnp Hp Ha). lia. }
    assert (size (list_to_set ps : gset ptr) <> 0%nat); [|lia].
    intros Hz%size_empty_iff. set_solver. }
  exists s', (ps ++ qs), (es ++ fs). split_and!; [done|done| |].
  - apply (batch_app s s1); try done. naive_solver.
  - rewrite list_to_set_app_L, Hqs, Hr. rewrite <- union_difference_L by done. done.
Qed.
Lemma uv_run_run t0 fuel n s :
  oneshot t0 s -> (size (running s) <= fuel)%nat -> (size (running s) < n)%nat ->
  exists s' ps es, uv_run_world n fuel UV_RUN_DEFAULT s = Ret false s' /\
    oneshot t0 s' /\ batch s s' ps es /\ list_to_set ps = running s.
Proof.
  intros Ho Hf Hn. unfold uv_run_world, uv_run, bind at 1. rewrite (alive_run _ _ Ho).
  destruct (oneshot_updated _ _ Ho) as [Ho1 _].
  assert (exists s1, (when (negb (bool_decide (running s <> ∅))) do uv__update_time hrtime)%prog s =
            Ret (E := E) tt s1 /\ oneshot t0 s1 /\ handles s1 = handles s /\
            calls (env s1) = calls (env s)) as (s1 & E1 & Ho2 & Hh & Hc).
  { destruct (negb (bool_decide (running s <> ∅))); [exists (updated s)|exists s]; split_and!; try done.
    - apply update_time_run.
    - simpl. apply hrtime_calls. }
  assert (running s1 = running s) as Hr by (unfold running; by rewrite Hh).
  destruct (run_while_run t0 fuel n s1 Ho2) as (s' & ps & es & Hrun & Ho' & Hb & Hps);
    [by rewrite Hr|left; by rewrite Hr|].
  exists s', ps, es. unfold bind at 1. rewrite E1, <- Hr. unfold bind at 1. rewrite Hrun.
  unfold bind, get. rewrite (os_stop _ _ Ho'). split_and!; [done|done| |done].
  destruct Hb. rewrite ?Hh, ?Hc, ?Hr in *. split; try done; by rewrite <- ?Hr, <- ?Hh.
Qed.
End World.
