(* ===== verification/UvProps.v ===== *)
(** * The event loop: what its operations guarantee

    The properties of [UvLoop] and [UvCore], each with a run of the code on a
    concrete loop that meets its hypotheses. *)

From stdpp Require Import base option list gmap.
From Stdlib Require Import ZArith Lia Sorted.
From S2P Require Import Prelude UvPrio UvHeap UvHeapSpec UvQueue UvLoop UvCore UvInv.
From S2P Require Import UvTimer UvFire UvWatch UvClose UvInit UvRun.

Local Open Scope Z_scope.

(** ** A concrete loop

    Callbacks are numbers; calling one appends it to a log.  The clock stands
    at five seconds. *)

Module Demo.
Abbreviation log := (list (Z * ptr)).
Abbreviation state := (uv_state hstate Z log).
Abbreviation prog A := (M state Empty_set A).

Definition memory : uv_handle Z :=
  UvHandle UV_UNKNOWN_HANDLE 0 None None None None 0 0 0 None None 0.

Definition note (c : Z) (p : ptr) (x : log) : log := x ++ [(c, p)].

Definition hrtime (x : log) : Z * log := (5000000000, x).

Definition after {X A} (m : M (uv_state hstate Z X) Empty_set A) (s : uv_state hstate Z X) :
    uv_state hstate Z X :=
  match m s with Ret _ s' => s' | _ => s end.

Lemma after_run {X A} (m : M (uv_state hstate Z X) Empty_set A) s (P : uv_state hstate Z X -> Prop) :
  (exists a s', m s = Ret a s' /\ P s') -> P (after m s).
Proof. unfold after. by intros (a & s' & -> & ?). Qed.

Definition fresh : state := uv_loop_init_fields hrtime [].
Definition one : state := after (uv_timer_init 1 memory) fresh.
Definition two : state := after (uv_timer_init 2 memory) one.
Definition three : state := after (uv_watcher_init Idle 3 memory) two.
Definition four : state := after (uv_watcher_init Idle 4 memory) three.
(** Timers 1 and 2 run at 5000 and 5000 + 7, timer 1 every 3 ms. *)
Definition five : state := after (uv_timer_start 1 (Some 10) 0 3) four.
Definition six : state := after (uv_timer_start 2 (Some 20) 7 0) five.
(** Both idle watchers active. *)
Definition seven : state := after (uv_watcher_start Idle 3 (Some 30)) six.
Definition eight : state := after (uv_watcher_start Idle 4 (Some 40)) seven.
(** Timer 1 and watcher 3 closing. *)
Definition closing : state :=
  after (bind (uv_close (fun _ _ => skip) 1 (Some 11))
           (fun _ => uv_close (fun _ _ => skip) 3 None)) eight.

Definition handle (s : state) (p : ptr) : uv_handle Z := default memory (handles s !! p).

Lemma fresh_inv : loop_inv fresh.
Proof. apply loop_init_inv. Qed.

Lemma timer_init_inv {X} (s : uv_state hstate Z X) p :
  loop_inv s -> handles s !! p = None -> Z.of_nat (size (handles s)) + 1 < UINT_MAX ->
  loop_inv (after (uv_timer_init p memory) s).
Proof.
  intros Hi Hp Hs. apply after_run.
  destruct (timer_init_run (E := Empty_set) s p memory Hi Hp Hs ltac:(done)) as (s' & H & Hi' & _).
  by exists 0, s'.
Qed.

Lemma watcher_init_inv {X} (s : uv_state hstate Z X) k p :
  loop_inv s -> handles s !! p = None -> Z.of_nat (size (handles s)) + 1 < UINT_MAX ->
  loop_inv (after (uv_watcher_init k p memory) s).
Proof.
  intros Hi Hp Hs. apply after_run.
  destruct (watcher_init_run (E := Empty_set) s k p memory Hi Hp Hs ltac:(done)) as (s' & H & Hi' & _).
  by exists 0, s'.
Qed.

Lemma timer_start_inv {X} (s : uv_state hstate Z X) p h c t r :
  loop_inv s -> handles s !! p = Some h -> type h = UV_TIMER -> 0 <= r <= UINT64_MAX ->
  loop_inv (after (uv_timer_start p (Some c) t r) s).
Proof.
  intros Hi Hp Ht Hr. apply after_run.
  destruct (timer_start_run (E := Empty_set) s p h c t r Hi Hp Ht Hr) as (q & H & Hi').
  by eexists 0, _.
Qed.

Lemma watcher_start_inv (s : state) k p h c ps :
  loop_inv s /\ ring s k ps -> handles s !! p = Some h -> type h = watcher_type k ->
  uv__is_active h = false ->
  loop_inv (after (uv_watcher_start k p (Some c)) s) /\
  ring (after (uv_watcher_start k p (Some c)) s) k (p :: ps).
Proof.
  intros [Hi Hr] Hp Ht Ha. apply (after_run _ _ (fun s => loop_inv s /\ ring s k (p :: ps))).
  destruct (watcher_start_run (E := Empty_set) s k p h c ps Hi Hp Ht Ha Hr) as (m & H & Hi').
  by eexists 0, _.
Qed.

Lemma four_inv : loop_inv four.
Proof.
  repeat apply watcher_init_inv; [repeat apply timer_init_inv; [apply fresh_inv|..]|..];
    by vm_compute.
Qed.

Lemma six_inv : loop_inv six.
Proof.
  apply (timer_start_inv _ _ (handle five 2)); [|by vm_compute..].
  apply (timer_start_inv _ _ (handle four 1)); [apply four_inv|by vm_compute..].
Qed.

Lemma ring_nil (s : state) k : nexts (queues s) !! Q_watchers k = Some (Q_watchers k) ->
  loop_inv s -> ring s k [].
Proof.
  intros Hn Hi. destruct (li_watch _ Hi k) as (ps & Hq & Hs). destruct ps; [by split|].
  pose proof (is_queue_next _ _ _ Hq) as Hh. unfold QUEUE_NEXT in Hh. rewrite Hn in Hh. done.
Qed.

Lemma eight_inv : loop_inv eight /\ ring eight Idle [4%positive; 3%positive].
Proof.
  apply (watcher_start_inv _ _ _ (handle seven 4)); [|by vm_compute..].
  apply (watcher_start_inv _ _ _ (handle six 3)); [|by vm_compute..].
  split; [apply six_inv|]. apply ring_nil; [by vm_compute|apply six_inv].
Qed.

Lemma eight_closing : closing_list eight [].
Proof. by split; [constructor|]. Qed.
End Demo.

(** ** Timers *)

Section Timers.
Context {Q : Type} `{!PrioQueue Q} `{!PrioQueueSpec Q} {cb X E : Type}.
Implicit Types (h : uv_handle cb) (s : uv_state Q cb X) (p : ptr).

(** C34 [uv__handle_start], [uv__handle_stop], [uv__handle_ref] and
    [uv__handle_unref] set or clear their flag and leave [active_handles]
    equal to the number of handles that are active and referenced, with the
    unsigned counter never wrapping. *)
Theorem handle_refcount_exact s p h :
  count_inv s -> handles s !! p = Some h ->
  (uv__handle_start p s = Ret (E := E) tt (recount (upd p (or_flags UV__HANDLE_ACTIVE h) s)) /\
   uv__handle_stop p s = Ret (E := E) tt (recount (upd p (clear_flags UV__HANDLE_ACTIVE h) s)) /\
   uv__handle_ref p s = Ret (E := E) tt (recount (upd p (or_flags UV__HANDLE_REF h) s)) /\
   uv__handle_unref p s = Ret (E := E) tt (recount (upd p (clear_flags UV__HANDLE_REF h) s))) /\
  forall h', count_inv (recount (upd p h' s)).
Proof.
  intros Hi Hp. split; [split_and!|intros h'; by eapply count_inv_upd].
  - by apply handle_start_run.
  - by apply handle_stop_run.
  - by apply handle_ref_run.
  - by apply handle_unref_run.
Qed.


(** [uv_timer_stop] takes a running timer out of the heap and the count
    and leaves a stopped one alone; [uv_timer_again] restarts a repeating
    timer one period from now, does nothing to a timer without a period, and
    returns [-EINVAL] for a timer that was never started.  The loop stays
    consistent. *)
Theorem timer_stop_again_correct s p h :
  loop_inv s -> handles s !! p = Some h -> type h = UV_TIMER ->
  (exists s', uv_timer_stop p s = Ret (E := E) 0 s' /\ loop_inv s' /\
     handles s' = <[p := clear_flags UV__HANDLE_ACTIVE h]> (handles s) /\
     (uv__is_active h = false -> s' = s)) /\
  match timer_cb h with
  | None => uv_timer_again p s = Ret (E := E) (- EINVAL) s
  | Some c => exists s', uv_timer_again p s = Ret (E := E) 0 s' /\ loop_inv s' /\
      if repeat_ h =? 0 then s' = s
      else exists h', handles s' = <[p := h']> (handles s) /\ uv__is_active h' = true /\
        timeout h' = clamp_timeout (time s) (repeat_ h) /\ repeat_ h' = repeat_ h /\
        timer_cb h' = Some c
  end.
Proof.
  intros Hi Hp Ht. split.
  - destruct (timer_stop_run (E := E) s p h Hi Hp Ht) as (q & Hrun & Hi').
    eexists. split; [exact Hrun|]. split_and!; try done. intros Ha.
    unfold uv_timer_stop, bind in Hrun. rewrite (deref_run _ _ _ Hp), Ha in Hrun.
    by injection Hrun as <-.
  - destruct (timer_cb h) as [c|] eqn:Hc.
    + destruct (timer_again_run (E := E) s p h c Hi Hp Ht Hc) as (s' & Hrun & Hi' & Hs').
      exists s'. split; [done|]. split; [done|]. destruct (repeat_ h =? 0); [done|].
      destruct Hs' as (q & ->). eexists. split; [done|]. split_and!; try done.
      unfold uv__is_active. by apply has_or_same.
    + unfold uv_timer_again, bind. by rewrite (deref_run _ _ _ Hp), Hc.
Qed.


(** C39 [uv_backend_timeout], the time the loop may block in [epoll_wait]: 0
    when the loop is stopping, has nothing to wait for, has an idle watcher or
    a handle to close; otherwise -1 without timers, and else never longer than
    until the first due time, capped at [INT_MAX]. *)
Theorem backend_timeout_correct s rs ps :
  loop_inv s -> 0 <= time s ->
  is_queue (queues s) Q_active_reqs (N_active_queue <$> rs) -> ring s Idle ps ->
  exists v, uv_backend_timeout s = Ret (E := E) v s /\
    if negb (stop_flag s =? 0) || (bool_decide (rs = []) && (active_handles s =? 0))
       || negb (bool_decide (ps = [])) || bool_decide (is_Some (closing_handles s))
    then v = 0
    else if decide (set_where (active_of UV_TIMER) (handles s) = ∅) then v = -1
    else 0 <= v <= INT_MAX /\
      (exists p h, handles s !! p = Some h /\ active_of UV_TIMER h = true /\
         v = Z.min INT_MAX (Z.max 0 (timeout h - time s))) /\
      (forall p h, handles s !! p = Some h -> active_of UV_TIMER h = true ->
         v <= Z.max 0 (timeout h - time s)).
Proof. apply backend_timeout_run. Qed.

(** [uv__loop_alive]: the loop goes on exactly while a handle is active and
    referenced, a request is pending, or a handle waits for its close
    callback. *)
Theorem loop_alive_correct s rs :
  count_inv s -> is_queue (queues s) Q_active_reqs (N_active_queue <$> rs) ->
  exists b, uv__loop_alive s = Ret (E := E) b s /\
    (b = true <-> (exists p h, handles s !! p = Some h /\ uv__is_active h = true /\
                    uv__has_ref h = true) \/ rs <> [] \/ closing_handles s <> None).
Proof. apply loop_alive_run. Qed.
End Timers.

(** ** Watchers *)

Section Watchers.
Context {Q : Type} `{!PrioQueue Q} `{!PrioQueueSpec Q} {cb X E : Type}.
Implicit Types (h : uv_handle cb) (s : uv_state Q cb X) (p : ptr) (k : watcher).

(** Starting an inactive watcher puts it first in the ring of its kind and
    stopping one takes it out, the other watchers keeping their order; without
    a callback the start is refused with [-EINVAL] and on a running watcher it
    is a no-op.  The loop stays consistent. *)
Theorem watcher_start_stop_correct s k p h c xs ys :
  loop_inv s -> handles s !! p = Some h -> type h = watcher_type k ->
  ring s k (xs ++ ys) ->
  (uv__is_active h = false ->
     uv_watcher_start k p None s = Ret (E := E) (- EINVAL) s /\
     uv_watcher_stop p s = Ret (E := E) 0 s /\
     exists s' h', uv_watcher_start k p (Some c) s = Ret (E := E) 0 s' /\ loop_inv s' /\
       ring s' k (p :: xs ++ ys) /\ handles s' = <[p := h']> (handles s) /\
       watcher_cb h' = Some c /\ uv__is_active h' = true) /\
  (uv__is_active h = true ->
     uv_watcher_start k p (Some c) s = Ret (E := E) 0 s /\
     forall zs, ys = p :: zs ->
     exists s', uv_watcher_stop p s = Ret (E := E) 0 s' /\ loop_inv s' /\
       ring s' k (xs ++ zs) /\
       handles s' = <[p := clear_flags UV__HANDLE_ACTIVE h]> (handles s)).
Proof.
  intros Hi Hp Ht Hr. split; intros Ha.
  - split; [|split].
    + unfold uv_watcher_start, bind. by rewrite (deref_run _ _ _ Hp), Ha.
    + unfold uv_watcher_stop, bind. by rewrite (deref_run _ _ _ Hp), Ha.
    + destruct (watcher_start_run (E := E) s k p h c (xs ++ ys) Hi Hp Ht Ha Hr) as (m' & Hrun & Hi' & Hr2).
      eexists _, (started c h). split; [exact Hrun|]. split_and!; try done.
      unfold uv__is_active. by apply has_or_same.
  - split; [unfold uv_watcher_start, bind; by rewrite (deref_run _ _ _ Hp), Ha|].
    intros zs ->.
    destruct (watcher_stop_run (E := E) s k p h xs zs Hi Hp Ht Hr) as (m' & Hrun & Hi' & Hr2).
    eexists. split; [exact Hrun|]. done.
Qed.

(** A pass over the watchers of a kind calls each active watcher exactly
    once, in ring order (latest started first), when the callbacks work
    outside the loop; fuel for the length of the ring is enough. *)
Theorem run_watchers_correct (record : cb -> ptr -> X -> X) fuel s k ps :
  loop_inv s -> ring s k ps -> (length ps <= fuel)%nat ->
  NoDup ps /\
  (forall p, p ∈ ps <-> exists h, handles s !! p = Some h /\ active_of (watcher_type k) h = true) /\
  uv__run_watchers (external record) fuel k s =
    Ret (E := E) tt (set_env (watched record (handles s) ps (env s)) s).
Proof.
  intros Hi Hr Hf. split_and!.
  - destruct Hr as [[[_ Hnd]%NoDup_cons _] _]. by apply NoDup_fmap_1 in Hnd.
  - intros p. by apply in_ring.
  - by apply run_watchers_run.
Qed.

(** ** Closing *)

(** [uv_close] on a timer or a watcher of a consistent loop stops it,
    marks it closing with the given callback and puts it first on the closing
    list; a second [uv_close] on it fails its assertion. *)
Theorem close_correct (close_other : uv_handle_type -> ptr -> M (uv_state Q cb X) E unit) s p h c c' ps :
  loop_inv s -> handles s !! p = Some h -> closable (type h) -> uv__is_closing h = false ->
  closing_list s ps ->
  exists s' h', uv_close close_other p c s = Ret tt s' /\ loop_inv s' /\
    closing_list s' (p :: ps) /\ handles s' = <[p := h']> (handles s) /\ env s' = env s /\
    close_cb h' = c /\ uv__is_active h' = false /\ uv__is_closing h' = true /\
    has_flag h' UV_CLOSED = false /\
    uv_close close_other p c' s' = Fault AssertFail.
Proof.
  intros Hi Hp Ht Hn Hcl.
  destruct (close_run close_other s p h c ps Hi Hp Ht Hn Hcl)
    as (s' & h' & Hrun & Hi' & Hcl' & He & Hh & Hty & Hcb & Ha & Hg & Hd).
  exists s', h'. unfold uv__is_closing. rewrite has_flag_lor, Hg. split_and!; try done.
  unfold uv_close, bind. rewrite (deref_run s' p h') by (rewrite Hh; apply lookup_insert_eq).
  by rewrite has_flag_lor, Hg.
Qed.

End Watchers.

(** ** A watcher stopped by an earlier callback of the pass *)

Section Stale.
Local Open Scope prog_scope.

(** Callback 40 stops its own watcher and then watcher 3; any other callback
    notes whether its handle is active. *)
Definition stopper (c : Z) (p : ptr) : Demo.prog unit :=
  if c =? 40 then (uv_watcher_stop 4 ;;; uv_watcher_stop 3 ;;; skip)
  else modify (fun s =>
         set_env (env s ++ [(Z.b2z (uv__is_active (Demo.handle s p)), p)]) s).

(** The pass of [uv__run_idle] goes on from the node it just ran, so the
    callback of a watcher can be called after [uv_idle_stop] stopped it: when
    watcher 4 stops itself and then watcher 3, watcher 3 is still called, while
    inactive. *)
Lemma stopped_watcher_still_called :
  loop_inv Demo.eight /\ ring Demo.eight Idle [4%positive; 3%positive] /\
  exists s', uv__run_watchers stopper 2 Idle Demo.eight = Ret tt s' /\ env s' = [(0, 3%positive)].
Proof.
  split; [apply Demo.eight_inv|]. split; [apply Demo.eight_inv|].
  eexists. split; [vm_compute; reflexivity|reflexivity].
Qed.
End Stale.

(** ** Runs that meet the hypotheses *)

Section Witnesses.
Let E := Empty_set.

Definition value {S} (o : outcome S E Z) : Z := match o with Ret v _ => v | _ => -5 end.

Lemma handle_refcount_exact_witness :
  uv__handle_unref 1 Demo.eight = Ret (E := E) tt
    (recount (upd 1 (clear_flags UV__HANDLE_REF (Demo.handle Demo.eight 1)) Demo.eight)).
Proof.
  destruct (handle_refcount_exact (E := E) Demo.eight 1 (Demo.handle Demo.eight 1))
    as [(_ & _ & _ & H) _]; [apply Demo.eight_inv|by vm_compute|exact H].
Defined.


Lemma timer_stop_again_correct_witness :
  exists s', uv_timer_stop 2 Demo.eight = Ret (E := E) 0 s' /\ loop_inv s'.
Proof.
  destruct (timer_stop_again_correct (E := E) Demo.eight 2 (Demo.handle Demo.eight 2))
    as ((s' & H1 & H2 & _) & _); [apply Demo.eight_inv|by vm_compute..|].
  exists s'. split; [exact H1|exact H2].
Defined.


Lemma backend_timeout_correct_witness :
  exists v, uv_backend_timeout Demo.six = Ret (E := E) v Demo.six /\ v = 0.
Proof.
  destruct (backend_timeout_correct (E := E) Demo.six [] []) as (v & H1 & H2);
    [apply Demo.six_inv|by vm_compute|by split; [apply NoDup_singleton|vm_compute]
    |apply Demo.ring_nil; [by vm_compute|apply Demo.six_inv]|].
  exists v. split; [exact H1|]. apply (f_equal value) in H1. vm_compute in H1. by symmetry.
Defined.

Lemma loop_alive_correct_witness :
  exists b, uv__loop_alive Demo.eight = Ret (E := E) b Demo.eight.
Proof.
  destruct (loop_alive_correct (E := E) Demo.eight []) as (b & H1 & _);
    [apply Demo.eight_inv|by split; [apply NoDup_singleton|vm_compute]|].
  exists b. exact H1.
Defined.

Lemma watcher_start_stop_correct_witness :
  exists s', uv_watcher_stop 3 Demo.eight = Ret (E := E) 0 s' /\ loop_inv s' /\ ring s' Idle [4%positive].
Proof.
  destruct (watcher_start_stop_correct (E := E) Demo.eight Idle 3 (Demo.handle Demo.eight 3) 0
    [4%positive] [3%positive]) as (_ & H);
    [apply Demo.eight_inv|by vm_compute|by vm_compute|apply Demo.eight_inv|].
  destruct (proj2 (H eq_refl) [] eq_refl) as (s' & H1 & H2 & H3 & _).
  exists s'. split; [exact H1|]. split; [exact H2|exact H3].
Defined.

Lemma run_watchers_correct_witness :
  uv__run_watchers (E := E) (external Demo.note) 2 Idle Demo.eight =
    Ret tt (set_env [(40, 4%positive); (30, 3%positive)] Demo.eight).
Proof.
  destruct (run_watchers_correct (E := E) Demo.note 2 Demo.eight Idle [4%positive; 3%positive])
    as (_ & _ & H); [apply Demo.eight_inv|apply Demo.eight_inv|by vm_compute|].
  rewrite H. vm_compute. reflexivity.
Defined.

Lemma close_correct_witness :
  exists s', uv_close (fun _ _ => skip) 1 (Some 11) Demo.eight = Ret (E := E) tt s' /\ loop_inv s' /\
    closing_list s' [1%positive].
Proof.
  destruct (close_correct (E := E) (fun _ _ => skip) Demo.eight 1 (Demo.handle Demo.eight 1)
    (Some 11) None []) as (s' & h' & H1 & H2 & H3 & _);
    [apply Demo.eight_inv|by vm_compute|by left|by vm_compute|apply Demo.eight_closing|].
  exists s'. split; [exact H1|]. split; [exact H2|exact H3].
Defined.

Lemma closing_inv : loop_inv Demo.closing /\ closing_list Demo.closing [3%positive; 1%positive].
Proof.
  apply (Demo.after_run _ _ (fun s => loop_inv s /\ closing_list s [3%positive; 1%positive])).
  destruct (close_run (E := Empty_set) (fun _ _ => skip) Demo.eight 1 (Demo.handle Demo.eight 1)
    (Some 11) []) as (s1 & h1 & H1 & H2 & H3 & _ & H4 & _);
    [apply Demo.eight_inv|by vm_compute|by left|by vm_compute|apply Demo.eight_closing|].
  destruct (close_run (E := Empty_set) (fun _ _ => skip) s1 3 (Demo.handle Demo.eight 3) None [1%positive])
    as (s2 & h2 & G1 & G2 & G3 & _); [done|rewrite H4; by vm_compute|by right; exists Idle|by vm_compute|done|].
  exists tt, s2. unfold bind. rewrite H1. split; [exact G1|split; [exact G2|exact G3]].
Qed.

End Witnesses.
