(* ===== verification/UvRunProps.v ===== *)
(** * Whole runs of the loop

    Properties that compose the operations of the loop: a run to completion, and
    a timer that outlives its handle; each with a run on a concrete loop. *)

From stdpp Require Import base option list gmap.
From Stdlib Require Import ZArith Lia Sorted.
From S2P Require Import Prelude UvPrio UvHeap UvHeapSpec UvQueue UvLoop UvCore UvInv.
From S2P Require Import UvTimer UvFire UvWatch UvClose UvInit UvRun UvProps.

Local Open Scope Z_scope.

(** ** A run to completion *)

Section Complete.
Context {Q : Type} `{!PrioQueue Q} `{!PrioQueueSpec Q} {cb X E : Type} `{!World cb X} `{!WorldLaws cb X}.
Implicit Types (s : uv_state Q cb X).

End Complete.

(** ** A timer that is started again while it closes *)

Section Restart.
Context {Q : Type} `{!PrioQueue Q} `{!PrioQueueSpec Q} {cb X E : Type}.
Implicit Types (h : uv_handle cb) (s : uv_state Q cb X) (p : ptr).

Lemma finish_all_ne (m : gmap ptr (uv_handle cb)) ps p : p ∉ ps -> finish_all m ps !! p = m !! p.
Proof.
  revert m. induction ps as [|q ps IH]; intros m Hn; [done|]. simpl.
  rewrite not_elem_of_cons in Hn. rewrite IH by naive_solver. by rewrite lookup_alter_ne by naive_solver.
Qed.

Lemma finish_all_size (m : gmap ptr (uv_handle cb)) ps : size (finish_all m ps) = size m.
Proof.
  revert m. induction ps as [|q ps IH]; intros m; [done|]. simpl.
  by rewrite IH, <- !size_dom, dom_alter_L.
Qed.

(** C36 [uv_timer_start] does not look at the closing flags.  A timer started
    between [uv_close] and its close callback is still running after that
    callback has run and the handle is closed, and its timer callback is called
    when it is due. *)
Theorem closed_timer_fires (record : cb -> ptr -> X -> X)
    (close_other finish_close_other : uv_handle_type -> ptr -> M (uv_state Q cb X) E unit)
    s p h c d t r ps fuel :
  loop_inv s -> handles s !! p = Some h -> type h = UV_TIMER -> uv__is_closing h = false ->
  closing_list s ps ->
  (forall q g, q ∈ ps -> handles s !! q = Some g -> simple (type g)) ->
  0 <= r <= UINT64_MAX -> (length ps < fuel)%nat -> (size (handles s) <= fuel)%nat ->
  exists s1 s2 s3 h3,
    uv_close close_other p c s = Ret tt s1 /\
    uv_timer_start p (Some d) t r s1 = Ret (E := E) 0 s2 /\
    uv__run_closing_handles (external record) finish_close_other fuel s2 = Ret tt s3 /\
    handles s3 !! p = Some h3 /\ has_flag h3 UV_CLOSED = true /\ active_of UV_TIMER h3 = true /\
    timeout h3 = clamp_timeout (time s1) t /\ timer_cb h3 = Some d /\
    forall now', timeout h3 <= now' < UINT64_MAX ->
    exists s4 qs, uv__run_timers (external (E := E) record) fuel (set_time now' s3) = Ret tt s4 /\
      (p ∈ qs) /\ env s4 = called record (handles s3) qs (env s3).
Proof.
  intros Hi Hp Ht Hn Hcl Hsim Hr Hf Hf2.
  destruct (close_run close_other s p h c ps Hi Hp (or_introl Ht) Hn Hcl)
    as (s1 & h1 & Hclose & Hi1 & Hcl1 & He1 & Hh1 & Hty1 & Hcb1 & Ha1 & Hg1 & Hd1).
  assert (handles s1 !! p = Some h1) as Hp1 by (rewrite Hh1; apply lookup_insert_eq).
  rewrite Ht in Hty1.
  destruct (timer_start_run (E := E) s1 p h1 d t r Hi1 Hp1 Hty1 Hr) as (q & Hstart & Hi2).
  set (s2 := after_start s1 p d t r h1 q) in *.
  set (h2 := or_flags UV__HANDLE_ACTIVE (arm s1 d t r (clear_flags UV__HANDLE_ACTIVE h1))).
  assert (handles s2 = <[p := h2]> (handles s)) as Hh2 by (simpl; by rewrite Hh1, insert_insert_eq).
  assert (closing_list s2 (p :: ps)) as Hcl2.
  { eapply closing_list_upd; [exact Hcl1|done|apply (arm_same_close s1)|done|done]. }
  pose proof Hcl2 as [[Hpn Hnd]%NoDup_cons _].
  destruct (closing_run finish_close_other record fuel s2 (p :: ps) Hi2 Hcl2)
    as (s3 & Hrun & Hi3 & _ & Hh3 & _); [|simpl; lia|].
  { intros x g Hx Hg. rewrite Hh2 in Hg. apply elem_of_cons in Hx as [->|Hx].
    - rewrite lookup_insert_eq in Hg. injection Hg as <-. unfold simple. simpl. rewrite Hty1. set_solver.
    - rewrite lookup_insert_ne in Hg by by intros ->. by apply (Hsim x). }
  assert (handles s3 !! p = Some (finished h2)) as Hp3.
  { rewrite Hh3. cbn [finish_all]. rewrite finish_all_ne, Hh2, lookup_alter_eq, lookup_insert_eq by done. done. }
  assert (active_of UV_TIMER (finished h2) = true) as Ha3.
  { unfold active_of, uv__is_active, finished. rewrite has_clear_other, has_or_other by done.
    unfold h2. rewrite has_or_same by done. simpl. by rewrite Hty1. }
  exists s1, s2, s3, (finished h2). split_and!; try done.
  { unfold finished. by flags_simpl. }
  intros now' [Hn1 Hn2]. pose proof (ho_timeout _ (li_ok _ Hi3 _ _ Hp3)).
  destruct (run_timers_fires (E := E) record fuel (set_time now' s3)) as (s4 & qs & Hrun4 & _ & Hfi).
  - by apply loop_inv_time.
  - simpl in *. lia.
  - etransitivity; [apply where_size|]. etransitivity; [|exact Hf2].
    simpl. by rewrite Hh3, finish_all_size, Hh2, (size_insert_same _ _ h) by done.
  - destruct Hfi as (_ & Hset & _ & Henv & _). exists s4, qs. split_and!; [done| |done].
    apply (elem_of_list_to_set (C := gset ptr)). rewrite Hset. apply elem_of_where.
    exists (finished h2). split; [done|]. unfold due. rewrite Ha3. apply Z.leb_le. done.
Qed.
End Restart.

(** ** Runs that meet the hypotheses *)

Module Run.
(** The time in milliseconds and the calls so far. *)
Abbreviation world := (Z * list (Z * ptr * Z))%type.

Definition tick (x : world) : Z := Z.min HORIZON (Z.max 0 x.1).

#[global] Instance demo_world : World Z world := {|
  now := tick;
  calls x := x.2;
  hrtime x := (tick x * 1000000, (tick x, x.2));
  wait t x := (tick x + t, x.2);
  record c p x := (x.1, x.2 ++ [(c, p, tick x)])
|}.

#[global] Instance demo_world_laws : WorldLaws Z world.
Proof.
  split; unfold now, hrtime, wait, record, calls, demo_world, tick; simpl; intros; try done;
    unfold HORIZON, UINT64_MAX in *; change (18446744073709551615 / 1000000) with 18446744073709; lia.
Qed.

Abbreviation state := (uv_state hstate Z world).

Definition fresh : state := uv_loop_init_fields hrtime (100, []).
Definition one : state := Demo.after (uv_timer_init 1 Demo.memory) fresh.
Definition two : state := Demo.after (uv_timer_init 2 Demo.memory) one.
Definition three : state := Demo.after (uv_timer_start 1 (Some 10) 30 0) two.
Definition four : state := Demo.after (uv_timer_start 2 (Some 20) 7 0) three.

Definition handle (s : state) (p : ptr) : uv_handle Z := default Demo.memory (handles s !! p).

Lemma loop_four_inv : loop_inv four.
Proof.
  apply (Demo.timer_start_inv _ _ (handle three 2)); [|by vm_compute..].
  apply (Demo.timer_start_inv _ _ (handle two 1)); [|by vm_compute..].
  repeat apply Demo.timer_init_inv; [apply loop_init_inv|by vm_compute..].
Qed.

Definition oneshot_handle (t0 : Z) (h : uv_handle Z) : bool :=
  negb (uv__is_active h) ||
  (bool_decide (type h = UV_TIMER) && uv__has_ref h && (repeat_ h =? 0) &&
   (timeout h <=? Z.min HORIZON (t0 + INT_MAX))).

Lemma oneshot_handles t0 (s : state) p h :
  forallb (fun kv => oneshot_handle t0 kv.2) (map_to_list (handles s)) = true ->
  handles s !! p = Some h -> uv__is_active h = true ->
  type h = UV_TIMER /\ uv__has_ref h = true /\ repeat_ h = 0 /\ timeout h <= Z.min HORIZON (t0 + INT_MAX).
Proof.
  intros Hall Hp Ha. rewrite forallb_forall in Hall.
  specialize (Hall (p, h) ltac:(by apply list_elem_of_In, elem_of_map_to_list)).
  unfold oneshot_handle in Hall. simpl in Hall. rewrite Ha in Hall. simpl in Hall.
  rewrite !andb_true_iff, bool_decide_eq_true, Z.eqb_eq, Z.leb_le in Hall. tauto.
Qed.

Lemma four_oneshot : oneshot (time four) four.
Proof.
  split; [apply loop_four_inv| | | |by vm_compute..].
  - intros p h. apply oneshot_handles. by vm_compute.
  - by vm_compute.
  - split; [apply NoDup_singleton|by vm_compute].
Qed.
End Run.


Lemma closed_timer_fires_witness :
  exists s1 s2 s3 h3,
    uv_close (fun _ _ => skip) 2 (Some 21) Demo.eight = Ret (E := Empty_set) tt s1 /\
    uv_timer_start 2 (Some 22) 1 0 s1 = Ret (E := Empty_set) 0 s2 /\
    uv__run_closing_handles (external Demo.note) (fun _ _ => skip) 4 s2 = Ret (E := Empty_set) tt s3 /\
    handles s3 !! 2%positive = Some h3 /\ has_flag h3 UV_CLOSED = true /\ active_of UV_TIMER h3 = true /\
    timeout h3 = clamp_timeout (time s1) 1 /\ timer_cb h3 = Some 22 /\
    forall now', timeout h3 <= now' < UINT64_MAX ->
    exists s4 qs, uv__run_timers (external (E := Empty_set) Demo.note) 4 (set_time now' s3) = Ret tt s4 /\
      (2%positive ∈ qs) /\ env s4 = called Demo.note (handles s3) qs (env s3).
Proof.
  apply (closed_timer_fires Demo.note _ _ Demo.eight 2 (Demo.handle Demo.eight 2) (Some 21) 22 1 0 [] 4);
    [apply Demo.eight_inv|by vm_compute|by vm_compute|by vm_compute|apply Demo.eight_closing
    |by intros q g []%not_elem_of_nil|by vm_compute|simpl; lia|].
  apply Nat.leb_le. by vm_compute.
Defined.
