(* ===== verification/UvRings.v ===== *)
(** * Many queues in one memory

    The lists that the rings of [UvQueue] carry, by their heads, and the macros on
    one of them.  Removed nodes keep their pointers; they are in no ring. *)

From stdpp Require Import base option list gmap.
From Stdlib Require Import ZArith Lia.
From S2P Require Import Prelude UvQueue.

Section Rings.
Context {A : Type} `{Countable A}.
Implicit Types (h n q a b : A) (m : qmem A) (xs ys l : list A) (R : gmap A (list A)).

(** [QUEUE_SPLIT] moves all the nodes of a ring to an empty one. *)
Lemma queue_split_spec m h q xs n :
  is_queue m h (q :: xs) -> n ∉ h :: q :: xs ->
  exists m', QUEUE_SPLIT h q n m = Some m' /\ is_queue m' h [] /\ is_queue m' n (q :: xs) /\
    agree (fun a => a ∉ n :: h :: q :: xs) m m'.
Proof.
  intros Hq Hn. pose proof (is_queue_prev _ _ _ Hq) as Hp. pose proof Hq as [Hnd Hl].
  set (z := List.last (q :: xs) h) in *.
  destruct (snoc_cons q xs) as [l E].
  assert (Hz : z = List.last xs q) by (unfold z; rewrite E; apply last_last). rewrite <- Hz in E.
  assert (Hqp : QUEUE_PREV q m = Some h) by apply Hl.
  rewrite !not_elem_of_cons in Hn. destruct Hn as (Hnh & Hnq & Hnx).
  rewrite !NoDup_cons, not_elem_of_cons in Hnd. destruct Hnd as ((Hhq & Hhx) & Hqx & Hnd).
  assert (Hzin : z ∈ q :: xs) by (rewrite E; set_solver).
  assert (Hzh : z <> h) by (intros Hzh; rewrite Hzh in Hzin; by apply elem_of_cons in Hzin as [?|?]).
  assert (Hzn : z <> n) by (intros Hzn; rewrite Hzn in Hzin; by apply elem_of_cons in Hzin as [?|?]).
  unfold QUEUE_SPLIT. rewrite Hp. cbn [mbind option_bind].
  assert (set_prev_next n n (set_prev n z m) = Some (set_next z n (set_prev n z m))) as ->.
  { unfold set_prev_next, QUEUE_PREV. simpl. by rewrite lookup_insert_eq. }
  cbn [mbind option_bind].
  assert (QUEUE_PREV q (set_next n q (set_next z n (set_prev n z m))) = Some h) as ->.
  { unfold QUEUE_PREV. simpl. by rewrite lookup_insert_ne. }
  cbn [mbind option_bind]. set (m4 := set_prev h h _).
  assert (set_prev_next h h m4 = Some (set_next h h m4)) as ->.
  { unfold set_prev_next, QUEUE_PREV, m4. simpl. by rewrite lookup_insert_eq. }
  cbn [mbind option_bind].
  eexists. split; [done|]. unfold m4. split_and!.
  - split; [apply NoDup_singleton|]. simpl. rewrite lookup_insert_eq, lookup_insert_ne, lookup_insert_eq by done. done.
  - split; [by rewrite !NoDup_cons, not_elem_of_cons|]. simpl.
    rewrite (lookup_insert_ne _ h n), lookup_insert_eq by done. rewrite lookup_insert_eq. split_and!; [done..|].
    assert (Hmid : links m ((q :: xs) ++ [h])) by apply Hl.
    assert (Hin : forall a, a ∉ q :: xs -> a ∉ l).
    { intros a Ha Hin. apply Ha. rewrite E. apply elem_of_app. by left. }
    assert (Hzl : z ∉ l).
    { assert (HN : NoDup (l ++ [z])) by (rewrite <- E; by constructor). apply NoDup_app in HN as (_ & HN & _).
      intros Hzl. eapply HN; [done|]. by apply list_elem_of_singleton. }
    assert (Hhl : h ∉ l) by (apply Hin; by rewrite not_elem_of_cons).
    assert (Hnl : n ∉ l) by (apply Hin; by rewrite not_elem_of_cons).
    change (q :: xs ++ [n]) with ((q :: xs) ++ [n]). rewrite E, <- app_assoc in Hmid |- *. simpl in *.
    apply links_app in Hmid as [Hmid _]. apply links_app. split.
    + rewrite <- E in Hmid |- *. apply links_set_prev; [done|]. rewrite E.
      apply links_set_next; [done|]. rewrite <- E. apply links_set_prev; [done|]. rewrite E.
      apply links_set_next; [done|]. apply links_set_next; [done|]. rewrite <- E. by apply links_set_prev.
    + simpl. rewrite (lookup_insert_ne _ h z), (lookup_insert_ne _ n z), lookup_insert_eq by done.
      rewrite (lookup_insert_ne _ q n), (lookup_insert_ne _ h n), lookup_insert_eq by done. done.
  - intros a Ha. rewrite !not_elem_of_cons in Ha. destruct Ha as (Han & Hah & Haq & Hax).
    assert (Haz : a <> z) by (intros ->; by apply elem_of_cons in Hzin as [?|?]). simpl. rewrite !lookup_insert_ne by done. done.
Qed.

(** ** The rings of a memory *)

Definition rings m R : Prop :=
  (forall h xs, R !! h = Some xs -> is_queue m h xs) /\
  (forall h1 h2 xs1 xs2, R !! h1 = Some xs1 -> R !! h2 = Some xs2 -> h1 <> h2 -> (h1 :: xs1) ## (h2 :: xs2)).

(** A node of no ring *)
Definition fresh R q : Prop := forall h xs, R !! h = Some xs -> q ∉ h :: xs.

(** Fields are never taken away. *)
Definition grows m m' : Prop := forall a, is_Some (nexts m !! a) -> is_Some (nexts m' !! a).

(** The macros on nodes [P] spares keep the other rings. *)
Lemma rings_frame m m' R h xs :
  rings m R -> is_queue m' h xs ->
  (forall h' xs', R !! h' = Some xs' -> h' <> h -> (h' :: xs') ## (h :: xs) /\ is_queue m' h' xs') ->
  rings m' (<[h := xs]> R).
Proof.
  intros [HQ HD] Hq Hothers. split.
  - intros h' xs'. destruct (decide (h' = h)) as [->|Hne].
    + rewrite lookup_insert_eq. by intros [= <-].
    + rewrite lookup_insert_ne by done. intros HR. by apply (Hothers h' xs').
  - intros h1 h2 xs1 xs2. destruct (decide (h1 = h)) as [->|H1], (decide (h2 = h)) as [->|H2]; [done | | |].
    + rewrite lookup_insert_eq, lookup_insert_ne by done. intros [= <-] HR _. destruct (Hothers _ _ HR H2). set_solver.
    + rewrite lookup_insert_eq, lookup_insert_ne by done. intros HR [= <-] _. by apply Hothers.
    + rewrite !lookup_insert_ne by done. apply HD.
Qed.

Lemma rings_delete m R h : rings m R -> rings m (delete h R).
Proof.
  intros [HQ HD]. split.
  - intros h' xs' [_ HR]%lookup_delete_Some. by apply HQ.
  - intros h1 h2 xs1 xs2 [_ H1]%lookup_delete_Some [_ H2]%lookup_delete_Some. by apply HD.
Qed.

Lemma fresh_delete R q h : fresh R q -> fresh (delete h R) q.
Proof. intros Hf h' xs' [_ HR]%lookup_delete_Some. by apply Hf. Qed.

(** The head of a ring that is given up is in no other. *)
Lemma fresh_head m R h xs : rings m R -> R !! h = Some xs -> fresh (delete h R) h.
Proof.
  intros [_ HD] HR h' xs' [Hne HR']%lookup_delete_Some Hin.
  apply (HD h h' xs xs' HR HR' Hne h); [by left | done].
Qed.

Lemma rings_init m R q : rings m R -> fresh R q -> rings (QUEUE_INIT q m) (<[q := []]> R).
Proof.
  intros HR Hf. eapply rings_frame; [done | apply queue_init_spec |].
  intros h xs Hh Hne. specialize (Hf h xs Hh). split; [set_solver|].
  eapply (is_queue_agree (fun a => a <> q)); [| | by apply HR].
  - intros a Ha. simpl. by rewrite !lookup_insert_ne.
  - intros a Ha ->. done.
Qed.

Lemma rings_insert_tail m R h xs q :
  rings m R -> R !! h = Some xs -> fresh R q ->
  exists m', QUEUE_INSERT_TAIL h q m = Some m' /\ rings m' (<[h := xs ++ [q]]> R).
Proof.
  intros HR Hh Hf. destruct (queue_insert_tail_spec m h xs q) as (m' & Hm & Hq & Ha).
  { by apply HR. } { by apply Hf. }
  exists m'. split; [done|]. eapply rings_frame; [done..|].
  intros h' xs' Hh' Hne. pose proof (Hf _ _ Hh') as Hf'. pose proof (proj2 HR _ _ _ _ Hh' Hh Hne) as HD.
  split; [set_solver|]. eapply (is_queue_agree _ _ _ _ _ Ha); [|by apply HR].
  intros a Hin. set_solver.
Qed.

Lemma rings_remove m R h xs q ys :
  rings m R -> R !! h = Some (xs ++ q :: ys) ->
  exists m', QUEUE_REMOVE q m = Some m' /\ rings m' (<[h := xs ++ ys]> R) /\ fresh (<[h := xs ++ ys]> R) q.
Proof.
  intros HR Hh. destruct (queue_remove_spec m h xs q ys) as (m' & Hm & Hq & Ha); [by apply HR|].
  exists m'. split; [done|]. split.
  - eapply rings_frame; [done..|]. intros h' xs' Hh' Hne. pose proof (proj2 HR _ _ _ _ Hh' Hh Hne) as HD.
    split; [set_solver|]. eapply (is_queue_agree _ _ _ _ _ Ha); [|by apply HR]. intros a Hin. set_solver.
  - intros h' xs'. destruct (decide (h' = h)) as [->|Hne].
    + rewrite lookup_insert_eq. intros [= <-]. apply HR in Hh as [Hnd _].
      rewrite NoDup_cons, NoDup_app, NoDup_cons in Hnd. set_solver.
    + rewrite lookup_insert_ne by done. intros Hh'. pose proof (proj2 HR _ _ _ _ Hh' Hh Hne) as HD. set_solver.
Qed.

Lemma rings_split m R h q xs n :
  rings m R -> R !! h = Some (q :: xs) -> R !! n = Some [] ->
  exists m', QUEUE_SPLIT h q n m = Some m' /\ rings m' (<[n := q :: xs]> (<[h := []]> R)).
Proof.
  intros HR Hh Hn. assert (Hne : h <> n) by (intros ->; by simplify_map_eq).
  pose proof (proj2 HR _ _ _ _ Hh Hn Hne) as HD.
  destruct (queue_split_spec m h q xs n) as (m' & Hm & Hqh & Hqn & Ha); [by apply HR | set_solver |].
  exists m'. split; [done|]. pose proof (proj1 HR _ _ Hh) as [Hnd _]. apply NoDup_cons in Hnd as [Hhx _].
  assert (HF : forall h' xs', R !! h' = Some xs' -> h' <> h -> h' <> n ->
    (h' :: xs') ## (n :: h :: q :: xs) /\ is_queue m' h' xs').
  { intros h' xs' Hh' H1 H2. pose proof (proj2 HR _ _ _ _ Hh' Hh H1). pose proof (proj2 HR _ _ _ _ Hh' Hn H2).
    split; [set_solver|]. eapply (is_queue_agree _ _ _ _ _ Ha); [|by apply HR]. intros a Hin. set_solver. }
  assert (R1 : rings m' (<[h := []]> (delete n R))).
  { eapply rings_frame; [by apply rings_delete | done |]. intros h' xs' [Hn' Hh']%lookup_delete_Some H1.
    destruct (HF h' xs') as [HS ?]; [done..|]. split; [set_solver | done]. }
  assert (E : <[n := q :: xs]> (<[h := []]> R) = <[n := q :: xs]> (<[h := []]> (delete n R))).
  { rewrite !(insert_insert_ne _ n h) by done. by rewrite insert_delete_eq. }
  rewrite E. eapply rings_frame; [done..|]. intros h' xs' Hh' H1.
  destruct (decide (h' = h)) as [->|H2].
  - rewrite lookup_insert_eq in Hh'. injection Hh' as <-. split; [set_solver | done].
  - rewrite lookup_insert_ne, lookup_delete_ne in Hh' by done.
    destruct (HF h' xs') as [HS ?]; [done..|]. split; [set_solver | done].
Qed.

(** ** Fields once written *)

Lemma fields_trans m1 m2 m3 : grows m1 m2 -> grows m2 m3 -> grows m1 m3.
Proof. unfold grows. eauto. Qed.

Lemma grows_set_next m q v : grows m (set_next q v m).
Proof. intros a Ha. simpl. apply lookup_insert_is_Some'. by right. Qed.

Lemma grows_set_prev m q v : grows m (set_prev q v m).
Proof. by intros a. Qed.

Lemma grows_init m q : grows m (QUEUE_INIT q m).
Proof. eapply fields_trans; [apply grows_set_next | apply grows_set_prev]. Qed.

Lemma grows_insert_tail m m' h q : QUEUE_INSERT_TAIL h q m = Some m' -> grows m m' /\ is_Some (nexts m' !! q).
Proof.
  unfold QUEUE_INSERT_TAIL, set_prev_next. intros (hp & _ & H1)%bind_Some.
  apply bind_Some in H1 as (m1 & (p & _ & [= <-])%bind_Some & [= <-]). split.
  - intros a Ha. simpl. apply lookup_insert_is_Some'. right. apply lookup_insert_is_Some'. by right.
  - simpl. apply lookup_insert_is_Some'. right. apply lookup_insert_is_Some'. by left.
Qed.

Lemma grows_remove m m' q : QUEUE_REMOVE q m = Some m' -> grows m m'.
Proof.
  unfold QUEUE_REMOVE, set_prev_next, set_next_prev. intros (qn & _ & H1)%bind_Some.
  apply bind_Some in H1 as (m1 & (p & _ & [= <-])%bind_Some & H2).
  apply bind_Some in H2 as (qp & _ & (p2 & _ & [= <-])%bind_Some).
  intros a Ha. simpl. apply lookup_insert_is_Some'. by right.
Qed.

Lemma grows_split m m' h q n : QUEUE_SPLIT h q n m = Some m' -> grows m m'.
Proof.
  unfold QUEUE_SPLIT, set_prev_next. intros (hp & _ & H1)%bind_Some.
  apply bind_Some in H1 as (m1 & (p & _ & [= <-])%bind_Some & H2).
  apply bind_Some in H2 as (qp & _ & H3). apply bind_Some in H3 as (m2 & (p2 & _ & [= <-])%bind_Some & [= <-]).
  intros a Ha. simpl. do 3 (apply lookup_insert_is_Some'; right). done.
Qed.

Lemma rings_next m R h xs a : rings m R -> R !! h = Some xs -> a ∈ h :: xs -> is_Some (nexts m !! a).
Proof.
  intros HR Hh Ha. apply HR in Hh as Hq. apply elem_of_cons in Ha as [->|Ha].
  - apply is_queue_next in Hq. by eexists.
  - apply list_elem_of_split in Ha as (l1 & l2 & ->). apply is_queue_middle in Hq as [Hq _]. by eexists.
Qed.

Lemma rings_empty m R h xs : rings m R -> R !! h = Some xs -> QUEUE_EMPTY h m = Some (bool_decide (xs = [])).
Proof. intros HR Hh. by apply queue_empty_spec, HR. Qed.

(** A node in a ring does not point to itself. *)
Lemma rings_not_empty m R h xs a :
  rings m R -> R !! h = Some xs -> a ∈ xs -> QUEUE_EMPTY a m = Some false.
Proof.
  intros HR Hh Ha. apply HR in Hh as Hq. apply list_elem_of_split in Ha as (l1 & l2 & ->).
  pose proof (proj1 Hq) as Hnd. apply is_queue_middle in Hq as [Hq _]. unfold QUEUE_EMPTY. rewrite Hq. simpl. f_equal.
  apply bool_decide_eq_false. rewrite NoDup_cons, NoDup_app, NoDup_cons in Hnd. destruct Hnd as (Hh' & _ & _ & Ha' & _).
  destruct l2 as [|b l2]; simpl; set_solver.
Qed.

Lemma rings_head m R h q xs : rings m R -> R !! h = Some (q :: xs) -> QUEUE_HEAD h m = Some q.
Proof. intros HR Hh. by apply HR, is_queue_next in Hh. Qed.
(** ** A memory as a map from nodes to heads

    What is left of the rings when the order in them is forgotten: [D] are the heads,
    and [H] says in whose ring a node is. *)

Implicit Types (D : A -> Prop) (H : A -> option A).

Definition mem m D H : Prop :=
  exists R, rings m R /\ (forall h, is_Some (R !! h) <-> D h) /\
    (forall n h, H n = Some h <-> exists xs, R !! h = Some xs /\ n ∈ xs).

Lemma mem_ext m D D' H' K :
  mem m D H' -> (forall h, D h <-> D' h) -> (forall n, H' n = K n) -> mem m D' K.
Proof. intros (R & HR & HD & HH) E1 E2. exists R. split_and!; [done|..]; intros; [by rewrite HD | by rewrite <- E2]. Qed.

(** A node that is no head and in no ring *)
Lemma mem_fresh R D H' q :
  (forall h, is_Some (R !! h) <-> D h) -> (forall n h, H' n = Some h <-> exists xs, R !! h = Some xs /\ n ∈ xs) ->
  ~ D q -> H' q = None -> fresh R q.
Proof.
  intros HD HH Hq Hn h xs HR [->|Hin]%elem_of_cons.
  - apply Hq, HD. by eexists.
  - assert (H' q = Some h) by (apply HH; eauto). congruence.
Qed.

Lemma mem_init m D H' q :
  mem m D H' -> ~ D q -> H' q = None -> mem (QUEUE_INIT q m) (fun h => D h \/ h = q) H'.
Proof.
  intros (R & HR & HD & HH) Hq Hn. exists (<[q := []]> R). pose proof (mem_fresh _ _ _ _ HD HH Hq Hn) as Hf. split_and!.
  - by apply rings_init.
  - intros h. rewrite lookup_insert_is_Some', HD. naive_solver.
  - intros n h. rewrite HH. split; intros (xs & Hh & Hin); exists xs.
    + rewrite lookup_insert_ne; [done|]. intros <-. destruct (Hf q xs Hh). by left.
    + destruct (decide (h = q)) as [->|]; simplify_map_eq; [set_solver | done].
Qed.

Lemma mem_insert_tail m D H' h q :
  mem m D H' -> D h -> ~ D q -> H' q = None ->
  exists m', QUEUE_INSERT_TAIL h q m = Some m' /\ mem m' D (fun n => if decide (n = q) then Some h else H' n).
Proof.
  intros (R & HR & HD & HH) Hh Hq Hn. pose proof (mem_fresh _ _ _ _ HD HH Hq Hn) as Hf.
  apply HD in Hh as [xs Hh]. destruct (rings_insert_tail m R h xs q HR Hh Hf) as (m' & Hm & HR').
  exists m'. split; [done|]. exists (<[h := xs ++ [q]]> R). split_and!; [done|..].
  - intros h'. rewrite lookup_insert_is_Some', HD. split; [intros [->|?]; [apply HD; by eexists | done] | by right].
  - intros n h'. case_decide as E.
    + subst n. split; [intros [= <-]; exists (xs ++ [q]); simplify_map_eq; set_solver|].
      intros (ys & Hys & Hin). destruct (decide (h' = h)) as [->|Hne]; [done|]. rewrite lookup_insert_ne in Hys by done.
      destruct (Hf h' ys Hys). by right.
    + rewrite HH. destruct (decide (h' = h)) as [->|Hne].
      * rewrite lookup_insert_eq, Hh. split; intros (ys & [= <-] & Hin); eexists; (split; [done|]); set_solver.
      * by rewrite lookup_insert_ne.
Qed.

Lemma mem_in_ring m D H' q h :
  mem m D H' -> H' q = Some h -> D h.
Proof. intros (R & HR & HD & HH) (xs & Hxs & _)%HH. apply HD. by eexists. Qed.

Lemma mem_remove m D H' q h :
  mem m D H' -> H' q = Some h ->
  exists m', QUEUE_REMOVE q m = Some m' /\ mem m' D (fun n => if decide (n = q) then None else H' n).
Proof.
  intros (R & HR & HD & HH) Hq. pose proof Hq as (xs & Hxs & Hin)%HH.
  apply list_elem_of_split in Hin as (l1 & l2 & ->).
  destruct (rings_remove m R h l1 q l2 HR Hxs) as (m' & Hm & HR' & Hf).
  exists m'. split; [done|]. exists (<[h := l1 ++ l2]> R). split_and!; [done|..].
  - intros h'. rewrite lookup_insert_is_Some', HD. split; [intros [->|?]; [apply HD; by eexists | done] | by right].
  - intros n h'. case_decide as E.
    + subst n. split; [done|]. intros (ys & Hys & Hin). destruct (Hf h' ys Hys). by right.
    + rewrite HH. destruct (decide (h' = h)) as [->|Hne].
      * rewrite lookup_insert_eq, Hxs. split; intros (ys & [= <-] & Hin); eexists; (split; [done|]); set_solver.
      * by rewrite lookup_insert_ne.
Qed.

Lemma mem_empty m D H' h :
  mem m D H' -> D h -> exists e : bool, QUEUE_EMPTY h m = Some e /\ if e then forall n, H' n <> Some h
    else exists n, QUEUE_HEAD h m = Some n /\ H' n = Some h.
Proof.
  intros (R & HR & HD & HH) [xs Hh]%HD. eexists. split; [by eapply rings_empty|]. case_bool_decide as E.
  - subst xs. intros n (ys & Hys & Hin)%HH. simplify_eq. by apply not_elem_of_nil in Hin.
  - destruct xs as [|n xs]; [done|]. exists n. split; [by eapply rings_head|]. apply HH. eexists. split; [done|]. by left.
Qed.

Lemma mem_not_empty m D H' q h : mem m D H' -> H' q = Some h -> QUEUE_EMPTY q m = Some false.
Proof. intros (R & HR & HD & HH) (xs & Hxs & Hin)%HH. by eapply rings_not_empty. Qed.

(** A head alone in its ring *)
Lemma mem_alone m D H' h : mem m D H' -> D h -> (forall n, H' n <> Some h) -> QUEUE_EMPTY h m = Some true.
Proof. intros Hm Hh Hn. destruct (mem_empty m D H' h Hm Hh) as ([] & He & Hb); [done|]. destruct Hb as (n & _ & Hb). by destruct (Hn n). Qed.

Lemma mem_split m D H' h q n :
  mem m D H' -> D n -> (forall a, H' a <> Some n) -> QUEUE_HEAD h m = Some q -> H' q = Some h ->
  exists m', QUEUE_SPLIT h q n m = Some m' /\ mem m' D (fun a => if decide (H' a = Some h) then Some n else H' a).
Proof.
  intros Hmem Hn He Hq Hqh. pose proof Hmem as (R & HR & HD & HH). apply HD in Hn as [ys Hys].
  pose proof Hqh as (xs & Hxs & Hin)%HH. destruct ys as [|y ys].
  2:{ destruct (He y). apply HH. eexists. split; [done|]. by left. }
  destruct xs as [|q' xs]; [by apply not_elem_of_nil in Hin|].
  assert (q' = q) as ->. { eapply rings_head in Hxs; [|done]. congruence. }
  destruct (rings_split m R h q xs n HR Hxs Hys) as (m' & Hm & HR'). exists m'. split; [done|].
  eexists. split; [done|]. assert (Hne : h <> n) by congruence. split.
  - intros h'. rewrite !lookup_insert_is_Some', HD. split; [intros [<-|[<-|?]]; [apply HD; by eexists.. | done] | by auto].
  - intros a h'. destruct (decide (h' = n)) as [->|H1].
    + rewrite lookup_insert_eq. case_decide as E.
      * split; [|done]. intros _. eexists. split; [done|]. apply HH in E as (zs & Hzs & ?). congruence.
      * split; [by intros ?%He|]. intros (zs & [= <-] & Hz). destruct E. apply HH. eauto.
    + rewrite lookup_insert_ne by done. destruct (decide (h' = h)) as [->|H2].
      * rewrite lookup_insert_eq. case_decide; [split; [congruence|]|split; [done|]];
          intros (zs & [= <-] & Hz); by apply not_elem_of_nil in Hz.
      * rewrite lookup_insert_ne by done. rewrite <- HH. case_decide as E; [|done]. rewrite E. split; congruence.
Qed.

(** A head with nothing in its ring may be forgotten. *)
Lemma mem_drop m D H' n : mem m D H' -> (forall a, H' a <> Some n) -> mem m (fun h => D h /\ h <> n) H'.
Proof.
  intros (R & HR & HD & HH) He. exists (delete n R). split_and!.
  - by apply rings_delete.
  - intros h. rewrite lookup_delete_is_Some, HD. naive_solver.
  - intros a h. rewrite HH. split; intros (xs & Hh & Hin); exists xs.
    + rewrite lookup_delete_ne; [done|]. intros <-. apply (He a), HH. eauto.
    + by apply lookup_delete_Some in Hh as [_ ?].
Qed.

Lemma mem_grows m D H' q h : mem m D H' -> H' q = Some h -> is_Some (nexts m !! q).
Proof. intros (R & HR & HD & HH) (xs & Hxs & Hin)%HH. eapply rings_next; [done..|]. by right. Qed.

Lemma mem_grows_head m D H' h : mem m D H' -> D h -> is_Some (nexts m !! h).
Proof. intros (R & HR & HD & HH) [xs Hxs]%HD. eapply rings_next; [done..|]. by left. Qed.
End Rings.
