(* ===== verification/UvPool.v ===== *)
(** * The thread pool ([core/libuv/src/threadpool.c], [unix/async.c])

    Worker threads take requests from one queue; each loop has a queue of those that
    are done, which an async handle tells it about.  Every thread is a state machine
    whose states are places in its code.  A step is an operation on a lock, or the
    code between two such operations; what other threads see in between is the state
    after a step.  The scheduler, the kernel and the program choose the next action.

    Locks and condition variables are those of POSIX: a lock that is taken blocks, a
    signal wakes a waiting thread, if there is one, and a thread may wake by itself.
    An eventfd counts what is written to it until it is read.  The program's own
    handles on a loop are not here. *)

From stdpp Require Import base option list gmap.
From Stdlib Require Import ZArith Lia.
From S2P Require Import Prelude UvQueue.

Local Open Scope prog_scope.

(** ** Addresses of queue nodes *)

Inductive node :=
  | NPool                  (* wq *)
  | NExit                  (* exit_message *)
  | NLoop (l : positive)   (* loop->wq *)
  | NLocal (l : positive)  (* wq in uv__work_done *)
  | NReqs (l : positive)   (* loop->active_reqs *)
  | NWork (w : positive)   (* w->wq *)
  | NReq (w : positive).   (* req->active_queue *)

#[export] Instance node_eq_dec : EqDecision node.
Proof. solve_decision. Defined.

Definition node_code (q : node) : positive * positive :=
  match q with
  | NPool => (1, 1)
  | NExit => (2, 1)
  | NLoop l => (3, l)
  | NLocal l => (4, l)
  | NReqs l => (5, l)
  | NWork w => (6, w)
  | NReq w => (7, w)
  end%positive.

Definition node_decode (c : positive * positive) : option node :=
  match c with
  | (1, _) => Some NPool
  | (2, _) => Some NExit
  | (3, l) => Some (NLoop l)
  | (4, l) => Some (NLocal l)
  | (5, l) => Some (NReqs l)
  | (6, w) => Some (NWork w)
  | (7, w) => Some (NReq w)
  | _ => None
  end%positive.

#[export] Instance node_countable : Countable node.
Proof. apply (inj_countable node_code node_decode). by intros []. Defined.

(** ** Requests, loops and threads *)

(** [w->work]: none, the work of the request, or [uv__cancelled] *)
Inductive work_fn := FnNull | FnWork | FnCancelled.

#[export] Instance work_fn_eq_dec : EqDecision work_fn.
Proof. solve_decision. Defined.

(** [struct uv__work] in its [uv_work_t]; [w_after] is whether there is an [after_work_cb] *)
Record uvwork := UvWork { w_loop : positive; w_work : work_fn; w_after : bool }.

Inductive thread := TWorker (i : positive) | TLoop (l : positive).

#[export] Instance thread_eq_dec : EqDecision thread.
Proof. solve_decision. Defined.

#[export] Instance thread_countable : Countable thread.
Proof.
  apply (inj_countable
    (fun t => match t with TWorker i => inl i | TLoop l => inr l end)
    (fun c => match c with inl i => Some (TWorker i) | inr l => Some (TLoop l) end)).
  by intros [].
Defined.

(** What is posted: a request, or the exit message. *)
Abbreviation item := (option positive).
Definition node_of (q : item) : node := match q with Some w => NWork w | None => NExit end.

(** Places in [uv_async_send] *)
Inductive send_pc := SendRead | SendCas | SendWrite.

(** Places in the code of a thread; [l] is the loop of the request, and [cb] whether
    the loop is in a callback of [uv__work_done]. *)
Inductive pc :=
  (* worker *)
  | WLock                               (* uv_mutex_lock(&mutex) *)
  | WTest                               (* while (QUEUE_EMPTY(&wq)) *)
  | WWait                               (* uv_cond_wait *)
  | WUnlock (q : item)                  (* uv_mutex_unlock(&mutex) *)
  | WRun (w : positive)                 (* w->work(w) *)
  | WLockLoop (w : positive)            (* uv_mutex_lock(&w->loop->wq_mutex) *)
  | WInsert (w l : positive)            (* w->work = NULL *)
  | WSend (l : positive) (s : send_pc)  (* uv_async_send *)
  | WUnlockLoop (l : positive)          (* uv_mutex_unlock(&w->loop->wq_mutex) *)
  | WExited
  (* a loop: in uv_run or in a callback *)
  | LReady (cb : bool)
  (* post *)
  | LPostLock (q : item) (cb : bool)
  | LPost (q : item) (cb : bool)
  | LPostUnlock (q : item) (cb : bool)
  (* uv__work_cancel *)
  | LCancelLock (w : positive) (cb : bool)
  | LCancelLock2 (w : positive) (cb : bool)
  | LCancelTest (w : positive) (cb : bool)
  | LCancelUnlock (w : positive) (c cb : bool)
  | LCancelUnlock2 (w : positive) (c cb : bool)
  | LCancelMark (w : positive) (cb : bool)
  | LCancelLock3 (w : positive) (cb : bool)
  | LCancelInsert (w : positive) (cb : bool)
  | LCancelSend (s : send_pc) (cb : bool)
  | LCancelUnlock3 (cb : bool)
  (* uv__async_event, uv__work_done *)
  | LEvent
  | LDoneLock
  | LDoneSplit
  | LDoneUnlock
  | LDoneNext
  (* cleanup *)
  | LJoin (cb : bool)
  | LGone (cb : bool).

#[export] Instance send_pc_eq_dec : EqDecision send_pc.
Proof. solve_decision. Defined.
#[export] Instance pc_eq_dec : EqDecision pc.
Proof. solve_decision. Defined.

Record pool_loop := PoolLoop { wq_mutex : option thread; pending : bool; efd : nat }.

(** What the program sees: calls and their results, and what runs. *)
Inductive event :=
  | EvSubmit (w : positive)          (* uv_queue_work *)
  | EvRan (w : positive)             (* work_cb *)
  | EvBusy (w : positive)            (* uv_cancel is to return UV_EBUSY *)
  | EvCancelled (w : positive)       (* uv_cancel is to return 0 *)
  | EvDone (w : positive) (err : Z). (* uv__queue_done *)

Record pool := Pool {
  qm : qmem node;
  p_mutex : option thread;
  pcs : gmap thread pc;
  works : gmap positive uvwork;
  loops : gmap positive pool_loop;
  exiting : bool;
  events : list event
}.

Definition UV_ECANCELED : Z := -125.

(** An action that the state does not allow: its thread waits, or is elsewhere. *)
Inductive refusal := Blocked | NotNow.

Definition mpool : Type -> Type := M pool refusal.

(** ** Access to the state *)

Definition set_qm m s := Pool m (p_mutex s) (pcs s) (works s) (loops s) (exiting s) (events s).
Definition set_p_mutex o s := Pool (qm s) o (pcs s) (works s) (loops s) (exiting s) (events s).
Definition set_pc t p s := Pool (qm s) (p_mutex s) (<[t := p]> (pcs s)) (works s) (loops s) (exiting s) (events s).
Definition set_work w r s := Pool (qm s) (p_mutex s) (pcs s) (<[w := r]> (works s)) (loops s) (exiting s) (events s).
Definition set_loop l r s := Pool (qm s) (p_mutex s) (pcs s) (works s) (<[l := r]> (loops s)) (exiting s) (events s).
Definition set_exiting s := Pool (qm s) (p_mutex s) (pcs s) (works s) (loops s) true (events s).
Definition add_event e s := Pool (qm s) (p_mutex s) (pcs s) (works s) (loops s) (exiting s) (events s ++ [e]).

Definition go (t : thread) (p : pc) : mpool unit := modify (set_pc t p).
Definition log (e : event) : mpool unit := modify (add_event e).
Definition q_ask {A} (f : qmem node -> option A) : mpool A := s <- get ;; orfail NullDeref (f (qm s)).
Definition q_do (f : qmem node -> option (qmem node)) : mpool unit := m <- q_ask f ;; modify (set_qm m).
Definition get_work (w : positive) : mpool uvwork := s <- get ;; orfail NullDeref (works s !! w).
Definition get_loop (l : positive) : mpool pool_loop := s <- get ;; orfail NullDeref (loops s !! l).

Definition lock_pool (t : thread) : mpool unit :=
  s <- get ;; match p_mutex s with None => put (set_p_mutex (Some t) s) | Some _ => raise Blocked end.
Definition unlock_pool : mpool unit := modify (set_p_mutex None).

Definition lock_loop (t : thread) (l : positive) : mpool unit :=
  lp <- get_loop l ;;
  match wq_mutex lp with
  | None => modify (set_loop l (PoolLoop (Some t) (pending lp) (efd lp)))
  | Some _ => raise Blocked
  end.
Definition unlock_loop (l : positive) : mpool unit :=
  lp <- get_loop l ;; modify (set_loop l (PoolLoop None (pending lp) (efd lp))).

(** [uv_cond_signal]: [j] is the thread that wakes, of those that wait. *)
Definition uv_cond_signal (j : positive) : mpool unit :=
  s <- get ;;
  if decide (pcs s !! TWorker j = Some WWait) then go (TWorker j) WLock
  else if decide (map_Forall (fun _ p => p <> WWait) (pcs s)) then skip
  else raise NotNow.

(** [uv_async_send]: the next place in it, or none when it returns; [uv__async_send]
    writes to the eventfd. *)
Definition uv_async_send (l : positive) (s : send_pc) : mpool (option send_pc) :=
  lp <- get_loop l ;;
  match s with
  | SendRead => ret (if pending lp then None else Some SendCas)
  | SendCas =>
      if pending lp then ret None
      else modify (set_loop l (PoolLoop (wq_mutex lp) true (efd lp))) ;;; ret (Some SendWrite)
  | SendWrite => modify (set_loop l (PoolLoop (wq_mutex lp) (pending lp) (S (efd lp)))) ;;; ret None
  end.

(** ** The threads of the pool *)

Definition set_fn (w : positive) (f : work_fn) : mpool unit :=
  r <- get_work w ;; modify (set_work w (UvWork (w_loop r) f (w_after r))).

(** [worker]: one step of the thread [i] at the place [p]; [j] wakes when it signals. *)
Definition worker (i j : positive) (p : pc) : mpool unit :=
  let t := TWorker i in
  match p with
  | WLock => lock_pool t ;;; go t WTest
  | WTest =>
      e <- q_ask (QUEUE_EMPTY NPool) ;;
      if e : bool then unlock_pool ;;; go t WWait
      else
        q <- q_ask (QUEUE_HEAD NPool) ;;
        match q with
        | NExit => uv_cond_signal j ;;; go t (WUnlock None)
        | NWork w =>
            q_do (QUEUE_REMOVE q) ;;;
            q_do (fun m => Some (QUEUE_INIT q m)) ;;;
            go t (WUnlock (Some w))
        | _ => fail OutOfBounds
        end
  | WWait => raise Blocked
  | WUnlock q => unlock_pool ;;; go t (match q with Some w => WRun w | None => WExited end)
  | WRun w =>
      r <- get_work w ;;
      match w_work r with
      | FnWork => log (EvRan w) ;;; go t (WLockLoop w)
      | FnCancelled => fail AssertFail
      | FnNull => fail NullDeref
      end
  | WLockLoop w => r <- get_work w ;; lock_loop t (w_loop r) ;;; go t (WInsert w (w_loop r))
  | WInsert w l =>
      set_fn w FnNull ;;;
      q_do (QUEUE_INSERT_TAIL (NLoop l) (NWork w)) ;;;
      go t (WSend l SendRead)
  | WSend l s =>
      next <- uv_async_send l s ;;
      go t (match next with Some s' => WSend l s' | None => WUnlockLoop l end)
  | WUnlockLoop l => unlock_loop l ;;; go t WLock
  | _ => raise NotNow
  end.

(** ** What a loop does *)

(** [post]; a request was posted by [uv__work_submit], the exit message by [cleanup]. *)
Definition post (l j : positive) (p : pc) : mpool unit :=
  let t := TLoop l in
  match p with
  | LPostLock q cb => lock_pool t ;;; go t (LPost q cb)
  | LPost q cb =>
      q_do (QUEUE_INSERT_TAIL NPool (node_of q)) ;;;
      uv_cond_signal j ;;;
      go t (LPostUnlock q cb)
  | LPostUnlock q cb =>
      unlock_pool ;;; go t (match q with Some _ => LReady cb | None => LJoin cb end)
  | _ => raise NotNow
  end.

(** The request is registered and submitted. *)
Definition uv__work_submit (l w : positive) (after cb : bool) : mpool unit :=
  modify (set_work w (UvWork l FnWork after)) ;;; go (TLoop l) (LPostLock (Some w) cb).

Definition uv_queue_work (l w : positive) (after cb : bool) : mpool unit :=
  q_do (QUEUE_INSERT_TAIL (NReqs l) (NReq w)) ;;;
  log (EvSubmit w) ;;;
  uv__work_submit l w after cb.

Definition uv__work_cancel (l : positive) (p : pc) : mpool unit :=
  let t := TLoop l in
  match p with
  | LCancelLock w cb => lock_pool t ;;; go t (LCancelLock2 w cb)
  | LCancelLock2 w cb => r <- get_work w ;; lock_loop t (w_loop r) ;;; go t (LCancelTest w cb)
  | LCancelTest w cb =>
      e <- q_ask (QUEUE_EMPTY (NWork w)) ;;
      r <- get_work w ;;
      let cancelled := negb e && negb (bool_decide (w_work r = FnNull)) in
      (if cancelled then q_do (QUEUE_REMOVE (NWork w)) ;;; log (EvCancelled w) else log (EvBusy w)) ;;;
      go t (LCancelUnlock w cancelled cb)
  | LCancelUnlock w c cb => r <- get_work w ;; unlock_loop (w_loop r) ;;; go t (LCancelUnlock2 w c cb)
  | LCancelUnlock2 w c cb => unlock_pool ;;; go t (if c then LCancelMark w cb else LReady cb)
  | LCancelMark w cb => set_fn w FnCancelled ;;; go t (LCancelLock3 w cb)
  | LCancelLock3 w cb => lock_loop t l ;;; go t (LCancelInsert w cb)
  | LCancelInsert w cb =>
      q_do (QUEUE_INSERT_TAIL (NLoop l) (NWork w)) ;;; go t (LCancelSend SendRead cb)
  | LCancelSend s cb =>
      next <- uv_async_send l s ;;
      go t (match next with Some s' => LCancelSend s' cb | None => LCancelUnlock3 cb end)
  | LCancelUnlock3 cb => unlock_loop l ;;; go t (LReady cb)
  | _ => raise NotNow
  end.

(** [uv__async_event] at the handle [wq_async] *)
Definition uv__async_event (l : positive) : mpool unit :=
  lp <- get_loop l ;;
  if pending lp then
    modify (set_loop l (PoolLoop (wq_mutex lp) false (efd lp))) ;;;
    q_do (fun m => Some (QUEUE_INIT (NLocal l) m)) ;;;
    go (TLoop l) LDoneLock
  else go (TLoop l) (LReady false).

(** [uv__queue_done]; its loop is that of the request. *)
Definition uv__queue_done (l w : positive) (r : uvwork) (err : Z) : mpool unit :=
  e <- q_ask (QUEUE_EMPTY (NReqs (w_loop r))) ;;
  assertM (negb e) ;;;
  q_do (QUEUE_REMOVE (NReq w)) ;;;
  log (EvDone w err) ;;;
  go (TLoop l) (if w_after r then LReady true else LDoneNext).

Definition uv__work_done (l : positive) (p : pc) : mpool unit :=
  let t := TLoop l in
  match p with
  | LDoneLock => lock_loop t l ;;; go t LDoneSplit
  | LDoneSplit =>
      e <- q_ask (QUEUE_EMPTY (NLoop l)) ;;
      (when (negb e) do (q <- q_ask (QUEUE_HEAD (NLoop l)) ;; q_do (QUEUE_SPLIT (NLoop l) q (NLocal l)))) ;;;
      go t LDoneUnlock
  | LDoneUnlock => unlock_loop l ;;; go t LDoneNext
  | LDoneNext =>
      e <- q_ask (QUEUE_EMPTY (NLocal l)) ;;
      if e : bool then go t (LReady false)
      else
        q <- q_ask (QUEUE_HEAD (NLocal l)) ;;
        q_do (QUEUE_REMOVE q) ;;;
        match q with
        | NWork w =>
            r <- get_work w ;;
            uv__queue_done l w r (if decide (w_work r = FnCancelled) then UV_ECANCELED else 0)
        | _ => fail OutOfBounds
        end
  | _ => raise NotNow
  end.

(** The loop's part of [cleanup]: all the workers are joined. *)
Definition exited (t : thread) (p : pc) : Prop := match t with TWorker _ => p = WExited | TLoop _ => True end.
#[export] Instance exited_dec t p : Decision (exited t p).
Proof. unfold exited. destruct t; apply _. Defined.

Definition join_workers (l : positive) (cb : bool) : mpool unit :=
  s <- get ;;
  if decide (map_Forall exited (pcs s)) then go (TLoop l) (LGone cb) else raise Blocked.

Definition cleanup (l : positive) (cb : bool) : mpool unit :=
  modify set_exiting ;;; go (TLoop l) (LPostLock None cb).

(** ** Actions *)

Inductive action :=
  | Step (t : thread) (j : positive)   (* the next step of a thread *)
  | Poll (l : positive)                (* uv__async_io: the eventfd is read *)
  | Return (l : positive)              (* after_work_cb returns *)
  | Spurious (i : positive)            (* a waiting worker wakes by itself *)
  | QueueWork (l w : positive) (after : bool)
  | Cancel (l w : positive)
  | Exit (l : positive).

Definition loop_step (l j : positive) (p : pc) : mpool unit :=
  match p with
  | LPostLock _ _ | LPost _ _ | LPostUnlock _ _ => post l j p
  | LEvent => uv__async_event l
  | LDoneLock | LDoneSplit | LDoneUnlock | LDoneNext => uv__work_done l p
  | LJoin cb => join_workers l cb
  | _ => uv__work_cancel l p
  end.

Definition get_pc (t : thread) : mpool pc :=
  s <- get ;; match pcs s !! t with Some p => ret p | None => raise NotNow end.

(** The loop is not inside the functions above. *)
Definition ready (l : positive) : mpool bool :=
  p <- get_pc (TLoop l) ;; match p with LReady cb => ret cb | _ => raise NotNow end.

Definition perform (a : action) : mpool unit :=
  match a with
  | Step (TWorker i) j => p <- get_pc (TWorker i) ;; worker i j p
  | Step (TLoop l) j => p <- get_pc (TLoop l) ;; loop_step l j p
  | Poll l =>
      cb <- ready l ;;
      lp <- get_loop l ;;
      if cb || bool_decide (efd lp = 0) then raise Blocked
      else modify (set_loop l (PoolLoop (wq_mutex lp) (pending lp) 0)) ;;; go (TLoop l) LEvent
  | Return l => cb <- ready l ;; if cb : bool then go (TLoop l) LDoneNext else raise NotNow
  | Spurious i =>
      p <- get_pc (TWorker i) ;;
      if decide (p = WWait) then go (TWorker i) WLock else raise NotNow
  | QueueWork l w after => cb <- ready l ;; uv_queue_work l w after cb
  | Cancel l w => cb <- ready l ;; go (TLoop l) (LCancelLock w cb)
  | Exit l => cb <- ready l ;; cleanup l cb
  end.

(** ** The pool before its first request *)

Definition MAX_THREADPOOL_SIZE : Z := 128.

(** [init_once]: the number of threads, from [atoi] of [UV_THREADPOOL_SIZE] if it is set,
    and whether there is memory for more than the four of [default_threads]. *)
Definition init_once (val : option Z) (memory : bool) : Z :=
  (let n := match val with Some v => u32 v | None => 4 end in
   let n := if n =? 0 then 1 else n in
   let n := if MAX_THREADPOOL_SIZE <? n then MAX_THREADPOOL_SIZE else n in
   if (4 <? n) && negb memory then 4 else n)%Z.

Definition init_queues (ls : list positive) : qmem node :=
  foldr (fun l m => QUEUE_INIT (NReqs l) (QUEUE_INIT (NLoop l) m)) (QUEUE_INIT NPool (QMem ∅ ∅)) ls.

Definition init_threads (n : nat) (ls : list positive) : gmap thread pc :=
  foldr (fun l m => <[TLoop l := LReady false]> m)
        (foldr (fun i m => <[TWorker (Pos.of_nat i) := WLock]> m) ∅ (seq 1 n)) ls.

Definition init_loops (ls : list positive) : gmap positive pool_loop :=
  foldr (fun l m => <[l := PoolLoop None false 0]> m) ∅ ls.

Definition init_pool (n : nat) (ls : list positive) : pool :=
  Pool (init_queues ls) None (init_threads n ls) ∅ (init_loops ls) false [].

(** ** What is promised

    A request that was submitted waits until its work ran or it is cancelled, and then is
    done once: with 0 after its work, with [UV_ECANCELED] without. *)

Inductive status := Queued | Ran | Cancelled.

Definition spec_step (St : gmap positive status) (e : event) : option (gmap positive status) :=
  match e with
  | EvSubmit w => match St !! w with None => Some (<[w := Queued]> St) | _ => None end
  | EvRan w => match St !! w with Some Queued => Some (<[w := Ran]> St) | _ => None end
  | EvBusy w => match St !! w with Some Cancelled => None | _ => Some St end
  | EvCancelled w =>
      match St !! w with Some Queued | Some Cancelled => Some (<[w := Cancelled]> St) | _ => None end
  | EvDone w err =>
      match St !! w with
      | Some Ran => if (err =? 0)%Z then Some (delete w St) else None
      | Some Cancelled => if (err =? UV_ECANCELED)%Z then Some (delete w St) else None
      | _ => None
      end
  end.

Definition run_spec (es : list event) : option (gmap positive status) :=
  foldl (fun o e => St ← o; spec_step St e) (Some ∅) es.

(** What a program may ask: a request has one loop and is not submitted twice before it is
    done; one that was cancelled and is done is not cancelled again; [exit] is called once. *)
Definition in_flight (s : pool) (w : positive) : bool :=
  match run_spec (events s) with Some St => bool_decide (is_Some (St !! w)) | None => true end.

Definition allowed (s : pool) (a : action) : bool :=
  match a with
  | QueueWork l w _ =>
      negb (in_flight s w) && match works s !! w with Some r => bool_decide (w_loop r = l) | None => true end
  | Cancel l w =>
      match works s !! w with
      | Some r => bool_decide (w_loop r = l) && (in_flight s w || bool_decide (w_work r = FnNull))
      | None => false
      end
  | Exit _ => negb (exiting s)
  | _ => true
  end.

Inductive reach (n : nat) (ls : list positive) : pool -> Prop :=
  | reach_init : reach n ls (init_pool n ls)
  | reach_step s a s' :
      reach n ls s -> allowed s a = true -> perform a s = Ret tt s' -> reach n ls s'.

(** Actions that are not the program's calls, nor wake-ups out of nothing. *)
Definition internal (a : action) : bool :=
  match a with Step _ _ | Poll _ | Return _ => true | _ => false end.
