(* ===== verification/UvPoolInv.v ===== *)
(** * The invariant of the thread pool

    Every request in flight is in one place: in a queue, or with a thread that is about
    to put it somewhere.  The places tell which node is in which ring, what [w->work]
    is, and how far the request has come.  A lock is owned by the thread whose place in
    the code is between its locking and its unlocking.  When something waits in a queue,
    somebody is about to look at it, or can be told. *)

From stdpp Require Import base option list gmap.
From Stdlib Require Import ZArith Lia.
From S2P Require Import Prelude UvQueue UvRings UvPool.

(** ** What a place in the code says *)

(** A request or the exit message in the hands of a thread: to be posted, taken from the
    queue, its work done, cancelled, and marked as cancelled. *)
Inductive stage := RPost | RTaken | RRan | RCancel | RMarked.

#[export] Instance stage_eq_dec : EqDecision stage.
Proof. solve_decision. Defined.

Definition role (p : pc) : option (item * stage) :=
  match p with
  | LPostLock q _ | LPost q _ => Some (q, RPost)
  | WUnlock (Some w) | WRun w => Some (Some w, RTaken)
  | WLockLoop w | WInsert w _ => Some (Some w, RRan)
  | LCancelUnlock w true _ | LCancelUnlock2 w true _ | LCancelMark w _ => Some (Some w, RCancel)
  | LCancelLock3 w _ | LCancelInsert w _ => Some (Some w, RMarked)
  | _ => None
  end.

(** The queue of [uv__work_done] is alive. *)
Definition in_done (p : pc) : bool :=
  match p with
  | LReady cb | LPostLock _ cb | LPost _ cb | LPostUnlock _ cb | LCancelLock _ cb | LCancelLock2 _ cb
  | LCancelTest _ cb | LCancelUnlock _ _ cb | LCancelUnlock2 _ _ cb | LCancelMark _ cb | LCancelLock3 _ cb
  | LCancelInsert _ cb | LCancelSend _ cb | LCancelUnlock3 cb | LJoin cb | LGone cb => cb
  | LDoneLock | LDoneSplit | LDoneUnlock | LDoneNext => true
  | _ => false
  end.

Definition crit_pool (p : pc) : bool :=
  match p with
  | WTest | WUnlock _ | LPost _ _ | LPostUnlock _ _ | LCancelLock2 _ _ | LCancelTest _ _
  | LCancelUnlock _ _ _ | LCancelUnlock2 _ _ _ => true
  | _ => false
  end.

(** The loop whose [wq_mutex] the thread holds *)
Definition crit_loop (t : thread) (p : pc) : option positive :=
  match t, p with
  | TWorker _, (WInsert _ l | WSend l _ | WUnlockLoop l) => Some l
  | TLoop l, (LCancelTest _ _ | LCancelUnlock _ _ _ | LCancelInsert _ _ | LCancelSend _ _
             | LCancelUnlock3 _ | LDoneSplit | LDoneUnlock) => Some l
  | _, _ => None
  end.

(** The request that [uv_cancel] was called with, while its loop is asked for *)
Definition cancelling (p : pc) : option positive :=
  match p with
  | LCancelLock w _ | LCancelLock2 w _ | LCancelTest w _ | LCancelUnlock w _ _ => Some w
  | _ => None
  end.

(** About to set [pending] of a loop, or to look at its queue *)
Definition early (t : thread) (p : pc) : option positive :=
  match t, p with
  | TWorker _, WSend l (SendRead | SendCas) => Some l
  | TLoop l, (LCancelSend (SendRead | SendCas) _ | LDoneLock | LDoneSplit) => Some l
  | _, _ => None
  end.

(** About to write to the eventfd of a loop, or after reading it *)
Definition late (t : thread) (p : pc) : option positive :=
  match t, p with
  | TWorker _, WSend l SendWrite => Some l
  | TLoop l, (LCancelSend SendWrite _ | LEvent) => Some l
  | _, _ => None
  end.

(** Before [uv__work_done] has split the queue of its loop *)
Definition before_split (p : pc) : bool := match p with LDoneLock | LDoneSplit => true | _ => false end.

(** A worker that will look at the queue *)
Definition live (p : pc) : bool :=
  match p with
  | WLock | WTest | WUnlock (Some _) | WRun _ | WLockLoop _ | WInsert _ _ | WSend _ _ | WUnlockLoop _ => true
  | _ => false
  end.

(** The thread that called [exit], and when the exit message is posted *)
Definition leaving (p : pc) : bool :=
  match p with
  | LPostLock None _ | LPost None _ | LPostUnlock None _ | LJoin _ | LGone _ => true
  | _ => false
  end.
Definition posted (p : pc) : bool :=
  match p with LPostUnlock None _ | LJoin _ | LGone _ => true | _ => false end.

Definition is_worker (p : pc) : bool :=
  match p with
  | WLock | WTest | WWait | WUnlock _ | WRun _ | WLockLoop _ | WInsert _ _ | WSend _ _ | WUnlockLoop _ | WExited => true
  | _ => false
  end.
Definition kind (t : thread) (p : pc) : Prop :=
  is_worker p = match t with TWorker _ => true | TLoop _ => false end.

(** ** Places of requests *)

Inductive place :=
  | InPool
  | InLoop (l : positive)
  | InLocal (l : positive)
  | At (t : thread) (st : stage).

#[export] Instance place_eq_dec : EqDecision place.
Proof. solve_decision. Defined.

(** The head of the ring a node is in *)
Definition home (St : gmap positive status) (wk : gmap positive uvwork) (W : gmap item place) (n : node) : option node :=
  match n with
  | NWork w =>
      match W !! Some w with
      | Some InPool => Some NPool
      | Some (InLoop l) => Some (NLoop l)
      | Some (InLocal l) => Some (NLocal l)
      | _ => None
      end
  | NExit => match W !! None with Some InPool => Some NPool | _ => None end
  | NReq w => match St !! w with Some _ => r ← wk !! w; Some (NReqs (w_loop r)) | None => None end
  | _ => None
  end.

Definition local (s : pool) (l : positive) : Prop :=
  exists p, pcs s !! TLoop l = Some p /\ in_done p = true.

(** A request that is being run is alone in its ring. *)
Definition heads (s : pool) (W : gmap item place) (h : node) : Prop :=
  match h with
  | NPool => True
  | NLoop l | NReqs l => is_Some (loops s !! l)
  | NLocal l => local s l
  | NWork w => exists t st, W !! Some w = Some (At t st) /\ (st = RTaken \/ st = RRan)
  | NExit | NReq _ => False
  end.

(** The loop, [w->work] and the status of a request at a place *)
Definition agrees (pl : place) (l : positive) (f : work_fn) (c : status) : Prop :=
  match pl with
  | InPool => f = FnWork /\ c = Queued
  | InLoop k | InLocal k => k = l /\ ((f = FnNull /\ c = Ran) \/ (f = FnCancelled /\ c = Cancelled))
  | At (TLoop k) RPost => k = l /\ f = FnWork /\ c = Queued
  | At (TWorker _) RTaken => f = FnWork /\ c = Queued
  | At (TWorker _) RRan => f = FnWork /\ c = Ran
  | At (TLoop k) RCancel => k = l /\ c = Cancelled
  | At (TLoop k) RMarked => k = l /\ f = FnCancelled /\ c = Cancelled
  | _ => False
  end.

Record data (s : pool) (St : gmap positive status) (W : gmap item place) : Prop := {
  d_spec : run_spec (events s) = Some St;
  d_mem : mem (qm s) (heads s W) (home St (works s) W);
  d_req : forall w pl, W !! Some w = Some pl ->
    exists r c, works s !! w = Some r /\ St !! w = Some c /\ agrees pl (w_loop r) (w_work r) c;
  d_dom : forall w, is_Some (St !! w) -> is_Some (W !! Some w);
  d_loop : forall w r, works s !! w = Some r -> is_Some (loops s !! w_loop r);
  d_field : forall w r, works s !! w = Some r ->
    is_Some (nexts (qm s) !! NWork w) \/ exists t, W !! Some w = Some (At t RPost)
}.

(** What is known of a thread from its place *)
Record thread_ok (s : pool) (St : gmap positive status) (W : gmap item place) (t : thread) (p : pc) : Prop := {
  t_kind : kind t p;
  t_role : forall q st, W !! q = Some (At t st) <-> role p = Some (q, st);
  t_loop : forall l, t = TLoop l -> is_Some (loops s !! l);
  t_pool : crit_pool p = true <-> p_mutex s = Some t;
  t_mutex : forall l, crit_loop t p = Some l <-> exists lp, loops s !! l = Some lp /\ wq_mutex lp = Some t;
  t_cancel : forall l w, t = TLoop l -> cancelling p = Some w ->
    exists r, works s !! w = Some r /\ w_loop r = l /\ (is_Some (St !! w) \/ w_work r = FnNull);
  t_insert : forall w l, p = WInsert w l -> exists r, works s !! w = Some r /\ w_loop r = l;
  t_exits : p = WUnlock None \/ p = WExited -> exiting s = true;
  t_leaving : leaving p = true -> exiting s = true;
  t_posted : posted p = true -> W !! None = Some InPool;
  t_local : forall l w, t = TLoop l -> before_split p = true -> W !! Some w <> Some (InLocal l)
}.

(** Nothing is with a thread that is not there. *)
Record threads (s : pool) (St : gmap positive status) (W : gmap item place) : Prop := {
  th_ok : forall t p, pcs s !! t = Some p -> thread_ok s St W t p;
  th_loops : forall l, is_Some (loops s !! l) -> is_Some (pcs s !! TLoop l);
  th_pool : forall t, p_mutex s = Some t -> is_Some (pcs s !! t);
  th_mutex : forall l lp t, loops s !! l = Some lp -> wq_mutex lp = Some t -> is_Some (pcs s !! t);
  th_role : forall q t st, W !! q = Some (At t st) -> is_Some (pcs s !! t);
  th_exit : exiting s = true -> exists t p, pcs s !! t = Some p /\ leaving p = true;
  th_none : is_Some (W !! None) -> exiting s = true
}.

(** Nobody waits in vain. *)
Record awake (s : pool) (W : gmap item place) : Prop := {
  a_loop : forall l lp w, loops s !! l = Some lp -> W !! Some w = Some (InLoop l) ->
    pending lp = true \/ exists t p, pcs s !! t = Some p /\ early t p = Some l;
  a_poll : forall l lp, loops s !! l = Some lp -> pending lp = true ->
    efd lp <> 0 \/ exists t p, pcs s !! t = Some p /\ late t p = Some l;
  a_pool : forall q, W !! q = Some InPool ->
    (exists t p, pcs s !! t = Some p /\ live p = true) \/ forall t, pcs s !! t <> Some WWait
}.

Record core s St W : Prop := {
  c_data : data s St W;
  c_threads : threads s St W;
  c_awake : awake s W
}.
Definition inv (s : pool) : Prop := exists St W, core s St W.

(** ** One thread moves *)

(** What a step of [t] leaves to the other threads *)
Implicit Types (s : pool) (St : gmap positive status) (W : gmap item place) (t u : thread) (p : pc).

Record frame t s St W s' St' W' : Prop := {
  f_role : forall (q : item) u st, u <> t -> W' !! q = Some (At u st) <-> W !! q = Some (At u st);
  f_pool : forall u, u <> t -> p_mutex s' = Some u <-> p_mutex s = Some u;
  f_dom : forall l, is_Some (loops s' !! l) <-> is_Some (loops s !! l);
  f_mutex : forall l u, u <> t ->
    (exists lp, loops s' !! l = Some lp /\ wq_mutex lp = Some u) <->
    (exists lp, loops s !! l = Some lp /\ wq_mutex lp = Some u);
  f_works : forall w r, works s !! w = Some r -> exists r', works s' !! w = Some r' /\ w_loop r' = w_loop r /\
    (t <> TLoop (w_loop r) -> is_Some (St !! w) \/ w_work r = FnNull -> is_Some (St' !! w) \/ w_work r' = FnNull);
  f_exiting : exiting s = true -> exiting s' = true;
  f_none : W !! None = Some InPool -> W' !! None = Some InPool;
  f_local : forall w l, t <> TLoop l -> W' !! Some w = Some (InLocal l) -> W !! Some w = Some (InLocal l)
}.

Lemma frame_ok t s St W s' St' W' u p :
  frame t s St W s' St' W' -> u <> t -> thread_ok s St W u p -> thread_ok s' St' W' u p.
Proof.
  intros [F1 F2 F3 F4 F5 F6 F7 F8] Hu [T1 T2 T3 T4 T5 T6 T7 T8 T9 T10 T11]. constructor; try by auto.
  - intros q st. rewrite F1 by done. apply T2.
  - intros l Hl. apply F3. by apply T3.
  - by rewrite F2.
  - intros l. rewrite F4 by done. apply T5.
  - intros l w -> Hw. destruct (T6 l w) as (r & Hr & Hl & Hc); [done..|].
    destruct (F5 w r Hr) as (r' & Hr' & Hl' & Hk). exists r'. split_and!; [done | congruence |].
    apply Hk; [|done]. congruence.
  - intros w l ->. destruct (T7 w l) as (r & Hr & Hl); [done|].
    destruct (F5 w r Hr) as (r' & Hr' & Hl' & _). exists r'. split; congruence.
  - intros l w -> Hb Hw. apply F8 in Hw; [|congruence]. by apply (T11 l w).
Qed.

Lemma threads_upd s St W s' St' W' t p p' :
  threads s St W -> pcs s !! t = Some p -> pcs s' = <[t := p']> (pcs s) ->
  frame t s St W s' St' W' -> thread_ok s' St' W' t p' ->
  (exiting s' = true -> exiting s = true /\ (leaving p = true -> leaving p' = true) \/ leaving p' = true) ->
  (is_Some (W' !! None) -> exiting s' = true) ->
  threads s' St' W'.
Proof.
  intros HT Hp Hs' HF Hok Hex Hno.
  assert (Hmono : forall u, is_Some (pcs s !! u) -> is_Some (pcs s' !! u)).
  { intros u Hu. rewrite Hs'. apply lookup_insert_is_Some'. by right. }
  constructor.
  - intros u q Hq. destruct (decide (u = t)) as [->|Hu].
    + rewrite Hs', lookup_insert_eq in Hq. by injection Hq as <-.
    + rewrite Hs', lookup_insert_ne in Hq by done. eapply frame_ok; [done..|]. by apply HT.
  - intros l Hl. apply Hmono, (th_loops s St W); [done|]. by apply (f_dom _ _ _ _ _ _ _ HF).
  - intros u Hu. apply Hmono. destruct (decide (u = t)) as [->|Hne]; [by eexists|].
    apply (th_pool s St W); [done|]. by apply (f_pool _ _ _ _ _ _ _ HF).
  - intros l lp u Hl Hu. apply Hmono. destruct (decide (u = t)) as [->|Hne]; [by eexists|].
    destruct (proj1 (f_mutex _ _ _ _ _ _ _ HF l u Hne)) as (lp0 & ? & ?); [by exists lp|]. by eapply (th_mutex s St W).
  - intros q u st Hq. apply Hmono. destruct (decide (u = t)) as [->|Hne]; [by eexists|].
    eapply (th_role s St W); [done|]. by apply (f_role _ _ _ _ _ _ _ HF).
  - intros He. rewrite Hs'. destruct (Hex He) as [[He0 Hl]|Hl].
    + destruct (th_exit s St W HT He0) as (u & q & Hq & Hlq). destruct (decide (u = t)) as [->|Hne].
      * simplify_eq. exists t, p'. rewrite lookup_insert_eq. auto.
      * exists u, q. by rewrite lookup_insert_ne.
    + exists t, p'. by rewrite lookup_insert_eq.
  - done.
Qed.

(** A fact of some thread stays when it is not one of the moved thread. *)
Lemma some_thread (P : thread -> pc -> Prop) s s' t p p' :
  pcs s !! t = Some p -> pcs s' = <[t := p']> (pcs s) -> (P t p -> P t p') ->
  (exists u q, pcs s !! u = Some q /\ P u q) -> exists u q, pcs s' !! u = Some q /\ P u q.
Proof.
  intros Hp -> HP (u & q & Hq & HPq). destruct (decide (u = t)) as [->|Hne].
  - simplify_eq. exists t, p'. rewrite lookup_insert_eq. auto.
  - exists u, q. by rewrite lookup_insert_ne.
Qed.

(** A worker is awake besides [t], or none waits. *)
Definition wakes s t p p' : Prop :=
  (exists u q, u <> t /\ pcs s !! u = Some q /\ live q = true) \/
  (p' <> WWait /\ forall u, pcs s !! u <> Some WWait).

Lemma awake_upd s W s' W' t p p' :
  awake s W -> pcs s !! t = Some p -> pcs s' = <[t := p']> (pcs s) ->
  (forall l lp' w, loops s' !! l = Some lp' -> W' !! Some w = Some (InLoop l) ->
    pending lp' = true \/ early t p' = Some l \/
    (exists lp w0, loops s !! l = Some lp /\ W !! Some w0 = Some (InLoop l) /\ pending lp' = pending lp /\
      (early t p = Some l -> early t p' = Some l))) ->
  (forall l lp', loops s' !! l = Some lp' -> pending lp' = true ->
    efd lp' <> 0 \/ late t p' = Some l \/
    (exists lp, loops s !! l = Some lp /\ pending lp = true /\ efd lp' = efd lp /\ (late t p = Some l -> late t p' = Some l))) ->
  (forall q : item, W' !! q = Some InPool -> live p' = true \/ wakes s t p p' \/
    ((exists q0 : item, W !! q0 = Some InPool) /\ (live p = true -> live p' = true) /\ p' <> WWait)) ->
  awake s' W'.
Proof.
  intros [A1 A2 A3] Hp Hs' H1 H2 H3.
  assert (Hnew : pcs s' !! t = Some p') by by rewrite Hs', lookup_insert_eq.
  constructor.
  - intros l lp' w Hl Hw. destruct (H1 l lp' w Hl Hw) as [?|[?|(lp & w0 & Hl0 & Hw0 & -> & He)]]; [by left|by right; eauto|].
    destruct (A1 l lp w0 Hl0 Hw0) as [?|Hex]; [by left|]. right. by apply (some_thread (fun t p => early t p = Some l) s s' t p p').
  - intros l lp' Hl Hpe. destruct (H2 l lp' Hl Hpe) as [?|[?|(lp & Hl0 & Hp0 & -> & He)]]; [by left|right; eauto|].
    destruct (A2 l lp Hl0 Hp0) as [?|Hex]; [by left|]. right. by apply (some_thread (fun t p => late t p = Some l) s s' t p p').
  - intros q Hq. destruct (H3 q Hq) as [?|[Hk|([q0 Hq0] & Hl & Hw)]]; [left; eauto|..].
    { destruct Hk as [(u & r & Hu & Hr & Hlr)|[Hw Hno]]; [left|right].
      - exists u, r. by rewrite Hs', lookup_insert_ne.
      - intros u. rewrite Hs'. destruct (decide (u = t)) as [->|Hne]; [rewrite lookup_insert_eq; congruence|].
        by rewrite lookup_insert_ne. }
    destruct (A3 q0 Hq0) as [Hex|Hno]; [left|right].
    + by apply (some_thread (fun _ p => live p = true) s s' t p p').
    + intros u. rewrite Hs'. destruct (decide (u = t)) as [->|Hne]; [rewrite lookup_insert_eq; congruence|].
      by rewrite lookup_insert_ne.
Qed.

Lemma data_same s St W s' :
  data s St W -> qm s' = qm s -> works s' = works s -> events s' = events s ->
  (forall l, is_Some (loops s' !! l) <-> is_Some (loops s !! l)) ->
  (forall l, local s' l <-> local s l) -> data s' St W.
Proof.
  intros [D1 D2 D3 D4 D5 D6] E1 E2 E3 HL HC. constructor; rewrite ?E1, ?E2, ?E3; try done.
  - eapply mem_ext; [done | | done]. intros []; simpl; rewrite ?HL, ?HC; done.
  - intros w r Hr. rewrite HL. by eapply D5.
Qed.

Lemma local_upd s s' t p p' l :
  pcs s !! t = Some p -> pcs s' = <[t := p']> (pcs s) -> in_done p' = in_done p -> local s' l <-> local s l.
Proof.
  intros Hp Hs' He. unfold local. rewrite Hs'. destruct (decide (t = TLoop l)) as [->|Hne].
  - rewrite lookup_insert_eq, Hp. split; intros (q & [= <-] & Hq); eexists; split; [done|congruence|done|congruence].
  - by rewrite lookup_insert_ne.
Qed.

(** ** Steps that only pass locks on *)

Record mild s W t p p' : Prop := {
  q_kind : kind t p -> kind t p';
  q_cancel : cancelling p' = None \/ cancelling p' = cancelling p;
  q_insert : forall w l, p' = WInsert w l -> exists r, works s !! w = Some r /\ w_loop r = l;
  q_exits : p' = WUnlock None \/ p' = WExited -> p = WUnlock None \/ exiting s = true;
  q_leaving : leaving p' = leaving p;
  q_posted : posted p' = posted p;
  q_pool : forall q : item, W !! q = Some InPool ->
    live p' = true \/ wakes s t p p' \/ ((live p = true -> live p' = true) /\ p' <> WWait);
  q_split : forall l w, t = TLoop l -> before_split p' = true ->
    before_split p = true \/ W !! Some w <> Some (InLocal l)
}.
Record calm s W t p p' : Prop := { q_mild : mild s W t p p'; q_done : in_done p' = in_done p }.

Lemma core_mild s St W s' t p p' :
  core s St W -> pcs s !! t = Some p -> mild s W t p p' -> role p' = role p -> data s' St W ->
  pcs s' = <[t := p']> (pcs s) -> works s' = works s -> exiting s' = exiting s ->
  (forall l, is_Some (loops s' !! l) <-> is_Some (loops s !! l)) ->
  (forall l lp', loops s' !! l = Some lp' -> exists lp, loops s !! l = Some lp /\
    (forall w, W !! Some w = Some (InLoop l) -> pending lp' = true \/ early t p' = Some l \/
      (pending lp' = pending lp /\ (early t p = Some l -> early t p' = Some l))) /\
    (pending lp' = true -> efd lp' <> 0 \/ late t p' = Some l \/
      (pending lp = true /\ efd lp' = efd lp /\ (late t p = Some l -> late t p' = Some l)))) ->
  (forall u, u <> t -> p_mutex s' = Some u <-> p_mutex s = Some u) ->
  (crit_pool p' = true <-> p_mutex s' = Some t) ->
  (forall l u, u <> t -> (exists lp, loops s' !! l = Some lp /\ wq_mutex lp = Some u) <->
                        (exists lp, loops s !! l = Some lp /\ wq_mutex lp = Some u)) ->
  (forall l, crit_loop t p' = Some l <-> exists lp, loops s' !! l = Some lp /\ wq_mutex lp = Some t) ->
  core s' St W.
Proof.
  intros [HD HT HA] Hp [Q1 Q4 Q5 Q6 Q7 Q8 Q9 Q10] Q2 HD' Hs' E2 E4 HL1 HL2 HP1 HP2 HM1 HM2.
  assert (HF : frame t s St W s' St W).
  { constructor; rewrite ?E2, ?E4; try done. intros w r Hr. exists r. auto. }
  destruct (th_ok _ _ _ HT t p Hp) as [T1 T2 T3 T4 T5 T6 T7 T8 T9 T10 T11].
  constructor.
  - done.
  - eapply threads_upd; [done..| | |].
    + constructor; rewrite ?E2, ?E4; try done; try by auto.
      * intros q st. rewrite Q2. apply T2.
      * intros l Hl. apply HL1. by apply T3.
      * intros l w Hl Hw. destruct Q4 as [Q4|Q4]; [congruence|]. apply T6; congruence.
      * intros He. destruct (Q6 He) as [?|?]; [apply T8; by left | done].
      * rewrite Q7. done.
      * rewrite Q8. done.
      * intros l w Hl Hb. destruct (Q10 l w Hl Hb) as [?|?]; [by apply T11 | done].
    + rewrite E4. intros. left. split; [done|]. by rewrite Q7.
    + rewrite E4. apply HT.
  - eapply awake_upd; [done..| | |].
    + intros l lp' w Hl Hw. destruct (HL2 l lp' Hl) as (lp & Hlp & H1 & _). destruct (H1 w Hw) as [?|[?|[? ?]]];
        [by left | by right; left | right; right; by exists lp, w].
    + intros l lp' Hl Hpe. destruct (HL2 l lp' Hl) as (lp & Hlp & _ & H2). destruct (H2 Hpe) as [?|[?|(? & ? & ?)]];
        [by left | by right; left | right; right; by exists lp].
    + intros q Hq. destruct (Q9 q Hq) as [?|[?|?]]; eauto 6.
Qed.

Lemma core_calm s St W s' t p p' :
  core s St W -> pcs s !! t = Some p -> calm s W t p p' -> role p' = role p ->
  pcs s' = <[t := p']> (pcs s) -> qm s' = qm s -> works s' = works s -> events s' = events s -> exiting s' = exiting s ->
  (forall l, is_Some (loops s' !! l) <-> is_Some (loops s !! l)) ->
  (forall l lp', loops s' !! l = Some lp' -> exists lp, loops s !! l = Some lp /\
    (forall w, W !! Some w = Some (InLoop l) -> pending lp' = true \/ early t p' = Some l \/
      (pending lp' = pending lp /\ (early t p = Some l -> early t p' = Some l))) /\
    (pending lp' = true -> efd lp' <> 0 \/ late t p' = Some l \/
      (pending lp = true /\ efd lp' = efd lp /\ (late t p = Some l -> late t p' = Some l)))) ->
  (forall u, u <> t -> p_mutex s' = Some u <-> p_mutex s = Some u) ->
  (crit_pool p' = true <-> p_mutex s' = Some t) ->
  (forall l u, u <> t -> (exists lp, loops s' !! l = Some lp /\ wq_mutex lp = Some u) <->
                        (exists lp, loops s !! l = Some lp /\ wq_mutex lp = Some u)) ->
  (forall l, crit_loop t p' = Some l <-> exists lp, loops s' !! l = Some lp /\ wq_mutex lp = Some t) ->
  core s' St W.
Proof.
  intros HC Hp [HQ Q3] Q2 Hs' E1 E2 E3 E4 HL1. intros. eapply core_mild; try done.
  eapply data_same; [apply HC | done..|]. intros l. by eapply local_upd.
Qed.

Record quiet s W t p p' : Prop := {
  q_calm : calm s W t p p';
  q_role : role p' = role p;
  q_early : forall l, early t p = Some l -> early t p' = Some l;
  q_late : forall l, late t p = Some l -> late t p' = Some l
}.

Lemma core_quiet s St W s' t p p' :
  core s St W -> pcs s !! t = Some p -> quiet s W t p p' ->
  pcs s' = <[t := p']> (pcs s) -> qm s' = qm s -> works s' = works s -> events s' = events s -> exiting s' = exiting s ->
  (forall l, is_Some (loops s' !! l) <-> is_Some (loops s !! l)) ->
  (forall l lp', loops s' !! l = Some lp' -> exists lp, loops s !! l = Some lp /\ pending lp' = pending lp /\ efd lp' = efd lp) ->
  (forall u, u <> t -> p_mutex s' = Some u <-> p_mutex s = Some u) ->
  (crit_pool p' = true <-> p_mutex s' = Some t) ->
  (forall l u, u <> t -> (exists lp, loops s' !! l = Some lp /\ wq_mutex lp = Some u) <->
                        (exists lp, loops s !! l = Some lp /\ wq_mutex lp = Some u)) ->
  (forall l, crit_loop t p' = Some l <-> exists lp, loops s' !! l = Some lp /\ wq_mutex lp = Some t) ->
  core s' St W.
Proof.
  intros HC Hp [Q1 Q4 Q2 Q3] Hs' E1 E2 E3 E4 HL1 HL2 HP1 HP2 HM1 HM2. eapply core_calm; try done.
  intros l lp' Hl. destruct (HL2 l lp' Hl) as (lp & Hlp & Hpe & He). exists lp. split_and!; [done|..]; intros; right; right;
    [auto | split_and!; [congruence | done | auto]].
Qed.

Lemma core_go s St W t p p' :
  core s St W -> pcs s !! t = Some p -> quiet s W t p p' ->
  crit_pool p' = crit_pool p -> crit_loop t p' = crit_loop t p -> core (set_pc t p' s) St W.
Proof.
  intros HC Hp HQ E1 E2. pose proof (th_ok _ _ _ (c_threads _ _ _ HC) t p Hp) as HT.
  eapply core_quiet; try done; simpl.
  - eauto.
  - rewrite E1. apply HT.
  - intros l. rewrite E2. apply HT.
Qed.

Lemma core_lock_pool s St W t p p' :
  core s St W -> pcs s !! t = Some p -> quiet s W t p p' ->
  p_mutex s = None -> crit_pool p' = true -> crit_loop t p' = crit_loop t p ->
  core (set_pc t p' (set_p_mutex (Some t) s)) St W.
Proof.
  intros HC Hp HQ HN E1 E2. pose proof (th_ok _ _ _ (c_threads _ _ _ HC) t p Hp) as HT.
  eapply core_quiet; try done; simpl.
  - eauto.
  - intros u Hu. rewrite HN. split; congruence.
  - intros l. rewrite E2. apply HT.
Qed.

Lemma core_unlock_pool s St W t p p' :
  core s St W -> pcs s !! t = Some p -> quiet s W t p p' ->
  crit_pool p = true -> crit_pool p' = false -> crit_loop t p' = crit_loop t p ->
  core (set_pc t p' (set_p_mutex None s)) St W.
Proof.
  intros HC Hp HQ E0 E1 E2. pose proof (th_ok _ _ _ (c_threads _ _ _ HC) t p Hp) as HT.
  apply HT in E0. eapply core_quiet; try done; simpl.
  - eauto.
  - intros u Hu. rewrite E0. split; congruence.
  - rewrite E1. split; congruence.
  - intros l. rewrite E2. apply HT.
Qed.

Lemma core_loop_mutex s St W t p p' l lp o :
  core s St W -> pcs s !! t = Some p -> quiet s W t p p' -> loops s !! l = Some lp ->
  crit_pool p' = crit_pool p ->
  (wq_mutex lp = None \/ wq_mutex lp = Some t) -> (o = None \/ o = Some t) ->
  (forall k, crit_loop t p' = Some k <-> (k = l /\ o = Some t) \/ (k <> l /\ crit_loop t p = Some k)) ->
  core (set_pc t p' (set_loop l (PoolLoop o (pending lp) (efd lp)) s)) St W.
Proof.
  intros HC Hp HQ Hl E1 HN Ho E2. pose proof (th_ok _ _ _ (c_threads _ _ _ HC) t p Hp) as HT.
  eapply core_quiet; try done; simpl.
  - intros k. rewrite lookup_insert_is_Some'. split; [intros [<-|?]|]; eauto.
  - intros k lp' Hk. destruct (decide (k = l)) as [->|Hne]; simplify_map_eq; eauto.
  - rewrite E1. apply HT.
  - intros k u Hu. destruct (decide (k = l)) as [->|Hne].
    + rewrite lookup_insert_eq, Hl. split; intros (lp' & [= <-] & Hm); simpl in *; naive_solver congruence.
    + by rewrite lookup_insert_ne.
  - intros k. rewrite E2. destruct (decide (k = l)) as [->|Hne].
    + rewrite lookup_insert_eq. naive_solver.
    + rewrite lookup_insert_ne by done. rewrite (t_mutex _ _ _ _ _ HT). naive_solver.
Qed.

(** The flag and the counter of a loop are changed. *)
Lemma core_signal s St W t p p' l lp b n :
  core s St W -> pcs s !! t = Some p -> calm s W t p p' -> role p' = role p -> loops s !! l = Some lp ->
  crit_pool p' = crit_pool p -> crit_loop t p' = crit_loop t p ->
  (forall k, early t p = Some k -> k = l) -> (forall k, late t p = Some k -> k = l) ->
  (b = true \/ early t p' = Some l \/ (b = pending lp /\ early t p = None)) ->
  (b = true -> n <> 0 \/ late t p' = Some l \/ (pending lp = true /\ n = efd lp /\ late t p = None)) ->
  core (set_pc t p' (set_loop l (PoolLoop (wq_mutex lp) b n) s)) St W.
Proof.
  intros HC Hp HQ HR Hl E1 E2 K1 K2 HB HN. pose proof (th_ok _ _ _ (c_threads _ _ _ HC) t p Hp) as HT.
  assert (HM : forall k (P : option thread -> Prop),
    (exists lp', <[l := PoolLoop (wq_mutex lp) b n]> (loops s) !! k = Some lp' /\ P (wq_mutex lp')) <->
    (exists lp', loops s !! k = Some lp' /\ P (wq_mutex lp'))).
  { intros k P. destruct (decide (k = l)) as [->|Hne].
    - rewrite lookup_insert_eq, Hl. split; intros (lp' & [= <-] & Hm); eauto.
    - by rewrite lookup_insert_ne. }
  eapply core_calm; try done; simpl.
  - intros k. rewrite lookup_insert_is_Some'. split; [intros [<-|?]|]; eauto.
  - intros k lp' Hk. destruct (decide (k = l)) as [->|Hne].
    + rewrite lookup_insert_eq in Hk. injection Hk as <-. exists lp. simpl. split_and!; [done|..].
      * intros _ _. destruct HB as [?|[?|[? ?]]]; [by left | by right; left | right; right; split; [done|congruence]].
      * intros Hb. destruct (HN Hb) as [?|[?|(? & ? & ?)]]; [by left | by right; left | right; right; split_and!; [done..|congruence]].
    + rewrite lookup_insert_ne in Hk by done. exists lp'. split_and!; [done|..].
      * intros _ _. right; right. split; [done|]. by intros ->%K1.
      * intros Hb. right; right. split_and!; [done..|]. by intros ->%K2.
  - rewrite E1. apply HT.
  - intros k u Hu. apply (HM k (fun o => o = Some u)).
  - intros k. rewrite E2, (t_mutex _ _ _ _ _ HT). symmetry. apply (HM k (fun o => o = Some t)).
Qed.

Lemma set_loop_id s l lp : loops s !! l = Some lp -> set_loop l (PoolLoop (wq_mutex lp) (pending lp) (efd lp)) s = s.
Proof. intros Hl. unfold set_loop. destruct lp. rewrite insert_id by done. by destruct s. Qed.

(** ** A request moves *)

Definition place_head (pl : place) : option node :=
  match pl with
  | InPool => Some NPool
  | InLoop l => Some (NLoop l)
  | InLocal l => Some (NLocal l)
  | At _ _ => None
  end.
Definition alone (pl : place) : Prop :=
  match pl with At _ RTaken | At _ RRan => True | _ => False end.

Lemma place_head_home St wk W w :
  home St wk W (NWork w) = pl ← W !! Some w; place_head pl.
Proof. simpl. by destruct (W !! Some w) as [[]|]. Qed.

Lemma alone_heads s W w pl : W !! Some w = Some pl -> heads s W (NWork w) <-> alone pl.
Proof.
  intros Hw. simpl. rewrite Hw. split.
  - by intros (t & st & [= ->] & [->| ->]).
  - destruct pl as [| | |t []]; try done; eauto 6.
Qed.

Lemma home_move St wk W w c r pl n :
  home (<[w := c]> St) (<[w := r]> wk) (<[Some w := pl]> W) n =
  if decide (n = NWork w) then place_head pl
  else if decide (n = NReq w) then Some (NReqs (w_loop r)) else home St wk W n.
Proof.
  destruct n as [| | | | |v|v]; simpl; try done; [by rewrite lookup_insert_ne|..]; destruct (decide (v = w)) as [->|Hne].
  - rewrite decide_True, lookup_insert_eq by done. by destruct pl.
  - by rewrite lookup_insert_ne, decide_False by congruence.
  - by rewrite decide_True, !lookup_insert_eq by done.
  - by rewrite !lookup_insert_ne, decide_False by congruence.
Qed.

Lemma heads_move s s' W w pl h :
  (forall l, is_Some (loops s' !! l) <-> is_Some (loops s !! l)) -> (forall l, local s' l <-> local s l) ->
  heads s' (<[Some w := pl]> W) h <-> if decide (h = NWork w) then alone pl else heads s W h.
Proof.
  intros HL HC. case_decide as E.
  - subst h. apply alone_heads. by rewrite lookup_insert_eq.
  - destruct h as [| | | | |v|v]; simpl; rewrite ?HL, ?HC; try done. by rewrite lookup_insert_ne by congruence.
Qed.

Lemma data_move s St W s' w pl r c :
  data s St W -> (forall l, local s' l <-> local s l) -> loops s' = loops s ->
  works s' = <[w := r]> (works s) -> run_spec (events s') = Some (<[w := c]> St) ->
  mem (qm s') (fun h => if decide (h = NWork w) then alone pl else heads s W h)
    (fun n => if decide (n = NWork w) then place_head pl
              else if decide (n = NReq w) then Some (NReqs (w_loop r)) else home St (works s) W n) ->
  agrees pl (w_loop r) (w_work r) c -> is_Some (loops s !! w_loop r) ->
  grows (qm s) (qm s') -> (is_Some (nexts (qm s') !! NWork w) \/ exists t, pl = At t RPost) ->
  data s' (<[w := c]> St) (<[Some w := pl]> W).
Proof.
  intros [D1 D2 D3 D4 D5 D6] HC HL Ew He Hm Ha Hl Hg Hn. constructor.
  - done.
  - rewrite Ew. eapply mem_ext; [done|..].
    + intros h. symmetry. apply heads_move; [by rewrite HL | done].
    + intros n. symmetry. apply home_move.
  - intros v pl'. destruct (decide (v = w)) as [->|Hne].
    + rewrite lookup_insert_eq. intros [= <-]. exists r, c. by rewrite Ew, !lookup_insert_eq.
    + rewrite lookup_insert_ne by congruence. rewrite Ew, !lookup_insert_ne by done. apply D3.
  - intros v. destruct (decide (v = w)) as [->|Hne].
    + rewrite !lookup_insert_eq. eauto.
    + rewrite !lookup_insert_ne by congruence. apply D4.
  - intros v r'. rewrite Ew, HL. destruct (decide (v = w)) as [->|Hne].
    + rewrite lookup_insert_eq. by intros [= <-].
    + rewrite lookup_insert_ne by done. apply D5.
  - intros v r'. rewrite Ew. destruct (decide (v = w)) as [->|Hne].
    + rewrite !lookup_insert_eq. intros _. destruct Hn as [?|[t ->]]; eauto.
    + rewrite !lookup_insert_ne by congruence. intros Hr. destruct (D6 v r' Hr) as [?|?]; [left; by apply Hg | by right].
Qed.

Definition only (t : thread) (pl : place) : Prop := forall u st, pl = At u st -> u = t.

Lemma frame_move s St W s' t w pl r c :
  loops s' = loops s -> p_mutex s' = p_mutex s -> exiting s' = exiting s ->
  works s' = <[w := r]> (works s) -> (forall r0, works s !! w = Some r0 -> w_loop r0 = w_loop r) ->
  (forall pl0, W !! Some w = Some pl0 -> only t pl0) -> only t pl -> (forall l, pl <> InLocal l) ->
  frame t s St W s' (<[w := c]> St) (<[Some w := pl]> W).
Proof.
  intros E1 E2 E3 E4 Hr H0 H1 H2. constructor; rewrite ?E1, ?E2, ?E3; try done.
  - intros q u st Hu. destruct (decide (q = Some w)) as [->|Hne].
    + rewrite lookup_insert_eq. split; [intros [= ->]; exfalso; by apply Hu, (H1 u st) |].
      intros Hw. destruct Hu. by eapply H0.
    + by rewrite lookup_insert_ne.
  - intros v r0 Hv. rewrite E4. destruct (decide (v = w)) as [->|Hne].
    + exists r. rewrite !lookup_insert_eq. split_and!; [done | by rewrite (Hr r0) | eauto].
    + exists r0. rewrite !lookup_insert_ne by done. auto.
  - intros Hn. by rewrite lookup_insert_ne.
  - intros v l _. destruct (decide (v = w)) as [->|Hne].
    + rewrite lookup_insert_eq. intros [= ->]. by destruct (H2 l).
    + by rewrite lookup_insert_ne by congruence.
Qed.

Lemma role_move W t p p' (q : item) pl :
  (forall q st, W !! q = Some (At t st) <-> role p = Some (q, st)) ->
  role p = None \/ (exists st, role p = Some (q, st)) ->
  role p' = (match pl with At _ st => Some (q, st) | _ => None end) -> only t pl ->
  forall q' st, <[q := pl]> W !! q' = Some (At t st) <-> role p' = Some (q', st).
Proof.
  intros HW Hr Hr' Ho q' st. rewrite Hr'. destruct (decide (q' = q)) as [->|Hne].
  - rewrite lookup_insert_eq. destruct pl as [| | |u st']; try done. rewrite (Ho u st') by done. naive_solver.
  - rewrite lookup_insert_ne, HW by done. destruct Hr as [Hr|[st0 Hr]]; rewrite Hr; destruct pl; naive_solver.
Qed.

(** The moved request, in a state that differs from [s] as the equations say *)
Lemma core_move s St W s' t p p' w pl r c :
  core s St W -> pcs s !! t = Some p -> calm s W t p p' -> pcs s' = <[t := p']> (pcs s) ->
  loops s' = loops s -> p_mutex s' = p_mutex s -> exiting s' = exiting s -> works s' = <[w := r]> (works s) ->
  run_spec (events s') = Some (<[w := c]> St) ->
  mem (qm s') (fun h => if decide (h = NWork w) then alone pl else heads s W h)
    (fun n => if decide (n = NWork w) then place_head pl
              else if decide (n = NReq w) then Some (NReqs (w_loop r)) else home St (works s) W n) ->
  agrees pl (w_loop r) (w_work r) c -> is_Some (loops s !! w_loop r) ->
  (forall r0, works s !! w = Some r0 -> w_loop r0 = w_loop r) ->
  grows (qm s) (qm s') -> (is_Some (nexts (qm s') !! NWork w) \/ exists t, pl = At t RPost) ->
  (forall pl0, W !! Some w = Some pl0 -> only t pl0) -> only t pl ->
  role p = None \/ (exists st, role p = Some (Some w, st)) ->
  role p' = (match pl with At _ st => Some (Some w, st) | _ => None end) ->
  crit_pool p' = crit_pool p -> crit_loop t p' = crit_loop t p -> (forall w l, p' <> WInsert w l) ->
  (forall l, early t p = Some l -> early t p' = Some l) -> (forall l, late t p = Some l -> late t p' = Some l) ->
  (forall l, pl = InLoop l -> early t p' = Some l) -> (pl = InPool -> live p' = true \/ wakes s t p p') ->
  (forall l, pl <> InLocal l) ->
  core s' (<[w := c]> St) (<[Some w := pl]> W).
Proof.
  intros [HD HT HA] Hp [[Q1 Q3 Q4 Q5 Q6 Q7 Q8 Q10] Q2] Hs' E1 E2 E3 E4 Hev Hm Hag Hlp Hw Hg Hf Ho Ho' Hr Hr' Hcp Hcl Hni He Hla Hil Hip Hnl.
  destruct (th_ok _ _ _ HT t p Hp) as [T1 T2 T3 T4 T5 T6 T7 T8 T9 T10 T11].
  assert (HN : <[Some w := pl]> W !! None = W !! None) by by apply lookup_insert_ne.
  constructor.
  - eapply data_move; try done. intros l. by eapply local_upd.
  - eapply threads_upd; [done..| | | |].
    + by eapply frame_move.
    + constructor; rewrite ?E1, ?E2, ?E3, ?HN; try done; try by auto.
      * by eapply role_move.
      * by rewrite Hcp.
      * intros l. rewrite Hcl. apply T5.
      * intros l v Hl Hv. destruct Q3 as [Q3|Q3]; [congruence|]. rewrite Q3 in Hv.
        destruct (T6 l v Hl Hv) as (r0 & Hr0 & Hl0 & Hc0). rewrite E4. destruct (decide (v = w)) as [->|Hne].
        -- exists r. rewrite !lookup_insert_eq. split_and!; [done | by rewrite <- (Hw r0) | eauto].
        -- exists r0. by rewrite !lookup_insert_ne.
      * intros v l ->. by destruct (Hni v l).
      * intros Hx. destruct (Q5 Hx) as [?|?]; [apply T8; by left | done].
      * rewrite Q6. done.
      * rewrite Q7. done.
      * intros l v Hl Hb. destruct (decide (v = w)) as [->|Hne].
        -- rewrite lookup_insert_eq. intros [= ->]. by destruct (Hnl l).
        -- rewrite lookup_insert_ne by congruence. destruct (Q10 l v Hl Hb) as [?|?]; [by apply T11 | done].
    + rewrite E3. intros. left. split; [done|]. by rewrite Q6.
    + rewrite HN, E3. apply HT.
  - eapply awake_upd; [done..| | |].
    + intros l lp' v. rewrite E1. intros Hl. destruct (decide (v = w)) as [->|Hne].
      * rewrite lookup_insert_eq. intros [= ->]. right; left. by apply Hil.
      * rewrite lookup_insert_ne by congruence. intros Hv. right; right. exists lp', v. auto.
    + intros l lp'. rewrite E1. intros Hl Hpe. right; right. exists lp'. auto.
    + intros q. destruct (decide (q = Some w)) as [->|Hne].
      * rewrite lookup_insert_eq. intros [= ->]. destruct (Hip eq_refl); auto.
      * rewrite lookup_insert_ne by done. intros Hq. destruct (Q8 q Hq) as [?|[?|?]]; eauto 6.
Qed.
