(* ===== verification/UvPoolStep.v ===== *)
(** * The steps of the thread pool keep its invariant *)

From stdpp Require Import base option list gmap.
From Stdlib Require Import ZArith Lia.
From S2P Require Import Prelude UvQueue UvRings UvPool UvPoolInv.

Local Open Scope prog_scope.
Implicit Types (s : pool) (St : gmap positive status) (W : gmap item place) (t u : thread) (p : pc).

(** Why a thread has no next step: it waits for a lock, for a signal or for the workers,
    or [j] is not the thread that a signal wakes. *)
Definition mutex_taken s (l : positive) : Prop := exists lp u, loops s !! l = Some lp /\ wq_mutex lp = Some u.
Definition loop_of s (w : positive) : option positive := w_loop <$> works s !! w.

Definition stuck s (j : positive) t p : Prop :=
  match p with
  | WLock | LPostLock _ _ | LCancelLock _ _ => is_Some (p_mutex s)
  | WLockLoop w | LCancelLock2 w _ => exists l, loop_of s w = Some l /\ mutex_taken s l
  | LCancelLock3 _ _ | LDoneLock => exists l, t = TLoop l /\ mutex_taken s l
  | WTest | LPost _ _ => pcs s !! TWorker j <> Some WWait /\ exists i, pcs s !! TWorker i = Some WWait
  | LJoin _ => exists i p, pcs s !! TWorker i = Some p /\ p <> WExited
  | WWait | WExited | LReady _ | LGone _ => True
  | _ => False
  end.

Definition good s j t p (o : outcome pool refusal unit) : Prop :=
  match o with
  | Ret _ s' => inv s'
  | Raise _ _ => stuck s j t p
  | _ => False
  end.

Ltac run := cbv beta iota zeta delta [bind ret raise get put modify orfail q_ask q_do go log get_work get_loop
  lock_pool unlock_pool lock_loop unlock_loop set_fn skip].

(** What a thread's place says *)
Lemma core_thread s St W t p : core s St W -> pcs s !! t = Some p -> thread_ok s St W t p.
Proof. intros HC. apply HC. Qed.

Lemma role_at s St W t p q st :
  core s St W -> pcs s !! t = Some p -> role p = Some (q, st) -> W !! q = Some (At t st).
Proof. intros HC Hp Hr. by apply (t_role _ _ _ _ _ (core_thread _ _ _ _ _ HC Hp)). Qed.

Lemma role_req s St W t p w st :
  core s St W -> pcs s !! t = Some p -> role p = Some (Some w, st) ->
  exists r c, works s !! w = Some r /\ St !! w = Some c /\ agrees (At t st) (w_loop r) (w_work r) c.
Proof. intros HC Hp Hr. by apply (c_data _ _ _ HC), (role_at s St W t p). Qed.

Lemma crit_loop_has s St W t p l :
  core s St W -> pcs s !! t = Some p -> crit_loop t p = Some l ->
  exists lp, loops s !! l = Some lp /\ wq_mutex lp = Some t.
Proof. intros HC Hp Hr. by apply (t_mutex _ _ _ _ _ (core_thread _ _ _ _ _ HC Hp)). Qed.

Ltac mild :=
  constructor; simpl in *; intros; try (right; right; split; [done | discriminate]); naive_solver.
Ltac calm := constructor; [mild | done].
Ltac quiet := constructor; [calm | simpl in *; intros; naive_solver ..].

(** ** Locks *)

Lemma step_lock_pool s St W j t p p' :
  core s St W -> pcs s !! t = Some p -> quiet s W t p p' ->
  crit_pool p' = true -> crit_loop t p' = crit_loop t p -> (is_Some (p_mutex s) -> stuck s j t p) ->
  good s j t p ((lock_pool t ;;; go t p') s).
Proof.
  intros HC Hp HQ E1 E2 Hs. run. destruct (p_mutex s) as [u|] eqn:E; simpl; [eauto|].
  exists St, W. by eapply core_lock_pool.
Qed.

Lemma step_unlock_pool s St W j t p p' :
  core s St W -> pcs s !! t = Some p -> quiet s W t p p' ->
  crit_pool p = true -> crit_pool p' = false -> crit_loop t p' = crit_loop t p ->
  good s j t p ((unlock_pool ;;; go t p') s).
Proof. intros HC Hp HQ E1 E2 E3. run. exists St, W. by eapply core_unlock_pool. Qed.

Lemma step_lock_loop s St W j t p p' l :
  core s St W -> pcs s !! t = Some p -> quiet s W t p p' -> is_Some (loops s !! l) ->
  crit_pool p' = crit_pool p -> crit_loop t p = None -> crit_loop t p' = Some l -> (mutex_taken s l -> stuck s j t p) ->
  good s j t p ((lock_loop t l ;;; go t p') s).
Proof.
  intros HC Hp HQ [lp Hl] E1 E2 E3 Hs. run. rewrite Hl. destruct (wq_mutex lp) as [u|] eqn:E; simpl.
  - apply Hs. by exists lp, u.
  - exists St, W. eapply core_loop_mutex; eauto. intros k. rewrite E2, E3. naive_solver.
Qed.

Lemma step_unlock_loop s St W j t p p' l :
  core s St W -> pcs s !! t = Some p -> quiet s W t p p' ->
  crit_pool p' = crit_pool p -> crit_loop t p = Some l -> crit_loop t p' = None ->
  good s j t p ((unlock_loop l ;;; go t p') s).
Proof.
  intros HC Hp HQ E1 E2 E3. destruct (crit_loop_has _ _ _ _ _ _ HC Hp E2) as (lp & Hl & Hm). run. rewrite Hl. simpl.
  exists St, W. eapply core_loop_mutex; eauto. intros k. rewrite E2, E3. naive_solver.
Qed.

Lemma step_go s St W j t p p' :
  core s St W -> pcs s !! t = Some p -> quiet s W t p p' ->
  crit_pool p' = crit_pool p -> crit_loop t p' = crit_loop t p -> good s j t p (go t p' s).
Proof. intros HC Hp HQ E1 E2. exists St, W. by eapply core_go. Qed.

Section Quiet.
Context (s : pool) (St : gmap positive status) (W : gmap item place) (HC : core s St W) (j : positive).

Lemma wlock_good i : pcs s !! TWorker i = Some WLock -> good s j (TWorker i) WLock (worker i j WLock s).
Proof. intros Hp. eapply step_lock_pool; try done. quiet. Qed.

Lemma wunlock_good i q :
  pcs s !! TWorker i = Some (WUnlock q) -> good s j (TWorker i) (WUnlock q) (worker i j (WUnlock q) s).
Proof. intros Hp. destruct q as [w|]; eapply step_unlock_pool; try done; quiet. Qed.

Lemma wunlockloop_good i l :
  pcs s !! TWorker i = Some (WUnlockLoop l) -> good s j (TWorker i) (WUnlockLoop l) (worker i j (WUnlockLoop l) s).
Proof. intros Hp. eapply step_unlock_loop; try done. quiet. Qed.

Lemma wlockloop_good i w :
  pcs s !! TWorker i = Some (WLockLoop w) -> good s j (TWorker i) (WLockLoop w) (worker i j (WLockLoop w) s).
Proof.
  intros Hp. destruct (role_req _ _ _ _ _ w RRan HC Hp) as (r & c & Hr & _); [done|].
  unfold worker, get_work. rewrite (bind_step _ _ s r s) by (run; by rewrite Hr).
  eapply step_lock_loop; try done.
  - quiet.
  - by eapply (d_loop _ _ _ (c_data _ _ _ HC)).
  - intros Ht. exists (w_loop r). unfold loop_of. by rewrite Hr.
Qed.

Lemma lpostlock_good l q cb :
  pcs s !! TLoop l = Some (LPostLock q cb) -> good s j (TLoop l) (LPostLock q cb) (post l j (LPostLock q cb) s).
Proof. intros Hp. eapply step_lock_pool; try done. quiet. Qed.

Lemma lpostunlock_good l q cb :
  pcs s !! TLoop l = Some (LPostUnlock q cb) -> good s j (TLoop l) (LPostUnlock q cb) (post l j (LPostUnlock q cb) s).
Proof. intros Hp. destruct q; eapply step_unlock_pool; try done; quiet. Qed.

Lemma cancel_req l p w :
  pcs s !! TLoop l = Some p -> cancelling p = Some w ->
  exists r, works s !! w = Some r /\ w_loop r = l /\ (is_Some (St !! w) \/ w_work r = FnNull).
Proof. intros Hp Hw. by eapply (t_cancel _ _ _ _ _ (core_thread _ _ _ _ _ HC Hp)). Qed.

Lemma loop_there l p : pcs s !! TLoop l = Some p -> is_Some (loops s !! l).
Proof. intros Hp. by eapply (t_loop _ _ _ _ _ (core_thread _ _ _ _ _ HC Hp)). Qed.

Lemma lcancellock_good l w cb :
  pcs s !! TLoop l = Some (LCancelLock w cb) ->
  good s j (TLoop l) (LCancelLock w cb) (uv__work_cancel l (LCancelLock w cb) s).
Proof. intros Hp. eapply step_lock_pool; try done. quiet. Qed.

Lemma lcancellock2_good l w cb :
  pcs s !! TLoop l = Some (LCancelLock2 w cb) ->
  good s j (TLoop l) (LCancelLock2 w cb) (uv__work_cancel l (LCancelLock2 w cb) s).
Proof.
  intros Hp. destruct (cancel_req l _ w Hp) as (r & Hr & <- & _); [done|].
  unfold uv__work_cancel, get_work. rewrite (bind_step _ _ s r s) by (run; by rewrite Hr).
  eapply step_lock_loop; try done.
  - quiet.
  - by eapply loop_there.
  - intros Ht. exists (w_loop r). unfold loop_of. by rewrite Hr.
Qed.

Lemma lcancelunlock_good l w c cb :
  pcs s !! TLoop l = Some (LCancelUnlock w c cb) ->
  good s j (TLoop l) (LCancelUnlock w c cb) (uv__work_cancel l (LCancelUnlock w c cb) s).
Proof.
  intros Hp. destruct (cancel_req l _ w Hp) as (r & Hr & <- & _); [done|].
  unfold uv__work_cancel, get_work. rewrite (bind_step _ _ s r s) by (run; by rewrite Hr).
  eapply step_unlock_loop; try done. destruct c; quiet.
Qed.

Lemma lcancelunlock2_good l w c cb :
  pcs s !! TLoop l = Some (LCancelUnlock2 w c cb) ->
  good s j (TLoop l) (LCancelUnlock2 w c cb) (uv__work_cancel l (LCancelUnlock2 w c cb) s).
Proof. intros Hp. destruct c; eapply step_unlock_pool; try done; quiet. Qed.

Lemma lcancellock3_good l w cb :
  pcs s !! TLoop l = Some (LCancelLock3 w cb) ->
  good s j (TLoop l) (LCancelLock3 w cb) (uv__work_cancel l (LCancelLock3 w cb) s).
Proof.
  intros Hp. eapply step_lock_loop; try done; [quiet | by eapply loop_there | by exists l].
Qed.

Lemma lcancelunlock3_good l cb :
  pcs s !! TLoop l = Some (LCancelUnlock3 cb) ->
  good s j (TLoop l) (LCancelUnlock3 cb) (uv__work_cancel l (LCancelUnlock3 cb) s).
Proof. intros Hp. eapply step_unlock_loop; try done. quiet. Qed.

Lemma ldonelock_good l :
  pcs s !! TLoop l = Some LDoneLock -> good s j (TLoop l) LDoneLock (uv__work_done l LDoneLock s).
Proof.
  intros Hp. eapply step_lock_loop; try done; [quiet | by eapply loop_there | by exists l].
Qed.

Lemma ldoneunlock_good l :
  pcs s !! TLoop l = Some LDoneUnlock -> good s j (TLoop l) LDoneUnlock (uv__work_done l LDoneUnlock s).
Proof. intros Hp. eapply step_unlock_loop; try done. quiet. Qed.

Lemma ljoin_good l cb :
  pcs s !! TLoop l = Some (LJoin cb) -> good s j (TLoop l) (LJoin cb) (join_workers l cb s).
Proof.
  intros Hp. unfold join_workers. run. case_decide as E; simpl.
  - eapply (step_go s St W j (TLoop l) (LJoin cb)); try done. quiet.
  - apply map_not_Forall in E as ([i|k] & p & Hi & Hne); [| by destruct Hne | apply _].
    by exists i, p.
Qed.
End Quiet.

(** ** Sending *)

(** A step of [uv_async_send], for a thread whose places in it are [send], and [fin] after it *)
Lemma step_send s St W j t l sp (send : send_pc -> pc) fin :
  core s St W -> pcs s !! t = Some (send sp) ->
  (forall a, calm s W t (send sp) (send a)) -> calm s W t (send sp) fin ->
  (forall a, role (send a) = None) -> role fin = None ->
  (forall a, crit_pool (send a) = false /\ crit_loop t (send a) = Some l /\
    early t (send a) = (if decide (a = SendWrite) then None else Some l) /\
    late t (send a) = (if decide (a = SendWrite) then Some l else None)) ->
  crit_pool fin = false -> crit_loop t fin = Some l ->
  good s j t (send sp) ((next <- uv_async_send l sp ;; go t (match next with Some a => send a | None => fin end)) s).
Proof.
  intros HC Hp Q1 Q2 R1 R2 HS Hf1 Hf2. destruct (HS sp) as (S1 & S2 & S3 & S4).
  destruct (crit_loop_has _ _ _ _ _ _ HC Hp S2) as (lp & Hl & Hm).
  assert (HK : forall b n p', p' = fin \/ (exists a, p' = send a) ->
    (b = true \/ early t p' = Some l \/ (b = pending lp /\ early t (send sp) = None)) ->
    (b = true -> n <> 0 \/ late t p' = Some l \/ (pending lp = true /\ n = efd lp /\ late t (send sp) = None)) ->
    inv (set_pc t p' (set_loop l (PoolLoop (wq_mutex lp) b n) s))).
  { intros b n p' Hp' HB HN. exists St, W. eapply core_signal; try done.
    - destruct Hp' as [->|[a ->]]; auto.
    - rewrite R1. destruct Hp' as [->|[a ->]]; auto.
    - rewrite S1. destruct Hp' as [->|[a ->]]; [done | apply HS].
    - rewrite S2. destruct Hp' as [->|[a ->]]; [done | apply HS].
    - intros k. rewrite S3. case_decide; congruence.
    - intros k. rewrite S4. case_decide; congruence. }
  pose proof (HK (pending lp) (efd lp)) as HI. rewrite (set_loop_id _ _ _ Hl) in HI.
  unfold uv_async_send. run. rewrite Hl. destruct sp; simpl in *.
  - destruct (pending lp) eqn:E; simpl; apply HI; [by left | by left | | | | done].
    + intros _. right; right. auto.
    + right. by exists SendCas.
    + right; left. by apply HS.
  - destruct (pending lp) eqn:E; simpl; [apply HI | apply HK]; [by left | by left | | | by left |].
    + intros _. right; right. auto.
    + right. by exists SendWrite.
    + intros _. right; left. by apply HS.
  - apply HK; [by left | | by left]. destruct (pending lp) eqn:E; auto.
Qed.

Lemma wsend_good s St W j i l sp :
  core s St W -> pcs s !! TWorker i = Some (WSend l sp) ->
  good s j (TWorker i) (WSend l sp) (worker i j (WSend l sp) s).
Proof.
  intros HC Hp. apply (step_send s St W j (TWorker i) l sp (WSend l) (WUnlockLoop l)); try done.
  - intros a. calm.
  - calm.
  - by intros [].
Qed.

Lemma lcancelsend_good s St W j l sp cb :
  core s St W -> pcs s !! TLoop l = Some (LCancelSend sp cb) ->
  good s j (TLoop l) (LCancelSend sp cb) (uv__work_cancel l (LCancelSend sp cb) s).
Proof.
  intros HC Hp. apply (step_send s St W j (TLoop l) l sp (fun a => LCancelSend a cb) (LCancelUnlock3 cb)); try done.
  - intros a. calm.
  - calm.
  - by intros [].
Qed.

(** ** A signal *)

(** [s1] is [s] with at most one worker awake that waited. *)
Lemma signal_run s St W j t p :
  core s St W -> pcs s !! t = Some p -> p <> WWait ->
  (exists s1, (forall m, uv_cond_signal j (set_qm m s) = Ret tt (set_qm m s1)) /\ core s1 St W /\
    pcs s1 !! t = Some p /\ s1 = Pool (qm s) (p_mutex s) (pcs s1) (works s) (loops s) (exiting s) (events s) /\
    (forall p', p' <> WWait -> wakes s1 t p p')) \/
  ((forall m, exists s', uv_cond_signal j (set_qm m s) = Raise NotNow s') /\
    pcs s !! TWorker j <> Some WWait /\ exists i, pcs s !! TWorker i = Some WWait).
Proof.
  intros HC Hp Hw. unfold uv_cond_signal. run. simpl. destruct (decide (pcs s !! TWorker j = Some WWait)) as [E|E].
  - left. assert (Hne : t <> TWorker j) by congruence.
    exists (set_pc (TWorker j) WLock s). split_and!; simpl.
    + done.
    + eapply core_go; try done. quiet.
    + by rewrite lookup_insert_ne.
    + done.
    + intros p' _. left. exists (TWorker j), WLock. simpl. by rewrite lookup_insert_eq.
  - destruct (decide (map_Forall _ (pcs s))) as [F|F].
    + left. exists s. split_and!; [done..| |]; [by destruct s |].
      intros p' Hp'. right. split; [done|]. intros u Hu. by apply (F u WWait).
    + right. split_and!; [by eexists | done |]. apply map_not_Forall in F as (u & q & Hu & Hq); [|apply _].
      apply dec_stable in Hq as ->. pose proof (t_kind _ _ _ _ _ (core_thread _ _ _ _ _ HC Hu)) as HK.
      destruct u as [i|l]; [eauto | done].
Qed.

(** ** Taking from the queue *)

Lemma home_pool St wk W n :
  home St wk W n = Some NPool -> (n = NExit /\ W !! None = Some InPool) \/ (exists w, n = NWork w /\ W !! Some w = Some InPool).
Proof.
  destruct n as [| | | | |w|w]; simpl; try done.
  - destruct (W !! None) as [[]|]; naive_solver.
  - destruct (W !! Some w) as [[]|] eqn:E; naive_solver.
  - destruct (St !! w), (wk !! w); simpl; naive_solver.
Qed.

Lemma home_item St wk W (q : item) : W !! q = Some InPool -> home St wk W (node_of q) = Some NPool.
Proof. intros Hq. destruct q; simpl; by rewrite Hq. Qed.

Lemma wtest_good s St W j i :
  core s St W -> pcs s !! TWorker i = Some WTest -> good s j (TWorker i) WTest (worker i j WTest s).
Proof.
  intros HC Hp. pose proof (d_mem _ _ _ (c_data _ _ _ HC)) as Hm.
  destruct (mem_empty _ _ _ NPool Hm I) as (e & He & Hb). unfold worker.
  rewrite (bind_step _ _ s e s) by (run; by rewrite He). destruct e.
  { eapply step_unlock_pool; try done. constructor; [constructor; [constructor|]|..]; simpl; try done; auto; [naive_solver|].
    intros q Hq. by destruct (Hb _ (home_item St (works s) W q Hq)). }
  destruct Hb as (n & Hn & Hh). rewrite (bind_step _ _ s n s) by (run; by rewrite Hn).
  destruct (home_pool _ _ _ _ Hh) as [[-> Hx]|(w & -> & Hx)].
  - destruct (signal_run s St W j (TWorker i) WTest HC Hp) as [(s1 & Hs1 & HC1 & Hp1 & E & Hk)|(Hs1 & Hst)]; [done|..].
    + specialize (Hs1 (qm s)). replace (set_qm (qm s) s) with s in Hs1 by by destruct s.
      replace (set_qm (qm s) s1) with s1 in Hs1 by by rewrite E.
      rewrite (bind_step _ _ s tt s1) by done. exists St, W. eapply core_go; try done.
      assert (exiting s1 = true). { apply (th_none _ _ _ (c_threads _ _ _ HC1)). eauto. }
      constructor; [constructor; [constructor|]|..]; simpl; try done; eauto.
    + destruct (Hs1 (qm s)) as [s' Hs']. replace (set_qm (qm s) s) with s in Hs' by by destruct s.
      unfold bind. by rewrite Hs'.
  - destruct (d_req _ _ _ (c_data _ _ _ HC) w InPool Hx) as (r & c & Hr & Hc & Hag).
    destruct (mem_remove _ _ _ _ _ Hm Hh) as (m1 & Hm1 & Hmem1). run. rewrite Hm1. simpl.
    exists (<[w := c]> St), (<[Some w := At (TWorker i) RTaken]> W).
    eapply (core_move s St W _ (TWorker i) WTest (WUnlock (Some w)) w _ r c); try done.
    + calm.
    + simpl. by rewrite insert_id.
    + simpl. rewrite (insert_id _ _ _ Hc). apply HC.
    + eapply mem_ext; [eapply (mem_init _ _ _ (NWork w) Hmem1) | |]; simpl.
      * intros (t & st & Ht & _). congruence.
      * by rewrite decide_True.
      * intros h. case_decide as Eh; [naive_solver | naive_solver].
      * intros n. case_decide as En; [done|]. case_decide as En'; [|done]. subst n. simpl. by rewrite Hc, Hr.
    + by eapply (d_loop _ _ _ (c_data _ _ _ HC)).
    + intros r0 Hr0. congruence.
    + eapply fields_trans; [by eapply grows_remove | apply grows_init].
    + left. simpl. apply lookup_insert_is_Some'. by left.
    + rewrite Hx. intros pl0 [= <-]. by intros u st.
    + by intros u st [= <- <-].
    + by left.
Qed.

(** ** The work, and its return to the loop *)

Lemma run_spec_snoc es e : run_spec (es ++ [e]) = St ← run_spec es; spec_step St e.
Proof. unfold run_spec. by rewrite foldl_app. Qed.

(** What happens changes the status of requests only. *)
Lemma spec_event s St W e St' :
  core s St W -> spec_step St e = Some St' -> run_spec (events s ++ [e]) = Some St'.
Proof. intros HC He. rewrite run_spec_snoc, (d_spec _ _ _ (c_data _ _ _ HC)). done. Qed.

(** A request whose node stays where it is *)
Lemma mem_stay s St W w pl0 pl r r0 c0 :
  core s St W -> W !! Some w = Some pl0 -> (alone pl0 <-> alone pl) -> place_head pl0 = place_head pl ->
  works s !! w = Some r0 -> St !! w = Some c0 -> w_loop r = w_loop r0 ->
  mem (qm s) (fun h => if decide (h = NWork w) then alone pl else heads s W h)
    (fun n => if decide (n = NWork w) then place_head pl
              else if decide (n = NReq w) then Some (NReqs (w_loop r)) else home St (works s) W n).
Proof.
  intros HC Hw Ha Hh Hr Hc Hl. eapply mem_ext; [apply (d_mem _ _ _ (c_data _ _ _ HC)) | |].
  - intros h. case_decide as E; [|done]. subst h. rewrite <- Ha. by apply alone_heads.
  - intros n. case_decide as E; [subst n; by rewrite place_head_home, Hw|].
    case_decide as E'; [|done]. subst n. simpl. by rewrite Hc, Hr, Hl.
Qed.

Lemma wrun_good s St W j i w :
  core s St W -> pcs s !! TWorker i = Some (WRun w) -> good s j (TWorker i) (WRun w) (worker i j (WRun w) s).
Proof.
  intros HC Hp. pose proof (role_at _ _ _ _ _ (Some w) RTaken HC Hp eq_refl) as Hw.
  destruct (role_req _ _ _ _ _ w RTaken HC Hp eq_refl) as (r & c & Hr & Hc & Hf & ->).
  unfold worker. run. rewrite Hr. simpl. rewrite Hf. simpl.
  exists (<[w := Ran]> St), (<[Some w := At (TWorker i) RRan]> W).
  eapply (core_move s St W _ (TWorker i) (WRun w) (WLockLoop w) w _ r Ran); try done.
  - calm.
  - simpl. by rewrite insert_id.
  - simpl. eapply spec_event; [done|]. simpl. by rewrite Hc.
  - simpl. by eapply (mem_stay s St W w _ (At (TWorker i) RRan)).
  - by eapply (d_loop _ _ _ (c_data _ _ _ HC)).
  - intros r0 Hr0. congruence.
  - by intros a.
  - destruct (d_field _ _ _ (c_data _ _ _ HC) w r Hr) as [?|[t Ht]]; [by left | congruence].
  - rewrite Hw. intros pl0 [= <-]. by intros u st [= <- <-].
  - by intros u st [= <- <-].
  - right. by exists RTaken.
Qed.

Lemma home_not_work St wk W w n : home St wk W n <> Some (NWork w).
Proof.
  destruct n as [| | | | |v|v]; simpl; try done.
  - by destruct (W !! None) as [[]|].
  - by destruct (W !! Some v) as [[]|].
  - destruct (St !! v); [|done]. by destruct (wk !! v).
Qed.

(** A node in no ring is put at the end of one. *)
Lemma mem_put s St W w pl0 pl r r0 c0 h :
  core s St W -> W !! Some w = Some pl0 -> place_head pl0 = None -> place_head pl = Some h -> heads s W h ->
  h <> NWork w -> works s !! w = Some r0 -> St !! w = Some c0 -> w_loop r = w_loop r0 ->
  exists m, QUEUE_INSERT_TAIL h (NWork w) (qm s) = Some m /\
    mem m (fun h => if decide (h = NWork w) then alone pl else heads s W h)
      (fun n => if decide (n = NWork w) then place_head pl
                else if decide (n = NReq w) then Some (NReqs (w_loop r)) else home St (works s) W n).
Proof.
  intros HC Hw Hp0 Hp Hh Hne Hr Hc Hl. pose proof (d_mem _ _ _ (c_data _ _ _ HC)) as Hm.
  assert (Hn : home St (works s) W (NWork w) = None) by by rewrite place_head_home, Hw.
  destruct (mem_insert_tail _ _ _ h (NWork w) (mem_drop _ _ _ _ Hm (home_not_work _ _ _ w))) as (m & Hm1 & Hm2); [done | naive_solver | done |].
  exists m. split; [done|]. eapply mem_ext; [done|..].
  - intros k. case_decide as E; [|naive_solver]. subst k. destruct pl; naive_solver.
  - intros n. destruct (decide (n = NWork w)) as [->|E]; [by rewrite !decide_True|]. rewrite !decide_False by done.
    case_decide as E'; [|done]. subst n. simpl. by rewrite Hc, Hr, Hl.
Qed.

Lemma winsert_good s St W j i w l :
  core s St W -> pcs s !! TWorker i = Some (WInsert w l) ->
  good s j (TWorker i) (WInsert w l) (worker i j (WInsert w l) s).
Proof.
  intros HC Hp. pose proof (role_at _ _ _ _ _ (Some w) RRan HC Hp eq_refl) as Hw.
  destruct (role_req _ _ _ _ _ w RRan HC Hp eq_refl) as (r & c & Hr & Hc & Hf & ->).
  destruct (t_insert _ _ _ _ _ (core_thread _ _ _ _ _ HC Hp) w l eq_refl) as (r' & Hr' & Hl).
  assert (r' = r) as -> by congruence. pose proof (d_loop _ _ _ (c_data _ _ _ HC) w r Hr) as Hlp. rewrite Hl in Hlp.
  destruct (mem_put s St W w _ (InLoop l) (UvWork (w_loop r) FnNull (w_after r)) r Ran (NLoop l) HC Hw) as (m & Hm & Hmem);
    [done..|]. unfold worker. run. rewrite Hr. simpl. rewrite Hm. simpl.
  exists (<[w := Ran]> St), (<[Some w := InLoop l]> W).
  eapply (core_move s St W _ (TWorker i) (WInsert w l) (WSend l SendRead) w _ (UvWork (w_loop r) FnNull (w_after r)) Ran); try done.
  - calm.
  - simpl. rewrite (insert_id _ _ _ Hc). apply HC.
  - simpl. auto.
  - simpl. by rewrite Hl.
  - simpl. intros r0 Hr0. congruence.
  - by eapply grows_insert_tail.
  - left. by eapply grows_insert_tail.
  - rewrite Hw. intros pl0 [= <-]. by intros u st [= <- <-].
  - right. by exists RRan.
  - simpl. intros k [= <-]. done.
Qed.

(** ** Cancelling *)

Lemma core_event s St W e : core s St W -> spec_step St e = Some St -> core (add_event e s) St W.
Proof.
  intros HC He. assert (Hev := spec_event _ _ _ _ _ HC He). destruct HC as [[] HT HA].
  constructor; [by constructor | | ].
  - destruct HT as [H1 H2 H3 H4 H5 H6 H7]. constructor; try done. intros t p Hp. by destruct (H1 t p Hp).
  - by destruct HA.
Qed.

(** [QUEUE_EMPTY(&w->wq)] tells whether the request is being run, until it is done. *)
Lemma empty_place s St W w pl :
  core s St W -> W !! Some w = Some pl ->
  match place_head pl with
  | Some h => QUEUE_EMPTY (NWork w) (qm s) = Some false /\ home St (works s) W (NWork w) = Some h
  | None => alone pl -> QUEUE_EMPTY (NWork w) (qm s) = Some true
  end.
Proof.
  intros HC Hw. pose proof (d_mem _ _ _ (c_data _ _ _ HC)) as Hm.
  assert (Hh : home St (works s) W (NWork w) = place_head pl) by by rewrite place_head_home, Hw.
  destruct (place_head pl) as [h|] eqn:E.
  - split; [|done]. by eapply mem_not_empty.
  - intros Ha. eapply mem_alone; [done | | apply home_not_work]. by eapply alone_heads.
Qed.

Lemma canceltest_case s St W l w cb :
  core s St W -> pcs s !! TLoop l = Some (LCancelTest w cb) ->
  exists r e, works s !! w = Some r /\ w_loop r = l /\ QUEUE_EMPTY (NWork w) (qm s) = Some e /\
    ((negb e && negb (bool_decide (w_work r = FnNull)) = false /\ St !! w <> Some Cancelled) \/
     (e = false /\ w_work r <> FnNull /\ exists pl h c, W !! Some w = Some pl /\ place_head pl = Some h /\
        home St (works s) W (NWork w) = Some h /\ St !! w = Some c /\ c <> Ran)).
Proof.
  intros HC Hp. destruct (cancel_req s St W HC l _ w Hp) as (r & Hr & Hl & Hc); [done|]. exists r.
  destruct (W !! Some w) as [pl|] eqn:Hw.
  - destruct (d_req _ _ _ (c_data _ _ _ HC) w pl Hw) as (r' & c & Hr' & Hc' & Ha). assert (r' = r) as -> by congruence.
    pose proof (empty_place _ _ _ _ _ HC Hw) as He.
    assert (Hat : forall u st, pl = At u st -> alone pl /\ St !! w <> Some Cancelled).
    { intros u st ->. assert (u <> TLoop l).
      { intros ->. pose proof (proj1 (t_role _ _ _ _ _ (core_thread _ _ _ _ _ HC Hp) _ _) Hw) as HR. done. }
      destruct u as [i|k], st; simpl in *; try done; naive_solver. }
    destruct pl as [|k|k|u st].
    + exists false. destruct He as [He Hh]. split_and!; [done..|]. right. destruct Ha as [Hf ->].
      split_and!; [done | congruence |]. naive_solver.
    + exists false. destruct He as [He Hh]. split_and!; [done..|]. destruct Ha as [-> [[Hf ->]|[Hf ->]]].
      * left. rewrite Hf, Hc'. done.
      * right. split_and!; [done | congruence |]. naive_solver.
    + exists false. destruct He as [He Hh]. split_and!; [done..|]. destruct Ha as [-> [[Hf ->]|[Hf ->]]].
      * left. rewrite Hf, Hc'. done.
      * right. split_and!; [done | congruence |]. naive_solver.
    + destruct (Hat u st eq_refl) as [Hal Hnc]. exists true. split_and!; [done | done | by apply He |]. by left.
  - assert (St !! w = None) as HN.
    { destruct (St !! w) eqn:E; [|done]. destruct (d_dom _ _ _ (c_data _ _ _ HC) w); [by eexists | congruence]. }
    destruct Hc as [[? ?]|Hf]; [congruence|].
    destruct (d_field _ _ _ (c_data _ _ _ HC) w r Hr) as [[n Hn]|[t Ht]]; [|congruence].
    exists (bool_decide (NWork w = n)). split_and!; [done | done | unfold QUEUE_EMPTY, QUEUE_NEXT; by rewrite Hn |].
    left. rewrite Hf, HN. split; [by rewrite andb_false_r | done].
Qed.

Lemma lcanceltest_good s St W j l w cb :
  core s St W -> pcs s !! TLoop l = Some (LCancelTest w cb) ->
  good s j (TLoop l) (LCancelTest w cb) (uv__work_cancel l (LCancelTest w cb) s).
Proof.
  intros HC Hp. destruct (canceltest_case _ _ _ _ _ _ HC Hp) as (r & e & Hr & Hl & He & Hcase).
  unfold uv__work_cancel. run. rewrite He. simpl. rewrite Hr.
  destruct Hcase as [[-> Hc]|(-> & Hf & pl & h & c & Hw & Hh & Hhome & Hc & Hran)]; simpl.
  - exists St, W. eapply (core_go (add_event (EvBusy w) s) St W (TLoop l) (LCancelTest w cb)); try done.
    + apply core_event; [done|]. simpl. by repeat case_match.
    + quiet.
  - rewrite bool_decide_eq_false_2 by done. simpl.
    destruct (mem_remove _ _ _ _ _ (d_mem _ _ _ (c_data _ _ _ HC)) Hhome) as (m & Hm & Hmem). rewrite Hm. simpl.
    exists (<[w := Cancelled]> St), (<[Some w := At (TLoop l) RCancel]> W).
    eapply (core_move s St W _ (TLoop l) (LCancelTest w cb) (LCancelUnlock w true cb) w _ r Cancelled); try done.
    + calm.
    + simpl. by rewrite insert_id.
    + simpl. eapply spec_event; [done|]. simpl. rewrite Hc. by destruct c.
    + eapply mem_ext; [exact Hmem|..].
      * intros k. case_decide as E; [subst k|done]. rewrite (alone_heads _ _ _ _ Hw). by destruct pl.
      * intros n. destruct (decide (n = NWork w)) as [->|E]; [by rewrite decide_True|]. rewrite !decide_False by done.
        case_decide as E'; [|done]. subst n. simpl. by rewrite Hc, Hr.
    + by eapply (d_loop _ _ _ (c_data _ _ _ HC)).
    + intros r0 Hr0. congruence.
    + by eapply grows_remove.
    + left. simpl. eapply grows_remove; [done|]. by eapply mem_grows; [apply (c_data _ _ _ HC)|].
    + rewrite Hw. intros pl0 [= <-]. by destruct pl.
    + by intros u st [= <- <-].
    + by left.
Qed.

Lemma lcancelmark_good s St W j l w cb :
  core s St W -> pcs s !! TLoop l = Some (LCancelMark w cb) ->
  good s j (TLoop l) (LCancelMark w cb) (uv__work_cancel l (LCancelMark w cb) s).
Proof.
  intros HC Hp. pose proof (role_at _ _ _ _ _ (Some w) RCancel HC Hp eq_refl) as Hw.
  destruct (role_req _ _ _ _ _ w RCancel HC Hp eq_refl) as (r & c & Hr & Hc & Hl & ->).
  unfold uv__work_cancel. run. rewrite Hr. simpl.
  exists (<[w := Cancelled]> St), (<[Some w := At (TLoop l) RMarked]> W).
  eapply (core_move s St W _ (TLoop l) (LCancelMark w cb) (LCancelLock3 w cb) w _
           (UvWork (w_loop r) FnCancelled (w_after r)) Cancelled); try done.
  - calm.
  - simpl. rewrite (insert_id _ _ _ Hc). apply HC.
  - simpl. by eapply (mem_stay s St W w _ (At (TLoop l) RMarked)).
  - simpl. by eapply (d_loop _ _ _ (c_data _ _ _ HC)).
  - simpl. intros r0 Hr0. congruence.
  - by intros a.
  - destruct (d_field _ _ _ (c_data _ _ _ HC) w r Hr) as [?|[t Ht]]; [by left | congruence].
  - rewrite Hw. intros pl0 [= <-]. by intros u st [= <- <-].
  - by intros u st [= <- <-].
  - right. by exists RCancel.
Qed.

Lemma lcancelinsert_good s St W j l w cb :
  core s St W -> pcs s !! TLoop l = Some (LCancelInsert w cb) ->
  good s j (TLoop l) (LCancelInsert w cb) (uv__work_cancel l (LCancelInsert w cb) s).
Proof.
  intros HC Hp. pose proof (role_at _ _ _ _ _ (Some w) RMarked HC Hp eq_refl) as Hw.
  destruct (role_req _ _ _ _ _ w RMarked HC Hp eq_refl) as (r & c & Hr & Hc & Hl & Hf & ->).
  pose proof (loop_there s St W HC l _ Hp) as Hlp.
  destruct (mem_put s St W w _ (InLoop l) r r Cancelled (NLoop l) HC Hw) as (m & Hm & Hmem); [done..|].
  unfold uv__work_cancel. run. rewrite Hm. simpl.
  exists (<[w := Cancelled]> St), (<[Some w := InLoop l]> W).
  eapply (core_move s St W _ (TLoop l) (LCancelInsert w cb) (LCancelSend SendRead cb) w _ r Cancelled); try done.
  - calm.
  - simpl. by rewrite insert_id.
  - simpl. rewrite (insert_id _ _ _ Hc). apply HC.
  - simpl. auto.
  - by eapply (d_loop _ _ _ (c_data _ _ _ HC)).
  - intros r0 Hr0. congruence.
  - by eapply grows_insert_tail.
  - left. by eapply grows_insert_tail.
  - rewrite Hw. intros pl0 [= <-]. by intros u st [= <- <-].
  - right. by exists RMarked.
  - simpl. intros k [= <-]. done.
Qed.

(** ** Posting *)

(** The exit message moves. *)
Lemma core_exit s St W s' t p p' pl :
  core s St W -> pcs s !! t = Some p -> pcs s' = <[t := p']> (pcs s) ->
  loops s' = loops s -> p_mutex s' = p_mutex s -> works s' = works s -> events s' = events s -> exiting s' = true ->
  mem (qm s') (heads s W) (fun n => if decide (n = NExit) then match pl with InPool => Some NPool | _ => None end else home St (works s) W n) ->
  grows (qm s) (qm s') -> (forall pl0, W !! None = Some pl0 -> pl0 <> InPool /\ only t pl0) -> only t pl ->
  role p = None \/ (exists st, role p = Some (None, st)) ->
  role p' = (match pl with At _ st => Some (None, st) | _ => None end) ->
  (kind t p -> kind t p') -> in_done p' = in_done p -> crit_pool p' = crit_pool p -> crit_loop t p' = crit_loop t p ->
  cancelling p' = None -> (forall w l, p' <> WInsert w l) -> leaving p' = true -> (posted p' = true -> pl = InPool) ->
  early t p = None -> late t p = None -> live p = false -> p' <> WWait -> (pl = InPool -> wakes s t p p') ->
  core s' St (<[None := pl]> W).
Proof.
  intros [HD HT HA] Hp Hs' E1 E2 E3 E4 E5 Hm Hg Ho Ho' Hr Hr' Hk Hdn Hcp Hcl Hca Hni Hlv Hpo He Hla Hli Hww Hwk.
  destruct (th_ok _ _ _ HT t p Hp) as [T1 T2 T3 T4 T5 T6 T7 T8 T9 T10 T11].
  assert (HN : forall w, <[None := pl]> W !! Some w = W !! Some w) by (intros; by apply lookup_insert_ne).
  assert (HL : forall l, local s' l <-> local s l) by (intros l; by eapply local_upd).
  constructor.
  - destruct HD as [D1 D2 D3 D4 D5 D6]. constructor; rewrite ?E1, ?E3, ?E4; try done.
    + eapply mem_ext; [done | |].
      * intros []; simpl; rewrite ?HN, ?HL, ?E1; done.
      * intros []; simpl; rewrite ?HN; try done. rewrite lookup_insert_eq. by destruct pl.
    + intros w pl'. rewrite HN. apply D3.
    + intros w. rewrite HN. apply D4.
    + intros w r Hw. rewrite HN. destruct (D6 w r Hw) as [?|?]; [left | by right]. by apply Hg.
  - eapply threads_upd; [done..| | | |].
    + constructor; rewrite ?E1, ?E2, ?E3; try done.
      * intros q u st Hu. destruct q as [w|]; [by rewrite HN|]. rewrite lookup_insert_eq. split.
        -- intros [= ->]. destruct Hu. by apply (Ho' u st).
        -- intros Hq. destruct Hu. by apply (proj2 (Ho _ Hq) u st).
      * intros w r Hw. exists r. auto.
      * intros Hq. by destruct (Ho _ Hq).
      * intros w l _. by rewrite HN.
    + constructor; rewrite ?E1, ?E2, ?E3, ?E5; try done; try by auto.
      * by eapply role_move.
      * by rewrite Hcp.
      * intros l. rewrite Hcl. apply T5.
      * intros l w _. by rewrite Hca.
      * intros w l ->. by destruct (Hni w l).
      * intros Hq. rewrite lookup_insert_eq. by rewrite Hpo.
      * intros l w _ Hb. by destruct p'.
    + auto.
    + done.
  - eapply awake_upd; [done..| | |].
    + intros l lp w. rewrite E1, HN. intros. right; right. exists lp, w. rewrite He. by split_and!.
    + intros l lp. rewrite E1. intros Hl Hpe. right; right. exists lp. rewrite Hla. by split_and!.
    + intros q. destruct q as [w|].
      * rewrite HN. intros Hq. right; right. rewrite Hli. split_and!; [by eexists | done | done].
      * rewrite lookup_insert_eq. intros [= ->]. auto.
Qed.

Lemma lpost_good s St W j l q cb :
  core s St W -> pcs s !! TLoop l = Some (LPost q cb) ->
  good s j (TLoop l) (LPost q cb) (post l j (LPost q cb) s).
Proof.
  intros HC Hp. unfold post, q_do, q_ask.
  destruct (signal_run s St W j (TLoop l) _ HC Hp) as [(s1 & Hs1 & HC1 & Hp1 & E & Hk)|(Hs1 & Hst)]; [done|..];
  pose proof (role_at _ _ _ _ _ q RPost HC Hp eq_refl) as Hw.
  - assert (Hq : qm s1 = qm s) by by rewrite E.
    destruct q as [w|].
    + destruct (role_req _ _ _ _ _ w RPost HC1 Hp1 eq_refl) as (r & c & Hr & Hc & Hl & Hf & ->).
      destruct (mem_put s1 St W w _ InPool r r Queued NPool HC1 Hw) as (m & Hm & Hmem); [done..|].
      rewrite Hq in Hm. run. simpl. rewrite Hm. simpl. rewrite Hs1. simpl.
      exists (<[w := Queued]> St), (<[Some w := InPool]> W).
      eapply (core_move s1 St W _ (TLoop l) (LPost (Some w) cb) (LPostUnlock (Some w) cb) w _ r Queued); try done.
      * constructor; [constructor|]; simpl; try done; [by left | naive_solver | auto].
      * simpl. by rewrite insert_id.
      * simpl. rewrite (insert_id _ _ _ Hc). apply HC1.
      * by eapply (d_loop _ _ _ (c_data _ _ _ HC1)).
      * intros r0 Hr0. congruence.
      * simpl. rewrite Hq. by eapply grows_insert_tail.
      * left. by eapply grows_insert_tail.
      * rewrite Hw. intros pl0 [= <-]. by intros u st [= <- <-].
      * right. by exists RPost.
      * intros _. right. by apply Hk.
    + destruct (mem_insert_tail _ _ _ NPool NExit (d_mem _ _ _ (c_data _ _ _ HC1)) I) as (m & Hm & _);
        [by intros [] | simpl; by rewrite Hw |].
      pose proof Hm as Hm1. rewrite Hq in Hm1. run. simpl. rewrite Hm1. simpl. rewrite Hs1. simpl.
      exists St, (<[None := InPool]> W).
      destruct (mem_insert_tail _ _ _ NPool NExit (d_mem _ _ _ (c_data _ _ _ HC1)) I) as (m' & Hm' & Hmem);
        [by intros [] | simpl; by rewrite Hw |]. assert (m' = m) as -> by congruence.
      eapply (core_exit s1 St W _ (TLoop l) (LPost None cb) (LPostUnlock None cb)); try done; eauto.
      * by apply (t_leaving _ _ _ _ _ (core_thread _ _ _ _ _ HC1 Hp1)).
      * simpl. rewrite Hq. by apply (proj1 (grows_insert_tail _ _ _ _ Hm1)).
      * rewrite Hw. intros pl0 [= <-]. split; [done|]. by intros u st [= <- <-].
  - assert (exists m, QUEUE_INSERT_TAIL NPool (node_of q) (qm s) = Some m) as [m Hm].
    { destruct q as [w|].
      - destruct (role_req _ _ _ _ _ w RPost HC Hp eq_refl) as (r & c & Hr & Hc & Hl & Hf & ->).
        destruct (mem_put s St W w _ InPool r r Queued NPool HC Hw) as (m & Hm & _); eauto. done.
      - destruct (mem_insert_tail _ _ _ NPool NExit (d_mem _ _ _ (c_data _ _ _ HC)) I) as (m & Hm & _);
          [by intros [] | simpl; by rewrite Hw | eauto]. }
    run. rewrite Hm. destruct (Hs1 m) as [s' Hs']. rewrite Hs'. exact Hst.
Qed.

(** ** Calls of the program *)

Definition queue_allowed s l w : Prop :=
  (forall St, run_spec (events s) = Some St -> St !! w = None) /\
  (forall r, works s !! w = Some r -> w_loop r = l).

Lemma queue_work_good s St W l w after cb :
  core s St W -> pcs s !! TLoop l = Some (LReady cb) -> queue_allowed s l w ->
  exists s', uv_queue_work l w after cb s = Ret tt s' /\ inv s'.
Proof.
  intros HC Hp [Hal1 Hal2]. pose proof (c_data _ _ _ HC) as HD. pose proof (Hal1 _ (d_spec _ _ _ HD)) as HN.
  assert (Hw : W !! Some w = None).
  { destruct (W !! Some w) as [pl|] eqn:E; [|done]. destruct (d_req _ _ _ HD w pl E) as (r & c & _ & ? & _). congruence. }
  pose proof (loop_there s St W HC l _ Hp) as Hlp.
  destruct (mem_insert_tail _ _ _ (NReqs l) (NReq w) (d_mem _ _ _ HD)) as (m & Hm & Hmem);
    [done | by intros [] | simpl; by rewrite HN |].
  unfold uv_queue_work, uv__work_submit. run. rewrite Hm. eexists. split; [done|].
  exists (<[w := Queued]> St), (<[Some w := At (TLoop l) RPost]> W).
  eapply (core_move s St W _ (TLoop l) (LReady cb) (LPostLock (Some w) cb) w _ (UvWork l FnWork after) Queued); try done.
  - calm.
  - simpl. eapply spec_event; [done|]. simpl. by rewrite HN.
  - eapply mem_ext; [exact Hmem|..].
    + intros k. case_decide as E; [subst k|done]. simpl. rewrite Hw. naive_solver.
    + intros n. simpl. destruct (decide (n = NWork w)) as [->|E]; [rewrite decide_False by done; simpl; by rewrite Hw | done].
  - simpl. by eapply grows_insert_tail.
  - right. by exists (TLoop l).
  - rewrite Hw. by intros pl0.
  - by intros u st [= <- <-].
  - by left.
Qed.

Lemma cleanup_good s St W l cb :
  core s St W -> pcs s !! TLoop l = Some (LReady cb) -> exiting s = false ->
  exists s', cleanup l cb s = Ret tt s' /\ inv s'.
Proof.
  intros HC Hp He. eexists. split; [done|].
  assert (Hw : W !! None = None).
  { destruct (W !! None) eqn:E; [|done]. pose proof (th_none _ _ _ (c_threads _ _ _ HC)) as HN. rewrite E in HN.
    rewrite HN in He; [done | by eexists]. }
  exists St, (<[None := At (TLoop l) RPost]> W).
  eapply (core_exit s St W _ (TLoop l) (LReady cb) (LPostLock None cb)); try done; eauto.
  - eapply mem_ext; [apply (d_mem _ _ _ (c_data _ _ _ HC)) | done |]. intros n. case_decide as E; [|done].
    subst n. simpl. by rewrite Hw.
  - by intros a.
  - rewrite Hw. by intros pl0.
  - by intros u st [= <- <-].
Qed.
