(* ===== verification/UvPoolDone.v ===== *)
(** * Done requests reach their loop *)

From stdpp Require Import base option list gmap.
From Stdlib Require Import ZArith Lia.
From S2P Require Import Prelude UvQueue UvRings UvPool UvPoolInv UvPoolStep.

Local Open Scope prog_scope.
Implicit Types (s : pool) (St : gmap positive status) (W : gmap item place) (t u : thread) (p : pc).

(** ** Steps that move no request *)

Lemma poll_good s St W l lp :
  core s St W -> pcs s !! TLoop l = Some (LReady false) -> loops s !! l = Some lp ->
  inv (set_pc (TLoop l) LEvent (set_loop l (PoolLoop (wq_mutex lp) (pending lp) 0) s)).
Proof.
  intros HC Hp Hl. exists St, W. eapply core_signal; try done; [calm | by right; right | by right; left].
Qed.

Lemma return_good s St W l :
  core s St W -> pcs s !! TLoop l = Some (LReady true) -> inv (set_pc (TLoop l) LDoneNext s).
Proof. intros HC Hp. exists St, W. eapply core_go; try done. quiet. Qed.

Lemma spurious_good s St W i :
  core s St W -> pcs s !! TWorker i = Some WWait -> inv (set_pc (TWorker i) WLock s).
Proof. intros HC Hp. exists St, W. eapply core_go; try done. quiet. Qed.

Lemma cancel_good s St W l w cb r :
  core s St W -> pcs s !! TLoop l = Some (LReady cb) -> works s !! w = Some r -> w_loop r = l ->
  is_Some (St !! w) \/ w_work r = FnNull -> inv (set_pc (TLoop l) (LCancelLock w cb) s).
Proof.
  intros HC Hp Hr Hl Hc. pose proof HC as [HD HT HA]. exists St, W.
  pose proof (core_thread _ _ _ _ _ HC Hp) as [T1 T2 T3 T4 T5 T6 T7 T8 T9 T10 T11].
  constructor.
  - eapply data_same; [done..|]. intros k. by eapply local_upd.
  - eapply threads_upd; try done.
    + constructor; try done. intros v r0 Hr0. exists r0. auto.
    + constructor; try done; [|naive_solver]. intros k v [= <-] [= <-]. by exists r.
    + intros He. by left.
    + apply HT.
  - eapply awake_upd; try done; simpl.
    + intros k lp' v Hk Hv. right; right. by exists lp', v.
    + intros k lp' Hk Hpe. right; right. by exists lp'.
    + intros q Hq. right; right. split_and!; [by exists q | done | done].
Qed.

Lemma or_ne {A} (P : Prop) (a b : A) : a <> b -> (P \/ a = b) <-> P.
Proof. tauto. Qed.

Lemma and_ne {A} (P : Prop) (a b : A) : a <> b -> (P /\ a <> b) <-> P.
Proof. tauto. Qed.

(** [uv__async_event] finds the handle pending. *)
Lemma event_good s St W j l :
  core s St W -> pcs s !! TLoop l = Some LEvent -> good s j (TLoop l) LEvent (uv__async_event l s).
Proof.
  intros HC Hp. pose proof HC as [HD HT HA]. destruct (loop_there s St W HC l _ Hp) as [lp Hl].
  unfold uv__async_event. run. rewrite Hl. destruct (pending lp) eqn:Hpe; simpl.
  2:{ exists St, W. pose proof (set_loop_id s l lp Hl) as E. rewrite Hpe in E. rewrite <- E.
      eapply core_signal; try done; [calm | naive_solver | by right; right]. }
  assert (Hno : forall w, W !! Some w <> Some (InLocal l)).
  { intros w Hw. assert (heads s W (NLocal l)) as (p & Hq & Hd).
    { eapply mem_in_ring; [apply HD|]. instantiate (1 := NWork w). by rewrite place_head_home, Hw. }
    simplify_eq. }
  assert (Hmem : mem (QUEUE_INIT (NLocal l) (qm s)) (fun h => heads s W h \/ h = NLocal l) (home St (works s) W)).
  { apply mem_init; [apply HD | | done]. simpl. intros (p & Hq & Hd). simplify_eq. }
  set (s1 := set_loop l _ s).
  exists St, W. eapply (core_mild s St W _ (TLoop l) LEvent LDoneLock); try done.
  - mild.
  - destruct HD as [D1 D2 D3 D4 D5 D6]. constructor; try done; simpl.
    + eapply mem_ext; [done | | done]. intros h. destruct h as [| |k|k|k|w|w]; simpl; rewrite ?or_ne by done; try done.
      * rewrite lookup_insert_is_Some'. naive_solver.
      * unfold local. simpl. destruct (decide (k = l)) as [->|Hne].
        -- rewrite lookup_insert_eq. naive_solver.
        -- rewrite lookup_insert_ne by congruence. naive_solver.
      * rewrite lookup_insert_is_Some'. naive_solver.
    + intros w r Hr. apply lookup_insert_is_Some'. right. by eapply D5.
    + intros w r Hr. destruct (D6 w r Hr) as [?|?]; [left | by right]. by apply grows_init.
  - intros k. simpl. rewrite lookup_insert_is_Some'. naive_solver.
  - intros k lp' Hk. simpl in Hk. destruct (decide (k = l)) as [->|Hne].
    + rewrite lookup_insert_eq in Hk. injection Hk as <-. exists lp. split_and!; [done | by right; left | done].
    + rewrite lookup_insert_ne in Hk by done. exists lp'. naive_solver.
  - simpl. rewrite <- (t_pool _ _ _ _ _ (core_thread _ _ _ _ _ HC Hp)). done.
  - intros k u Hu. simpl. destruct (decide (k = l)) as [->|Hne]; [|by rewrite lookup_insert_ne].
    rewrite lookup_insert_eq, Hl. split; intros (lp' & [= <-] & Hm); eauto.
  - intros k. simpl. assert (crit_loop (TLoop l) LEvent = None) as HN by done.
    pose proof (t_mutex _ _ _ _ _ (core_thread _ _ _ _ _ HC Hp) k) as HM. rewrite HN in HM.
    destruct (decide (k = l)) as [->|Hne]; [|by rewrite lookup_insert_ne].
    rewrite lookup_insert_eq. split; [done|]. intros (lp' & [= <-] & Hm). apply HM. eauto.
Qed.

(** ** Splitting the queue *)

Definition split_place (l : positive) (pl : place) : place := if decide (pl = InLoop l) then InLocal l else pl.

Lemma split_lookup W l (q : item) pl :
  (split_place l <$> W) !! q = Some pl <->
  (pl = InLocal l /\ W !! q = Some (InLoop l)) \/ (pl <> InLoop l /\ W !! q = Some pl).
Proof.
  rewrite lookup_fmap_Some. unfold split_place. split.
  - intros (pl0 & <- & Hq). case_decide; naive_solver.
  - intros [[-> Hq]|[Hne Hq]]; [exists (InLoop l); by rewrite decide_True | exists pl; by rewrite decide_False].
Qed.

Lemma split_same W l (q : item) pl :
  pl <> InLoop l -> pl <> InLocal l -> (split_place l <$> W) !! q = Some pl <-> W !! q = Some pl.
Proof. intros H1 H2. rewrite split_lookup. naive_solver. Qed.

Lemma home_split St wk W l n :
  home St wk (split_place l <$> W) n =
  if decide (home St wk W n = Some (NLoop l)) then Some (NLocal l) else home St wk W n.
Proof.
  destruct n as [| | | | |w|w]; simpl; rewrite ?lookup_fmap; try done.
  - destruct (W !! None) as [[|k|k|u st]|]; simpl; unfold split_place; repeat case_decide; naive_solver.
  - destruct (W !! Some w) as [[|k|k|u st]|]; simpl; unfold split_place; repeat case_decide; naive_solver.
  - destruct (St !! w); [destruct (wk !! w)|]; done.
Qed.

Lemma core_split s St W l m :
  core s St W -> pcs s !! TLoop l = Some LDoneSplit ->
  mem m (heads s W) (fun n => if decide (home St (works s) W n = Some (NLoop l)) then Some (NLocal l) else home St (works s) W n) ->
  grows (qm s) m -> core (set_pc (TLoop l) LDoneUnlock (set_qm m s)) St (split_place l <$> W).
Proof.
  intros HC Hp Hm Hg. pose proof HC as [HD HT HA].
  pose proof (core_thread _ _ _ _ _ HC Hp) as [T1 T2 T3 T4 T5 T6 T7 T8 T9 T10 T11].
  assert (HAt : forall q u st, (split_place l <$> W) !! q = Some (At u st) <-> W !! q = Some (At u st)).
  { intros q u st. by apply split_same. }
  assert (HP : forall q : item, (split_place l <$> W) !! q = Some InPool <-> W !! q = Some InPool).
  { intros q. by apply split_same. }
  assert (HL : forall k, local (set_pc (TLoop l) LDoneUnlock (set_qm m s)) k <-> local s k) by (intros k; by eapply local_upd).
  constructor.
  - destruct HD as [D1 D2 D3 D4 D5 D6]. constructor; try done; simpl.
    + eapply mem_ext; [exact Hm | |].
      * intros []; simpl; rewrite ?HL; try done. by setoid_rewrite HAt.
      * intros n. symmetry. apply home_split.
    + intros w pl [[-> Hw]|[_ Hw]]%split_lookup; [|by apply D3].
      destruct (D3 _ _ Hw) as (r & c & ? & ? & Ha). by exists r, c.
    + intros w Hw. rewrite lookup_fmap. by apply fmap_is_Some, D4.
    + intros w r Hr. setoid_rewrite HAt. destruct (D6 w r Hr) as [?|?]; [left | by right]. by apply Hg.
  - eapply threads_upd; try done.
    + constructor; try done.
      * intros w r Hr. exists r. auto.
      * intros Hx. by apply HP.
      * intros w k Hk Hw. apply split_lookup in Hw as [[? _]|[_ ?]]; [congruence | done].
    + constructor; try done; [intros q st; rewrite HAt; apply T2 | naive_solver].
    + intros He. by left.
    + rewrite lookup_fmap. intros Hx%fmap_is_Some. by apply HT.
  - eapply awake_upd; try done; simpl.
    + intros k lp w Hk [[? _]|[Hne Hw]]%split_lookup; [done|]. right; right. exists lp, w. split_and!; [done..|]. congruence.
    + intros k lp Hk Hpe. right; right. by exists lp.
    + intros q Hq%HP. right; right. split_and!; [by exists q | done | done].
Qed.

Lemma donesplit_good s St W j l :
  core s St W -> pcs s !! TLoop l = Some LDoneSplit -> good s j (TLoop l) LDoneSplit (uv__work_done l LDoneSplit s).
Proof.
  intros HC Hp. pose proof (d_mem _ _ _ (c_data _ _ _ HC)) as Hm. pose proof (loop_there s St W HC l _ Hp) as Hl.
  destruct (mem_empty _ _ _ (NLoop l) Hm Hl) as (e & He & Hb). unfold uv__work_done. run. rewrite He. destruct e; simpl.
  - exists St, (split_place l <$> W).
    replace (set_pc (TLoop l) LDoneUnlock s) with (set_pc (TLoop l) LDoneUnlock (set_qm (qm s) s)) by done.
    apply core_split; [done..| |by intros a]. eapply mem_ext; [done..|]. intros n. by rewrite decide_False.
  - destruct Hb as (n & Hn & Hh). rewrite Hn. simpl.
    destruct (mem_split _ _ _ (NLoop l) n (NLocal l) Hm) as (m & Hm1 & Hmem); [| |done..|].
    + exists LDoneSplit. done.
    + intros a Ha. destruct a as [| | | | |w|w]; simpl in Ha; try done.
      * by destruct (W !! None) as [[]|].
      * destruct (W !! Some w) as [[|k|k|u st]|] eqn:E; simplify_eq.
        by apply (t_local _ _ _ _ _ (core_thread _ _ _ _ _ HC Hp) l w eq_refl eq_refl).
      * destruct (St !! w), (works s !! w); done.
    + rewrite Hm1. simpl. exists St, (split_place l <$> W). apply core_split; [done..|]. by eapply grows_split.
Qed.

(** ** Delivering a request *)

Lemma home_delete St wk W w n :
  home (delete w St) wk (delete (Some w) W) n =
  if decide (n = NReq w) then None else if decide (n = NWork w) then None else home St wk W n.
Proof.
  destruct n as [| | | | |v|v]; simpl; try done; [by rewrite lookup_delete_ne|..]; destruct (decide (v = w)) as [->|Hne].
  - by rewrite lookup_delete_eq, decide_True.
  - by rewrite lookup_delete_ne, decide_False by congruence.
  - by rewrite lookup_delete_eq, decide_True.
  - by rewrite lookup_delete_ne, decide_False by congruence.
Qed.

Lemma core_deliver s St W s' l w r p' :
  core s St W -> pcs s !! TLoop l = Some LDoneNext -> p' = LDoneNext \/ p' = LReady true ->
  works s !! w = Some r -> w_loop r = l -> W !! Some w = Some (InLocal l) ->
  pcs s' = <[TLoop l := p']> (pcs s) -> loops s' = loops s -> p_mutex s' = p_mutex s -> exiting s' = exiting s ->
  works s' = works s -> run_spec (events s') = Some (delete w St) ->
  mem (qm s') (heads s W) (fun n => if decide (n = NReq w) then None else
                                    if decide (n = NWork w) then None else home St (works s) W n) ->
  grows (qm s) (qm s') -> core s' (delete w St) (delete (Some w) W).
Proof.
  intros HC Hp Hp' Hr Hl Hw Hs' E1 E2 E3 E4 Hev Hm Hg. pose proof HC as [HD HT HA].
  pose proof (core_thread _ _ _ _ _ HC Hp) as [T1 T2 T3 T4 T5 T6 T7 T8 T9 T10 T11].
  assert (Hd : forall q u st, delete (Some w) W !! q = Some (At u st) <-> W !! q = Some (At u st)).
  { intros q u st. rewrite lookup_delete_Some. split; [by intros [_ ?]|]. intros Hq. split; [|done]. intros <-. congruence. }
  assert (HN : delete (Some w) W !! None = W !! None) by by apply lookup_delete_ne.
  assert (HL : forall k, local s' k <-> local s k).
  { intros k. eapply local_upd; [done..|]. by destruct Hp' as [->| ->]. }
  constructor.
  - destruct HD as [D1 D2 D3 D4 D5 D6]. constructor; rewrite ?E1, ?E4; try done.
    + eapply mem_ext; [exact Hm | |].
      * intros []; simpl; rewrite ?HL, ?E1; try done. by setoid_rewrite Hd.
      * intros n. by rewrite home_delete.
    + intros v pl [Hne Hv]%lookup_delete_Some. rewrite lookup_delete_ne by congruence. by apply D3.
    + intros v [c Hv]. apply lookup_delete_Some in Hv as [Hne Hv]. rewrite lookup_delete_ne by congruence. apply D4. by eexists.
    + intros v r' Hv. setoid_rewrite Hd. destruct (D6 v r' Hv) as [?|?]; [left | by right]. by apply Hg.
  - eapply threads_upd; [done..| | | |].
    + constructor; rewrite ?E1, ?E2, ?E3, ?E4; try done.
      * intros v r' Hv. exists r'. split_and!; [done..|]. intros Hne. rewrite lookup_delete_ne; [done|].
        intros <-. destruct Hne. f_equal. congruence.
      * by rewrite HN.
      * intros v k _ Hv. by apply lookup_delete_Some in Hv as [_ ?].
    + destruct Hp' as [->| ->]; constructor; rewrite ?E1, ?E2, ?E3; try done; try naive_solver; intros q st; rewrite Hd; apply T2.
    + rewrite E3. intros. by left.
    + rewrite HN, E3. apply HT.
  - eapply awake_upd; [done..| | |].
    + intros k lp v. rewrite E1. intros Hk [_ Hv]%lookup_delete_Some. right; right. exists lp, v. split_and!; try done.
    + intros k lp. rewrite E1. intros Hk Hpe. right; right. exists lp. split_and!; try done.
    + intros q [_ Hq]%lookup_delete_Some. right; right. split_and!; [by exists q | done | by destruct Hp' as [->| ->]].
Qed.

Lemma home_local St wk W l n :
  home St wk W n = Some (NLocal l) -> exists w, n = NWork w /\ W !! Some w = Some (InLocal l).
Proof.
  intros Ha. destruct n as [| | | | |w|w]; simpl in Ha; try done.
  - by destruct (W !! None) as [[]|].
  - destruct (W !! Some w) as [[|k|k|u st]|] eqn:E; simplify_eq. eauto.
  - destruct (St !! w), (wk !! w); done.
Qed.

(** [uv__work_done] returns. *)
Lemma core_returns s St W l :
  core s St W -> pcs s !! TLoop l = Some LDoneNext -> (forall n, home St (works s) W n <> Some (NLocal l)) ->
  core (set_pc (TLoop l) (LReady false) s) St W.
Proof.
  intros HC Hp Hno. pose proof HC as [HD HT HA].
  eapply (core_mild s St W _ (TLoop l) LDoneNext (LReady false)); try done.
  - mild.
  - destruct HD as [D1 D2 D3 D4 D5 D6]. constructor; try done; simpl.
    eapply mem_ext; [by eapply mem_drop | | done]. intros h.
    destruct h as [| |k|k|k|w|w]; simpl; rewrite ?and_ne by done; try done.
    unfold local. simpl. destruct (decide (k = l)) as [->|Hne].
    + rewrite lookup_insert_eq. naive_solver.
    + rewrite lookup_insert_ne by congruence. naive_solver.
  - intros k lp' Hk. exists lp'. naive_solver.
  - by apply (t_pool _ _ _ _ _ (core_thread _ _ _ _ _ HC Hp)).
  - by apply (t_mutex _ _ _ _ _ (core_thread _ _ _ _ _ HC Hp)).
Qed.

Lemma donenext_good s St W j l :
  core s St W -> pcs s !! TLoop l = Some LDoneNext -> good s j (TLoop l) LDoneNext (uv__work_done l LDoneNext s).
Proof.
  intros HC Hp. pose proof (c_data _ _ _ HC) as HD. pose proof (d_mem _ _ _ HD) as Hm.
  destruct (mem_empty _ _ _ (NLocal l) Hm) as (e & He & Hb); [by exists LDoneNext|]. unfold uv__work_done.
  rewrite (bind_step _ _ s e s) by (run; by rewrite He). destruct e.
  { exists St, W. by apply core_returns. }
  destruct Hb as (n & Hn & Hh). destruct (home_local _ _ _ _ _ Hh) as (w & -> & Hw).
  destruct (d_req _ _ _ HD w _ Hw) as (r & c & Hr & Hc & Hl & Hf).
  destruct (mem_remove _ _ _ _ _ Hm Hh) as (m1 & Hm1 & Hmem1).
  assert (Hq1 : (fun n => if decide (n = NWork w) then None else home St (works s) W n) (NReq w) = Some (NReqs l)).
  { simpl. by rewrite Hc, Hr, Hl. }
  destruct (mem_empty _ _ _ (NReqs l) Hmem1) as (e & He1 & Hb1); [by eapply loop_there|].
  assert (e = false) as ->. { destruct e; [|done]. by destruct (Hb1 (NReq w)). }
  destruct (mem_remove _ _ _ _ _ Hmem1 Hq1) as (m2 & Hm2 & Hmem2).
  unfold uv__queue_done, assertM. run. rewrite Hn. simpl. rewrite Hm1. simpl. rewrite Hr. simpl. rewrite <- Hl, He1. simpl.
  rewrite Hm2. simpl. exists (delete w St), (delete (Some w) W).
  eapply (core_deliver s St W _ l w r (if w_after r then LReady true else LDoneNext)); try done.
  - destruct (w_after r); auto.
  - simpl. eapply spec_event; [done|]. simpl. rewrite Hc. destruct Hf as [[Hf ->]|[Hf ->]]; rewrite Hf; done.
  - simpl. eapply fields_trans; by eapply grows_remove.
Qed.
