(* ===== verification/UvPoolReach.v ===== *)
(** * The reachable states of the thread pool

    Every action of every thread keeps the invariant, and the pool that [init_once] leaves
    has it. *)

From stdpp Require Import base option list gmap.
From Stdlib Require Import ZArith Lia.
From S2P Require Import Prelude UvQueue UvRings UvPool UvPoolInv UvPoolStep UvPoolDone.

Local Open Scope prog_scope.
Implicit Types (s : pool) (St : gmap positive status) (W : gmap item place) (t u : thread) (p : pc).

(** ** Every step *)

Lemma worker_good s St W j i p :
  core s St W -> pcs s !! TWorker i = Some p -> good s j (TWorker i) p (worker i j p s).
Proof.
  intros HC Hp. pose proof (t_kind _ _ _ _ _ (core_thread _ _ _ _ _ HC Hp)) as HK.
  destruct p; try done.
  - by eapply wlock_good.
  - by eapply wtest_good.
  - by eapply wunlock_good.
  - by eapply wrun_good.
  - by eapply wlockloop_good.
  - by eapply winsert_good.
  - by eapply wsend_good.
  - by eapply wunlockloop_good.
Qed.

Lemma loop_good s St W j l p :
  core s St W -> pcs s !! TLoop l = Some p -> good s j (TLoop l) p (loop_step l j p s).
Proof.
  intros HC Hp. pose proof (t_kind _ _ _ _ _ (core_thread _ _ _ _ _ HC Hp)) as HK.
  destruct p; try done; unfold loop_step.
  - by eapply lpostlock_good.
  - by eapply lpost_good.
  - by eapply lpostunlock_good.
  - by eapply lcancellock_good.
  - by eapply lcancellock2_good.
  - by eapply lcanceltest_good.
  - by eapply lcancelunlock_good.
  - by eapply lcancelunlock2_good.
  - by eapply lcancelmark_good.
  - by eapply lcancellock3_good.
  - by eapply lcancelinsert_good.
  - by eapply lcancelsend_good.
  - by eapply lcancelunlock3_good.
  - by eapply event_good.
  - by eapply ldonelock_good.
  - by eapply donesplit_good.
  - by eapply ldoneunlock_good.
  - by eapply donenext_good.
  - by eapply ljoin_good.
Qed.

Lemma get_pc_run s t p : pcs s !! t = Some p -> get_pc t s = Ret p s.
Proof. unfold get_pc. run. by intros ->. Qed.

Lemma step_good s St W j t p :
  core s St W -> pcs s !! t = Some p -> good s j t p (perform (Step t j) s).
Proof.
  intros HC Hp. destruct t as [i|l]; unfold perform; rewrite (bind_step _ _ s p s) by (by apply get_pc_run).
  - by eapply worker_good.
  - by eapply loop_good.
Qed.

(** An action keeps the invariant, or is refused. *)
Definition keeps (o : outcome pool refusal unit) : Prop :=
  match o with Ret _ s => inv s | Raise _ _ => True | _ => False end.

Lemma ready_case s l (k : bool -> mpool unit) :
  (forall cb, pcs s !! TLoop l = Some (LReady cb) -> keeps (k cb s)) -> keeps ((cb <- ready l ;; k cb) s).
Proof.
  intros Hk. unfold ready, get_pc. run. destruct (pcs s !! TLoop l) as [p|] eqn:E; [|done].
  destruct p; try done. by apply Hk.
Qed.

Lemma allowed_queue s l w after : allowed s (QueueWork l w after) = true -> queue_allowed s l w.
Proof.
  unfold allowed, queue_allowed, in_flight. intros [H1 H2]%andb_true_iff. split.
  - intros St HS. rewrite HS in H1. apply negb_true_iff, bool_decide_eq_false in H1. by apply eq_None_not_Some.
  - intros r Hr. rewrite Hr in H2. by apply bool_decide_eq_true in H2.
Qed.

Lemma allowed_cancel s St W l w :
  core s St W -> allowed s (Cancel l w) = true ->
  exists r, works s !! w = Some r /\ w_loop r = l /\ (is_Some (St !! w) \/ w_work r = FnNull).
Proof.
  intros HC. unfold allowed, in_flight. rewrite (d_spec _ _ _ (c_data _ _ _ HC)).
  destruct (works s !! w) as [r|] eqn:Hr; [|done]. intros [H1 H2]%andb_true_iff. apply bool_decide_eq_true in H1.
  exists r. split_and!; [done..|]. apply orb_true_iff in H2 as [H2|H2]; apply bool_decide_eq_true in H2; auto.
Qed.

(** ** The first state *)

Lemma init_queues_mem ls :
  NoDup ls -> mem (init_queues ls) (fun h => h = NPool \/ exists l, l ∈ ls /\ (h = NLoop l \/ h = NReqs l)) (fun _ => None).
Proof.
  assert (H0 : mem (QMem ∅ ∅ : qmem node) (fun _ => False) (fun _ => None)).
  { exists ∅. split_and!.
    - split; intros *; by rewrite lookup_empty.
    - intros h. rewrite lookup_empty. split; [by intros [??] | done].
    - intros n h. split; [done|]. intros (xs & Hx & _). by rewrite lookup_empty in Hx. }
  induction ls as [|l ls IH]; intros Hnd; simpl.
  - eapply mem_ext; [eapply mem_init; [exact H0 | by intros [] | done] | | done]. simpl. set_solver.
  - apply NoDup_cons in Hnd as [Hl Hnd]. eapply mem_ext; [eapply mem_init; [eapply mem_init; [by apply IH|..]|..] | |done]; simpl.
    + intros [?|(k & Hk & [?|?])]; simplify_eq; done.
    + done.
    + intros [[?|(k & Hk & [?|?])]|?]; simplify_eq; done.
    + done.
    + intros h. set_solver.
Qed.

Lemma init_threads_lookup n ls t p :
  init_threads n ls !! t = Some p ->
  match t with TWorker i => Pos.to_nat i <= n /\ p = WLock | TLoop l => l ∈ ls /\ p = LReady false end.
Proof.
  unfold init_threads. induction ls as [|l ls IH]; simpl.
  - assert (forall a k, a + k <= n -> foldr (fun i m => <[TWorker (Pos.of_nat i) := WLock]> m) (∅ : gmap thread pc) (seq (S a) k) !! t = Some p ->
      match t with TWorker i => Pos.to_nat i <= n /\ p = WLock | TLoop l => l ∈ [] /\ p = LReady false end) as HA.
    { intros a k. revert a. induction k as [|k IH]; intros a Hk; simpl; [by rewrite lookup_empty|].
      destruct (decide (t = TWorker (Pos.of_nat (S a)))) as [->|Hne].
      - rewrite lookup_insert_eq. intros [= <-]. rewrite Nat2Pos.id by lia. split; [lia | done].
      - rewrite lookup_insert_ne by done. apply (IH (S a)). lia. }
    apply (HA 0 n). lia.
  - destruct (decide (t = TLoop l)) as [->|Hne].
    + rewrite lookup_insert_eq. intros [= <-]. split; [by left | done].
    + rewrite lookup_insert_ne by done. intros Ht%IH. destruct t; [done|]. destruct Ht. split; [by right | done].
Qed.

Lemma init_loop_thread n ls l : l ∈ ls -> init_threads n ls !! TLoop l = Some (LReady false).
Proof.
  unfold init_threads. induction ls as [|k ls IH]; simpl; [by intros ?%not_elem_of_nil|].
  destruct (decide (k = l)) as [->|Hne]; [by rewrite lookup_insert_eq|].
  intros [?|?]%elem_of_cons; [done|]. rewrite lookup_insert_ne by congruence. auto.
Qed.

Lemma init_loops_lookup ls l lp : init_loops ls !! l = Some lp -> l ∈ ls /\ lp = PoolLoop None false 0.
Proof.
  unfold init_loops. induction ls as [|k ls IH]; simpl; [by rewrite lookup_empty|].
  destruct (decide (k = l)) as [->|Hne].
  - rewrite lookup_insert_eq. intros [= <-]. split; [by left | done].
  - rewrite lookup_insert_ne by done. intros [? ?]%IH. split; [by right | done].
Qed.

Lemma init_loops_in ls l : l ∈ ls -> is_Some (init_loops ls !! l).
Proof.
  unfold init_loops. induction ls as [|k ls IH]; simpl; [by intros ?%not_elem_of_nil|].
  intros Hl. apply lookup_insert_is_Some'. apply elem_of_cons in Hl as [->|?]; [by left | right; auto].
Qed.

Lemma init_pool_inv n ls : NoDup ls -> inv (init_pool n ls).
Proof.
  intros Hnd. exists ∅, ∅. assert (HE : forall (q : item) pl, (∅ : gmap item place) !! q <> Some pl).
  { intros q pl. by rewrite lookup_empty. }
  constructor.
  - constructor; simpl; try done.
    + eapply mem_ext; [by apply init_queues_mem|..].
      * intros h. split.
        -- intros [->|(l & Hl & [->| ->])]; simpl; [done | by apply init_loops_in..].
        -- destruct h as [| |l|l|l|w|w]; simpl; try done; [by left | | | |].
           ++ intros [lp [Hl _]%init_loops_lookup]. right. exists l. auto.
           ++ intros (p & Hp & Hd). simpl in Hp. apply init_threads_lookup in Hp as [_ ->]. done.
           ++ intros [lp [Hl _]%init_loops_lookup]. right. exists l. auto.
           ++ intros (t & st & Ht & _). by apply HE in Ht.
      * intros []; simpl; by rewrite ?lookup_empty.
    + intros w. rewrite lookup_empty. by intros [??].
  - constructor; simpl; try done.
    + intros t p Hp. apply init_threads_lookup in Hp. constructor; simpl; try done.
      * destruct t; by destruct Hp as [_ ->].
      * intros q st. rewrite lookup_empty. destruct t; by destruct Hp as [_ ->].
      * intros l ->. destruct Hp as [Hl _]. by apply init_loops_in.
      * destruct t; by destruct Hp as [_ ->].
      * intros l. split.
        -- destruct t; by destruct Hp as [_ ->].
        -- intros (lp & [_ ->]%init_loops_lookup & ?). done.
      * intros l w ->. by destruct Hp as [_ ->].
      * intros w l ->. destruct t; by destruct Hp.
      * destruct t; destruct Hp as [_ ->]; naive_solver.
      * destruct t; by destruct Hp as [_ ->].
      * destruct t; by destruct Hp as [_ ->].
    + intros l [lp [Hl _]%init_loops_lookup]. rewrite (init_loop_thread n ls l Hl). by eexists.
    + intros l lp t [_ ->]%init_loops_lookup ?. done.
    + by intros [??].
  - constructor; simpl.
    + intros l lp w _ Hw. by apply HE in Hw.
    + by intros l lp [_ ->]%init_loops_lookup ?.
    + intros q Hq. by apply HE in Hq.
Qed.

Lemma perform_good s a : inv s -> allowed s a = true -> keeps (perform a s).
Proof.
  intros (St & W & HC) Hal. destruct a as [t j|l|l|i|l w after|l w|l].
  - destruct (pcs s !! t) as [p|] eqn:Hp.
    + pose proof (step_good s St W j t p HC Hp) as Hg. by destruct (perform _ s).
    + destruct t; unfold perform, get_pc; run; by rewrite Hp.
  - apply ready_case. intros cb Hp. destruct (loop_there s St W HC l _ Hp) as [lp Hl].
    run. rewrite Hl. destruct cb; simpl; [done|]. case_bool_decide; simpl; [done|]. by eapply poll_good.
  - apply ready_case. intros [] Hp; run; [by eapply return_good | done].
  - unfold perform, get_pc. run. destruct (pcs s !! TWorker i) as [p|] eqn:Hp; [|done].
    case_decide as E; [subst p; by eapply spurious_good | done].
  - apply ready_case. intros cb Hp.
    destruct (queue_work_good s St W l w after cb HC Hp) as (s' & -> & Hi); [by apply allowed_queue in Hal | done].
  - apply ready_case. intros cb Hp. destruct (allowed_cancel _ _ _ _ _ HC Hal) as (r & Hr & Hl & Hc). by eapply cancel_good.
  - apply ready_case. intros cb Hp. apply negb_true_iff in Hal.
    destruct (cleanup_good s St W l cb HC Hp Hal) as (s' & -> & Hi). done.
Qed.

Lemma reach_inv n ls s : NoDup ls -> reach n ls s -> inv s.
Proof.
  intros Hnd. induction 1 as [|s a s' Hr IH Hal Hs]; [by apply init_pool_inv|].
  pose proof (perform_good s a IH Hal) as Hk. by rewrite Hs in Hk.
Qed.
