(* ===== verification/UvPoolLive.v ===== *)
(** * The thread pool comes to rest

    Every step of a thread makes a measure smaller, and a state without a next step has
    nothing left to do. *)

From stdpp Require Import base option list gmap.
From Stdlib Require Import ZArith Lia.
From S2P Require Import Prelude UvQueue UvRings UvPool UvPoolInv UvPoolStep UvPoolDone UvPoolReach.

Local Open Scope prog_scope.
Implicit Types (s : pool) (St : gmap positive status) (W : gmap item place) (t u : thread) (p : pc).

(** ** Sums over maps *)

Section Sum.
Context {K A : Type} `{Countable K} (f : A -> nat).

Definition msum (m : gmap K A) : nat := map_fold (fun _ a n => f a + n) 0 m.

Lemma msum_insert m k a : m !! k = None -> msum (<[k := a]> m) = f a + msum m.
Proof. intros Hk. unfold msum. rewrite map_fold_insert_L; [done | intros; lia | done]. Qed.

Lemma msum_update m k a b : m !! k = Some a -> msum (<[k := b]> m) + f a = msum m + f b.
Proof.
  intros Hk. rewrite <- insert_delete_eq, msum_insert by by rewrite lookup_delete_eq.
  rewrite <- (insert_delete_id m k a Hk) at 2. rewrite msum_insert by by rewrite lookup_delete_eq. lia.
Qed.

Lemma msum_delete m k a : m !! k = Some a -> msum (delete k m) + f a = msum m.
Proof. intros Hk. rewrite <- (insert_delete_id m k a Hk) at 2. rewrite msum_insert by by rewrite lookup_delete_eq. lia. Qed.
End Sum.

(** ** The measure

    A wake-up is paid by the step that signals, a write to the eventfd by the place before
    it, and the way of a request back to its loop by its status. *)

Definition pc_weight (p : pc) : nat :=
  match p with
  | WExited => 0
  | WUnlock None => 1
  | WWait => 10
  | WRun _ => 11
  | WUnlock (Some _) => 12
  | WTest => 13
  | WLock => 14
  | WUnlockLoop _ => 15
  | WSend _ SendWrite => 40
  | WSend _ SendCas => 41
  | WSend _ SendRead => 42
  | WInsert _ _ => 43
  | WLockLoop _ => 44
  | LReady false | LGone _ => 0
  | LDoneNext => 1
  | LReady true => 2
  | LDoneUnlock => 3
  | LDoneSplit => 4
  | LDoneLock => 5
  | LEvent => 6
  | LJoin _ => 3
  | LPostUnlock _ _ => 4
  | LPost _ _ => 9
  | LPostLock _ _ => 10
  | LCancelUnlock3 _ => 3
  | LCancelSend SendWrite _ => 30
  | LCancelSend SendCas _ => 31
  | LCancelSend SendRead _ => 32
  | LCancelInsert _ _ => 33
  | LCancelLock3 _ _ => 34
  | LCancelMark _ _ => 35
  | LCancelUnlock2 _ _ _ => 36
  | LCancelUnlock _ _ _ => 37
  | LCancelTest _ _ => 38
  | LCancelLock2 _ _ => 39
  | LCancelLock _ _ => 40
  end.

Definition status_weight (c : status) : nat :=
  match c with Queued => 50 | Ran => 3 | Cancelled => 3 end.

Definition events_weight (es : list event) : nat :=
  match run_spec es with Some St => msum status_weight St | None => 0 end.

Definition loop_weight (lp : pool_loop) : nat := 10 * efd lp.

Definition weight s : nat :=
  msum pc_weight (pcs s) + msum loop_weight (loops s) + events_weight (events s).

(** A step of the threads themselves *)
Definition next s s' : Prop := exists a, internal a = true /\ perform a s = Ret tt s'.

Lemma events_weight_snoc es e St St' :
  run_spec es = Some St -> run_spec (es ++ [e]) = Some St' ->
  spec_step St e = Some St' /\ events_weight es = msum status_weight St /\
  events_weight (es ++ [e]) = msum status_weight St'.
Proof.
  intros H1 H2. unfold events_weight. rewrite H1, H2. split_and!; [|done..].
  rewrite run_spec_snoc, H1 in H2. done.
Qed.

Lemma msum_loop (m : gmap positive pool_loop) l lp o b n :
  m !! l = Some lp -> msum loop_weight (<[l := PoolLoop o b n]> m) + 10 * efd lp = msum loop_weight m + 10 * n.
Proof. apply (msum_update loop_weight m l lp (PoolLoop o b n)). Qed.

(** ** Every step makes it smaller *)

Lemma weight_go s t p p' s1 :
  pcs s !! t = Some p -> pcs s1 = pcs s -> loops s1 = loops s -> events s1 = events s ->
  pc_weight p' < pc_weight p -> weight (set_pc t p' s1) < weight s.
Proof.
  intros Hp E1 E2 E3 Hw. unfold weight. simpl. rewrite E1, E2, E3.
  pose proof (msum_update pc_weight _ _ _ p' Hp). lia.
Qed.

Lemma weight_loop s t p p' l lp o b n :
  pcs s !! t = Some p -> loops s !! l = Some lp ->
  pc_weight p' + 10 * n < pc_weight p + 10 * efd lp -> weight (set_pc t p' (set_loop l (PoolLoop o b n) s)) < weight s.
Proof.
  intros Hp Hl Hw. unfold weight. simpl. pose proof (msum_update pc_weight _ _ _ p' Hp).
  pose proof (msum_loop _ _ _ o b n Hl). lia.
Qed.

(** After the signal, at most one waiting thread has more to do. *)
Lemma signal_weight s j t p x s' :
  uv_cond_signal j s = Ret x s' -> pcs s !! t = Some p -> p <> WWait ->
  pcs s' !! t = Some p /\ loops s' = loops s /\ events s' = events s /\
  msum pc_weight (pcs s') <= msum pc_weight (pcs s) + 4.
Proof.
  unfold uv_cond_signal. run. intros Hs Hp Hw. case_decide as E; simplify_eq/=.
  - split_and!; [|done..|].
    + rewrite lookup_insert_ne; [done|]. intros <-. congruence.
    + pose proof (msum_update pc_weight _ _ _ WLock E) as HM. simpl in HM. lia.
  - case_decide; simplify_eq/=. split_and!; [done..|lia].
Qed.

Lemma weight_signal s t p p' s1 s2 j x :
  pcs s !! t = Some p -> pcs s1 = pcs s -> loops s1 = loops s -> events s1 = events s -> p <> WWait ->
  uv_cond_signal j s1 = Ret x s2 -> pc_weight p' + 4 < pc_weight p -> weight (set_pc t p' s2) < weight s.
Proof.
  intros Hp E1 E2 E3 Hw Hs HW. rewrite <- E1 in Hp. destruct (signal_weight _ _ _ _ _ _ Hs Hp Hw) as (Hp2 & F2 & F3 & HM).
  unfold weight. simpl. rewrite F2, F3, E2, E3. rewrite E1 in HM. pose proof (msum_update pc_weight _ _ _ p' Hp2). lia.
Qed.

(** A step that is seen from outside *)
Lemma weight_event s t p p' s1 e :
  inv s -> inv (set_pc t p' s1) -> pcs s !! t = Some p -> pcs s1 = pcs s -> loops s1 = loops s -> events s1 = events s ++ [e] ->
  (forall St St', spec_step St e = Some St' ->
    msum status_weight St' + pc_weight p' < msum status_weight St + pc_weight p) ->
  weight (set_pc t p' s1) < weight s.
Proof.
  intros (St & W & HC) (St' & W' & HC') Hp E1 E2 E3 HE.
  pose proof (d_spec _ _ _ (c_data _ _ _ HC)) as HS. pose proof (d_spec _ _ _ (c_data _ _ _ HC')) as HS'.
  simpl in HS'. rewrite E3 in HS'. destruct (events_weight_snoc _ _ _ _ HS HS') as (Hst & F1 & F2).
  unfold weight. simpl. rewrite E1, E2, E3, F1, F2. pose proof (msum_update pc_weight _ _ _ p' Hp).
  pose proof (HE _ _ Hst). lia.
Qed.

Lemma send_weight s l sp next s' :
  uv_async_send l sp s = Ret next s' ->
  pcs s' = pcs s /\ events s' = events s /\
  msum loop_weight (loops s') =
    msum loop_weight (loops s) + (if decide (sp = SendWrite) then 10 else 0) /\
  (next = None \/ (sp = SendRead /\ next = Some SendCas) \/ (sp = SendCas /\ next = Some SendWrite)).
Proof.
  unfold uv_async_send. run. destruct (loops s !! l) as [lp|] eqn:Hl; [|done].
  destruct sp; simpl; try destruct (pending lp); intros [= <- <-]; simpl;
    (split_and!; [done | done | | by auto]); try lia.
  - pose proof (msum_loop _ _ _ (wq_mutex lp) true (efd lp) Hl). lia.
  - pose proof (msum_loop _ _ _ (wq_mutex lp) true (S (efd lp)) Hl). lia.
  - pose proof (msum_loop _ _ _ (wq_mutex lp) false (S (efd lp)) Hl). lia.
Qed.

(** What the parts of a step leave *)
Section Inversion.
Context (s s' : pool).

Lemma q_ask_inv {A} (f : qmem node -> option A) a : q_ask f s = Ret a s' -> s' = s /\ f (qm s) = Some a.
Proof. unfold q_ask. run. destruct (f (qm s)); naive_solver. Qed.
Lemma q_do_inv f x : q_do f s = Ret x s' -> exists m, s' = set_qm m s.
Proof. unfold q_do, q_ask. run. destruct (f (qm s)); naive_solver. Qed.
Lemma go_inv t p x : go t p s = Ret x s' -> s' = set_pc t p s.
Proof. by intros [= _ <-]. Qed.
Lemma log_inv e x : log e s = Ret x s' -> s' = add_event e s.
Proof. by intros [= _ <-]. Qed.
Lemma get_work_inv w r : get_work w s = Ret r s' -> s' = s /\ works s !! w = Some r.
Proof. unfold get_work. run. destruct (works s !! w); naive_solver. Qed.
Lemma get_loop_inv l lp : get_loop l s = Ret lp s' -> s' = s /\ loops s !! l = Some lp.
Proof. unfold get_loop. run. destruct (loops s !! l); naive_solver. Qed.
Lemma lock_pool_inv t x : lock_pool t s = Ret x s' -> s' = set_p_mutex (Some t) s.
Proof. unfold lock_pool. run. destruct (p_mutex s); naive_solver. Qed.
Lemma unlock_pool_inv x : unlock_pool s = Ret x s' -> s' = set_p_mutex None s.
Proof. by intros [= _ <-]. Qed.
Lemma lock_loop_inv t l x : lock_loop t l s = Ret x s' ->
  exists lp, loops s !! l = Some lp /\ s' = set_loop l (PoolLoop (Some t) (pending lp) (efd lp)) s.
Proof. unfold lock_loop. run. destruct (loops s !! l) as [lp|]; [|done]. destruct (wq_mutex lp); naive_solver. Qed.
Lemma unlock_loop_inv l x : unlock_loop l s = Ret x s' ->
  exists lp, loops s !! l = Some lp /\ s' = set_loop l (PoolLoop None (pending lp) (efd lp)) s.
Proof. unfold unlock_loop. run. destruct (loops s !! l); naive_solver. Qed.
Lemma set_fn_inv w f x : set_fn w f s = Ret x s' -> exists r, s' = set_work w r s.
Proof. unfold set_fn. run. destruct (works s !! w); naive_solver. Qed.
End Inversion.

Ltac steps := repeat match goal with
  | H : bind _ _ _ = Ret _ _ |- _ => apply bind_Ret_inv in H as (? & ? & ? & ?)
  | H : q_ask _ _ = Ret _ _ |- _ => apply q_ask_inv in H as [-> ?]
  | H : q_do _ _ = Ret _ _ |- _ => apply q_do_inv in H as [? ->]
  | H : go _ _ _ = Ret _ _ |- _ => apply go_inv in H as ->
  | H : log _ _ = Ret _ _ |- _ => apply log_inv in H as ->
  | H : get_work _ _ = Ret _ _ |- _ => apply get_work_inv in H as [-> ?]
  | H : get_loop _ _ = Ret _ _ |- _ => apply get_loop_inv in H as [-> ?]
  | H : lock_pool _ _ = Ret _ _ |- _ => apply lock_pool_inv in H as ->
  | H : unlock_pool _ = Ret _ _ |- _ => apply unlock_pool_inv in H as ->
  | H : lock_loop _ _ _ = Ret _ _ |- _ => apply lock_loop_inv in H as (? & ? & ->)
  | H : unlock_loop _ _ = Ret _ _ |- _ => apply unlock_loop_inv in H as (? & ? & ->)
  | H : set_fn _ _ _ = Ret _ _ |- _ => apply set_fn_inv in H as [? ->]
  | H : skip _ = Ret _ _ |- _ => injection H as _ <-
  | H : ret _ _ = Ret _ _ |- _ => injection H as ? <-
  | H : modify _ _ = Ret _ _ |- _ => injection H as _ <-
  | H : get _ = Ret _ _ |- _ => injection H as <- <-
  | H : raise _ _ = Ret _ _ |- _ => discriminate H
  | H : fail _ _ = Ret _ _ |- _ => discriminate H
  | H : context [match ?x with _ => _ end] |- _ =>
    lazymatch type of H with _ = Ret _ _ => destruct x eqn:? end
  end.

Lemma send_step s t p l sp (send : send_pc -> pc) fin s' :
  pcs s !! t = Some p -> p = send sp ->
  pc_weight fin + 10 < pc_weight (send SendWrite) ->
  pc_weight (send SendWrite) < pc_weight (send SendCas) -> pc_weight (send SendCas) < pc_weight (send SendRead) ->
  (next <- uv_async_send l sp ;; go t (match next with Some a => send a | None => fin end)) s = Ret tt s' ->
  weight s' < weight s.
Proof.
  intros Hp -> H1 H2 H3 Hs. unfold bind at 1 in Hs. destruct (uv_async_send l sp s) as [o s1| | |] eqn:E; try done.
  destruct (send_weight _ _ _ _ _ E) as (E1 & E2 & E3 & Hn). injection Hs as <-.
  unfold weight. simpl. rewrite E1, E2, E3.
  pose proof (msum_update pc_weight _ _ _ (match o with Some a => send a | None => fin end) Hp) as HM.
  destruct sp, Hn as [->|[[? ->]|[? ->]]]; simpl in *; try done; lia.
Qed.

Lemma worker_weight s i j p s' :
  inv s -> inv s' -> pcs s !! TWorker i = Some p -> worker i j p s = Ret tt s' -> weight s' < weight s.
Proof.
  intros HI HI' Hp Hs. destruct p; try discriminate Hs; cbn beta iota in Hs; unfold worker in Hs.
  - steps. eapply weight_go; try done; simpl; lia.
  - steps.
    + eapply weight_go; try done; simpl; lia.
    + eapply weight_signal; [exact Hp | | | |done|eassumption|]; simpl; try done. lia.
    + eapply weight_go; try done; simpl; lia.
  - destruct q; steps; eapply weight_go; try done; simpl; lia.
  - steps. eapply weight_event; try done. intros St St' HE. simpl in HE.
    destruct (St !! w) as [[]|] eqn:E; simplify_eq. pose proof (msum_update status_weight _ _ _ Ran E). simpl in *. lia.
  - steps. eapply weight_loop; try done; simpl; lia.
  - steps. eapply weight_go; try done; simpl; lia.
  - eapply (send_step s (TWorker i) _ l s0 (WSend l) (WUnlockLoop l)); try done; simpl; lia.
  - steps. eapply weight_loop; try done; simpl; lia.
Qed.

Lemma loop_weight_step s l j p s' :
  inv s -> inv s' -> pcs s !! TLoop l = Some p -> loop_step l j p s = Ret tt s' -> weight s' < weight s.
Proof.
  intros HI HI' Hp Hs.
  destruct p; try discriminate Hs; unfold loop_step, post, uv__work_cancel, uv__async_event, uv__work_done, join_workers, uv__queue_done, assertM in Hs.
  - steps. eapply weight_go; try done; simpl; lia.
  - steps. eapply weight_signal; [exact Hp | | | |done|eassumption|]; simpl; try done. lia.
  - destruct q; steps; eapply weight_go; try done; destruct cb; simpl; lia.
  - steps. eapply weight_go; try done; simpl; lia.
  - steps. eapply weight_loop; try done; simpl; lia.
  - steps.
    + eapply weight_event; try done. intros St St' HE. simpl in HE.
      destruct (St !! w) as [[]|] eqn:E; simplify_eq; pose proof (msum_update status_weight _ _ _ Cancelled E); simpl in *; lia.
    + eapply weight_event; try done. intros St St' HE. simpl in HE.
      destruct (St !! w) as [[]|] eqn:E; simplify_eq; simpl; lia.
  - steps. eapply weight_loop; try done; simpl; lia.
  - destruct c; steps; eapply weight_go; try done; destruct cb; simpl; lia.
  - steps. eapply weight_go; try done; simpl; lia.
  - steps. eapply weight_loop; try done; simpl; lia.
  - steps. eapply weight_go; try done; simpl; lia.
  - eapply (send_step s (TLoop l) _ l s0 (fun a => LCancelSend a cb) (LCancelUnlock3 cb)); try done; simpl; lia.
  - steps. eapply weight_loop; try done; destruct cb; simpl; lia.
  - steps; [eapply weight_loop | eapply weight_go]; try done; simpl; lia.
  - steps. eapply weight_loop; try done; simpl; lia.
  - steps; eapply weight_go; try done; simpl; lia.
  - steps. eapply weight_loop; try done; simpl; lia.
  - steps; [eapply weight_go; try done; simpl; lia|..].
    eapply weight_event; try done. intros St St' HE. simpl in HE.
    destruct (St !! w) as [c|] eqn:E; [|done]. pose proof (msum_delete status_weight _ _ _ E).
    destruct c; try done; case_match; simplify_eq; destruct (w_after _); simpl in *; lia.
  - steps. eapply weight_go; try done; simpl; lia.
Qed.

Lemma step_weight s a s' :
  inv s -> internal a = true -> perform a s = Ret tt s' -> weight s' < weight s.
Proof.
  intros HI Ha Hs. assert (HI' : inv s').
  { assert (allowed s a = true) as Hal by by destruct a. pose proof (perform_good s a HI Hal) as Hk. by rewrite Hs in Hk. }
  destruct a as [t j|l|l|?|?|?|?]; try done; unfold perform, ready, get_pc in Hs.
  - destruct t as [i|l]; steps.
    + subst. by eapply worker_weight.
    + subst. by eapply loop_weight_step.
  - steps. eapply weight_loop; try done. apply orb_false_iff in Heqb as [-> Hb]. apply bool_decide_eq_false in Hb. simpl. lia.
  - steps. subst. eapply weight_go; try done; simpl; lia.
Qed.

(** The threads come to rest, whatever the order of their steps. *)
Lemma next_wf s : inv s -> Acc (fun s2 s1 => next s1 s2) s.
Proof.
  remember (weight s) as n eqn:E. revert s E. induction (lt_wf n) as [n _ IH]. intros s -> HI.
  constructor. intros s' (a & Ha & Hs). pose proof (step_weight s a s' HI Ha Hs) as Hw.
  eapply IH; [exact Hw | done |]. assert (allowed s a = true) as Hal by by destruct a.
  pose proof (perform_good s a HI Hal) as Hk. by rewrite Hs in Hk.
Qed.
