(* ===== verification/UvPoolProps.v ===== *)
(** * What the thread pool promises *)

From stdpp Require Import base option list gmap relations.
From Stdlib Require Import ZArith Lia.
From S2P Require Import Prelude UvQueue UvRings UvPool UvPoolInv UvPoolStep UvPoolDone UvPoolReach UvPoolLive.

Local Open Scope prog_scope.
Implicit Types (s : pool) (St : gmap positive status) (W : gmap item place) (t u : thread) (p : pc).

(** ** At rest *)

Definition at_rest s : Prop := forall s', ~ next s s'.

Section Rest.
Context (s : pool) (St : gmap positive status) (W : gmap item place) (HC : core s St W) (HR : at_rest s).

Lemma rest_stuck t p j : pcs s !! t = Some p -> stuck s j t p.
Proof.
  intros Hp. pose proof (step_good s St W j t p HC Hp) as Hg. destruct (perform (Step t j) s) as [x s'| | |] eqn:E; try done.
  destruct (HR s'). exists (Step t j). split; [done|]. by destruct x.
Qed.

Lemma rest_mutex l : ~ mutex_taken s l.
Proof.
  intros (lp & t & Hl & Ht). destruct (th_mutex _ _ _ (c_threads _ _ _ HC) l lp t Hl Ht) as [p Hp].
  assert (Hc : crit_loop t p = Some l) by (apply (t_mutex _ _ _ _ _ (core_thread _ _ _ _ _ HC Hp)); eauto).
  pose proof (rest_stuck t p 1%positive Hp) as Hs. by destruct t, p.
Qed.

Lemma rest_signal t p : pcs s !! t = Some p -> p <> WTest /\ forall q cb, p <> LPost q cb.
Proof.
  intros Hp. assert (HN : ~ (forall j, pcs s !! TWorker j <> Some WWait /\ exists i, pcs s !! TWorker i = Some WWait)).
  { intros Hj. destruct (Hj 1%positive) as [_ [i Hi]]. by destruct (Hj i). }
  split; [intros -> | intros q cb ->]; apply HN; intros j; apply (rest_stuck t _ j Hp).
Qed.

Lemma rest_pool : p_mutex s = None.
Proof.
  destruct (p_mutex s) as [t|] eqn:E; [|done]. destruct (th_pool _ _ _ (c_threads _ _ _ HC) t E) as [p Hp].
  pose proof (proj2 (t_pool _ _ _ _ _ (core_thread _ _ _ _ _ HC Hp)) E) as Hc.
  pose proof (rest_stuck t p 1%positive Hp) as Hs. pose proof (rest_signal t p Hp) as [H1 H2].
  destruct p; try done; [by destruct (H2 q cb) | by destruct Hs as (l & _ & ?%rest_mutex)].
Qed.

(** Where a thread can be *)
Lemma rest_places t p : pcs s !! t = Some p ->
  p = WWait \/ p = WExited \/ p = LReady false \/ (exists cb, p = LGone cb) \/
  (exists cb i q, p = LJoin cb /\ pcs s !! TWorker i = Some q /\ q <> WExited).
Proof.
  intros Hp. pose proof (rest_stuck t p 1%positive Hp) as Hs. pose proof (rest_signal t p Hp) as [H1 H2].
  pose proof rest_pool as HP. pose proof (t_kind _ _ _ _ _ (core_thread _ _ _ _ _ HC Hp)) as HK.
  destruct p; try done; simpl in Hs; rewrite ?HP in Hs; try (by destruct Hs); try (by destruct Hs as (l & _ & ?%rest_mutex)); auto 6.
  - destruct cb; [|auto]. destruct t as [i|l]; [done|]. exfalso. apply (HR (set_pc (TLoop l) LDoneNext s)). exists (Return l). split; [done|].
    unfold perform, ready. unfold bind at 1 2. rewrite (get_pc_run _ _ _ Hp). done.
  - by destruct (H2 q cb).
  - destruct Hs as (i & q & ? & ?). eauto 12.
  - eauto 6.
Qed.

Lemma rest_efd l lp : pcs s !! TLoop l = Some (LReady false) -> loops s !! l = Some lp -> efd lp = 0.
Proof.
  intros Hp Hl. destruct (decide (efd lp = 0)) as [|Hne]; [done|]. exfalso.
  eapply (HR (set_pc (TLoop l) LEvent (set_loop l (PoolLoop (wq_mutex lp) (pending lp) 0) s))). exists (Poll l). split; [done|].
  unfold perform, ready. unfold bind at 1 2. rewrite (get_pc_run _ _ _ Hp). run. rewrite Hl.
  by rewrite bool_decide_eq_false_2.
Qed.

Lemma rest_attrs t p : pcs s !! t = Some p -> role p = None /\ early t p = None /\ late t p = None /\ live p = false.
Proof.
  intros Hp. destruct (rest_places t p Hp) as [->|[->|[->|[[cb ->]|(cb & i & q & -> & _)]]]]; by destruct t.
Qed.

(** With the exit message posted, every worker has gone. *)
Lemma rest_pool_queue q i p : W !! q = Some InPool -> pcs s !! TWorker i = Some p -> p = WExited.
Proof.
  intros Hq Hp. destruct (a_pool _ _ (c_awake _ _ _ HC) q Hq) as [(t & p' & Hp' & Hl)|Hno].
  - destruct (rest_attrs t p' Hp') as (_ & _ & _ & Hf). congruence.
  - pose proof (t_kind _ _ _ _ _ (core_thread _ _ _ _ _ HC Hp)) as HK.
    destruct (rest_places _ p Hp) as [->|[->|[->|[[cb ->]|(cb & k & r & -> & _)]]]]; try done. by destruct (Hno (TWorker i)).
Qed.

Lemma rest_exit : exiting s = true ->
  (exists l cb, pcs s !! TLoop l = Some (LGone cb)) /\ (forall i p, pcs s !! TWorker i = Some p -> p = WExited).
Proof.
  intros He. destruct (th_exit _ _ _ (c_threads _ _ _ HC) He) as (t & p & Hp & Hl).
  assert (HW : W !! None = Some InPool).
  { apply (t_posted _ _ _ _ _ (core_thread _ _ _ _ _ HC Hp)).
    by destruct (rest_places _ p Hp) as [->|[->|[->|[[cb ->]|(cb & k & r & -> & _)]]]]. }
  assert (HE : forall i p, pcs s !! TWorker i = Some p -> p = WExited) by (intros i q; by apply (rest_pool_queue None)).
  split; [|done]. pose proof (t_kind _ _ _ _ _ (core_thread _ _ _ _ _ HC Hp)) as HK.
  destruct (rest_places _ p Hp) as [->|[->|[->|[[cb ->]|(cb & k & r & -> & Hr & Hne)]]]]; try done.
  - destruct t as [i|l]; [done | eauto].
  - by destruct Hne, (HE k r).
Qed.

Lemma rest_done i : exiting s = false -> is_Some (pcs s !! TWorker i) ->
  St = ∅ /\ forall l, is_Some (loops s !! l) -> pcs s !! TLoop l = Some (LReady false).
Proof.
  intros He [p0 Hp0].
  assert (HP : forall t p, pcs s !! t = Some p -> p = WWait \/ p = LReady false).
  { intros t p Hp. pose proof (core_thread _ _ _ _ _ HC Hp) as HT.
    destruct (rest_places _ p Hp) as [->|[->|[->|[[cb ->]|(cb & k & r & -> & _)]]]]; auto; exfalso.
    - pose proof (t_exits _ _ _ _ _ HT (or_intror eq_refl)). congruence.
    - pose proof (t_leaving _ _ _ _ _ HT eq_refl). congruence.
    - pose proof (t_leaving _ _ _ _ _ HT eq_refl). congruence. }
  assert (HL : forall l, is_Some (loops s !! l) -> pcs s !! TLoop l = Some (LReady false)).
  { intros l Hl. destruct (th_loops _ _ _ (c_threads _ _ _ HC) l Hl) as [p Hp].
    pose proof (t_kind _ _ _ _ _ (core_thread _ _ _ _ _ HC Hp)) as HK. by destruct (HP _ p Hp) as [->| ->]. }
  split; [|done]. apply map_empty. intros w. destruct (St !! w) as [c|] eqn:Hc; [exfalso|done].
  destruct (d_dom _ _ _ (c_data _ _ _ HC) w) as [pl Hw]; [by eexists|].
  destruct pl as [|l|l|t st].
  - pose proof (rest_pool_queue _ i p0 Hw Hp0) as ->. by destruct (HP _ _ Hp0).
  - assert (is_Some (loops s !! l)) as [lp Hl].
    { apply (mem_in_ring _ _ _ (NWork w) (NLoop l) (d_mem _ _ _ (c_data _ _ _ HC))). by rewrite place_head_home, Hw. }
    pose proof (rest_efd l lp (HL l ltac:(by eexists)) Hl) as Hefd.
    destruct (a_loop _ _ (c_awake _ _ _ HC) l lp w Hl Hw) as [Hpe|(t & p & Hp & Hx)].
    + destruct (a_poll _ _ (c_awake _ _ _ HC) l lp Hl Hpe) as [?|(t & p & Hp & Hx)]; [done|].
      destruct (rest_attrs t p Hp) as (_ & _ & ? & _). congruence.
    + destruct (rest_attrs t p Hp) as (_ & ? & _). congruence.
  - assert (local s l) as (p & Hp & Hd).
    { apply (mem_in_ring _ _ _ (NWork w) (NLocal l) (d_mem _ _ _ (c_data _ _ _ HC))). by rewrite place_head_home, Hw. }
    by destruct (HP _ p Hp) as [->| ->].
  - destruct (th_role _ _ _ (c_threads _ _ _ HC) _ _ _ Hw) as [p Hp]. destruct (rest_attrs t p Hp) as (Hr & _).
    apply (t_role _ _ _ _ _ (core_thread _ _ _ _ _ HC Hp)) in Hw. congruence.
Qed.
End Rest.

(** ** The threads of the pool stay *)

Definition grown s s' : Prop := forall u, is_Some (pcs s !! u) -> is_Some (pcs s' !! u).

Lemma grown_go s s1 s2 t p : grown s s1 -> pcs s2 = <[t := p]> (pcs s1) -> grown s s2.
Proof. intros Hg E u Hu. rewrite E. apply lookup_insert_is_Some'. right. by apply Hg. Qed.

Lemma signal_grown j s x s' : uv_cond_signal j s = Ret x s' -> grown s s'.
Proof.
  unfold uv_cond_signal. run. case_decide; [|case_decide; [|done]]; intros [= _ <-]; [|by intros u].
  by eapply grown_go; [intros u|].
Qed.

Lemma worker_grown s i j p s' : worker i j p s = Ret tt s' -> grown s s'.
Proof.
  intros Hs. destruct p; try discriminate Hs; unfold worker in Hs; steps; try (by eapply grown_go; [intros u|]).
  - eapply grown_go; [by eapply signal_grown | done].
  - match goal with H : uv_async_send _ _ _ = _ |- _ => apply send_weight in H as (E & _) end.
    eapply grown_go; [|done]. intros u. by rewrite E.
Qed.

Lemma loop_grown s l j p s' : loop_step l j p s = Ret tt s' -> grown s s'.
Proof.
  intros Hs. destruct p; try discriminate Hs;
    unfold loop_step, post, uv__work_cancel, uv__async_event, uv__work_done, join_workers, uv__queue_done, assertM in Hs;
    steps; try (by eapply grown_go; [intros u|]).
  - eapply grown_go; [|done]. match goal with H : uv_cond_signal _ _ = _ |- _ => exact (signal_grown _ _ _ _ H) end.
  - match goal with H : uv_async_send _ _ _ = _ |- _ => apply send_weight in H as (E & _) end.
    eapply grown_go; [|done]. intros u. by rewrite E.
Qed.

Lemma perform_grown a s s' : perform a s = Ret tt s' -> grown s s'.
Proof.
  intros Hs. destruct a as [[i|l] j|l|l|i|l w after|l w|l];
    unfold perform, ready, get_pc, uv_queue_work, uv__work_submit, cleanup in Hs; steps; subst;
    try (by eapply grown_go; [intros u|]); try done.
  - by eapply worker_grown.
  - by eapply loop_grown.
Qed.

Lemma reach_threads n ls s : reach n ls s -> grown (init_pool n ls) s.
Proof.
  induction 1 as [|s a s' Hr IH Hal Hs]; [by intros u|]. intros u Hu. eapply perform_grown; [done|]. by apply IH.
Qed.

Lemma init_worker n ls : 1 <= n -> is_Some (init_threads n ls !! TWorker 1).
Proof.
  intros Hn. unfold init_threads. induction ls as [|l ls IH]; simpl.
  - destruct n; [lia|]. simpl. rewrite lookup_insert_eq. by eexists.
  - by rewrite lookup_insert_ne.
Qed.

Lemma reach_next n ls s s' : reach n ls s -> rtc next s s' -> reach n ls s'.
Proof.
  intros Hr Hn. induction Hn as [|s s1 s2 (a & Ha & Hs) _ IH]; [done|]. apply IH. eapply reach_step; [done| |done].
  by destruct a.
Qed.

Lemma reach_loop n ls s l : NoDup ls -> reach n ls s -> l ∈ ls -> is_Some (loops s !! l).
Proof.
  intros Hnd Hr Hl. destruct (reach_inv n ls s Hnd Hr) as (St & W & HC).
  destruct (reach_threads n ls s Hr (TLoop l)) as [p Hp]; [simpl; rewrite init_loop_thread by done; by eexists|].
  by eapply loop_there.
Qed.

(** ** The number of threads *)

Lemma init_once_bounds val memory :
  (1 <= init_once val memory <= MAX_THREADPOOL_SIZE)%Z /\
  (memory = true -> forall v, val = Some v -> 1 <= v <= MAX_THREADPOOL_SIZE -> init_once val memory = v)%Z.
Proof.
  unfold init_once, MAX_THREADPOOL_SIZE. split.
  - pose proof (wrap_u_range 32) as HU. destruct val as [v|]; [pose proof (HU v ltac:(lia))|]; repeat case_match; lia.
  - intros -> v -> Hv. rewrite wrap_u_small by lia. repeat case_match; lia.
Qed.

(** ** Properties *)

(** C3 In every order of steps, the pool never reads a field that was not written, never
    runs a request that was cancelled, and finds every assertion true; and no two threads
    are between the locking and the unlocking of one mutex. *)
Theorem pool_safe n ls s a :
  NoDup ls -> reach n ls s -> allowed s a = true ->
  (forall why, perform a s <> Fault why) /\
  (forall t1 t2 p1 p2, pcs s !! t1 = Some p1 -> pcs s !! t2 = Some p2 ->
    (crit_pool p1 = true -> crit_pool p2 = true -> t1 = t2) /\
    (forall l, crit_loop t1 p1 = Some l -> crit_loop t2 p2 = Some l -> t1 = t2)).
Proof.
  intros Hnd Hr Hal. pose proof (reach_inv n ls s Hnd Hr) as HI. split.
  - intros why E. pose proof (perform_good s a HI Hal) as Hk. by rewrite E in Hk.
  - destruct HI as (St & W & HC). intros t1 t2 p1 p2 H1 H2.
    pose proof (core_thread _ _ _ _ _ HC H1) as T1. pose proof (core_thread _ _ _ _ _ HC H2) as T2. split.
    + intros C1%(t_pool _ _ _ _ _ T1) C2%(t_pool _ _ _ _ _ T2). congruence.
    + intros l (lp & ? & ?)%(t_mutex _ _ _ _ _ T1) (lp' & ? & ?)%(t_mutex _ _ _ _ _ T2). congruence.
Qed.

(** C2 What happens is what the specification allows: the work of a request runs at most
    once and not after it was cancelled, its callback runs once, with 0 after the work and
    with [UV_ECANCELED] without, and [uv_cancel] answers [UV_EBUSY] only for a request it
    did not cancel.  A loop's list of active requests has those in flight. *)
Theorem pool_refines n ls s :
  NoDup ls -> reach n ls s ->
  exists St, run_spec (events s) = Some St /\
    forall l, l ∈ ls -> exists xs, is_queue (qm s) (NReqs l) xs /\
      forall q, q ∈ xs <-> exists w r, q = NReq w /\ is_Some (St !! w) /\ works s !! w = Some r /\ w_loop r = l.
Proof.
  intros Hnd Hr. destruct (reach_inv n ls s Hnd Hr) as (St & W & HC). exists St. split; [apply HC|].
  intros l Hl. destruct (d_mem _ _ _ (c_data _ _ _ HC)) as (R & [HQ _] & HD & HH).
  destruct (proj2 (HD (NReqs l)) (reach_loop n ls s l Hnd Hr Hl)) as [xs Hxs].
  exists xs. split; [by apply HQ|]. intros q.
  assert (q ∈ xs <-> home St (works s) W q = Some (NReqs l)) as ->.
  { rewrite HH. split; [eauto|]. intros (ys & Hys & Hin). congruence. }
  split.
  - intros Hq. destruct q as [| | | | |w|w]; simpl in Hq; try done.
    + by destruct (W !! None) as [[]|].
    + by destruct (W !! Some w) as [[]|].
    + destruct (St !! w) eqn:Hw; [|done]. destruct (works s !! w) as [r|] eqn:Hwr; [|done].
      exists w, r. split_and!; [done | by eexists | done | by injection Hq].
  - intros (w & r & -> & [c Hc] & Hwr & <-). simpl. by rewrite Hc, Hwr.
Qed.

(** C1 The threads come to rest in every order of their steps, and nobody waits in vain:
    when no thread has a next step and [exit] was not called, every submitted request is
    done and no loop has an active one; when it was called, all the workers have gone and
    [exit] goes on. *)
Theorem pool_comes_to_rest n ls s :
  NoDup ls -> 1 <= n -> reach n ls s ->
  Acc (fun s2 s1 => next s1 s2) s /\
  forall s', rtc next s s' -> at_rest s' ->
    if exiting s'
    then (exists l cb, pcs s' !! TLoop l = Some (LGone cb)) /\ (forall i p, pcs s' !! TWorker i = Some p -> p = WExited)
    else run_spec (events s') = Some ∅ /\
      forall l, l ∈ ls -> pcs s' !! TLoop l = Some (LReady false) /\ QUEUE_EMPTY (NReqs l) (qm s') = Some true.
Proof.
  intros Hnd Hn Hr. split; [by apply next_wf; eapply reach_inv|]. intros s' Hs' HR.
  pose proof (reach_next n ls s s' Hr Hs') as Hr'. destruct (reach_inv n ls s' Hnd Hr') as (St & W & HC).
  destruct (exiting s') eqn:He; [by eapply rest_exit|].
  destruct (rest_done s' St W HC HR 1%positive He) as [-> HL].
  { eapply reach_threads; [done|]. by apply init_worker. }
  split; [apply HC|]. intros l Hl. pose proof (reach_loop n ls s' l Hnd Hr' Hl) as Hlp. split; [by apply HL|].
  eapply mem_alone; [apply HC | done |]. intros q Hq. destruct q as [| | | | |w|w]; simpl in Hq; try done.
  - by destruct (W !! None) as [[]|].
  - by destruct (W !! Some w) as [[]|].
Qed.

(** ** A run *)

Fixpoint run_actions (acts : list action) s : option pool :=
  match acts with
  | [] => Some s
  | a :: acts =>
      if allowed s a then match perform a s with Ret _ s' => run_actions acts s' | _ => None end else None
  end.

Lemma run_actions_reach n ls acts s s' : reach n ls s -> run_actions acts s = Some s' -> reach n ls s'.
Proof.
  revert s. induction acts as [|a acts IH]; simpl; intros s Hr; [by intros [= <-]|].
  destruct (allowed s a) eqn:Ha; [|done]. destruct (perform a s) as [[] s1| | |] eqn:E; try done.
  apply IH. by eapply reach_step.
Qed.

(** A worker and a loop: the second request is cancelled while the first runs, and both
    are delivered in one round. *)
Definition demo : list action :=
  let w n := repeat (Step (TWorker 1) 1) n in
  let l n := repeat (Step (TLoop 1) 1) n in
  [QueueWork 1 1 true] ++ l 3 ++ w 3 ++ [QueueWork 1 2 true] ++ l 3 ++ [Cancel 1 2] ++ l 12 ++
  w 7 ++ [Poll 1] ++ l 5 ++ [Return 1] ++ l 1 ++ [Return 1] ++ l 1.

Definition demo_state (k : nat) : pool := default (init_pool 1 []) (run_actions (take k demo) (init_pool 1 [1%positive])).

Lemma demo_reach k : is_Some (run_actions (take k demo) (init_pool 1 [1%positive])) -> reach 1 [1%positive] (demo_state k).
Proof.
  intros [s Hs]. eapply run_actions_reach; [apply reach_init|]. rewrite Hs. unfold demo_state. by rewrite Hs.
Qed.

Lemma demo_ok : run_actions demo (init_pool 1 [1%positive]) = Some (demo_state 41).
Proof. vm_compute. reflexivity. Qed.

Lemma demo_rests : at_rest (demo_state 41).
Proof.
  assert (E : pcs (demo_state 41) = <[TWorker 1 := WWait]> (<[TLoop 1 := LReady false]> ∅)) by (vm_compute; reflexivity).
  assert (EL : loops (demo_state 41) = {[1%positive := PoolLoop None false 0]}) by (vm_compute; reflexivity).
  set (s := demo_state 41) in *. clearbody s. intros s' (a & Ha & Hs).
  destruct a as [[i|l] j|l|l|i|l w after|l w|l]; try done; unfold perform, ready, get_pc in Hs; steps; subst;
    rewrite E in *; repeat match goal with
    | H : <[?k := _]> _ !! ?t = Some _ |- _ => apply lookup_insert_Some in H as [[? ?]|[? H]]; simplify_eq
    | H : ∅ !! _ = Some _ |- _ => by rewrite lookup_empty in H
    end; try done.
  match goal with H : loops s !! _ = Some _ |- _ => rewrite EL, lookup_singleton_eq in H; injection H as <- end. done.
Qed.

Lemma demo_loops : NoDup [1%positive].
Proof. apply NoDup_singleton. Qed.

Lemma pool_safe_witness :
  allowed (demo_state 11) (Cancel 1 2) = true /\ (forall why, perform (Cancel 1 2) (demo_state 11) <> Fault why).
Proof.
  split; [vm_compute; reflexivity|].
  refine (proj1 (pool_safe 1 [1%positive] (demo_state 11) (Cancel 1 2) demo_loops _ _)).
  - apply demo_reach. eexists. vm_compute. reflexivity.
  - vm_compute. reflexivity.
Defined.

Lemma pool_refines_witness :
  events (demo_state 24) = [EvSubmit 1; EvSubmit 2; EvCancelled 2] /\
  exists St, run_spec (events (demo_state 24)) = Some St.
Proof.
  split; [vm_compute; reflexivity|].
  destruct (pool_refines 1 [1%positive] (demo_state 24) demo_loops) as (St & HS & _).
  - apply demo_reach. eexists. vm_compute. reflexivity.
  - by exists St.
Defined.

Lemma pool_comes_to_rest_witness :
  events (demo_state 41) = [EvSubmit 1; EvSubmit 2; EvCancelled 2; EvRan 1; EvDone 2 UV_ECANCELED; EvDone 1 0] /\
  at_rest (demo_state 41) /\ run_spec (events (demo_state 41)) = Some ∅.
Proof.
  split_and!; [vm_compute; reflexivity | apply demo_rests |].
  destruct (pool_comes_to_rest 1 [1%positive] (demo_state 41) demo_loops) as [_ HR].
  - lia.
  - apply demo_reach. eexists. vm_compute. reflexivity.
  - specialize (HR (demo_state 41) ltac:(reflexivity) demo_rests).
    replace (exiting (demo_state 41)) with false in HR by (vm_compute; reflexivity). apply HR.
Defined.

(** ** A request that was cancelled and is done

    The pointers of a delivered request and [uv__cancelled] stay in it, so [uv_cancel] takes
    it for one that waits: it answers 0, writes to the queue that [uv__work_done] had on its
    stack, and the request is delivered again. *)

Fixpoint run_any (acts : list action) s : option pool :=
  match acts with
  | [] => Some s
  | a :: acts => match perform a s with Ret _ s' => run_any acts s' | _ => None end
  end.

Definition cancel_twice : list action :=
  let l n := repeat (Step (TLoop 1) 1) n in
  [QueueWork 1 1 true] ++ l 3 ++ [Cancel 1 1] ++ l 12 ++ [Poll 1] ++ l 5 ++ [Cancel 1 1] ++ l 12 ++
  [Return 1] ++ l 1 ++ [Poll 1] ++ l 4.

Definition twice_state : pool := default (init_pool 1 []) (run_any cancel_twice (init_pool 1 [1%positive])).

Lemma cancel_done_request :
  run_any cancel_twice (init_pool 1 [1%positive]) = Some twice_state /\
  events twice_state = [EvSubmit 1; EvCancelled 1; EvDone 1 UV_ECANCELED; EvCancelled 1] /\
  run_spec (events twice_state) = None /\ perform (Step (TLoop 1) 1) twice_state = Fault AssertFail.
Proof. refine (conj _ (conj _ (conj _ _))); vm_compute; reflexivity. Qed.
