(* ===== verification/UvInet.v ===== *)
(** * Internet addresses as text ([core/libuv/src/inet.c])

    [uv_inet_ntop] prints the bytes of an IPv4 or IPv6 address, [uv_inet_pton]
    reads them back, and [uv_ip4_addr], [uv_ip6_addr] of [uv-common.c] fill in
    the socket address a Lua program binds or connects to.

    A C string is the list of its characters without the NUL.  A function that
    returns an error code gives [inl], one that returns 0 gives [inr] of what it
    wrote to [dst]; [None] is an access outside a buffer, or of bytes that were
    never written. *)

From Stdlib Require Import ZArith Lia String Ascii.
From stdpp Require Import base option list.
From S2P Require Import Prelude UvLoop.

Local Open Scope Z_scope.

Definition cstring : Type := list ascii.
Definition str (s : string) : cstring := list_ascii_of_string s.

Definition res (A : Type) : Type := option (Z + A).
Definition ok {A} (a : A) : res A := Some (inr a).
Definition error {A} (e : Z) : res A := Some (inl e).
Definition rbind {A B} (m : res A) (k : A -> res B) : res B :=
  match m with
  | Some (inr a) => k a
  | Some (inl e) => Some (inl e)
  | None => None
  end.
Definition orUB {A} (o : option A) : res A := inr <$> o.

Declare Scope res_scope.
Notation "x <- m ;; k" := (rbind m (fun x => k)) (at level 100, m at next level, right associativity) : res_scope.
Local Open Scope res_scope.

Definition AF_INET : Z := 2.
Definition AF_INET6 : Z := 10.
Definition UV_ENOSPC : Z := -28.
Definition UV_EAFNOSUPPORT : Z := -97.
Definition UV__INET_ADDRSTRLEN : nat := 16.
Definition UV__INET6_ADDRSTRLEN : nat := 46.

(** ** The C library's functions on strings *)

(** [strchr(s, c)] as an index, for a character that is not NUL. *)
Fixpoint strchr (s : cstring) (c : ascii) : option nat :=
  match s with
  | [] => None
  | c' :: s => if decide (c' = c) then Some 0%nat else S <$> strchr s c
  end.

Definition digits : cstring := str "0123456789".
Definition xdigits_l : cstring := str "0123456789abcdef".
Definition xdigits_u : cstring := str "0123456789ABCDEF".

(** The character of a digit. *)
Definition digit_char (d : Z) : ascii := default zero (xdigits_l !! Z.to_nat d).

(** What ["%u"] ([b] is 10) and ["%x"] ([b] is 16) print for [n]: the digits of
    [n / b] unless it is 0, then the last one.  A 32-bit number has at most ten
    digits. *)
Fixpoint print_digits (fuel : nat) (b n : Z) : cstring :=
  match fuel with
  | O => []
  | S fuel => (if n <? b then [] else print_digits fuel b (n / b)) ++ [digit_char (n mod b)]
  end.
Definition printf_digits : nat := 10.
Definition print_u (n : Z) : cstring := print_digits printf_digits 10 n.
Definition print_x (n : Z) : cstring := print_digits printf_digits 16 n.

(** ** Printing *)

Definition dot : ascii := ".".
Definition colon : ascii := ":".
Definition percent : ascii := "%".

(** [inet_ntop4]: [snprintf] into [tmp], whose length excludes the NUL. *)
Definition inet_ntop4 (src : list Z) (size : Z) : res cstring :=
  b0 <- orUB (src !! 0%nat);; b1 <- orUB (src !! 1%nat);;
  b2 <- orUB (src !! 2%nat);; b3 <- orUB (src !! 3%nat);;
  let text := print_u b0 ++ dot :: print_u b1 ++ dot :: print_u b2 ++ dot :: print_u b3 in
  let tmp := take (UV__INET_ADDRSTRLEN - 1) text in
  let l := Z.of_nat (length text) in
  if (l <=? 0) || (size <=? l) then error UV_ENOSPC else ok tmp.

(** The bytes of [src] two by two. *)
Fixpoint words_loop (i n : nat) (src : list Z) (words : list Z) : res (list Z) :=
  match n with
  | O => ok words
  | S n =>
      b <- orUB (src !! i);;
      words_loop (S i) n src
        (alter (fun w => Z.lor w (Z.shiftl b (Z.shiftl (1 - Z.of_nat i mod 2) 3))) (i / 2)%nat words)
  end.
Definition words_of (src : list Z) : res (list Z) := words_loop 0 16 src (replicate 8 0).

(** A run of zero words; [base] is -1 when there is none. *)
Record run := Run { base : Z; len : Z }.

Definition longer (best cur : run) : run :=
  if (base best =? -1) || (len best <? len cur) then cur else best.

Fixpoint best_loop (i : Z) (words : list Z) (best cur : run) : run * run :=
  match words with
  | [] => (best, cur)
  | w :: words =>
      if w =? 0 then
        best_loop (i + 1) words best
          (if base cur =? -1 then Run i 1 else Run (base cur) (len cur + 1))
      else if negb (base cur =? -1) then
        best_loop (i + 1) words (longer best cur) (Run (-1) (len cur))
      else best_loop (i + 1) words best cur
  end.

Definition best_run (words : list Z) : run :=
  let '(best, cur) := best_loop 0 words (Run (-1) 0) (Run (-1) 0) in
  let best := if negb (base cur =? -1) then longer best cur else best in
  if negb (base best =? -1) && (len best <? 2) then Run (-1) (len best) else best.

(** Writing at [tp] in [tmp], with a NUL after the text when [nul]. *)
Definition emit (nul : bool) (t s : cstring) : res cstring :=
  if decide (length t + length s + (if nul then 1 else 0) <= UV__INET6_ADDRSTRLEN)%nat
  then ok (t ++ s) else None.

Definition in_run (best : run) (i : Z) : bool :=
  negb (base best =? -1) && (base best <=? i) && (i <? base best + len best).

(** Is this address an encapsulated IPv4? *)
Definition encapsulated (words : list Z) (best : run) (i : Z) : bool :=
  (i =? 6) && (base best =? 0) &&
  ((len best =? 6) || ((len best =? 7) && negb (bool_decide (words !! 7%nat = Some 1)))
   || ((len best =? 5) && bool_decide (words !! 5%nat = Some 0xffff))).

Fixpoint format_loop (idx : list nat) (src words : list Z) (best : run) (t : cstring) : res cstring :=
  match idx with
  | [] => ok t
  | i :: idx =>
      let z := Z.of_nat i in
      if in_run best z then
        if z =? base best then
          t <- emit false t [colon];; format_loop idx src words best t
        else format_loop idx src words best t
      else
        t <- (if z =? 0 then ok t else emit false t [colon]);;
        if encapsulated words best z then
          v4 <- inet_ntop4 (drop 12 src) (Z.of_nat (UV__INET6_ADDRSTRLEN - length t));;
          emit true t v4
        else
          w <- orUB (words !! i);;
          t <- emit true t (print_x w);; format_loop idx src words best t
  end.

Definition inet_ntop6 (src : list Z) (size : Z) : res cstring :=
  words <- words_of src;;
  let best := best_run words in
  t <- format_loop (seq 0 8) src words best [];;
  t <- (if negb (base best =? -1) && (base best + len best =? 8) then emit false t [colon] else ok t);;
  _ <- emit true t [];;
  if size <? Z.of_nat (length t) + 1 then error UV_ENOSPC else ok t.

Definition uv_inet_ntop (af : Z) (src : list Z) (size : Z) : res cstring :=
  if af =? AF_INET then inet_ntop4 src size
  else if af =? AF_INET6 then inet_ntop6 src size
  else error UV_EAFNOSUPPORT.

(** ** Reading *)

(** The variables of [inet_pton4]; [tmp] holds the bytes written so far, [*tp]
    is the last one. *)
Record pton4 := Pton4 { saw_digit : bool; octets : Z; tmp4 : list Z }.

Definition set_last (l : list Z) (b : Z) : list Z := take (length l - 1) l ++ [b].

Definition pton4_step (ch : ascii) (st : pton4) : res pton4 :=
  match strchr digits ch with
  | Some d =>
      cur <- orUB (last (tmp4 st));;
      let nw := cur * 10 + Z.of_nat d in
      if saw_digit st && (cur =? 0) then error UV_EINVAL
      else if 255 <? nw then error UV_EINVAL
      else
        let tmp := set_last (tmp4 st) nw in
        if negb (saw_digit st) then
          if 4 <? octets st + 1 then error UV_EINVAL
          else ok (Pton4 true (octets st + 1) tmp)
        else ok (Pton4 (saw_digit st) (octets st) tmp)
  | None =>
      if decide (ch = dot) then
        if saw_digit st then
          if octets st =? 4 then error UV_EINVAL
          else if decide (length (tmp4 st) < 4)%nat
          then ok (Pton4 false (octets st) (tmp4 st ++ [0])) else None
        else error UV_EINVAL
      else error UV_EINVAL
  end.

Fixpoint pton4_loop (src : cstring) (st : pton4) : res pton4 :=
  match src with
  | [] => ok st
  | ch :: src => st <- pton4_step ch st;; pton4_loop src st
  end.

Definition inet_pton4 (src : cstring) : res (list Z) :=
  st <- pton4_loop src (Pton4 false 0 [0]);;
  if octets st <? 4 then error UV_EINVAL
  else if decide (length (tmp4 st) = 4%nat) then ok (tmp4 st) else None.

(** The variables of [inet_pton6], with [tp] and [colonp] as indices of [tmp]. *)
Record pton6 := Pton6 {
  tmp6 : list Z; tp : nat; colonp : option nat; seen_xdigits : Z; val : Z; curtok : cstring
}.

Definition xdigit (ch : ascii) : option nat :=
  match strchr xdigits_l ch with
  | Some d => Some d
  | None => strchr xdigits_u ch
  end.

(** Storing at [tp] and advancing it. *)
Fixpoint store_bytes (bs : list Z) (buf : list Z) (tp : nat) : res (list Z * nat) :=
  match bs with
  | [] => ok (buf, tp)
  | b :: bs =>
      if decide (tp < length buf)%nat then store_bytes bs (<[tp := b]> buf) (S tp) else None
  end.

(** [*tp++ = (unsigned char) (val >> 8) & 0xff; *tp++ = (unsigned char) val & 0xff] *)
Definition word_bytes (val : Z) : list Z :=
  [Z.land (wrap_u 8 (Z.shiftr val 8)) 0xff; Z.land (wrap_u 8 val) 0xff].

Definition store_word (st : pton6) : res (list Z * nat) :=
  if decide (16 < tp st + 2)%nat then error UV_EINVAL
  else store_bytes (word_bytes (val st)) (tmp6 st) (tp st).

Fixpoint pton6_loop (src : cstring) (st : pton6) : res pton6 :=
  match src with
  | [] => ok st
  | ch :: src =>
      match xdigit ch with
      | Some d =>
          let val := Z.lor (wrap_u 32 (Z.shiftl (val st) 4)) (Z.of_nat d) in
          let seen := seen_xdigits st + 1 in
          if 4 <? seen then error UV_EINVAL
          else pton6_loop src (Pton6 (tmp6 st) (tp st) (colonp st) seen val (curtok st))
      | None =>
          if decide (ch = colon) then
            if seen_xdigits st =? 0 then
              match colonp st with
              | Some _ => error UV_EINVAL
              | None => pton6_loop src (Pton6 (tmp6 st) (tp st) (Some (tp st)) (seen_xdigits st) (val st) src)
              end
            else match src with
            | [] => error UV_EINVAL
            | _ =>
                p <- store_word st;;
                pton6_loop src (Pton6 p.1 p.2 (colonp st) 0 0 src)
            end
          else if decide (ch = dot /\ (tp st + 4 <= 16)%nat) then
            match inet_pton4 (curtok st) with
            | None => None
            | Some (inl _) => error UV_EINVAL
            | Some (inr bs) =>
                p <- store_bytes bs (tmp6 st) (tp st);;
                ok (Pton6 p.1 p.2 (colonp st) 0 (val st) (curtok st))
            end
          else error UV_EINVAL
      end
  end.

(** The shift of the [n] bytes after [colonp] to the end, by hand. *)
Fixpoint shift_loop (idx : list nat) (c n : nat) (buf : list Z) : res (list Z) :=
  match idx with
  | [] => ok buf
  | i :: idx =>
      b <- orUB (buf !! (c + (n - i))%nat);;
      if decide (i <= 16 /\ i <= n)%nat
      then shift_loop idx c n (<[(c + (n - i))%nat := 0]> (<[(16 - i)%nat := b]> buf)) else None
  end.

Definition inet_pton6 (src : cstring) : res (list Z) :=
  src <- match src with
         | c :: src' =>
             if decide (c = colon)
             then if decide (head src' = Some colon) then ok src' else error UV_EINVAL
             else ok src
         | [] => ok src
         end;;
  st <- pton6_loop src (Pton6 (replicate 16 0) 0 None 0 0 src);;
  p <- (if seen_xdigits st =? 0 then ok (tmp6 st, tp st) else store_word st);;
  p <- match colonp st with
       | None => ok p
       | Some c =>
           if decide (p.2 = 16%nat) then error UV_EINVAL
           else buf <- shift_loop (seq 1 (p.2 - c)) c (p.2 - c) p.1;; ok (buf, 16%nat)
       end;;
  if decide (p.2 = 16%nat) then ok p.1 else error UV_EINVAL.

(** [src] is [None] for a null pointer; [dst_null] tells whether [dst] is. *)
Definition uv_inet_pton (af : Z) (src : option cstring) (dst_null : bool) : res (list Z) :=
  match src with
  | None => error UV_EINVAL
  | Some src =>
      if dst_null then error UV_EINVAL
      else if af =? AF_INET then inet_pton4 src
      else if af =? AF_INET6 then
        match strchr src percent with
        | Some len =>
            if decide (UV__INET6_ADDRSTRLEN - 1 < len)%nat then error UV_EINVAL
            else inet_pton6 (take len src)
        | None => inet_pton6 src
        end
      else error UV_EAFNOSUPPORT
  end.

(** ** Socket addresses *)

Record sockaddr := Sockaddr {
  sin_family : Z; sin_port : Z; sin_addr : list Z; sin6_scope_id : Z
}.

(** [htons]: the bytes of a 16-bit port swapped, on a little-endian machine. *)
Definition htons (port : Z) : Z :=
  let p := wrap_u 16 port in
  Z.lor (Z.shiftl (Z.land p 0xff) 8) (Z.shiftr p 8).

(** The code returned and the address; on an error its bytes stay 0. *)
Definition addr_of (r : res (list Z)) (n : nat) (a : list Z -> sockaddr) : option (Z * sockaddr) :=
  r ← r; Some (match r with inr bs => (0, a bs) | inl e => (e, a (replicate n 0)) end).

Definition uv_ip4_addr (ip : cstring) (port : Z) : option (Z * sockaddr) :=
  addr_of (uv_inet_pton AF_INET (Some ip) false) 4 (fun bs => Sockaddr AF_INET (htons port) bs 0).

(** [if_nametoindex] is the system's table of interfaces. *)
Definition uv_ip6_addr (if_nametoindex : cstring -> Z) (ip : cstring) (port : Z) : option (Z * sockaddr) :=
  let '(ip, scope) :=
    match strchr ip percent with
    | Some address_part_size =>
        let n := if decide (40 <= address_part_size)%nat then 39%nat else address_part_size in
        (take n ip : cstring, if_nametoindex (drop (S address_part_size) ip))
    | None => (ip, 0)
    end in
  addr_of (uv_inet_pton AF_INET6 (Some ip) false) 16
    (fun bs => Sockaddr AF_INET6 (htons port) bs scope).

Definition uv_ip4_name (src : sockaddr) (size : Z) : res cstring :=
  uv_inet_ntop AF_INET (sin_addr src) size.
Definition uv_ip6_name (src : sockaddr) (size : Z) : res cstring :=
  uv_inet_ntop AF_INET6 (sin_addr src) size.
