(* ===== verification/UvInet4.v ===== *)
(** * IPv4 addresses: printing, and what the reader accepts

    The texts of 32-bit numbers and the runs of [inet_pton4] over them; the
    properties are in [UvInetProps]. *)

From Stdlib Require Import ZArith Lia String Ascii.
From stdpp Require Import base option list.
From S2P Require Import Prelude UvLoop UvInet.

Local Open Scope Z_scope.
Local Open Scope res_scope.

(** ** Digits *)

Lemma strchr_Some s c i : strchr s c = Some i -> s !! i = Some c.
Proof.
  revert i. induction s as [|c' s IH]; simpl; [done|]. intros i. case_decide as Hc; [by intros [= <-]; rewrite Hc|].
  destruct (strchr s c) as [j|]; simpl; [|done]. intros [= <-]. by apply IH.
Qed.

Lemma strchr_lt s c i : strchr s c = Some i -> (i < length s)%nat.
Proof. intros H%strchr_Some. by eapply lookup_lt_Some. Qed.

(** A fact about the digits below [n], digit by digit. *)
Ltac each_digit n d :=
  let k := fresh "k" in
  rewrite <- (Z2Nat.id d) by lia; assert (Z.to_nat d < n)%nat by lia; generalize dependent (Z.to_nat d);
  intros k; intros; repeat (destruct k as [|k]; [done|]); lia.

Lemma strchr_digit d : 0 <= d < 10 -> strchr digits (digit_char d) = Some (Z.to_nat d).
Proof. intros Hd. each_digit 10%nat d. Qed.

Lemma xdigit_digit d : 0 <= d < 16 -> xdigit (digit_char d) = Some (Z.to_nat d).
Proof. intros Hd. each_digit 16%nat d. Qed.

Lemma strchr_digits_char ch d : strchr digits ch = Some d -> ch = digit_char (Z.of_nat d) /\ (d < 10)%nat.
Proof.
  intros H. pose proof (strchr_lt _ _ _ H) as Hd. apply strchr_Some in H. change (length digits) with 10%nat in Hd.
  split; [|done]. unfold digit_char. rewrite Nat2Z.id.
  do 10 (destruct d as [|d]; [by injection H as <-|]). lia.
Qed.

(** ** Printed numbers *)

Lemma print_digits_more fuel b n : 2 <= b -> 0 <= n < b ^ Z.of_nat (S fuel) ->
  print_digits (S (S fuel)) b n = print_digits (S fuel) b n.
Proof.
  intros Hb. revert n. induction fuel as [|fuel IH]; intros n Hn.
  - cbn [print_digits]. rewrite (proj2 (Z.ltb_lt n b)); [done|]. change (Z.of_nat 1) with 1 in Hn. lia.
  - change (print_digits (S (S (S fuel))) b n) with
      ((if n <? b then [] else print_digits (S (S fuel)) b (n / b)) ++ [digit_char (n mod b)]).
    rewrite IH; [done|]. rewrite Nat2Z.inj_succ, Z.pow_succ_r in Hn by lia.
    split; [by apply Z.div_pos; lia|]. apply Z.div_lt_upper_bound; lia.
Qed.

(** The text of a number ends with its last digit. *)
Lemma print_eq b n : 2 <= b -> 0 <= n < b ^ 10 ->
  print_digits printf_digits b n =
  (if n <? b then [] else print_digits printf_digits b (n / b)) ++ [digit_char (n mod b)].
Proof.
  intros Hb Hn. unfold printf_digits. rewrite <- (print_digits_more 9 b n) at 1 by done. done.
Qed.

Lemma print_one b d : 2 <= b -> 0 <= d < b -> print_digits printf_digits b d = [digit_char d].
Proof.
  intros Hb Hd. rewrite print_eq; [|done|].
  - rewrite (proj2 (Z.ltb_lt d b)) by lia. by rewrite Z.mod_small.
  - split; [lia|]. apply Z.lt_le_trans with (b ^ 1); [lia|]. apply Z.pow_le_mono_r; lia.
Qed.

Lemma print_snoc b c d : 2 <= b -> 0 < c -> 0 <= d < b -> c * b + d < b ^ 10 ->
  print_digits printf_digits b (c * b + d) = print_digits printf_digits b c ++ [digit_char d].
Proof.
  intros Hb Hc Hd Hn. rewrite print_eq; [|done|nia].
  rewrite (proj2 (Z.ltb_ge (c * b + d) b)) by nia.
  rewrite Z.div_add_l, Z.div_small, Z.add_0_r by lia.
  by rewrite (Z.add_comm (c * b)), Z.mod_add, Z.mod_small by lia.
Qed.

(** Induction on the digits of a number. *)
Lemma digits_ind b (P : Z -> Prop) : 2 <= b ->
  (forall d, 0 <= d < b -> P d) ->
  (forall c d, 0 < c -> 0 <= d < b -> P c -> P (c * b + d)) ->
  forall n, 0 <= n -> P n.
Proof.
  intros Hb H1 H2 n Hn. revert Hn. pattern n. apply (well_founded_ind (Z.lt_wf 0)). clear n.
  intros n IH Hn. destruct (decide (n < b)); [by apply H1|].
  rewrite (Z.div_mod n b), (Z.mul_comm b) by lia.
  assert (0 < n / b < n) as Hq by (split; [apply Z.div_str_pos; lia|apply Z.div_lt; lia]).
  apply H2; [lia|apply Z.mod_pos_bound; lia|]. apply IH; lia.
Qed.

Lemma print_length b k n : 2 <= b -> 0 <= n < b ^ Z.of_nat k -> (1 <= k <= 10)%nat ->
  (1 <= length (print_digits printf_digits b n) <= k)%nat.
Proof.
  intros Hb Hn Hk. assert (b ^ Z.of_nat k <= b ^ 10) as Hle by (apply Z.pow_le_mono_r; lia).
  destruct Hn as [Hn Hnk]. revert k Hnk Hk Hle. pattern n. apply (digits_ind b); [done| | |done]; clear n Hn.
  - intros d Hd k _ Hk _. rewrite print_one by done. simpl. lia.
  - intros c d Hc Hd IH k Hn Hk Hle. rewrite print_snoc, length_app by lia. cbn [length].
    destruct k as [|k]; [lia|]. rewrite Nat2Z.inj_succ, Z.pow_succ_r in Hn by lia.
    assert (c < b ^ Z.of_nat k) by (clear IH Hle; nia).
    destruct k as [|k]; [change (b ^ Z.of_nat 0) with 1 in *; lia|].
    destruct (IH (S k)); [done|lia|apply Z.pow_le_mono_r; lia|lia].
Qed.

(** ** Dotted addresses *)

(** The [n] bytes of an address. *)
Definition address (n : nat) (bs : list Z) : Prop := length bs = n /\ Forall is_byte bs.

Fixpoint dotted (bs : list Z) : cstring :=
  match bs with
  | [] => []
  | [b] => print_u b
  | b :: bs => print_u b ++ dot :: dotted bs
  end.

Lemma dotted_snoc bs b : bs <> [] -> dotted (bs ++ [b]) = dotted bs ++ dot :: print_u b.
Proof.
  induction bs as [|b1 [|b2 bs] IH]; [done|done|]. intros _.
  change (dotted ((b1 :: b2 :: bs) ++ [b])) with (print_u b1 ++ dot :: dotted ((b2 :: bs) ++ [b])).
  rewrite IH by done. change (dotted (b1 :: b2 :: bs)) with (print_u b1 ++ dot :: dotted (b2 :: bs)).
  by rewrite <- app_assoc.
Qed.

Lemma print_u_length b : is_byte b -> (1 <= length (print_u b) <= 3)%nat.
Proof. intros []. apply print_length; [lia|change (10 ^ Z.of_nat 3) with 1000; lia|lia]. Qed.

Lemma address4 bs : address 4 bs -> exists b0 b1 b2 b3, bs = [b0; b1; b2; b3] /\
  is_byte b0 /\ is_byte b1 /\ is_byte b2 /\ is_byte b3.
Proof.
  intros [Hl Hb]. do 4 (destruct bs as [|? bs]; [done|]). destruct bs; [|done].
  repeat (apply Forall_cons in Hb as [? Hb]). by do 4 eexists.
Qed.

Lemma dotted_length bs : address 4 bs -> (7 <= length (dotted bs) <= 15)%nat.
Proof.
  intros (b0 & b1 & b2 & b3 & -> & H0 & H1 & H2 & H3)%address4.
  apply print_u_length in H0, H1, H2, H3. cbn [dotted].
  repeat (rewrite length_app; cbn [length]). lia.
Qed.

(** [inet_ntop4] prints the dotted address when there is room for it. *)
Lemma inet_ntop4_run bs size : address 4 bs ->
  inet_ntop4 bs size =
  if Z.of_nat (length (dotted bs)) <? size then ok (dotted bs) else error UV_ENOSPC.
Proof.
  intros Ha. pose proof (dotted_length bs Ha) as Hl.
  apply address4 in Ha as (b0 & b1 & b2 & b3 & -> & _).
  unfold inet_ntop4. cbn [lookup list_lookup orUB fmap option_fmap option_map rbind ok].
  change (print_u b0 ++ dot :: print_u b1 ++ dot :: print_u b2 ++ dot :: print_u b3)
    with (dotted [b0; b1; b2; b3]). set (t := dotted _) in *.
  rewrite take_ge by (change (UV__INET_ADDRSTRLEN - 1)%nat with 15%nat; lia).
  rewrite (proj2 (Z.leb_gt _ 0)) by lia. cbn [orb]. rewrite Z.leb_antisym.
  by destruct (Z.of_nat (length t) <? size).
Qed.

(** ** Reading *)

Lemma strchr_dot : strchr digits dot = None.
Proof. done. Qed.

Lemma set_last_snoc done cur b : set_last (done ++ [cur]) b = done ++ [b].
Proof.
  unfold set_last. rewrite length_app. simpl. rewrite Nat.add_sub. by rewrite take_app_length.
Qed.

Lemma step_digit saw k done cur d : 0 <= d < 10 -> (saw = true -> 0 < cur) -> cur * 10 + d <= 255 ->
  (saw = false -> k < 4) ->
  pton4_step (digit_char d) (Pton4 saw k (done ++ [cur])) =
  ok (Pton4 true (if saw then k else k + 1) (done ++ [cur * 10 + d])).
Proof.
  intros Hd Hc Hn Hk. unfold pton4_step. cbn [tmp4 saw_digit octets]. rewrite strchr_digit by done.
  rewrite last_snoc. cbn [orUB fmap option_fmap option_map rbind]. rewrite Z2Nat.id, set_last_snoc by lia.
  rewrite (proj2 (Z.ltb_ge 255 _)) by lia. destruct saw; cbn [andb negb].
  - by rewrite (proj2 (Z.eqb_neq cur 0)) by (specialize (Hc eq_refl); lia).
  - by rewrite (proj2 (Z.ltb_ge 4 _)) by (specialize (Hk eq_refl); lia).
Qed.

(** A printed byte is read as one octet. *)
Lemma loop_byte k done rest b : is_byte b -> k < 4 ->
  pton4_loop (print_u b ++ rest) (Pton4 false k (done ++ [0])) =
  pton4_loop rest (Pton4 true (k + 1) (done ++ [b])).
Proof.
  intros [Hb Hb'] Hk. revert Hb' rest. pattern b. apply (digits_ind 10); [lia| | |done]; clear b Hb.
  - intros d Hd _ rest. unfold print_u. rewrite print_one by lia. cbn [app pton4_loop].
    by rewrite step_digit by (done || lia).
  - intros c d Hc Hd IH Hb rest. unfold print_u in *. rewrite print_snoc, <- app_assoc by lia.
    rewrite IH by lia. cbn [app pton4_loop]. by rewrite step_digit by (done || lia).
Qed.

Lemma loop_dot k done rest cur : k <> 4 -> (length done < 3)%nat ->
  pton4_loop (dot :: rest) (Pton4 true k (done ++ [cur])) =
  pton4_loop rest (Pton4 false k ((done ++ [cur]) ++ [0])).
Proof.
  intros Hk Hl. cbn [pton4_loop]. unfold pton4_step. rewrite strchr_dot. cbn [saw_digit octets tmp4].
  rewrite decide_True by done. rewrite (proj2 (Z.eqb_neq k 4)) by done.
  rewrite decide_True; [done|]. rewrite length_app. simpl. lia.
Qed.

Lemma inet_pton4_dotted bs : address 4 bs -> inet_pton4 (dotted bs) = ok bs.
Proof.
  intros (b0 & b1 & b2 & b3 & -> & H0 & H1 & H2 & H3)%address4. unfold inet_pton4. cbn [dotted].
  rewrite (loop_byte 0 []) by done. rewrite (loop_dot 1 []) by (simpl; lia).
  rewrite (loop_byte 1 [b0]) by done. rewrite (loop_dot 2 [b0]) by (simpl; lia).
  rewrite (loop_byte 2 [b0; b1]) by done. rewrite (loop_dot 3 [b0; b1]) by (simpl; lia).
  rewrite <- (app_nil_r (print_u b3)). by rewrite (loop_byte 3 [b0; b1; b2]) by done.
Qed.

(** What [inet_pton4] has read, from the state it is in. *)
Definition has_read (p : cstring) (st : pton4) : Prop :=
  exists done cur, tmp4 st = done ++ [cur] /\ Forall is_byte done /\ is_byte cur /\
    (length done <= 3)%nat /\ octets st = Z.of_nat (length done) + (if saw_digit st then 1 else 0) /\
    if saw_digit st then p = dotted (done ++ [cur])
    else cur = 0 /\ p = match done with [] => [] | _ => dotted done ++ [dot] end.

Lemma has_read_digit p st d : has_read p st -> (d < 10)%nat ->
  pton4_step (digit_char (Z.of_nat d)) st = error UV_EINVAL \/
  exists st', pton4_step (digit_char (Z.of_nat d)) st = ok st' /\ has_read (p ++ [digit_char (Z.of_nat d)]) st'.
Proof.
  destruct st as [saw k tmp]. intros (done & cur & Ht & Hdone & Hcur & Hl & Hk & Hp) Hd.
  cbn [tmp4 saw_digit octets] in *. subst tmp. unfold is_byte in Hcur.
  destruct (decide ((saw = true -> 0 < cur) /\ cur * 10 + Z.of_nat d <= 255)) as [[Hc Hn]|Hbad].
  - right. rewrite step_digit; [|lia|done|done|intros ->; lia]. eexists. split; [done|].
    exists done, (cur * 10 + Z.of_nat d). cbn [tmp4 saw_digit octets].
    split_and!; [done|done|unfold is_byte; lia|done|destruct saw; lia|].
    destruct saw; [specialize (Hc eq_refl)|destruct Hp as [-> ->]].
    + subst p. destruct done as [|b done]; [cbn [app dotted]|rewrite !dotted_snoc, <- app_assoc by done; cbn [app]];
        unfold print_u; by rewrite print_snoc by lia.
    + destruct done as [|b done]; [cbn [app dotted]|rewrite dotted_snoc, <- app_assoc by done];
        cbn [app]; unfold print_u; by rewrite Z.mul_0_l, Z.add_0_l, (print_one 10 (Z.of_nat d)) by lia.
  - left. unfold pton4_step. cbn [tmp4 saw_digit octets]. rewrite strchr_digit, last_snoc by lia.
    cbn [orUB fmap option_fmap option_map rbind]. rewrite Nat2Z.id.
    destruct (saw && (cur =? 0)) eqn:E; [done|]. rewrite (proj2 (Z.ltb_lt 255 _)); [done|].
    apply Znot_ge_lt. intros Hge. apply Hbad. split; [|lia]. intros ->. cbn [andb] in E. lia.
Qed.

Lemma has_read_step p st ch : has_read p st ->
  pton4_step ch st = error UV_EINVAL \/ exists st', pton4_step ch st = ok st' /\ has_read (p ++ [ch]) st'.
Proof.
  intros Hr. destruct (strchr digits ch) as [d|] eqn:Hd.
  { apply strchr_digits_char in Hd as [-> Hd]. by apply has_read_digit. }
  destruct st as [saw k tmp]. destruct Hr as (done & cur & Ht & Hdone & Hcur & Hl & Hk & Hp).
  unfold pton4_step. rewrite Hd. cbn [tmp4 saw_digit octets] in *. subst tmp.
  destruct (decide (ch = dot)) as [->|]; [|by left]. destruct saw; [|by left].
  destruct (Z.eqb_spec k 4); [by left|]. right. rewrite decide_True by (rewrite length_app; simpl; lia).
  eexists. split; [done|]. exists (done ++ [cur]), 0. cbn [tmp4 saw_digit octets].
  rewrite length_app. simpl. split_and!; [done|by apply Forall_app; split; [|constructor]|done|lia|lia|done|].
  rewrite Hp. by destruct done.
Qed.

Lemma has_read_loop s : forall p st, has_read p st ->
  pton4_loop s st = error UV_EINVAL \/ exists st', pton4_loop s st = ok st' /\ has_read (p ++ s) st'.
Proof.
  induction s as [|ch s IH]; intros p st Hr; cbn [pton4_loop].
  { right. exists st. by rewrite app_nil_r. }
  destruct (has_read_step p st ch Hr) as [->|(st1 & -> & Hr1)]; [by left|]. cbn [rbind ok].
  destruct (IH _ _ Hr1) as [->|(st2 & -> & Hr2)]; [by left|right].
  exists st2. by rewrite <- app_assoc in Hr2.
Qed.

(** [inet_pton4] takes the dotted addresses and refuses every other text. *)
Lemma inet_pton4_cases s :
  (exists bs, address 4 bs /\ s = dotted bs /\ inet_pton4 s = ok bs) \/
  inet_pton4 s = error UV_EINVAL.
Proof.
  assert (has_read [] (Pton4 false 0 [0])) as H0 by (exists [], 0; split_and!; try done; simpl; lia).
  unfold inet_pton4. destruct (has_read_loop s _ _ H0) as [->|(st & -> & Hr)]; [by right|].
  cbn [rbind ok]. destruct st as [saw k tmp]. destruct Hr as (done & cur & Ht & Hdone & Hcur & Hl & Hk & Hp).
  cbn [tmp4 saw_digit octets app] in *. subst tmp. destruct (Z.ltb_spec k 4); [by right|left].
  destruct saw; [|lia]. exists (done ++ [cur]).
  assert (length (done ++ [cur]) = 4%nat) as Hlen by (rewrite length_app; simpl; lia).
  rewrite decide_True by done. split_and!; [|done|done]. split; [done|].
  apply Forall_app. split; [done|by constructor].
Qed.
