(* ===== verification/UvInet6.v ===== *)
(** * IPv6 addresses: what is printed, and how it is read

    The text [inet_ntop6] gives as a function of the words of the address and
    of the run of zeros it leaves out, and the runs of [inet_pton6] over such
    texts; the properties are in [UvInetProps]. *)

From Stdlib Require Import ZArith Lia String Ascii.
From stdpp Require Import base option list.
From S2P Require Import Prelude UvLoop UvInet UvInet4.

Local Open Scope Z_scope.
Local Open Scope res_scope.

(** ** Words *)

Definition is_word (w : Z) : Prop := 0 <= w < 65536.

Fixpoint pairs (src : list Z) : list Z :=
  match src with
  | b0 :: b1 :: src => b0 * 256 + b1 :: pairs src
  | _ => []
  end.

Definition bytes_of (ws : list Z) : list Z := flat_map (fun w => [w / 256; w mod 256]) ws.

Lemma pair_word b0 b1 : is_byte b1 -> Z.lor (Z.lor 0 (Z.shiftl b0 8)) (Z.shiftl b1 0) = b0 * 256 + b1.
Proof. intros H. rewrite Z.lor_0_l, Z.shiftl_0_r. apply (lor_add b0 b1 8); [done|]. unfold is_byte in H. simpl. lia. Qed.

Lemma pair_div b0 b1 : is_byte b1 -> (b0 * 256 + b1) / 256 = b0.
Proof. unfold is_byte. lia. Qed.

Lemma pair_mod b0 b1 : is_byte b1 -> (b0 * 256 + b1) mod 256 = b1.
Proof. unfold is_byte. lia. Qed.

Lemma address16 src : address 16 src -> exists b0 b1 b2 b3 b4 b5 b6 b7 b8 b9 ba bb bc bd be bf,
  src = [b0; b1; b2; b3; b4; b5; b6; b7; b8; b9; ba; bb; bc; bd; be; bf] /\ Forall is_byte src.
Proof.
  intros [Hl Hb]. do 16 (destruct src as [|? src]; [done|]). destruct src; [|done]. by do 16 eexists.
Qed.

Lemma words_of_run src : address 16 src -> words_of src = ok (pairs src).
Proof.
  intros (b0 & b1 & b2 & b3 & b4 & b5 & b6 & b7 & b8 & b9 & ba & bb & bc & bd & be & bf & -> & Hb)%address16.
  rewrite !Forall_cons in Hb. destruct_and!. cbn [pairs]. rewrite <- !pair_word by done. reflexivity.
Qed.

Lemma pairs_words src : address 16 src ->
  length (pairs src) = 8%nat /\ Forall is_word (pairs src) /\ bytes_of (pairs src) = src.
Proof.
  intros (b0 & b1 & b2 & b3 & b4 & b5 & b6 & b7 & b8 & b9 & ba & bb & bc & bd & be & bf & -> & Hb)%address16.
  rewrite !Forall_cons in Hb. destruct_and!. split; [done|]. split.
  - cbn [pairs]. rewrite !Forall_cons. unfold is_word, is_byte in *. split_and!; try lia. constructor.
  - unfold bytes_of. cbn [pairs flat_map app]. by rewrite !pair_div, !pair_mod.
Qed.

(** ** The run of zeros left out *)

Definition zero_run (words : list Z) (n : Z) (r : run) : Prop :=
  base r = -1 \/ (0 <= base r /\ 1 <= len r /\ base r + len r <= n /\
    forall i : nat, base r <= Z.of_nat i < base r + len r -> words !! i = Some 0).

Lemma zero_run_weaken words n m r : zero_run words n r -> n <= m -> zero_run words m r.
Proof. intros [?|(? & ? & ? & ?)] ?; [by left|right]. split_and!; (done || lia). Qed.

Lemma longer_run words n best cur : zero_run words n best -> zero_run words n cur ->
  zero_run words n (longer best cur).
Proof. unfold longer. intros. by case_match. Qed.

Lemma best_loop_runs rest : forall pre best cur, let words := pre ++ rest in
  zero_run words (Z.of_nat (length pre)) best -> zero_run words (Z.of_nat (length pre)) cur ->
  (base cur <> -1 -> base cur + len cur = Z.of_nat (length pre)) ->
  let '(best, cur) := best_loop (Z.of_nat (length pre)) rest best cur in
  zero_run words (Z.of_nat (length words)) best /\ zero_run words (Z.of_nat (length words)) cur.
Proof.
  induction rest as [|w rest IH]; intros pre best cur words Hb Hc Hend; cbn [best_loop].
  { unfold words in *. rewrite app_nil_r in Hb, Hc |- *. by split. }
  assert (words = (pre ++ [w]) ++ rest) as Hw by (unfold words; by rewrite <- app_assoc).
  assert (length (pre ++ [w]) = S (length pre)) as Hl by (rewrite length_app; simpl; lia).
  assert (Z.of_nat (length pre) + 1 = Z.of_nat (length (pre ++ [w]))) as -> by lia.
  specialize (IH (pre ++ [w])). cbv zeta in IH. rewrite <- Hw, Hl in IH.
  assert (zero_run words (Z.of_nat (S (length pre))) best) as Hb' by (eapply zero_run_weaken; [done|lia]).
  assert (zero_run words (Z.of_nat (S (length pre))) cur) as Hc' by (eapply zero_run_weaken; [done|lia]).
  rewrite Hl. destruct (Z.eqb_spec w 0) as [->|]; [|destruct (Z.eqb_spec (base cur) (-1)); cbn [negb]].
  - assert (words !! length pre = Some 0) as Hz by (unfold words; by apply list_lookup_middle).
    apply IH; [done| |]; destruct (Z.eqb_spec (base cur) (-1)); simpl; try lia.
    + right. simpl. split_and!; try lia. intros i Hi. by replace i with (length pre) by lia.
    + destruct Hc as [?|(? & ? & ? & Hzero)]; [done|]. specialize (Hend n). right. simpl. split_and!; try lia.
      intros i Hi. destruct (decide (i = length pre)) as [->|]; [done|]. apply Hzero. lia.
  - apply IH; [done|done|]. intros Hn. done.
  - apply IH; [by apply longer_run|by left|done].
Qed.

(** [best_run] is a run of at least two zeros, or none. *)
Lemma best_run_zeros words : let best := best_run words in
  base best = -1 \/ (2 <= len best /\ zero_run words (Z.of_nat (length words)) best /\ 0 <= base best).
Proof.
  unfold best_run. pose proof (best_loop_runs words [] (Run (-1) 0) (Run (-1) 0)) as H.
  cbv zeta in H. cbn [length app] in H. change (Z.of_nat 0) with 0 in H.
  destruct (best_loop 0 words _ _) as [best cur].
  destruct H as [Hb Hc]; [by left|by left|done|].
  set (b := if negb (base cur =? -1) then _ else _). assert (zero_run words (Z.of_nat (length words)) b) as Hr.
  { unfold b. case_match; [by apply longer_run|done]. }
  clearbody b. destruct (Z.eqb_spec (base b) (-1)); cbn [negb andb]; [by left|].
  destruct (Z.ltb_spec (len b) 2); [by left|right]. split; [done|]. split; [done|].
  destruct Hr as [|(? & _)]; [done|done].
Qed.

(** ** The text *)

(** The words with a colon before each. *)
Definition colon_words (ws : list Z) : cstring := flat_map (fun w => colon :: print_x w) ws.

(** The words separated by colons. *)
Definition join (ws : list Z) : cstring :=
  match ws with [] => [] | w :: ws => print_x w ++ colon_words ws end.

Lemma print_x_length w : is_word w -> (1 <= length (print_x w) <= 4)%nat.
Proof. intros []. apply print_length; [lia|change (16 ^ Z.of_nat 4) with 65536; lia|lia]. Qed.

Lemma join_cons w ws : ws <> [] -> join (w :: ws) = print_x w ++ colon :: join ws.
Proof. by destruct ws. Qed.

Lemma emit_ok nul t s : (length t + length s + 1 <= 46)%nat -> emit nul t s = ok (t ++ s).
Proof. intros. unfold emit. rewrite decide_True; [done|]. unfold UV__INET6_ADDRSTRLEN. by case_match; lia. Qed.

Section Format.
Context (src words : list Z) (best : run).
Hypothesis Hwords : Forall is_word words.

(** The text after the word of index [i]. *)
Definition put_word (t : cstring) (i : nat) (w : Z) : cstring :=
  (if (i =? 0)%nat then t else t ++ [colon]) ++ print_x w.

Lemma format_word i w idx t : words !! i = Some w -> in_run best (Z.of_nat i) = false ->
  encapsulated words best (Z.of_nat i) = false -> (length t <= 5 * i)%nat -> (i < 8)%nat ->
  format_loop (i :: idx) src words best t = format_loop idx src words best (put_word t i w) /\
  (length (put_word t i w) <= 5 * S i)%nat.
Proof.
  intros Hw Hr He Ht Hi. assert (is_word w) as Hw16 by (by eapply Forall_lookup_1 in Hwords).
  apply print_x_length in Hw16. unfold put_word. cbn [format_loop]. rewrite Hr, He, Hw.
  destruct (Nat.eqb_spec i 0) as [->|].
  - change (Z.of_nat 0 =? 0) with true. cbn [ok rbind orUB fmap option_fmap option_map]. rewrite emit_ok by lia.
    split; [done|]. rewrite length_app. lia.
  - rewrite (proj2 (Z.eqb_neq (Z.of_nat i) 0)) by lia. rewrite emit_ok by (simpl; lia).
    cbn [ok rbind orUB fmap option_fmap option_map].
    rewrite emit_ok by (rewrite length_app; simpl; lia). split; [done|]. rewrite !length_app. simpl. lia.
Qed.

(** The words of indices [i .. i + n - 1], none of them special. *)
Lemma format_words n : forall i idx t, (i + n <= 8)%nat -> length words = 8%nat -> (i <> 0)%nat ->
  (forall j, (i <= j < i + n)%nat -> in_run best (Z.of_nat j) = false /\ encapsulated words best (Z.of_nat j) = false) ->
  (length t <= 5 * i)%nat ->
  format_loop (seq i n ++ idx) src words best t =
  format_loop idx src words best (t ++ colon_words (take n (drop i words))) /\
  (length (t ++ colon_words (take n (drop i words))) <= 5 * (i + n))%nat.
Proof.
  induction n as [|n IH]; intros i idx t Hn Hl Hi Hj Ht.
  { simpl. rewrite app_nil_r. split; [done|lia]. }
  destruct (lookup_lt_is_Some_2 words i) as [w Hw]; [lia|].
  destruct (Hj i ltac:(lia)) as [Hr He]. cbn [seq app].
  destruct (format_word i w (seq (S i) n ++ idx) t Hw Hr He Ht ltac:(lia)) as [-> Hl1].
  assert (put_word t i w ++ colon_words (take n (drop (S i) words)) =
    t ++ colon_words (take (S n) (drop i words))) as <-.
  { rewrite (drop_S words w i) by done. unfold put_word. rewrite (proj2 (Nat.eqb_neq i 0)) by done.
    cbn [take colon_words flat_map]. by rewrite <- !app_assoc. }
  replace (5 * (i + S n))%nat with (5 * (S i + n))%nat by lia.
  apply IH; [lia|done|lia|intros j ?; apply Hj; lia|done].
Qed.

(** The same from index 0, where no colon comes first. *)
Lemma format_first n idx : (n <= 8)%nat -> length words = 8%nat ->
  (forall j, (j < n)%nat -> in_run best (Z.of_nat j) = false /\ encapsulated words best (Z.of_nat j) = false) ->
  format_loop (seq 0 n ++ idx) src words best [] = format_loop idx src words best (join (take n words)) /\
  (length (join (take n words)) <= 5 * n)%nat.
Proof.
  intros Hn Hl Hj. destruct n as [|n]; [split; [done|simpl; lia]|].
  destruct (lookup_lt_is_Some_2 words 0) as [w Hw]; [lia|].
  assert (take (S n) words = w :: take n (drop 1 words)) as ->.
  { transitivity (take (S n) (drop 0 words)); [by rewrite drop_0|]. by rewrite (drop_S words w 0). }
  destruct (Hj 0%nat ltac:(lia)) as [Hr He]. cbn [seq app join].
  destruct (format_word 0 w (seq 1 n ++ idx) [] Hw Hr He ltac:(simpl; lia) ltac:(lia)) as [-> Hl1].
  apply (format_words n 1 idx (put_word [] 0 w)); [lia|done|done|intros j ?; apply Hj; lia|done].
Qed.

(** The indices of the run give one colon. *)
Lemma format_inside n : forall i idx t, (forall j, (i <= j < i + n)%nat -> in_run best (Z.of_nat j) = true /\ Z.of_nat j <> base best) ->
  format_loop (seq i n ++ idx) src words best t = format_loop idx src words best t.
Proof.
  induction n as [|n IH]; intros i idx t Hj; [done|]. cbn [seq app format_loop].
  destruct (Hj i ltac:(lia)) as [-> Hb]. rewrite (proj2 (Z.eqb_neq _ _)) by done. apply IH.
  intros j ?. apply Hj. lia.
Qed.

Lemma format_run b n idx t : base best = Z.of_nat b -> len best = Z.of_nat (S n) ->
  (length t <= 40)%nat ->
  format_loop (seq b (S n) ++ idx) src words best t = format_loop idx src words best (t ++ [colon]).
Proof.
  intros Hb Hn Ht. cbn [seq app format_loop]. unfold in_run at 1. rewrite Hb, Hn.
  rewrite (proj2 (Z.eqb_neq _ (-1))), (proj2 (Z.leb_le _ _)), (proj2 (Z.ltb_lt _ _)) by lia. cbn [negb andb].
  rewrite Z.eqb_refl, emit_ok by (simpl; lia). cbn [ok rbind]. apply format_inside.
  intros j Hj. unfold in_run. rewrite Hb, Hn.
  by rewrite (proj2 (Z.eqb_neq _ (-1))), (proj2 (Z.leb_le _ _)), (proj2 (Z.ltb_lt _ _)) by lia; split; [|lia].
Qed.
End Format.

(** The texts of the address [src]: all its words; the words around a run of
    zeros; or a dotted IPv4 address after a run of zeros. *)
Inductive text_of (src : list Z) : cstring -> Prop :=
  | text_full : text_of src (join (pairs src))
  | text_short P n S : pairs src = P ++ replicate n 0 ++ S -> (2 <= n)%nat ->
      text_of src (join P ++ colon :: colon :: join S)
  | text_v4 n S v4 : src = bytes_of (replicate n 0 ++ S) ++ v4 -> (n + length S = 6)%nat -> (2 <= n)%nat ->
      Forall is_word S -> address 4 v4 ->
      text_of src (colon :: colon :: flat_map (fun w => print_x w ++ [colon]) S ++ dotted v4).

Lemma colon_words_join ws : ws <> [] -> colon_words ws = colon :: join ws.
Proof. by destruct ws. Qed.

Lemma colon_words_length ws : Forall is_word ws -> (length (colon_words ws) <= 5 * length ws)%nat.
Proof.
  induction 1 as [|w ws Hw Hws IH]; [done|]. apply print_x_length in Hw.
  change (colon_words (w :: ws)) with (colon :: print_x w ++ colon_words ws).
  cbn [length]. rewrite length_app. lia.
Qed.

Lemma join_length ws : Forall is_word ws -> (length (join ws) <= 5 * length ws - 1)%nat.
Proof.
  destruct 1 as [|w ws Hw%print_x_length Hws%colon_words_length]; [done|]. cbn [join length].
  rewrite length_app. lia.
Qed.

(** Only the index 6 can start an encapsulated IPv4 address. *)
Lemma encapsulated_6 words best i : encapsulated words best i = true -> in_run best i = false ->
  i = 6 /\ base best = 0 /\ (len best = 6 \/ (len best = 5 /\ words !! 5%nat = Some 0xffff)).
Proof.
  unfold encapsulated, in_run. intros H Hr.
  destruct (bool_decide_reflect (words !! 5%nat = Some 0xffff)) as [H5|H5]; split_and!; lia || (try (left; lia)).
  - destruct (Z.eqb_spec (len best) 6); [by left|]. right. split; [lia|done].
Qed.

Lemma zeros_split (words : list Z) (b n : nat) :
  (forall i : nat, Z.of_nat b <= Z.of_nat i < Z.of_nat b + Z.of_nat n -> words !! i = Some 0) ->
  words = take b words ++ replicate n 0 ++ drop (b + n) words.
Proof.
  intros Hz. rewrite <- (take_drop b words) at 1. f_equal.
  rewrite <- (take_drop n (drop b words)) at 1. rewrite drop_drop. f_equal.
  apply list_eq. intros i. rewrite lookup_take. case_decide as Hi.
  - rewrite lookup_drop, Hz, lookup_replicate_2 by lia. done.
  - symmetry. apply lookup_ge_None_2. rewrite length_replicate. lia.
Qed.

Lemma colon_words_flat ws r :
  colon_words ws ++ colon :: r = colon :: flat_map (fun w => print_x w ++ [colon]) ws ++ r.
Proof.
  induction ws as [|w ws IH]; [done|]. change (colon_words (w :: ws)) with (colon :: print_x w ++ colon_words ws).
  cbn [flat_map app]. by rewrite <- !app_assoc, IH.
Qed.

Lemma bytes_of_app ws1 ws2 : bytes_of (ws1 ++ ws2) = bytes_of ws1 ++ bytes_of ws2.
Proof. apply flat_map_app. Qed.

Lemma bytes_of_words_length ws : length (bytes_of ws) = (2 * length ws)%nat.
Proof. induction ws as [|w ws IH]; [done|]. simpl in *. lia. Qed.

Section Ntop6.
Context (src : list Z) (Hsrc : address 16 src).

Let words : list Z := pairs src.
Let best : run := best_run words.

Lemma words_ok : length words = 8%nat /\ Forall is_word words /\ bytes_of words = src.
Proof. by apply pairs_words. Qed.

(** What the loop and the last colon give. *)
Definition formatted (t : cstring) : Prop :=
  exists t', format_loop (seq 0 8) src words best [] = ok t' /\
    (if negb (base best =? -1) && (base best + len best =? 8) then emit false t' [colon] else ok t') = ok t.

Lemma formatted_full : base best = -1 -> formatted (join words).
Proof.
  intros Hb. destruct words_ok as (Hl & Hw & _). exists (join words). rewrite Hb. split; [|done].
  change (seq 0 8) with (seq 0 8 ++ []).
  destruct (format_first src words best Hw 8 []) as [-> _]; [lia|done| |by rewrite <- Hl, firstn_all].
  intros j _. unfold in_run, encapsulated. rewrite Hb. by rewrite (proj2 (Z.eqb_neq (-1) 0)), andb_false_r.
Qed.

Context (b n : nat) (Hb : base best = Z.of_nat b) (Hn : len best = Z.of_nat n) (Hn2 : (2 <= n)%nat)
  (Hbn : (b + n <= 8)%nat).

Lemma before_run i : (i < b)%nat -> in_run best (Z.of_nat i) = false /\ encapsulated words best (Z.of_nat i) = false.
Proof.
  intros Hi. unfold in_run, encapsulated. rewrite Hb. split; [lia|].
  rewrite (proj2 (Z.eqb_neq (Z.of_nat b) 0)) by lia. by rewrite andb_false_r.
Qed.

Lemma past_run i : (b + n <= i)%nat -> in_run best (Z.of_nat i) = false.
Proof. intros Hi. unfold in_run. rewrite Hb, Hn. lia. Qed.

Lemma format_prefix k : (b + n + k <= 8)%nat ->
  exists t, format_loop (seq 0 b ++ seq b n ++ seq (b + n) k) src words best [] =
            format_loop (seq (b + n) k) src words best t /\
    t = join (take b words) ++ [colon] /\ (length t <= 5 * (b + n))%nat.
Proof.
  intros Hk. destruct words_ok as (Hl & Hw & _). eexists. split; [|split; [done|]].
  - destruct (format_first src words best Hw b (seq b n ++ seq (b + n) k)) as [-> Ht];
      [lia|done|by intros; apply before_run|].
    destruct n as [|n']; [lia|]. apply (format_run src words best b n'); [done|done|lia].
  - rewrite length_app. pose proof (join_length (take b words) (Forall_take _ _ _ Hw)) as H.
    rewrite length_take in H. simpl. lia.
Qed.

Lemma formatted_short : encapsulated words best 6 = false \/ in_run best 6 = true ->
  formatted (join (take b words) ++ colon :: colon :: join (drop (b + n) words)).
Proof.
  intros H6. destruct words_ok as (Hl & Hw & _).
  destruct (format_prefix (8 - (b + n)) ltac:(lia)) as (t & Hf & -> & Ht).
  assert (seq 0 b ++ seq b n ++ seq (b + n) (8 - (b + n)) = seq 0 8) as Hseq.
  { transitivity (seq 0 (b + (n + (8 - (b + n))))); [by rewrite !seq_app|f_equal; lia]. }
  rewrite Hseq in Hf. set (tl := drop (b + n) words).
  assert (length tl = 8 - (b + n))%nat as HS by (unfold tl; rewrite length_drop; lia).
  destruct (format_words src words best Hw (8 - (b + n)) (b + n) [] (join (take b words) ++ [colon])) as [Hf2 Ht2];
    [lia|done|lia| |done|].
  { intros j Hj. split; [by apply past_run; lia|].
    destruct (encapsulated words best (Z.of_nat j)) eqn:E; [|done].
    destruct (encapsulated_6 _ _ _ E) as [E6 _]; [by apply past_run; lia|]. rewrite E6 in E.
    destruct H6 as [H6|H6]; [congruence|]. rewrite <- E6, past_run in H6 by lia. done. }
  rewrite app_nil_r in Hf2. fold tl in Hf2, Ht2. rewrite (take_ge tl) in Hf2, Ht2 by lia.
  eexists. rewrite Hf, Hf2. cbn [format_loop]. split; [done|].
  rewrite Hb, Hn, (proj2 (Z.eqb_neq (Z.of_nat b) (-1))) by lia. cbn [negb andb].
  destruct (decide (tl = [])) as [E|E].
  - rewrite E in *. cbn [length] in HS. rewrite (proj2 (Z.eqb_eq _ 8)) by lia. cbn [colon_words flat_map join].
    rewrite app_nil_r, emit_ok, <- app_assoc; [done|]. cbn [length]. lia.
  - rewrite (proj2 (Z.eqb_neq _ 8)) by (destruct tl; [done|simpl in HS; lia]).
    by rewrite colon_words_join, <- app_assoc.
Qed.

(** The words between the zeros and the IPv4 address. *)
Let middle : list Z := take (6 - n) (drop n words).

Lemma formatted_v4 : b = 0%nat -> (n <= 6)%nat -> encapsulated words best 6 = true ->
  formatted (colon :: colon :: flat_map (fun w => print_x w ++ [colon]) middle ++ dotted (drop 12 src)).
Proof.
  intros Hb0 Hn6 He. destruct words_ok as (Hl & Hw & _). pose proof Hsrc as [Hsl Hsb].
  assert (seq 0 8 = seq 0 n ++ seq n (6 - n) ++ [6; 7])%nat as Hseq.
  { transitivity (seq 0 (n + ((6 - n) + 2))); [f_equal; lia|]. rewrite !seq_app.
    replace (0 + n + (6 - n))%nat with 6%nat by lia. done. }
  destruct (format_words src words best Hw (6 - n) n [6; 7]%nat [colon]) as [Hf2 Ht2];
    [lia|done|lia| |simpl; lia|].
  { intros j Hj. split; [by apply past_run; lia|].
    destruct (encapsulated words best (Z.of_nat j)) eqn:E; [|done].
    destruct (encapsulated_6 _ _ _ E) as [E6 _]; [by apply past_run; lia|lia]. }
  fold middle in Hf2, Ht2. set (t := [colon] ++ colon_words middle) in *.
  assert (address 4 (drop 12 src)) as Ha by (split; [by rewrite length_drop, Hsl|by apply Forall_drop]).
  pose proof (dotted_length _ Ha) as Hdl.
  assert (length t <= 21)%nat as Hlt.
  { unfold t. rewrite length_app. cbn [length].
    pose proof (colon_words_length middle (Forall_take _ _ _ (Forall_drop _ _ _ Hw))) as Hm.
    unfold middle in Hm at 2. rewrite length_take, length_drop in Hm. lia. }
  eexists. rewrite Hseq. assert (exists n', n = S n') as [n' En] by (exists (n - 1)%nat; lia).
  assert (format_loop (seq 0 n ++ seq n (6 - n) ++ [6; 7]%nat) src words best [] =
    ok ((t ++ [colon]) ++ dotted (drop 12 src))) as ->.
  { rewrite En at 1. rewrite (format_run src words best 0 n') by (congruence || (simpl; lia)).
    change ([] ++ [colon]) with [colon]. rewrite Hf2. cbn [format_loop]. change (Z.of_nat 6) with 6. rewrite He.
    assert (in_run best 6 = false) as -> by (apply (past_run 6); lia). change (6 =? 0) with false. cbn iota. rewrite emit_ok by (cbn [length]; lia).
    cbn [ok rbind]. rewrite inet_ntop4_run by done. rewrite (proj2 (Z.ltb_lt _ _)).
    - cbn [ok rbind]. apply emit_ok. rewrite length_app. cbn [length]. lia.
    - unfold UV__INET6_ADDRSTRLEN. rewrite length_app. cbn [length]. lia. }
  split; [done|]. rewrite Hb, Hn. rewrite (proj2 (Z.eqb_neq _ 8)) by lia. rewrite andb_false_r.
  unfold t. rewrite <- !app_assoc. cbn [app]. by rewrite colon_words_flat.
Qed.

Lemma text_of_v4 : (n <= 6)%nat -> (forall i : nat, Z.of_nat 0 <= Z.of_nat i < Z.of_nat 0 + Z.of_nat n -> words !! i = Some 0) ->
  text_of src (colon :: colon :: flat_map (fun w => print_x w ++ [colon]) middle ++ dotted (drop 12 src)).
Proof.
  intros Hn6 Hz. destruct words_ok as (Hl & Hw & Hby). pose proof Hsrc as [Hsl Hsb].
  apply (text_v4 src n).
  - assert (take 6 words = replicate n 0 ++ middle) as <-.
    { pose proof (zeros_split words 0 n Hz) as E. rewrite take_0 in E. cbn [app Nat.add] in E. unfold middle.
      rewrite E at 1. rewrite take_app_ge, length_replicate by (rewrite length_replicate; lia). done. }
    rewrite <- (take_drop 12 src) at 1. f_equal. rewrite <- Hby at 1.
    rewrite <- (take_drop 6 words) at 1. rewrite bytes_of_app, take_app_length'; [done|].
    rewrite bytes_of_words_length, length_take. lia.
  - unfold middle. rewrite length_take, length_drop. lia.
  - done.
  - by apply Forall_take, Forall_drop.
  - split; [by rewrite length_drop, Hsl|by apply Forall_drop].
Qed.
End Ntop6.

Lemma formatted_run src t size : address 16 src -> formatted src t -> (length t <= 45)%nat ->
  inet_ntop6 src size =
  if Z.of_nat (length t) <? size then ok t else error UV_ENOSPC.
Proof.
  intros Ha (t' & Hf & Hlast) Hl. unfold inet_ntop6. rewrite words_of_run by done. cbn [rbind ok].
  rewrite Hf. cbn [rbind ok]. rewrite Hlast. cbn [rbind ok]. rewrite emit_ok by (simpl; lia). cbn [rbind ok].
  destruct (Z.ltb_spec (Z.of_nat (length t)) size).
  - by rewrite (proj2 (Z.ltb_ge size _)) by lia.
  - by rewrite (proj2 (Z.ltb_lt size _)) by lia.
Qed.

(** Every address has one text, and [inet_ntop6] prints it when it fits. *)
Lemma inet_ntop6_text src : address 16 src -> exists t, text_of src t /\ (length t <= 39)%nat /\
  forall size, inet_ntop6 src size = if Z.of_nat (length t) <? size then ok t else error UV_ENOSPC.
Proof.
  intros Ha. destruct (pairs_words src Ha) as (Hl & Hw & _).
  assert (exists t, text_of src t /\ (length t <= 39)%nat /\ formatted src t) as (t & Ht & Hlen & Hf);
    [|exists t; split_and!; [done|done|intros size; apply formatted_run; [done|done|lia]]].
  destruct (best_run_zeros (pairs src)) as [Hb|(Hn2 & [Hb|(_ & _ & Hbn & Hz)] & Hb0)]; [|lia|].
  { exists (join (pairs src)). pose proof (join_length _ Hw). split_and!; [by apply text_full|lia|by apply formatted_full]. }
  set (b := Z.to_nat (base (best_run (pairs src)))). set (n := Z.to_nat (len (best_run (pairs src)))).
  assert (base (best_run (pairs src)) = Z.of_nat b) as Hb by lia.
  assert (len (best_run (pairs src)) = Z.of_nat n) as Hn by lia. rewrite Hb, Hn in Hz. clearbody b n.
  destruct (encapsulated (pairs src) (best_run (pairs src)) 6 && negb (in_run (best_run (pairs src)) 6)) eqn:E.
  - apply andb_true_iff in E as [E1 E2%negb_true_iff].
    destruct (encapsulated_6 _ _ _ E1 E2) as (_ & Eb & En).
    assert (b = 0%nat) as Eb0 by lia. rewrite Eb0 in Hz. eexists.
    split_and!; [apply (text_of_v4 src Ha b n); (done || lia)| |apply (formatted_v4 src Ha b n); (done || lia)].
    assert (address 4 (drop 12 src)) as Hd by (destruct Ha; split; [by rewrite length_drop; lia|by apply Forall_drop]).
    apply dotted_length in Hd. set (m := take _ _).
    assert (length m <= 1)%nat as Hm by (unfold m; rewrite length_take; lia).
    assert (Forall is_word m) as Hmw by by apply Forall_take, Forall_drop.
    assert (length (flat_map (fun w => print_x w ++ [colon]) m) <= 5)%nat.
    { destruct m as [|w [|]]; simpl in Hm; [simpl; lia| |lia]. apply Forall_cons in Hmw as [Hmw%print_x_length _].
      cbn [flat_map]. rewrite !length_app. cbn [length]. lia. }
    cbn [length]. rewrite length_app. lia.
  - eexists. split_and!; [| |apply (formatted_short src Ha b n); try (done || lia)].
    + apply (text_short src _ n); [|lia]. by apply zeros_split.
    + rewrite length_app. cbn [length].
      pose proof (join_length (take b (pairs src)) (Forall_take _ _ _ Hw)) as H1.
      pose proof (join_length (drop (b + n) (pairs src)) (Forall_drop _ _ _ Hw)) as H2.
      rewrite length_take in H1. rewrite length_drop in H2. lia.
    + apply andb_false_iff in E as [?|?%negb_false_iff]; [by left|by right].
Qed.

(** ** Reading *)

(** The state with the bytes [done] stored. *)
Definition stored (done : list Z) (c : option nat) (seen v : Z) (cur : cstring) : pton6 :=
  Pton6 (done ++ replicate (16 - length done) 0) (length done) c seen v cur.

Lemma xdigit_val v d : 0 <= v < 4096 -> 0 <= d < 16 ->
  Z.lor (wrap_u 32 (Z.shiftl v 4)) (Z.of_nat (Z.to_nat d)) = v * 16 + d.
Proof.
  intros Hv Hd. rewrite Z2Nat.id by lia. assert (Z.shiftl v 4 = v * 16) as E by (by rewrite Z.shiftl_mul_pow2).
  rewrite wrap_u_small by (rewrite E; change (2 ^ 32) with 4294967296; lia).
  by apply (lor_add v d 4).
Qed.

(** A printed word is read digit by digit. *)
Lemma read_word w : is_word w -> forall rest done c cur,
  pton6_loop (print_x w ++ rest) (stored done c 0 0 cur) =
  pton6_loop rest (stored done c (Z.of_nat (length (print_x w))) w cur).
Proof.
  intros [Hw Hw']. revert Hw'. pattern w. apply (digits_ind 16); [lia| | |done]; clear w Hw; unfold print_x.
  - intros d Hd _ rest done c cur. rewrite print_one by lia. cbn [app pton6_loop].
    rewrite xdigit_digit by done. cbn [stored tmp6 tp colonp seen_xdigits val curtok length].
    by rewrite xdigit_val by lia.
  - intros v d Hv Hd IH Hw rest done c cur. rewrite print_snoc by lia. rewrite <- app_assoc, IH by lia.
    assert (1 <= length (print_digits printf_digits 16 v) <= 3)%nat as Hl.
    { apply print_length; [lia|change (16 ^ Z.of_nat 3) with 4096; lia|lia]. }
    cbn [app pton6_loop]. rewrite xdigit_digit by done. cbn [stored tmp6 tp colonp seen_xdigits val curtok].
    rewrite xdigit_val, length_app, (proj2 (Z.ltb_ge 4 _)) by lia. cbn [length]. do 2 f_equal. lia.
Qed.

Lemma insert_zeros (done : list Z) b n : <[length done := b]> (done ++ replicate (S n) 0) =
  (done ++ [b]) ++ replicate n 0.
Proof. rewrite insert_app_r_alt, Nat.sub_diag by lia. by rewrite <- app_assoc. Qed.

(** Bytes go after those stored. *)
Lemma store_bytes_stored bs : forall done c seen v cur, let st := stored done c seen v cur in
  (length done + length bs <= 16)%nat ->
  store_bytes bs (tmp6 st) (tp st) =
  ok (tmp6 (stored (done ++ bs) c seen v cur), tp (stored (done ++ bs) c seen v cur)).
Proof.
  induction bs as [|b bs IH]; intros done c seen v cur st Hl; cbn [store_bytes].
  { by rewrite app_nil_r. }
  cbn [st stored tmp6 tp length] in *.
  rewrite decide_True by (rewrite length_app, length_replicate; lia).
  destruct (16 - length done)%nat as [|n] eqn:E; [lia|]. rewrite insert_zeros.
  specialize (IH (done ++ [b]) c seen v cur). cbn [stored tmp6 tp] in IH. rewrite length_app in IH. cbn [length] in IH.
  replace (16 - (length done + 1))%nat with n in IH by lia.
  rewrite Nat.add_1_r in IH. rewrite IH by lia. by rewrite <- !app_assoc.
Qed.

Lemma word_bytes_of w : is_word w -> word_bytes w = [w / 256; w mod 256].
Proof.
  intros [Hw Hw']. unfold word_bytes, wrap_u. rewrite Z.shiftr_div_pow2 by done.
  change 0xff with (Z.ones 8). rewrite !Z.land_ones, !Z.mod_mod by done. change (2 ^ 8) with 256.
  rewrite (Z.mod_small (w / 256)); [done|]. split; [apply Z.div_pos; lia|apply Z.div_lt_upper_bound; lia].
Qed.

Lemma store_word_stored done c seen w cur : is_word w -> (length done + 2 <= 16)%nat ->
  store_word (stored done c seen w cur) =
  ok (tmp6 (stored (done ++ [w / 256; w mod 256]) c 0 0 cur), tp (stored (done ++ [w / 256; w mod 256]) c 0 0 cur)).
Proof.
  intros Hw Hl. unfold store_word. cbn [stored tp val]. rewrite decide_False by lia.
  rewrite word_bytes_of by done. by apply (store_bytes_stored [w / 256; w mod 256] done c 0 0 cur).
Qed.

Lemma xdigit_colon : xdigit colon = None.
Proof. done. Qed.
Lemma xdigit_dot : xdigit dot = None.
Proof. done. Qed.

Lemma read_group w rest done c cur : is_word w -> (length done + 2 <= 16)%nat -> rest <> [] ->
  pton6_loop (print_x w ++ colon :: rest) (stored done c 0 0 cur) =
  pton6_loop rest (stored (done ++ [w / 256; w mod 256]) c 0 0 rest).
Proof.
  intros Hw Hl Hr. rewrite read_word by done. cbn [pton6_loop]. rewrite xdigit_colon, decide_True by done.
  pose proof (print_x_length w Hw) as Hp. cbn [stored seen_xdigits].
  rewrite (proj2 (Z.eqb_neq _ 0)) by lia. destruct rest as [|ch rest]; [done|].
  rewrite (store_word_stored done c _ w cur) by done. done.
Qed.

Lemma read_colon rest done cur :
  pton6_loop (colon :: rest) (stored done None 0 0 cur) =
  pton6_loop rest (stored done (Some (length done)) 0 0 rest).
Proof. done. Qed.

Lemma print_x_cons w : is_word w -> exists d s, print_x w = digit_char d :: s /\ 0 <= d < 16.
Proof.
  intros [Hw Hw']. revert Hw'. pattern w. apply (digits_ind 16); [lia| | |done]; clear w Hw; unfold print_x.
  - intros d Hd _. exists d, []. by rewrite print_one.
  - intros v d Hv Hd IH Hw. destruct IH as (d' & s & Hs & Hd'); [lia|].
    exists d', (s ++ [digit_char d]). by rewrite print_snoc, Hs by lia.
Qed.

(** Several words, each followed by a colon. *)
Lemma read_groups ws : forall rest done c cur, Forall is_word ws -> (length done + 2 * length ws <= 16)%nat ->
  rest <> [] -> ws <> [] ->
  pton6_loop (flat_map (fun w => print_x w ++ [colon]) ws ++ rest) (stored done c 0 0 cur) =
  pton6_loop rest (stored (done ++ bytes_of ws) c 0 0 rest).
Proof.
  induction ws as [|w ws IH]; [done|]. intros rest done c cur [Hw Hws]%Forall_cons Hl Hr _.
  cbn [flat_map length] in *. rewrite <- !app_assoc. cbn [app].
  destruct ws as [|w' ws]; [by rewrite read_group by (done || lia)|].
  rewrite read_group; [|done|lia|].
  - rewrite IH; [|done|rewrite length_app; simpl in *; lia|done|done].
    by rewrite <- app_assoc.
  - apply Forall_cons in Hws as [(d & s & Hs & _)%print_x_cons _]. cbn [flat_map]. by rewrite Hs.
Qed.

(** ** The end of the text *)

(** What [inet_pton6] does after its loop. *)
Definition pton6_end (st : pton6) : res (list Z) :=
  p <- (if seen_xdigits st =? 0 then ok (tmp6 st, tp st) else store_word st);;
  p <- match colonp st with
       | None => ok p
       | Some c =>
           if decide (p.2 = 16%nat) then error UV_EINVAL
           else buf <- shift_loop (seq 1 (p.2 - c)) c (p.2 - c) p.1;; ok (buf, 16%nat)
       end;;
  if decide (p.2 = 16%nat) then ok p.1 else error UV_EINVAL.

Lemma end_word w done c cur : is_word w -> (length done + 2 <= 16)%nat ->
  (st <- pton6_loop (print_x w) (stored done c 0 0 cur);; pton6_end st) =
  pton6_end (stored (done ++ [w / 256; w mod 256]) c 0 0 cur).
Proof.
  intros Hw Hl. rewrite <- (app_nil_r (print_x w)). rewrite read_word by done. cbn [pton6_loop ok rbind].
  unfold pton6_end. pose proof (print_x_length w Hw). cbn [stored seen_xdigits].
  rewrite (proj2 (Z.eqb_neq _ 0)) by lia. by rewrite (store_word_stored done c _ w cur).
Qed.

(** The words up to the end of the text. *)
Lemma end_join ws : forall done c cur, Forall is_word ws -> (length done + 2 * length ws <= 16)%nat ->
  exists cur', (st <- pton6_loop (join ws) (stored done c 0 0 cur);; pton6_end st) =
  pton6_end (stored (done ++ bytes_of ws) c 0 0 cur').
Proof.
  induction ws as [|w ws IH]; intros done c cur Hws Hl.
  { exists cur. cbn [join pton6_loop ok rbind bytes_of flat_map]. by rewrite app_nil_r. }
  apply Forall_cons in Hws as [Hw Hws]. cbn [length] in Hl.
  destruct (decide (ws = [])) as [->|Hne].
  { exists cur. cbn [join colon_words flat_map bytes_of]. rewrite app_nil_r, end_word by (done || lia). done. }
  rewrite join_cons by done. rewrite read_group; [|done|lia|].
  - destruct (IH (done ++ [w / 256; w mod 256]) c (join ws) Hws) as [cur' ->].
    { rewrite length_app. simpl. lia. }
    exists cur'. by rewrite <- app_assoc.
  - destruct ws as [|w' ws]; [done|]. apply Forall_cons in Hws as [(d & s & Hs & _)%print_x_cons _].
    cbn [join]. by rewrite Hs.
Qed.

Lemma end_full done cur : length done = 16%nat -> pton6_end (stored done None 0 0 cur) = ok done.
Proof.
  intros Hl. unfold pton6_end, stored. rewrite Hl. cbn [seen_xdigits Z.eqb colonp tp tmp6 ok rbind fst snd].
  by rewrite decide_True, app_nil_r.
Qed.

(** The shift by hand: the bytes [B] that follow [A] go to the end. *)
Lemma shift_step A B1 b (z : nat) B2 : (length A + length B1 + 1 + S z + length B2 = 16)%nat ->
  <[(length A + length B1)%nat := 0]>
    (<[(16 - S (length B2))%nat := b]> (A ++ (B1 ++ [b]) ++ replicate (S z) 0 ++ B2)) =
  A ++ B1 ++ replicate (S z) 0 ++ b :: B2.
Proof.
  intros Hl. rewrite replicate_S_end. replace (16 - S (length B2))%nat with
    (length (A ++ (B1 ++ [b]) ++ replicate z 0%Z))%nat by (rewrite !length_app, length_replicate; simpl; lia).
  rewrite <- (app_assoc (replicate z 0)), !(app_assoc _ _ ([0] ++ B2)).
  rewrite insert_app_r_alt, Nat.sub_diag by (rewrite !length_app; lia). cbn [app insert list_insert].
  rewrite <- !app_assoc, (app_assoc A). rewrite insert_app_r_alt by (rewrite length_app; lia).
  rewrite length_app, Nat.sub_diag. cbn [app insert list_insert]. rewrite <- !app_assoc. f_equal. f_equal.
  by rewrite app_comm_cons, replicate_cons_app, <- app_assoc.
Qed.

Lemma shift_run A n : forall B1 (z : nat) B2, length B1 = n -> (length A + length B1 + S z + length B2 = 16)%nat ->
  shift_loop (seq (S (length B2)) n) (length A) (n + length B2) (A ++ B1 ++ replicate (S z) 0 ++ B2) =
  ok (A ++ replicate (S z) 0 ++ B1 ++ B2).
Proof.
  induction n as [|n IH]; intros B1 z B2 Hn Hl.
  { apply nil_length_inv in Hn as ->. done. }
  destruct (exists_last (l := B1)) as (B & b & ->); [by intros ->|].
  rewrite length_app in Hn, Hl. cbn [length] in Hn, Hl. assert (length B = n) as Hn' by lia.
  cbn [seq shift_loop]. replace (S n + length B2 - S (length B2))%nat with (length B) by lia.
  assert ((A ++ (B ++ [b]) ++ replicate (S z) 0 ++ B2) !! (length A + length B)%nat = Some b) as Hb.
  { rewrite lookup_app_r, <- app_assoc by lia. replace (length A + length B - length A)%nat with (length B) by lia.
    by apply list_lookup_middle. }
  rewrite Hb. cbn [orUB fmap option_fmap option_map rbind]. rewrite decide_True by lia.
  rewrite shift_step by lia. replace (S n + length B2)%nat with (n + length (b :: B2))%nat by (simpl; lia).
  change (S (S (length B2))) with (S (length (b :: B2))). rewrite IH; [|done|simpl; lia].
  by rewrite <- !app_assoc.
Qed.

Lemma end_short A B v cur : (length A + length B < 16)%nat ->
  pton6_end (stored (A ++ B) (Some (length A)) 0 v cur) =
  ok (A ++ replicate (16 - length (A ++ B)) 0 ++ B).
Proof.
  intros Hl. unfold pton6_end, stored. cbn [seen_xdigits Z.eqb colonp tp tmp6 ok rbind fst snd].
  rewrite length_app. rewrite decide_False by lia. destruct (16 - (length A + length B))%nat as [|z] eqn:Ez; [lia|].
  replace (length A + length B - length A)%nat with (length B) by lia.
  pose proof (shift_run A (length B) B z [] eq_refl) as Hs. cbn [length] in Hs. rewrite !app_nil_r, !Nat.add_0_r in Hs.
  rewrite <- app_assoc, Hs by lia. done.
Qed.

(** ** The dotted end *)

(** Hexadecimal digits are only counted and added up. *)
Lemma read_xdigits cs : forall rest st, Forall (fun ch => xdigit ch <> None) cs ->
  0 <= seen_xdigits st -> seen_xdigits st + Z.of_nat (length cs) <= 4 ->
  exists v, pton6_loop (cs ++ rest) st =
    pton6_loop rest (Pton6 (tmp6 st) (tp st) (colonp st) (seen_xdigits st + Z.of_nat (length cs)) v (curtok st)).
Proof.
  induction cs as [|ch cs IH]; intros rest st Hcs H0 Hl.
  { exists (val st). cbn [app length Z.of_nat]. rewrite Z.add_0_r. by destruct st. }
  apply Forall_cons in Hcs as [Hch Hcs]. cbn [app pton6_loop length] in *.
  destruct (xdigit ch) as [d|]; [|done]. rewrite (proj2 (Z.ltb_ge 4 _)) by lia.
  edestruct (IH rest) as [v ->]; [done|..]; [cbn [seen_xdigits]; lia..|].
  exists v. cbn [tmp6 tp colonp seen_xdigits curtok]. do 2 f_equal. lia.
Qed.

Lemma print_digits_Forall (P : ascii -> Prop) b n : 2 <= b <= 16 -> 0 <= n < b ^ 10 ->
  (forall d, 0 <= d < 16 -> P (digit_char d)) -> Forall P (print_digits printf_digits b n).
Proof.
  intros Hb [Hn Hn'] HP. revert Hn'. pattern n. apply (digits_ind b); [lia| | |done]; clear n Hn.
  - intros d Hd _. rewrite print_one by lia. apply Forall_singleton, HP. lia.
  - intros v d Hv Hd IH Hn. rewrite print_snoc by lia. apply Forall_app. split; [apply IH; nia|].
    apply Forall_singleton, HP. lia.
Qed.

Lemma read_dotted bs done c : address 4 bs -> (length done + 4 <= 16)%nat ->
  exists v, pton6_loop (dotted bs) (stored done c 0 0 (dotted bs)) = ok (stored (done ++ bs) c 0 v (dotted bs)).
Proof.
  intros Ha Hl. pose proof (inet_pton4_dotted bs Ha) as H4. pose proof Ha as Ha'.
  apply address4 in Ha' as (b0 & b1 & b2 & b3 & E & H0 & _).
  assert (exists s, dotted bs = print_u b0 ++ dot :: s) as [s Hs] by (subst bs; by eexists).
  pose proof (print_u_length b0 H0) as Hp.
  destruct (read_xdigits (print_u b0) (dot :: s) (stored done c 0 0 (dotted bs))) as [v Hv].
  { apply print_digits_Forall; [lia|change (10 ^ 10) with 10000000000; unfold is_byte in H0; lia|].
    intros d Hd. by rewrite xdigit_digit. }
  { done. }
  { cbn [stored seen_xdigits]. lia. }
  exists v. rewrite Hs at 1. rewrite Hv. cbn [pton6_loop]. rewrite xdigit_dot.
  rewrite decide_False by done. cbn [stored tp curtok tmp6 colonp val]. rewrite decide_True by (split; [done|lia]).
  rewrite H4. cbn [ok]. destruct Ha as [Hbl _].
  pose proof (store_bytes_stored bs done c 0 v (dotted bs) ltac:(lia)) as Hst. cbv zeta in Hst.
  cbn [stored tmp6 tp] in Hst. rewrite Hst. done.
Qed.
