(* ===== verification/UvInetProps.v ===== *)
(** * Properties of the internet addresses

    The two readers and the two printers of [UvInet] are inverse to each other,
    the IPv4 reader takes nothing but what the printer gives, and no text makes
    a reader leave its buffers. *)

From Stdlib Require Import ZArith Lia String Ascii.
From stdpp Require Import base option list.
From S2P Require Import Prelude UvLoop UvInet UvInet4 UvInet6.

Local Open Scope Z_scope.
Local Open Scope res_scope.

(** ** Reading a printed address *)

Definition strip (src : cstring) : res cstring :=
  match src with
  | c :: src' =>
      if decide (c = colon)
      then if decide (head src' = Some colon) then ok src' else error UV_EINVAL
      else ok src
  | [] => ok src
  end.

Lemma inet_pton6_eq src : inet_pton6 src =
  (src <- strip src;; st <- pton6_loop src (stored [] None 0 0 src);; pton6_end st).
Proof. done. Qed.

Lemma strip_word w s : is_word w -> strip (print_x w ++ s) = ok (print_x w ++ s).
Proof.
  intros (d & t & -> & Hd)%print_x_cons. cbn [strip app]. rewrite decide_False; [done|].
  intros E. pose proof (xdigit_digit d Hd) as H. by rewrite E in H.
Qed.

Lemma rbind_assoc {A B C} (m : res A) (k : A -> res B) (k' : B -> res C) :
  (y <- (x <- m;; k x);; k' y) = (x <- m;; y <- k x;; k' y).
Proof. by destruct m as [[]|]. Qed.

Lemma join_flat P r : P <> [] ->
  join P ++ colon :: r = flat_map (fun w => print_x w ++ [colon]) P ++ r.
Proof.
  destruct P as [|w P]; [done|]. intros _. cbn [join flat_map]. by rewrite <- !app_assoc, colon_words_flat.
Qed.

Lemma bytes_of_zeros n : bytes_of (replicate n 0) = replicate (2 * n) 0.
Proof.
  induction n as [|n IH]; [done|]. replace (2 * S n)%nat with (S (S (2 * n))) by lia.
  cbn [replicate bytes_of flat_map app] in *. by rewrite <- IH.
Qed.

(** The words after the double colon, from where it was seen. *)
Lemma read_short A S cur : Forall is_word S -> (length A + 2 * length S < 16)%nat ->
  (st <- pton6_loop (colon :: join S) (stored A None 0 0 cur);; pton6_end st) =
  ok (A ++ replicate (16 - (length A + 2 * length S)) 0 ++ bytes_of S).
Proof.
  intros HS Hl. rewrite read_colon.
  destruct (end_join S A (Some (length A)) (join S) HS ltac:(lia)) as [cur' ->].
  rewrite end_short by (rewrite bytes_of_words_length; lia). by rewrite length_app, bytes_of_words_length.
Qed.

Lemma pton6_short P n S : Forall is_word P -> Forall is_word S -> (length P + n + length S = 8)%nat ->
  (1 <= n)%nat -> inet_pton6 (join P ++ colon :: colon :: join S) =
  ok (bytes_of (P ++ replicate n 0 ++ S)).
Proof.
  intros HP HS Hl Hn. rewrite inet_pton6_eq, !bytes_of_app, bytes_of_zeros.
  replace (2 * n)%nat with (16 - (length (bytes_of P) + 2 * length S))%nat by (rewrite bytes_of_words_length; lia).
  destruct (decide (P = [])) as [->|Hne].
  - cbn [join app strip]. rewrite !decide_True by done. cbn [ok rbind]. rewrite read_short by (simpl; lia || done). done.
  - rewrite join_flat by done. set (t := _ ++ colon :: join S).
    assert (strip t = ok t) as ->.
    { unfold t. destruct P as [|w P]; [done|]. cbn [flat_map]. rewrite <- !app_assoc.
      apply strip_word. by apply Forall_cons in HP as [? _]. }
    cbn [ok rbind]. unfold t. rewrite read_groups by (done || (simpl; lia)).
    rewrite read_short by (done || (cbn [app]; rewrite bytes_of_words_length; lia)). done.
Qed.

Lemma pton6_text src t : address 16 src -> text_of src t -> inet_pton6 t = ok src.
Proof.
  intros Ha Ht. destruct (pairs_words src Ha) as (Hl & Hw & Hby). destruct Ht as [|P n S HPS Hn|n S v4 Hs HnS Hn HS Hv4].
  - rewrite inet_pton6_eq. destruct (pairs src) as [|w ws] eqn:E; [done|]. cbn [join].
    rewrite strip_word by (by apply Forall_cons in Hw as [? _]). cbn [ok rbind].
    change (print_x w ++ colon_words ws) with (join (w :: ws)).
    destruct (end_join (w :: ws) [] None (join (w :: ws)) Hw) as [cur ->]; [by rewrite Hl|].
    rewrite Hby. by apply end_full; destruct Ha.
  - rewrite HPS in Hw, Hl, Hby. apply Forall_app in Hw as [HP [_ HS]%Forall_app].
    rewrite !length_app, length_replicate in Hl. rewrite (pton6_short P n S) by (done || lia). by rewrite Hby.
  - rewrite inet_pton6_eq. cbn [strip]. rewrite !decide_True by done. cbn [ok rbind]. rewrite read_colon.
    set (st := stored [] _ _ _ _).
    assert (exists v, pton6_loop (flat_map (fun w => print_x w ++ [colon]) S ++ dotted v4) st =
      ok (stored (bytes_of S ++ v4) (Some 0%nat) 0 v (dotted v4))) as [v ->].
    { unfold st. destruct (decide (S = [])) as [->|Hne]; [apply (read_dotted v4 []); [done|simpl; lia]|].
      rewrite read_groups; [|done|simpl; lia| |done].
      - apply read_dotted; [done|]. rewrite bytes_of_words_length. simpl. lia.
      - pose proof (dotted_length v4 Hv4) as Hd. by intros E; rewrite E in Hd; simpl in Hd; lia. }
    cbn [ok rbind]. destruct Hv4 as [Hv4 _].
    rewrite (end_short [] (bytes_of S ++ v4)) by (rewrite length_app, bytes_of_words_length, Hv4; simpl; lia).
    cbn [app]. f_equal. f_equal. rewrite Hs at 1. rewrite bytes_of_app, bytes_of_zeros, <- app_assoc.
    f_equal. f_equal. rewrite length_app, bytes_of_words_length, Hv4. lia.
Qed.

(** ** No zone in a printed address *)

Lemma strchr_None s c : Forall (fun ch => ch <> c) s -> strchr s c = None.
Proof. induction 1 as [|ch s Hch _ IH]; [done|]. simpl. by rewrite decide_False, IH by done. Qed.

Lemma strchr_app s c r : Forall (fun ch => ch <> c) s -> strchr (s ++ c :: r) c = Some (length s).
Proof.
  induction 1 as [|ch s Hch _ IH]; simpl; [by rewrite decide_True|]. by rewrite decide_False, IH by done.
Qed.

Definition no_zone : cstring -> Prop := Forall (fun ch => ch <> percent).

Lemma digit_no_zone d : 0 <= d < 16 -> digit_char d <> percent.
Proof. intros Hd E. pose proof (xdigit_digit d Hd) as H. by rewrite E in H. Qed.

Lemma print_x_no_zone w : is_word w -> no_zone (print_x w).
Proof.
  intros Hw. apply print_digits_Forall; [lia| |apply digit_no_zone].
  unfold is_word in Hw. change (16 ^ 10) with 1099511627776. lia.
Qed.

Lemma print_u_no_zone b : is_byte b -> no_zone (print_u b).
Proof.
  intros Hb. apply print_digits_Forall; [lia| |apply digit_no_zone].
  unfold is_byte in Hb. change (10 ^ 10) with 10000000000. lia.
Qed.

Lemma dotted_no_zone bs : Forall is_byte bs -> no_zone (dotted bs).
Proof.
  induction 1 as [|b bs Hb%print_u_no_zone _ IH]; [constructor|]. cbn [dotted].
  destruct bs; [done|]. apply Forall_app. split; [done|]. by constructor.
Qed.

Lemma join_no_zone ws : Forall is_word ws -> no_zone (join ws).
Proof.
  induction 1 as [|w ws Hw%print_x_no_zone Hws IH]; [constructor|].
  destruct (decide (ws = [])) as [->|]; [by cbn [join colon_words flat_map]; rewrite app_nil_r|].
  rewrite join_cons by done. apply Forall_app. split; [done|]. by constructor.
Qed.

Lemma text_no_zone src t : address 16 src -> text_of src t -> no_zone t.
Proof.
  intros (_ & Hw & _)%pairs_words [|P n S HPS _|n S v4 _ _ _ HS [_ Hv4]].
  - by apply join_no_zone.
  - rewrite HPS in Hw. apply Forall_app in Hw as [HP [_ HS]%Forall_app]. apply Forall_app.
    split; [by apply join_no_zone|]. constructor; [done|]. constructor; [done|by apply join_no_zone].
  - constructor; [done|]. constructor; [done|]. apply Forall_app. split; [|by apply dotted_no_zone].
    induction HS as [|w S Hw'%print_x_no_zone _ IH]; [constructor|]. cbn [flat_map].
    apply Forall_app. split; [|done]. apply Forall_app. split; [done|]. by constructor.
Qed.

(** ** The readers stay inside their buffers *)

Definition sane6 (st : pton6) : Prop :=
  address 16 (tmp6 st) /\ (tp st <= 16)%nat /\ (forall c, colonp st = Some c -> (c <= tp st)%nat).

Lemma address_insert n buf i b : address n buf -> is_byte b -> address n (<[i := b]> buf).
Proof. intros [Hl Hb] ?. split; [by rewrite length_insert|by apply Forall_insert]. Qed.

Lemma store_bytes_sane bs : forall buf i, address 16 buf -> Forall is_byte bs -> (i + length bs <= 16)%nat ->
  exists buf', store_bytes bs buf i = ok (buf', (i + length bs)%nat) /\ address 16 buf'.
Proof.
  induction bs as [|b bs IH]; intros buf i Hbuf Hbs Hl; cbn [store_bytes length] in *.
  { exists buf. by rewrite Nat.add_0_r. }
  apply Forall_cons in Hbs as [Hb Hbs]. rewrite decide_True by (destruct Hbuf; lia).
  destruct (IH (<[i := b]> buf) (S i)) as (buf' & -> & H); [by apply address_insert|done|lia|].
  exists buf'. by rewrite Nat.add_succ_r.
Qed.

Lemma land_byte x : is_byte (Z.land x 0xff).
Proof. unfold is_byte. change (Z.land x 0xff) with (Z.land x (Z.ones 8)). rewrite Z.land_ones by done. change (2 ^ 8) with 256. lia. Qed.

Lemma store_word_sane st : sane6 st ->
  store_word st = error UV_EINVAL \/
  exists buf, store_word st = ok (buf, (tp st + 2)%nat) /\ address 16 buf /\ (tp st + 2 <= 16)%nat.
Proof.
  intros (Hb & Ht & _). unfold store_word. case_decide; [by left|right].
  destruct (store_bytes_sane (word_bytes (val st)) (tmp6 st) (tp st)) as (buf & -> & H1); [done| |simpl; lia|].
  - repeat constructor; apply land_byte.
  - exists buf. split_and!; [done|done|lia].
Qed.

Lemma pton6_loop_sane s : forall st, sane6 st ->
  pton6_loop s st = error UV_EINVAL \/ exists st', pton6_loop s st = ok st' /\ sane6 st'.
Proof.
  induction s as [|ch s IH]; intros st Hs; cbn [pton6_loop]; [right; by exists st|].
  pose proof Hs as (Hb & Ht & Hc).
  destruct (xdigit ch) as [d|]; [case_match; [by left|by apply IH]|].
  case_decide; [|case_decide as H4; [|by left]].
  - case_match.
    { destruct (colonp st) eqn:Ec; [by left|]. apply IH. split; [done|]. split; [done|]. by intros c [= <-]. }
    destruct s as [|ch' s]; [by left|].
    destruct (store_word_sane st Hs) as [->|(buf & -> & Hbuf & Hl)]; [by left|]. cbn [ok rbind fst snd]. apply IH.
    split; [done|]. split; [done|]. intros c Hc'%Hc. cbn [tp]. lia.
  - destruct (inet_pton4_cases (curtok st)) as [(bs & [Hbl Hbs] & _ & ->)| ->]; [|by left].
    cbn [ok]. destruct (store_bytes_sane bs (tmp6 st) (tp st)) as (buf & -> & Hbuf); [done|done|lia|].
    right. eexists. split; [done|]. cbn [fst snd]. split; [done|]. cbn [tp]. split; [lia|].
    intros c Hc'%Hc. lia.
Qed.

Lemma shift_sane idx c n : forall buf, address 16 buf -> (c + n <= 16)%nat -> Forall (fun i => 1 <= i <= n)%nat idx ->
  exists buf', shift_loop idx c n buf = ok buf' /\ address 16 buf'.
Proof.
  induction idx as [|i idx IH]; intros buf Hbuf Hn Hidx; cbn [shift_loop]; [by exists buf|].
  apply Forall_cons in Hidx as [Hi Hidx]. pose proof Hbuf as [Hl Hby].
  destruct (lookup_lt_is_Some_2 buf (c + (n - i))%nat) as [b Hb]; [lia|]. rewrite Hb.
  cbn [orUB fmap option_fmap option_map rbind]. rewrite decide_True by lia. apply IH; [|done|done].
  apply address_insert; [|unfold is_byte; lia]. apply address_insert; [done|]. by eapply Forall_lookup_1.
Qed.

Lemma pton6_end_sane st : sane6 st ->
  pton6_end st = error UV_EINVAL \/ exists bs, pton6_end st = ok bs /\ address 16 bs.
Proof.
  intros Hs. pose proof Hs as (Hb & Ht & Hc). unfold pton6_end.
  assert ((if seen_xdigits st =? 0 then ok (tmp6 st, tp st) else store_word st) = error UV_EINVAL \/
    exists buf i, (if seen_xdigits st =? 0 then ok (tmp6 st, tp st) else store_word st) = ok (buf, i) /\
      address 16 buf /\ (tp st <= i <= 16)%nat) as [->|(buf & i & -> & Hbuf & Hi)]; [|by left|].
  { destruct (seen_xdigits st =? 0); [right; by exists (tmp6 st), (tp st)|].
    destruct (store_word_sane st Hs) as [->|(buf & -> & Hbuf & Hl)]; [by left|right].
    exists buf, (tp st + 2)%nat. split_and!; (done || lia). }
  cbn [ok rbind fst snd]. destruct (colonp st) as [c|].
  - case_decide; [by left|right]. specialize (Hc c eq_refl).
    destruct (shift_sane (seq 1 (i - c)) c (i - c) buf Hbuf) as (buf' & -> & Hbuf'); [lia| |].
    { apply Forall_seq. lia. }
    cbn [ok rbind fst snd]. by exists buf'.
  - cbn [ok rbind fst snd]. case_decide; [right|by left]. by exists buf.
Qed.

Lemma inet_pton6_sane s :
  inet_pton6 s = error UV_EINVAL \/ exists bs, inet_pton6 s = ok bs /\ address 16 bs.
Proof.
  rewrite inet_pton6_eq. assert (strip s = error UV_EINVAL \/ exists s', strip s = ok s') as [->|[s' ->]].
  { destruct s as [|ch s]; simpl; [by right; eexists|]. repeat case_decide; eauto. }
  { by left. }
  cbn [ok rbind]. destruct (pton6_loop_sane s' (stored [] None 0 0 s')) as [->|(st & -> & Hs)]; [|by left|].
  { split; [|split; [simpl; lia|done]]. split; [done|]. by repeat constructor. }
  cbn [ok rbind]. by apply pton6_end_sane.
Qed.

(** ** The properties *)

(** C30 No text makes a reader access anything outside its buffers, or use bytes
    it has not written: whatever the family, the text (or null pointer) and the
    destination, [uv_inet_pton] returns.  It gives the 4 or 16 bytes of an
    address of the family asked for, [UV_EINVAL], or [UV_EAFNOSUPPORT] for a
    family it does not know. *)
Theorem inet_pton_safe (af : Z) (src : option cstring) (dst_null : bool) :
  match uv_inet_pton af src dst_null with
  | None => False
  | Some (inl e) => e = UV_EINVAL \/ (e = UV_EAFNOSUPPORT /\ af <> AF_INET /\ af <> AF_INET6)
  | Some (inr bs) => dst_null = false /\ (af = AF_INET /\ address 4 bs \/ af = AF_INET6 /\ address 16 bs)
  end.
Proof.
  unfold uv_inet_pton. destruct src as [s|]; [|by left]. destruct dst_null; [by left|].
  assert (forall s, match inet_pton6 s with
    | None => False | Some (inl e) => e = UV_EINVAL | Some (inr bs) => address 16 bs end) as H6.
  { intros s'. destruct (inet_pton6_sane s') as [->|(bs & -> & H)]; done. }
  destruct (Z.eqb_spec af AF_INET) as [->|H1].
  { destruct (inet_pton4_cases s) as [(bs & Ha & _ & ->)| ->]; simpl; auto. }
  destruct (Z.eqb_spec af AF_INET6) as [->|H2]; [|by right].
  destruct (strchr s percent) as [n|]; [case_decide; [by left|]|];
    match goal with |- context [inet_pton6 ?t] => specialize (H6 t); destruct (inet_pton6 t) as [[]|] end; auto.
Qed.

(** C31 The IPv4 reader takes the texts the printer gives and no other: a text is
    read as the address [bs] exactly when [bs] is an address and is printed as
    that text.  So every octet is from 0 to 255 without a leading zero, and there
    are four of them; everything else is [UV_EINVAL]. *)
Theorem inet_pton4_exact (s : cstring) (bs : list Z) :
  uv_inet_pton AF_INET (Some s) false = ok bs <->
  address 4 bs /\ uv_inet_ntop AF_INET bs (Z.of_nat UV__INET_ADDRSTRLEN) = ok s.
Proof.
  change (uv_inet_pton AF_INET (Some s) false) with (inet_pton4 s).
  change (uv_inet_ntop AF_INET bs (Z.of_nat UV__INET_ADDRSTRLEN)) with (inet_ntop4 bs 16). split.
  - intros H. destruct (inet_pton4_cases s) as [(bs' & Ha & -> & E)|E]; [|by rewrite E in H].
    rewrite E in H. injection H as ->. split; [done|]. rewrite inet_ntop4_run by done.
    pose proof (dotted_length _ Ha). by rewrite (proj2 (Z.ltb_lt _ _)) by lia.
  - intros [Ha H]. rewrite inet_ntop4_run in H by done. case_match; [|done]. injection H as <-.
    by apply inet_pton4_dotted.
Qed.

(** The text of an address and what the printers and readers make of it. *)
Lemma printed_text af bs : (af = AF_INET /\ address 4 bs) \/ (af = AF_INET6 /\ address 16 bs) ->
  exists t : cstring, (1 <= length t <= 39)%nat /\ (af = AF_INET -> length t <= 15)%nat /\ no_zone t /\
    (forall size, uv_inet_ntop af bs size = if Z.of_nat (length t) <? size then ok t else error UV_ENOSPC) /\
    uv_inet_pton af (Some t) false = ok bs /\ (af = AF_INET6 -> inet_pton6 t = ok bs).
Proof.
  intros [[-> Ha]|[-> Ha]].
  - exists (dotted bs). pose proof (dotted_length bs Ha). pose proof Ha as [_ Hb].
    split_and!; [lia|lia|lia|by apply dotted_no_zone|intros size; by apply inet_ntop4_run|by apply inet_pton4_dotted|done].
  - destruct (inet_ntop6_text bs Ha) as (t & Ht & Hl & Hp). pose proof (text_no_zone bs t Ha Ht) as Hz.
    pose proof (pton6_text bs t Ha Ht) as H6. exists t. split_and!; [|done|done|done|done| |done].
    + destruct t; [|simpl; lia]. unfold inet_pton6 in H6. simpl in H6. done.
    + change (uv_inet_pton AF_INET6 (Some t) false) with
        (match strchr t percent with
         | Some len => if decide (UV__INET6_ADDRSTRLEN - 1 < len)%nat then error UV_EINVAL else inet_pton6 (take len t)
         | None => inet_pton6 t end). by rewrite strchr_None.
Qed.

(** A printed IPv6 address with a zone. *)
Lemma zone_read t z bs : no_zone t -> (length t <= 45)%nat -> inet_pton6 t = ok bs ->
  uv_inet_pton AF_INET6 (Some (t ++ percent :: z)) false = ok bs.
Proof.
  intros Hz Hl H. unfold uv_inet_pton. cbn [Z.eqb AF_INET6 AF_INET]. rewrite strchr_app by done.
  rewrite decide_False by (unfold UV__INET6_ADDRSTRLEN; lia). by rewrite take_app_length.
Qed.

(** C26 What is printed is read back.  Every IPv4 or IPv6 address has a text, which
    [uv_inet_ntop] gives into any buffer that holds it with its NUL and refuses
    with [UV_ENOSPC] otherwise, and from which [uv_inet_pton] gives the same
    bytes: the run of zeros written [::] is found again, and so are the last
    bytes written as an IPv4 address.  An IPv6 text is read the same with a zone
    after it. *)
Theorem inet_roundtrip (af : Z) (bs : list Z)
  (Hbs : (af = AF_INET /\ address 4 bs) \/ (af = AF_INET6 /\ address 16 bs)) :
  exists t : cstring, (1 <= length t <= 39)%nat /\
    (forall size, uv_inet_ntop af bs size = if Z.of_nat (length t) <? size then ok t else error UV_ENOSPC) /\
    uv_inet_pton af (Some t) false = ok bs /\
    (af = AF_INET6 -> forall zone, uv_inet_pton af (Some (t ++ percent :: zone)) false = ok bs).
Proof.
  destruct (printed_text af bs Hbs) as (t & Hl & _ & Hz & Hn & Hp & H6). exists t. split_and!; [lia|lia|done|done|].
  intros -> zone. apply zone_read; [done|lia|by apply H6].
Qed.

Lemma inet_roundtrip_witness :
  exists t : cstring, (1 <= length t <= 39)%nat /\
    (forall size, uv_inet_ntop AF_INET6 [0xfe; 0x80; 0; 0; 0; 0; 0; 0; 0; 0; 0; 0; 0; 0; 0; 1] size =
      if Z.of_nat (length t) <? size then ok t else error UV_ENOSPC) /\
    uv_inet_pton AF_INET6 (Some t) false = ok [0xfe; 0x80; 0; 0; 0; 0; 0; 0; 0; 0; 0; 0; 0; 0; 0; 1] /\
    (AF_INET6 = AF_INET6 -> forall zone, uv_inet_pton AF_INET6 (Some (t ++ percent :: zone)) false =
      ok [0xfe; 0x80; 0; 0; 0; 0; 0; 0; 0; 0; 0; 0; 0; 0; 0; 1]).
Proof.
  apply (inet_roundtrip AF_INET6). right. split; [reflexivity|]. split; [reflexivity|].
  repeat constructor; unfold is_byte; lia.
Defined.

(** The socket addresses of a printed address: [uv_ip4_addr] and [uv_ip6_addr]
    return 0 with the family, the port in network order and the bytes, whatever
    zone follows an IPv6 text, whose interface is looked up by the name after
    the percent sign.  But an IPv6 text of more than 39 characters before a zone
    is cut there, so a longer text of an address can name another address. *)
Theorem ip_addr_correct (if_nametoindex : cstring -> Z) (port : Z) (bs4 bs6 : list Z)
  (H4 : address 4 bs4) (H6 : address 16 bs6) :
  (exists t : cstring, uv_inet_ntop AF_INET bs4 (Z.of_nat UV__INET_ADDRSTRLEN) = ok t /\
     uv_ip4_addr t port = Some (0, Sockaddr AF_INET (htons port) bs4 0)) /\
  (exists t : cstring, uv_inet_ntop AF_INET6 bs6 (Z.of_nat UV__INET6_ADDRSTRLEN) = ok t /\
     uv_ip6_addr if_nametoindex t port = Some (0, Sockaddr AF_INET6 (htons port) bs6 0) /\
     forall zone, uv_ip6_addr if_nametoindex (t ++ percent :: zone) port =
       Some (0, Sockaddr AF_INET6 (htons port) bs6 (if_nametoindex zone))) /\
  (exists (t : cstring) bs bs', uv_inet_pton AF_INET6 (Some t) false = ok bs /\ bs <> bs' /\
     forall zone, uv_ip6_addr if_nametoindex (t ++ percent :: zone) port =
       Some (0, Sockaddr AF_INET6 (htons port) bs' (if_nametoindex zone))).
Proof.
  split_and!.
  - destruct (printed_text AF_INET bs4) as (t & _ & Hl & Hz & Hn & Hp & _); [by left|]. specialize (Hl eq_refl).
    exists t. split; [|unfold uv_ip4_addr; by rewrite Hp].
    rewrite Hn. by rewrite (proj2 (Z.ltb_lt _ _)) by (unfold UV__INET_ADDRSTRLEN; lia).
  - destruct (printed_text AF_INET6 bs6) as (t & Hl & _ & Hz & Hn & Hp & Hr); [by right|].
    specialize (Hr eq_refl). exists t. split_and!.
    + rewrite Hn. by rewrite (proj2 (Z.ltb_lt _ _)) by (unfold UV__INET6_ADDRSTRLEN; lia).
    + unfold uv_ip6_addr. rewrite strchr_None by done. cbv beta iota. by rewrite Hp.
    + intros zone. unfold uv_ip6_addr. rewrite strchr_app by done. rewrite decide_False by lia.
      rewrite take_app_length.
      assert (drop (S (length t)) (t ++ percent :: zone) = zone) as ->.
      { rewrite drop_app_ge by lia. by replace (S (length t) - length t)%nat with 1%nat by lia. }
      cbv beta iota. by rewrite Hp.
  - exists (str "0000:0000:0000:0000:0000:ffff:11.1.1.123").
    exists [0; 0; 0; 0; 0; 0; 0; 0; 0; 0; 255; 255; 11; 1; 1; 123], [0; 0; 0; 0; 0; 0; 0; 0; 0; 0; 255; 255; 11; 1; 1; 12].
    split; [reflexivity|]. split; [done|]. intros zone. reflexivity.
Qed.

Lemma ip_addr_correct_witness :
  exists t : cstring, uv_inet_ntop AF_INET [127; 0; 0; 1] (Z.of_nat UV__INET_ADDRSTRLEN) = ok t /\
    uv_ip4_addr t 8080 = Some (0, Sockaddr AF_INET 36895 [127; 0; 0; 1] 0).
Proof.
  apply (ip_addr_correct (fun _ => 0) 8080 [127; 0; 0; 1] (replicate 16 0));
    (split; [reflexivity|]); repeat constructor; unfold is_byte; lia.
Defined.
