(* ===== verification/Number.v ===== *)
(** * Lua numbers

    A [lua_Number] is a C [double]: the binary64 values of the Standard
    Library's [SpecFloat].  Integers become numbers by rounding to nearest, as
    a C conversion does, and numbers become integers by truncation; a
    conversion whose value does not fit its integer type is undefined in C and
    is [None] here. *)

From stdpp Require Import base option list countable.
From Stdlib Require Import ZArith Lia SpecFloat.
From S2P Require Import Prelude.

Local Open Scope Z_scope.

Abbreviation number := spec_float.

#[export] Instance number_eq_dec : EqDecision number.
Proof. solve_decision. Defined.

#[export] Instance number_countable : Countable number.
Proof.
  apply (inj_countable'
    (fun n => match n with
     | S754_zero s => inl (inl s) | S754_infinity s => inl (inr s)
     | S754_nan => inr None | S754_finite s m e => inr (Some (s, m, e)) end)
    (fun c => match c with
     | inl (inl s) => S754_zero s | inl (inr s) => S754_infinity s
     | inr None => S754_nan | inr (Some (s, m, e)) => S754_finite s m e end)).
  by intros [].
Defined.

(** [(lua_Number)z] for an integer [z] *)
Definition num_of_Z (z : Z) : number := binary_normalize 53 1024 z 0 false.

(** The integer part, rounded towards zero. *)
Definition trunc_num (n : number) : option Z :=
  match n with
  | S754_zero _ => Some 0
  | S754_finite s m e =>
      let v := if 0 <=? e then Zpos m * 2 ^ e else Zpos m / 2 ^ (- e) in
      Some (if s then - v else v)
  | _ => None
  end.

(** [(T)n] for an integer type [T] with the values [lo .. hi] *)
Definition c_cast (lo hi : Z) (n : number) : option Z :=
  z ← trunc_num n; if (lo <=? z) && (z <=? hi) then Some z else None.

Definition cast_char : number -> option Z := c_cast (-128) 127.
Definition cast_short : number -> option Z := c_cast (-32768) 32767.
Definition cast_int : number -> option Z := c_cast (-2147483648) 2147483647.
Definition cast_uint : number -> option Z := c_cast 0 UINT_MAX.
Definition cast_uint64 : number -> option Z := c_cast 0 UINT64_MAX.
Definition cast_int64 : number -> option Z :=
  c_cast (-9223372036854775808) 9223372036854775807.

Definition num_eqb : number -> number -> bool := SFeqb.
Definition num_ltb : number -> number -> bool := SFltb.

(** ** Small integers are exact *)

Lemma digits2_bounds m :
  2 ^ (Zpos (digits2_pos m) - 1) <= Zpos m < 2 ^ Zpos (digits2_pos m).
Proof.
  induction m as [m IH|m IH|]; simpl digits2_pos; [| |done].
  all: rewrite Pos2Z.inj_succ; unfold Z.succ; rewrite Z.add_simpl_r.
  all: rewrite Z.pow_add_r, Z.pow_1_r by lia.
  all: replace (2 ^ Zpos (digits2_pos m)) with (2 ^ (Zpos (digits2_pos m) - 1) * 2) in *
    by (rewrite <- (Z.pow_1_r 2) at 2; rewrite <- Z.pow_add_r by lia; f_equal; lia).
  - rewrite (Pos2Z.inj_xI m). lia.
  - rewrite (Pos2Z.inj_xO m). lia.
Qed.

Lemma digits2_small m : Zpos m < 2 ^ 53 -> 1 <= Zpos (digits2_pos m) <= 53.
Proof.
  intros Hm. split; [lia|]. pose proof (digits2_bounds m) as [Hl _].
  assert (Zpos (digits2_pos m) - 1 < 53); [|lia].
  apply (Z.pow_lt_mono_r_iff 2); lia.
Qed.

Lemma iter_xO m k : Zpos (Pos.iter xO m k) = Zpos m * 2 ^ Zpos k.
Proof.
  induction k as [|k IH] using Pos.peano_ind; [simpl; lia|].
  rewrite Pos.iter_succ, (Pos2Z.inj_xO (Pos.iter xO m k)), IH, Pos2Z.inj_succ.
  rewrite Z.pow_succ_r by lia. lia.
Qed.

Lemma digits2_iter_xO m k : digits2_pos (Pos.iter xO m k) = (digits2_pos m + k)%positive.
Proof.
  induction k as [|k IH] using Pos.peano_ind; [simpl; lia|].
  rewrite Pos.iter_succ. simpl. rewrite IH. lia.
Qed.

(** A mantissa of 53 digits needs no rounding. *)
Lemma round_aux_53 s m e :
  Zpos (digits2_pos m) = 53 -> -1074 <= e <= 971 ->
  binary_round_aux 53 1024 s (Zpos m) e loc_Exact = S754_finite s m e.
Proof.
  intros Hd He. unfold binary_round_aux, shr_fexp, fexp, emin. simpl Zdigits2.
  assert (Hshr : Z.max (Zpos (digits2_pos m) + e - 53) (3 - 1024 - 53) - e = 0) by lia.
  rewrite Hshr. simpl. rewrite Hshr. simpl.
  destruct (Z.leb_spec e (1024 - 53)); [done|lia].
Qed.

Lemma binary_round_small s m :
  Zpos m < 2 ^ 53 ->
  exists m' k, binary_round 53 1024 s m 0 = S754_finite s m' (- k) /\ 0 <= k /\
    Zpos m' = Zpos m * 2 ^ k.
Proof.
  intros Hm. pose proof (digits2_small m Hm) as Hd. unfold binary_round, shl_align, fexp, emin.
  replace (Z.max (Zpos (digits2_pos m) + 0 - 53) (3 - 1024 - 53) - 0)
    with (Zpos (digits2_pos m) - 53) by lia.
  replace (Z.max (Zpos (digits2_pos m) + 0 - 53) (3 - 1024 - 53))
    with (Zpos (digits2_pos m) - 53) by lia.
  destruct (Zpos (digits2_pos m) - 53) as [|d|d] eqn:E; [|lia|].
  - exists m, 0. rewrite round_aux_53 by lia. split; [done|]. lia.
  - exists (Pos.iter xO m d), (Zpos d).
    rewrite round_aux_53; [|rewrite digits2_iter_xO; lia|lia]. split; [done|].
    split; [lia|]. apply iter_xO.
Qed.

Lemma trunc_num_of_Z z : - 2 ^ 53 < z < 2 ^ 53 -> trunc_num (num_of_Z z) = Some z.
Proof.
  intros Hz. unfold num_of_Z, binary_normalize. destruct z as [|m|m]; [done| |].
  - destruct (binary_round_small false m ltac:(lia)) as (m' & k & -> & Hk & Hm'). simpl.
    destruct (Z.leb_spec 0 (- k)).
    + assert (k = 0) as -> by lia. rewrite Hm'. f_equal. simpl. lia.
    + rewrite Z.opp_involutive, Hm', Z.div_mul by lia. done.
  - destruct (binary_round_small true m ltac:(lia)) as (m' & k & -> & Hk & Hm'). simpl.
    destruct (Z.leb_spec 0 (- k)).
    + assert (k = 0) as -> by lia. rewrite Hm'. f_equal. simpl. lia.
    + rewrite Z.opp_involutive, Hm', Z.div_mul by lia. done.
Qed.

Lemma c_cast_num_of_Z lo hi z :
  lo <= z <= hi -> - 2 ^ 53 < z < 2 ^ 53 -> c_cast lo hi (num_of_Z z) = Some z.
Proof.
  intros Hz Hs. unfold c_cast. rewrite trunc_num_of_Z by done. simpl.
  destruct (Z.leb_spec lo z), (Z.leb_spec z hi); simpl; [done|lia..].
Qed.

Lemma c_cast_range lo hi n z : c_cast lo hi n = Some z -> lo <= z <= hi.
Proof.
  unfold c_cast. destruct (trunc_num n) as [t|]; simpl; [|done].
  destruct (Z.leb_spec lo t), (Z.leb_spec t hi); simpl; naive_solver lia.
Qed.
