(* ===== verification/LuaApi.v ===== *)
(** * The Lua C API ([core/luajit/src/lj_api.c], [lj_meta.c], [lib_aux.c])

    shark is C code that works on a Lua state through this API.  The state is
    the stack of the running C function ([L->base .. L->top-1], bottom first),
    the registry, the global environment and the objects of the heap by
    address.  Tables are finite maps on normalised keys; the array and hash
    parts of [lj_tab.c] and garbage collection are below this model.

    The API works on any program state [S] that contains a Lua state, so that
    C functions and Lua callbacks can reach the event loop as well. *)

From stdpp Require Import base option strings countable gmap list.
From Stdlib Require Import ZArith Lia SpecFloat.
From S2P Require Import Prelude Number.

Local Open Scope Z_scope.
Local Open Scope prog_scope.

(** ** Values *)

Inductive tvalue :=
  | TNil
  | TBool (b : bool)
  | TLight (p : option ptr)
  | TNum (n : number)
  | TStr (s : string)
  | TTab (t : ptr)
  | TFunc (f : ptr)
  | TUdata (u : ptr)
  | TThread (l : ptr).

#[export] Instance tvalue_eq_dec : EqDecision tvalue.
Proof. solve_decision. Defined.

#[export] Instance tvalue_countable : Countable tvalue.
Proof.
  apply (inj_countable'
    (fun v => match v with
     | TNil => inl (inl ()) | TBool b => inl (inr b)
     | TLight p => inr (inl (inl p)) | TNum n => inr (inl (inr n))
     | TStr s => inr (inr (inl s))
     | TTab t => inr (inr (inr (t, 1%positive))) | TFunc t => inr (inr (inr (t, 2%positive)))
     | TUdata t => inr (inr (inr (t, 3%positive))) | TThread t => inr (inr (inr (t, 4%positive)))
     end)
    (fun c => match c with
     | inl (inl _) => TNil | inl (inr b) => TBool b
     | inr (inl (inl p)) => TLight p | inr (inl (inr n)) => TNum n
     | inr (inr (inl s)) => TStr s
     | inr (inr (inr (t, 1%positive))) => TTab t | inr (inr (inr (t, 2%positive))) => TFunc t
     | inr (inr (inr (t, 3%positive))) => TUdata t | inr (inr (inr (t, _))) => TThread t
     end)).
  by intros [].
Defined.

Definition LUA_TNONE : Z := -1.
Definition LUA_TNIL : Z := 0.
Definition LUA_TBOOLEAN : Z := 1.
Definition LUA_TLIGHTUSERDATA : Z := 2.
Definition LUA_TNUMBER : Z := 3.
Definition LUA_TSTRING : Z := 4.
Definition LUA_TTABLE : Z := 5.
Definition LUA_TFUNCTION : Z := 6.
Definition LUA_TUSERDATA : Z := 7.
Definition LUA_TTHREAD : Z := 8.

Definition LUA_REGISTRYINDEX : Z := -10000.
Definition LUA_ENVIRONINDEX : Z := -10001.
Definition LUA_GLOBALSINDEX : Z := -10002.
Definition LUAI_MAXCSTACK : Z := 8000.
Definition LJ_MAX_UDATA : Z := 2147483392.
Definition LJ_MAX_IDXCHAIN : nat := 100.
Definition LUA_NOREF : Z := -2.
Definition LUA_REFNIL : Z := -1.
Definition LUA_ERRRUN : Z := 2.

Definition type_of (v : tvalue) : Z :=
  match v with
  | TNil => LUA_TNIL | TBool _ => LUA_TBOOLEAN | TLight _ => LUA_TLIGHTUSERDATA
  | TNum _ => LUA_TNUMBER | TStr _ => LUA_TSTRING | TTab _ => LUA_TTABLE
  | TFunc _ => LUA_TFUNCTION | TUdata _ => LUA_TUSERDATA | TThread _ => LUA_TTHREAD
  end.

(** [tvistruecond] *)
Definition truecond (v : tvalue) : bool :=
  match v with TNil | TBool false => false | _ => true end.

(** [-0.0] and [0.0] are one key. *)
Definition norm_key (k : tvalue) : tvalue :=
  match k with TNum (S754_zero _) => TNum (S754_zero false) | k => k end.

Definition int_key (n : Z) : tvalue := TNum (num_of_Z n).

(** Errors raised through [lj_err.c], before their message is formatted. *)
Inductive lua_error :=
  | ErrArgType (narg : Z) (xname : string)
  | ErrArg (narg : Z) (msg : string)
  | ErrMsg (msg : string)
  | ErrIndex (v : tvalue)
  | ErrCall (v : tvalue)
  | ErrValue (v : tvalue).

(** ** Objects *)

(** A table; [data1] .. [data5] are the fields shark adds to [GCtab]. *)
Record gctab (V : Type) := GCtab {
  hash : gmap tvalue tvalue;
  metatable : option ptr;
  data1 : option Z;
  data2 : option V;
  data3 : option V;
  data4 : option V;
  data5 : option V
}.

Arguments GCtab {V}.
Arguments hash {V} g.
Arguments metatable {V} g.
Arguments data1 {V} g.
Arguments data2 {V} g.
Arguments data3 {V} g.
Arguments data4 {V} g.
Arguments data5 {V} g.

Inductive gcfunc (F : Type) :=
  | FuncC (f : F) (upvalue : list tvalue) (env : ptr)
  | FuncL (env : ptr).

Arguments FuncC {F}.
Arguments FuncL {F}.

Record gcudata := GCudata {
  ud_len : Z;
  ud_metatable : option ptr;
  ud_env : ptr;
  ud_bytes : list Z
}.

Record lua_state (V F : Type) := LuaState {
  stack : list tvalue;
  curr_func : option ptr;
  env_tab : ptr;
  registry : ptr;
  tabs : gmap ptr (gctab V);
  funcs : gmap ptr (gcfunc F);
  udatas : gmap ptr gcudata;
  basemt : gmap Z ptr;
  next_obj : ptr
}.

Arguments LuaState {V F}.
Arguments stack {V F} l.
Arguments curr_func {V F} l.
Arguments env_tab {V F} l.
Arguments registry {V F} l.
Arguments tabs {V F} l.
Arguments funcs {V F} l.
Arguments udatas {V F} l.
Arguments basemt {V F} l.
Arguments next_obj {V F} l.

Section Setters.
Context {V F : Type}.
Implicit Types (l : lua_state V F) (t : gctab V).

Definition set_stack v l : lua_state V F := LuaState v (curr_func l) (env_tab l) (registry l) (tabs l) (funcs l)
  (udatas l) (basemt l) (next_obj l).
Definition set_curr_func v l : lua_state V F := LuaState (stack l) v (env_tab l) (registry l) (tabs l) (funcs l)
  (udatas l) (basemt l) (next_obj l).
Definition set_env_tab v l : lua_state V F := LuaState (stack l) (curr_func l) v (registry l) (tabs l) (funcs l)
  (udatas l) (basemt l) (next_obj l).
Definition set_tabs v l : lua_state V F := LuaState (stack l) (curr_func l) (env_tab l) (registry l) v (funcs l)
  (udatas l) (basemt l) (next_obj l).
Definition set_funcs v l : lua_state V F := LuaState (stack l) (curr_func l) (env_tab l) (registry l) (tabs l) v
  (udatas l) (basemt l) (next_obj l).
Definition set_udatas v l : lua_state V F := LuaState (stack l) (curr_func l) (env_tab l) (registry l) (tabs l)
  (funcs l) v (basemt l) (next_obj l).
Definition set_basemt v l : lua_state V F := LuaState (stack l) (curr_func l) (env_tab l) (registry l) (tabs l)
  (funcs l) (udatas l) v (next_obj l).
Definition set_next_obj v l : lua_state V F := LuaState (stack l) (curr_func l) (env_tab l) (registry l) (tabs l)
  (funcs l) (udatas l) (basemt l) v.

Definition set_hash v t : gctab V := GCtab v (metatable t) (data1 t) (data2 t) (data3 t) (data4 t) (data5 t).
Definition set_metatable_of v t : gctab V := GCtab (hash t) v (data1 t) (data2 t) (data3 t) (data4 t) (data5 t).

Definition new_tab : gctab V := GCtab ∅ None None None None None None.
End Setters.

(** A state that contains a Lua state. *)
Class HasLua (S L : Type) := {
  get_lua : S -> L;
  put_lua : L -> S -> S
}.

Class HasLuaLaws (S L : Type) `{!HasLua S L} : Prop := {
  get_put l s : get_lua (put_lua l s) = l;
  put_put l l' s : put_lua l (put_lua l' s) = put_lua l s;
  put_get s : put_lua (get_lua s) s = s
}.

#[export] Instance lua_self (L : Type) : HasLua L L := {| get_lua l := l; put_lua l _ := l |}.
#[export] Instance lua_self_laws (L : Type) : HasLuaLaws L L.
Proof. by split. Qed.

(** What the API relies on below it: number formatting and scanning
    ([lj_str.c], [lj_strscan.c]), the length of a table ([lj_tab.c]), the bytes
    of fresh memory, error messages ([lj_err.c]), and running a function in a
    frame of its own: a C function by name, a Lua function by address. *)
Class LuaVM (V F S : Type) := {
  strscan_num : string -> option number;
  str_fromnumber : number -> string;
  tab_len : gmap tvalue tvalue -> Z;
  uninit : Z -> list Z;
  fmt_error : lua_error -> string;
  c_function : F -> M S lua_error Z;
  lua_function : ptr -> list tvalue -> M S lua_error (list tvalue)
}.

(** A stack slot, the shared nil of an invalid index, a value held in a
    temporary or in the registry root, or an upvalue. *)
Inductive adr :=
  | AStk (i : nat)
  | ANil
  | AVal (v : tvalue)
  | AUp (f : ptr) (i : nat).

Section Api.
Context {V F St : Type} `{!HasLua St (lua_state V F)} `{!LuaVM V F St}.

Let L : Type := lua_state V F.
Let prog (A : Type) : Type := M St lua_error A.

Definition lget : prog L := gets get_lua.
Definition lmod (f : L -> L) : prog unit := modify (fun s => put_lua (f (get_lua s)) s).

Definition push (v : tvalue) : prog unit := lmod (fun l => set_stack (stack l ++ [v]) l).

Definition get_tab (t : ptr) : prog (gctab V) := l <- lget ;; orfail NullDeref (tabs l !! t).
Definition put_tab (t : ptr) (g : gctab V) : prog unit :=
  lmod (fun l => set_tabs (<[t := g]> (tabs l)) l).

(** Reads of a wrongly typed value through [tabV], [strV], ...: the tag is not
    checked. *)
Definition tabV (v : tvalue) : prog ptr :=
  match v with TTab t => ret t | _ => fail Unspecified end.

(** ** [lj_tab.c]: a table as a finite map *)

Definition tab_get (t : gctab V) (k : tvalue) : tvalue := default TNil (hash t !! norm_key k).
Definition tab_put (k v : tvalue) (t : gctab V) : gctab V :=
  if decide (v = TNil) then set_hash (delete (norm_key k) (hash t)) t
  else set_hash (<[norm_key k := v]> (hash t)) t.

(** The checks of [lj_tab_set] on a new key. *)
Definition check_key (t : gctab V) (k : tvalue) : prog unit :=
  match k with
  | TNil => raise (ErrMsg "table index is nil")
  | TNum S754_nan => raise (ErrMsg "table index is NaN")
  | _ => skip
  end.

Definition alloc : prog ptr :=
  l <- lget ;; lmod (set_next_obj (Pos.succ (next_obj l))) ;;; ret (next_obj l).

Definition lj_tab_new : prog ptr := t <- alloc ;; put_tab t new_tab ;;; ret t.

(** ** Indices *)

Definition index_up (f : ptr) (idx : Z) : prog adr :=
  l <- lget ;;
  match funcs l !! f with
  | Some (FuncC _ up env) =>
      if idx =? LUA_ENVIRONINDEX then ret (AVal (TTab env)) else
      let i := LUA_GLOBALSINDEX - idx in
      ret (if i <=? Z.of_nat (length up) then AUp f (Z.to_nat (i - 1)) else ANil)
  | _ => fail Unspecified
  end.

Definition stkindex2adr (idx : Z) : prog adr :=
  l <- lget ;;
  let n := Z.of_nat (length (stack l)) in
  if 0 <? idx then ret (if idx - 1 <? n then AStk (Z.to_nat (idx - 1)) else ANil)
  else if (idx =? 0) || (n <? - idx) then fail OutOfBounds
  else ret (AStk (Z.to_nat (n + idx))).

Definition index2adr (idx : Z) : prog adr :=
  if LUA_REGISTRYINDEX <? idx then stkindex2adr idx else
  l <- lget ;;
  if idx =? LUA_GLOBALSINDEX then ret (AVal (TTab (env_tab l)))
  else if idx =? LUA_REGISTRYINDEX then ret (AVal (TTab (registry l)))
  else match curr_func l with
       | Some f => index_up f idx
       | None => fail Unspecified
       end.

Definition read (a : adr) : prog tvalue :=
  l <- lget ;;
  match a with
  | AStk i => orfail OutOfBounds (stack l !! i)
  | ANil => ret TNil
  | AVal v => ret v
  | AUp f i =>
      match funcs l !! f with
      | Some (FuncC _ up _) => orfail OutOfBounds (up !! i)
      | _ => fail Unspecified
      end
  end.

Definition write (a : adr) (v : tvalue) : prog unit :=
  l <- lget ;;
  match a with
  | AStk i => lmod (fun l => set_stack (<[i := v]> (stack l)) l)
  | AUp f i =>
      match funcs l !! f with
      | Some (FuncC g up env) => lmod (fun l => set_funcs (<[f := FuncC g (<[i := v]> up) env]> (funcs l)) l)
      | _ => fail Unspecified
      end
  | ANil | AVal _ => fail Unspecified
  end.

Definition at_index (idx : Z) : prog tvalue := a <- index2adr idx ;; read a.

Definition getcurrenv : prog ptr :=
  l <- lget ;;
  match curr_func l ≫= (fun f => funcs l !! f) with
  | Some (FuncC _ _ e) | Some (FuncL e) => ret e
  | None => ret (env_tab l)
  end.

(** ** Stack manipulation *)

Definition lua_gettop : prog Z := l <- lget ;; ret (Z.of_nat (length (stack l))).

Definition lua_settop (idx : Z) : prog unit :=
  l <- lget ;;
  let n := length (stack l) in
  if 0 <=? idx then
    lmod (set_stack (take (Z.to_nat idx) (stack l) ++ replicate (Z.to_nat idx - n) TNil))
  else if Z.of_nat n <? - (idx + 1) then fail OutOfBounds
  else lmod (set_stack (take (Z.to_nat (Z.of_nat n + idx + 1)) (stack l))).

Definition lua_pop (n : Z) : prog unit := lua_settop (- n - 1).

Definition lua_checkstack (size : Z) : prog bool :=
  l <- lget ;;
  ret (negb ((LUAI_MAXCSTACK <? size) || (LUAI_MAXCSTACK <? Z.of_nat (length (stack l)) + size))).

Definition luaL_checkstack (size : Z) (msg : string) : prog unit :=
  ok <- lua_checkstack size ;;
  if ok then skip else raise (ErrMsg ("stack overflow (" +:+ msg +:+ ")")).

(** The slot a stack index must name. *)
Definition slot (idx : Z) : prog nat :=
  a <- stkindex2adr idx ;;
  match a with AStk i => ret i | _ => fail OutOfBounds end.

Definition lua_remove (idx : Z) : prog unit :=
  i <- slot idx ;; lmod (fun l => set_stack (delete i (stack l)) l).

Definition lua_insert (idx : Z) : prog unit :=
  i <- slot idx ;;
  lmod (fun l =>
    set_stack (take i (stack l) ++ from_option (fun v => [v]) [] (stack l !! (length (stack l) - 1)%nat)
               ++ drop i (take (length (stack l) - 1) (stack l))) l).

Definition lua_replace (idx : Z) : prog unit :=
  v <- at_index (-1) ;;
  (if idx =? LUA_GLOBALSINDEX then
     t <- tabV v ;; lmod (set_env_tab t)
   else if idx =? LUA_ENVIRONINDEX then
     l <- lget ;;
     match curr_func l, v with
     | Some f, TTab t =>
         match funcs l !! f with
         | Some (FuncC g up _) => lmod (fun l => set_funcs (<[f := FuncC g up t]> (funcs l)) l)
         | _ => fail Unspecified
         end
     | None, _ => raise (ErrMsg "no calling environment")
     | _, _ => fail Unspecified
     end
   else a <- index2adr idx ;; write a v) ;;;
  lua_pop 1.

Definition lua_pushvalue (idx : Z) : prog unit := v <- at_index idx ;; push v.

(** ** Stack getters *)

Definition lua_type (idx : Z) : prog Z :=
  a <- index2adr idx ;;
  match a with ANil => ret LUA_TNONE | _ => v <- read a ;; ret (type_of v) end.

Definition lua_isfunction (idx : Z) : prog bool := t <- lua_type idx ;; ret (t =? LUA_TFUNCTION).
Definition lua_istable (idx : Z) : prog bool := t <- lua_type idx ;; ret (t =? LUA_TTABLE).
Definition lua_isnil (idx : Z) : prog bool := t <- lua_type idx ;; ret (t =? LUA_TNIL).
Definition lua_isnoneornil (idx : Z) : prog bool := t <- lua_type idx ;; ret (t <=? 0).

Definition typename (t : Z) : string :=
  default "no value" (["no value"; "nil"; "boolean"; "userdata"; "number"; "string"; "table";
                      "function"; "userdata"; "thread"] !! Z.to_nat (t + 1)).

Definition luaL_checktype (idx tt : Z) : prog unit :=
  t <- lua_type idx ;;
  if t =? tt then skip else raise (ErrArgType idx (typename tt)).

Definition luaL_checkany (idx : Z) : prog unit :=
  a <- index2adr idx ;;
  match a with ANil => raise (ErrArg idx "value expected") | _ => skip end.

Definition lua_isnumber (idx : Z) : prog bool :=
  v <- at_index idx ;;
  ret match v with
      | TNum _ => true
      | TStr s => bool_decide (is_Some (strscan_num s))
      | _ => false
      end.

Definition lua_isstring (idx : Z) : prog bool :=
  v <- at_index idx ;; ret match v with TStr _ | TNum _ => true | _ => false end.

Definition lua_isuserdata (idx : Z) : prog bool :=
  v <- at_index idx ;; ret match v with TUdata _ | TLight _ => true | _ => false end.

Definition raw_equal (v w : tvalue) : bool :=
  match v, w with TNum m, TNum n => num_eqb m n | _, _ => bool_decide (v = w) end.

Definition lua_rawequal (idx1 idx2 : Z) : prog bool :=
  a <- index2adr idx1 ;;
  b <- index2adr idx2 ;;
  match a, b with
  | ANil, _ | _, ANil => ret false
  | _, _ => v <- read a ;; w <- read b ;; ret (raw_equal v w)
  end.

(** The number a value stands for. *)
Definition as_number (v : tvalue) : option number :=
  match v with TNum n => Some n | TStr s => strscan_num s | _ => None end.

Definition lua_tonumber (idx : Z) : prog number :=
  v <- at_index idx ;; ret (default (num_of_Z 0) (as_number v)).

Definition luaL_checknumber (idx : Z) : prog number :=
  v <- at_index idx ;;
  match as_number v with Some n => ret n | None => raise (ErrArgType idx "number") end.

Definition luaL_optnumber (idx : Z) (def : number) : prog number :=
  v <- at_index idx ;;
  if decide (v = TNil) then ret def else
  match as_number v with Some n => ret n | None => raise (ErrArgType idx "number") end.

(** [(lua_Integer)n] on a 64-bit target *)
Definition to_integer (n : number) : prog Z := orfail Unspecified (cast_int64 n).

Definition lua_tointeger (idx : Z) : prog Z :=
  v <- at_index idx ;;
  match as_number v with Some n => to_integer n | None => ret 0 end.

Definition luaL_checkinteger (idx : Z) : prog Z :=
  v <- at_index idx ;;
  match as_number v with Some n => to_integer n | None => raise (ErrArgType idx "number") end.

Definition luaL_optinteger (idx def : Z) : prog Z :=
  v <- at_index idx ;;
  if decide (v = TNil) then ret def else
  match as_number v with Some n => to_integer n | None => raise (ErrArgType idx "number") end.

Definition lua_toboolean (idx : Z) : prog bool := v <- at_index idx ;; ret (truecond v).

(** A number is converted to a string where it stands. *)
Definition string_at (idx : Z) : prog (option string) :=
  a <- index2adr idx ;;
  v <- read a ;;
  match v with
  | TStr s => ret (Some s)
  | TNum n => write a (TStr (str_fromnumber n)) ;;; ret (Some (str_fromnumber n))
  | _ => ret None
  end.

Definition lua_tolstring (idx : Z) : prog (option string) := string_at idx.

Definition luaL_checklstring (idx : Z) : prog string :=
  s <- string_at idx ;;
  match s with Some s => ret s | None => raise (ErrArgType idx "string") end.

Definition luaL_optlstring (idx : Z) (def : option string) : prog (option string) :=
  v <- at_index idx ;;
  if decide (v = TNil) then ret def else
  s <- string_at idx ;;
  match s with Some s => ret (Some s) | None => raise (ErrArgType idx "string") end.

Fixpoint index_of (s : string) (lst : list string) : option nat :=
  match lst with
  | [] => None
  | x :: lst => if decide (x = s) then Some O else Nat.succ <$> index_of s lst
  end.

Definition luaL_checkoption (idx : Z) (def : option string) (lst : list string) : prog Z :=
  s <- lua_tolstring idx ;;
  match (match s with Some s => Some s | None => def end) with
  | None => raise (ErrArgType idx "string")
  | Some s =>
      match index_of s lst with
      | Some i => ret (Z.of_nat i)
      | None => raise (ErrArg idx ("invalid option '" +:+ s +:+ "'"))
      end
  end.

Definition lua_objlen (idx : Z) : prog Z :=
  a <- index2adr idx ;;
  v <- read a ;;
  match v with
  | TStr s => ret (Z.of_nat (String.length s))
  | TTab t => g <- get_tab t ;; ret (tab_len (hash g))
  | TUdata u => l <- lget ;; g <- orfail NullDeref (udatas l !! u) ;; ret (ud_len g)
  | TNum n =>
      write a (TStr (str_fromnumber n)) ;;; ret (Z.of_nat (String.length (str_fromnumber n)))
  | _ => ret 0
  end.

Definition lua_touserdata (idx : Z) : prog (option ptr) :=
  v <- at_index idx ;;
  ret match v with TUdata u => Some u | TLight p => p | _ => None end.

(** ** Stack setters *)

Definition lua_pushnil : prog unit := push TNil.
Definition lua_pushnumber (n : number) : prog unit := push (TNum n).
Definition lua_pushinteger (n : Z) : prog unit := push (TNum (num_of_Z n)).
Definition lua_pushlstring (s : string) : prog unit := push (TStr s).
Definition lua_pushstring (s : option string) : prog unit :=
  match s with None => push TNil | Some s => push (TStr s) end.
Definition lua_pushboolean (b : bool) : prog unit := push (TBool b).
Definition lua_pushlightuserdata (p : option ptr) : prog unit := push (TLight p).

Definition lua_pushcclosure (f : F) (n : nat) : prog unit :=
  l <- lget ;;
  env <- getcurrenv ;;
  let m := length (stack l) in
  if (m <? n)%nat then fail OutOfBounds else
  p <- alloc ;;
  lmod (fun l => set_funcs (<[p := FuncC f (drop (m - n) (stack l)) env]> (funcs l)) l) ;;;
  lmod (fun l => set_stack (take (m - n) (stack l)) l) ;;;
  push (TFunc p).

Definition lua_pushcfunction (f : F) : prog unit := lua_pushcclosure f 0.

Definition lua_createtable : prog unit := t <- lj_tab_new ;; push (TTab t).
Definition lua_newtable : prog unit := lua_createtable.

Definition luaL_newmetatable (tname : string) : prog bool :=
  l <- lget ;;
  g <- get_tab (registry l) ;;
  let v := tab_get g (TStr tname) in
  if decide (v = TNil) then
    t <- lj_tab_new ;;
    g <- get_tab (registry l) ;;
    put_tab (registry l) (tab_put (TStr tname) (TTab t) g) ;;;
    push (TTab t) ;;; ret true
  else push v ;;; ret false.

Definition lua_newuserdata (size : Z) : prog ptr :=
  if LJ_MAX_UDATA <? size then raise (ErrMsg "userdata length overflow") else
  env <- getcurrenv ;;
  u <- alloc ;;
  lmod (fun l => set_udatas (<[u := GCudata size None env (uninit size)]> (udatas l)) l) ;;;
  push (TUdata u) ;;; ret u.

(** ** Calls *)

Definition metatable_of (v : tvalue) : prog (option ptr) :=
  l <- lget ;;
  match v with
  | TTab t => g <- get_tab t ;; ret (metatable g)
  | TUdata u => g <- orfail NullDeref (udatas l !! u) ;; ret (ud_metatable g)
  | v => ret (basemt l !! type_of v)
  end.

(** [lj_meta_lookup] *)
Definition meta_lookup (v : tvalue) (mm : string) : prog tvalue :=
  mt <- metatable_of v ;;
  match mt with
  | Some t => g <- get_tab t ;; ret (tab_get g (TStr mm))
  | None => ret TNil
  end.

(** A C function runs in a frame of its own: its arguments are its stack, and
    it returns the top [n] values; a negative [n] is taken for a yield, and
    coroutines are not modelled. *)
Definition run_c (f : ptr) (name : F) (args : list tvalue) : prog (list tvalue) :=
  l <- lget ;;
  lmod (fun l => set_curr_func (Some f) (set_stack args l)) ;;;
  n <- c_function name ;;
  if n <? 0 then fail Unspecified else
  l' <- lget ;;
  lmod (fun l' => set_curr_func (curr_func l) (set_stack (stack l) l')) ;;;
  ret (drop (length (stack l') - Z.to_nat n) (stack l')).

Definition run_function (f : ptr) (args : list tvalue) : prog (list tvalue) :=
  l <- lget ;;
  match funcs l !! f with
  | Some (FuncC name _ _) => run_c f name args
  | Some (FuncL _) => lua_function f args
  | None => fail NullDeref
  end.

(** [lj_vm_call] with the function and its arguments already off the stack *)
Definition vm_call (fn : tvalue) (args : list tvalue) : prog (list tvalue) :=
  match fn with
  | TFunc f => run_function f args
  | v =>
      mo <- meta_lookup v "__call" ;;
      match mo with
      | TFunc f => run_function f (v :: args)
      | _ => raise (ErrCall v)
      end
  end.

Definition adjust (nresults : Z) (rs : list tvalue) : list tvalue :=
  if nresults <? 0 then rs
  else take (Z.to_nat nresults) (rs ++ replicate (Z.to_nat nresults) TNil).

(** The function and its [nargs] arguments, taken off the stack. *)
Definition take_call (nargs : nat) : prog (tvalue * list tvalue) :=
  l <- lget ;;
  let k := (length (stack l) - S nargs)%nat in
  match drop k (stack l) with
  | fn :: args =>
      if (length (stack l) <? S nargs)%nat then fail OutOfBounds else
      lmod (set_stack (take k (stack l))) ;;; ret (fn, args)
  | [] => fail OutOfBounds
  end.

Definition push_all (vs : list tvalue) : prog unit := lmod (fun l => set_stack (stack l ++ vs) l).

Definition lua_call (nargs : nat) (nresults : Z) : prog unit :=
  c <- take_call nargs ;;
  rs <- vm_call c.1 c.2 ;;
  push_all (adjust nresults rs).

(** The value an error leaves for [lua_pcall]. *)
Definition err_value (e : lua_error) : tvalue :=
  match e with ErrValue v => v | e => TStr (fmt_error e) end.

(** [lua_pcall]: an error unwinds to the caller's frame, whose stack then
    holds the error value, passed through the handler at [errfunc] if that is
    not 0; [exit] and faults pass through. *)
Definition lua_pcall (nargs : nat) (nresults errfunc : Z) : prog Z :=
  h <- (if errfunc =? 0 then ret None else i <- slot errfunc ;; v <- read (AStk i) ;; ret (Some v)) ;;
  c <- take_call nargs ;;
  l0 <- lget ;;
  fun s =>
    match vm_call c.1 c.2 s with
    | Ret rs s => (push_all (adjust nresults rs) ;;; ret 0) s
    | Raise e s =>
        (lmod (fun l => set_curr_func (curr_func l0) (set_stack (stack l0) l)) ;;;
         match h with
         | None => push (err_value e)
         | Some h => rs <- vm_call h [err_value e] ;; push_all (adjust 1 rs)
         end ;;; ret LUA_ERRRUN) s
    | Halt c s => Halt c s
    | Fault w => Fault w
    end.

(** ** Object getters *)

(** [lj_meta_tget]: the value, or the metamethod to call with the object. *)
Fixpoint lj_meta_tget (loop : nat) (o k : tvalue) : prog (tvalue + tvalue * tvalue) :=
  match loop with
  | O => raise (ErrMsg "loop in gettable")
  | S loop =>
      let chain := fun mo =>
        match mo with
        | TFunc _ => ret (inr (mo, o))
        | mo => lj_meta_tget loop mo k
        end in
      match o with
      | TTab t =>
          g <- get_tab t ;;
          mo <- meta_lookup o "__index" ;;
          let v := tab_get g k in
          if bool_decide (v <> TNil) || bool_decide (mo = TNil) then ret (inl v) else chain mo
      | _ =>
          mo <- meta_lookup o "__index" ;;
          if bool_decide (mo = TNil) then raise (ErrIndex o) else chain mo
      end
  end.

Definition get_value (o k : tvalue) : prog tvalue :=
  r <- lj_meta_tget LJ_MAX_IDXCHAIN o k ;;
  match r with
  | inl v => ret v
  | inr (mo, o) => rs <- vm_call mo [o; k] ;; ret (default TNil (head rs))
  end.

Definition valid_index (idx : Z) : prog tvalue :=
  a <- index2adr idx ;; match a with ANil => fail OutOfBounds | a => read a end.

Definition lua_gettable (idx : Z) : prog unit :=
  t <- valid_index idx ;;
  k <- at_index (-1) ;;
  v <- get_value t k ;;
  lua_pop 1 ;;; push v.

Definition lua_getfield (idx : Z) (k : string) : prog unit :=
  t <- valid_index idx ;; v <- get_value t (TStr k) ;; push v.

Definition lua_getglobal (k : string) : prog unit := lua_getfield LUA_GLOBALSINDEX k.
Definition luaL_getmetatable (k : string) : prog unit := lua_getfield LUA_REGISTRYINDEX k.

Definition lua_rawget (idx : Z) : prog unit :=
  v <- at_index idx ;;
  t <- tabV v ;;
  k <- at_index (-1) ;;
  g <- get_tab t ;;
  lua_pop 1 ;;; push (tab_get g k).

Definition lua_rawgeti (idx n : Z) : prog unit :=
  v <- at_index idx ;;
  t <- tabV v ;;
  g <- get_tab t ;;
  push (tab_get g (int_key n)).

Definition lua_getmetatable (idx : Z) : prog bool :=
  v <- at_index idx ;;
  mt <- metatable_of v ;;
  match mt with
  | None => ret false
  | Some t => push (TTab t) ;;; ret true
  end.

Definition luaL_getmetafield (idx : Z) (field : string) : prog bool :=
  ok <- lua_getmetatable idx ;;
  if negb ok then ret false else
  v <- at_index (-1) ;;
  t <- tabV v ;;
  g <- get_tab t ;;
  let f := tab_get g (TStr field) in
  lua_pop 1 ;;;
  if bool_decide (f = TNil) then ret false else push f ;;; ret true.

(** The object is looked up after [L->top--] has dropped the metafield. *)
Definition luaL_callmeta (idx : Z) (field : string) : prog bool :=
  ok <- luaL_getmetafield idx field ;;
  if negb ok then ret false else
  f <- at_index (-1) ;;
  lua_pop 1 ;;;
  o <- at_index idx ;;
  rs <- vm_call f [o] ;;
  push_all (adjust 1 rs) ;;; ret true.

Definition luaL_checkudata (idx : Z) (tname : string) : prog ptr :=
  v <- at_index idx ;;
  l <- lget ;;
  g <- get_tab (registry l) ;;
  match v with
  | TUdata u =>
      ud <- orfail NullDeref (udatas l !! u) ;;
      if bool_decide (is_Some (ud_metatable ud)) &&
         bool_decide (tab_get g (TStr tname) = from_option TTab TNil (ud_metatable ud))
      then ret u else raise (ErrArgType idx tname)
  | _ => raise (ErrArgType idx tname)
  end.

(** ** Object setters *)

(** [lj_meta_tset]: the table to write, or the metamethod to call. *)
Fixpoint lj_meta_tset (loop : nat) (o k : tvalue) : prog (ptr + tvalue * tvalue) :=
  match loop with
  | O => raise (ErrMsg "loop in settable")
  | S loop =>
      let chain := fun mo =>
        match mo with
        | TFunc _ => ret (inr (mo, o))
        | mo => lj_meta_tset loop mo k
        end in
      match o with
      | TTab t =>
          g <- get_tab t ;;
          mo <- meta_lookup o "__newindex" ;;
          if bool_decide (tab_get g k <> TNil) then ret (inl t)
          else if bool_decide (mo = TNil) then check_key g k ;;; ret (inl t)
          else chain mo
      | _ =>
          mo <- meta_lookup o "__newindex" ;;
          if bool_decide (mo = TNil) then raise (ErrIndex o) else chain mo
      end
  end.

Definition set_value (o k v : tvalue) : prog unit :=
  r <- lj_meta_tset LJ_MAX_IDXCHAIN o k ;;
  match r with
  | inl t => g <- get_tab t ;; put_tab t (tab_put k v g)
  | inr (mo, o) => vm_call mo [o; k; v] ;;; skip
  end.

Definition lua_settable (idx : Z) : prog unit :=
  t <- valid_index idx ;;
  k <- at_index (-2) ;;
  v <- at_index (-1) ;;
  set_value t k v ;;;
  lua_pop 2.

Definition lua_setfield (idx : Z) (k : string) : prog unit :=
  t <- valid_index idx ;;
  v <- at_index (-1) ;;
  set_value t (TStr k) v ;;;
  lua_pop 1.

Definition lua_setglobal (k : string) : prog unit := lua_setfield LUA_GLOBALSINDEX k.

Definition lua_rawset (idx : Z) : prog unit :=
  v <- at_index idx ;;
  t <- tabV v ;;
  k <- at_index (-2) ;;
  x <- at_index (-1) ;;
  g <- get_tab t ;;
  check_key g k ;;;
  put_tab t (tab_put k x g) ;;;
  lua_pop 2.

Definition lua_rawseti (idx n : Z) : prog unit :=
  v <- at_index idx ;;
  t <- tabV v ;;
  x <- at_index (-1) ;;
  g <- get_tab t ;;
  put_tab t (tab_put (int_key n) x g) ;;;
  lua_pop 1.

Definition lua_setmetatable (idx : Z) : prog unit :=
  o <- valid_index idx ;;
  m <- at_index (-1) ;;
  mt <- (match m with TNil => ret None | m => t <- tabV m ;; ret (Some t) end) ;;
  match o with
  | TTab t => g <- get_tab t ;; put_tab t (set_metatable_of mt g)
  | TUdata u =>
      l <- lget ;;
      ud <- orfail NullDeref (udatas l !! u) ;;
      lmod (fun l => set_udatas (<[u := GCudata (ud_len ud) mt (ud_env ud) (ud_bytes ud)]>
                                 (udatas l)) l)
  | o => lmod (fun l => set_basemt (match mt with
                                    | Some t => <[type_of o := t]> (basemt l)
                                    | None => delete (type_of o) (basemt l)
                                    end) l)
  end ;;;
  lua_pop 1.

(** ** [lib_aux.c]: references *)

Definition FREELIST_REF : Z := 0.

Definition abs_index (i : Z) : prog Z :=
  if (0 <? i) || (i <=? LUA_REGISTRYINDEX) then ret i else n <- lua_gettop ;; ret (n + i + 1).

Definition luaL_ref (t : Z) : prog Z :=
  t <- abs_index t ;;
  nil <- lua_isnil (-1) ;;
  if nil then lua_pop 1 ;;; ret LUA_REFNIL else
  lua_rawgeti t FREELIST_REF ;;;
  n <- lua_tointeger (-1) ;;
  let ref := i32 n in
  lua_pop 1 ;;;
  ref <- (if negb (ref =? 0) then
            lua_rawgeti t ref ;;; lua_rawseti t FREELIST_REF ;;; ret ref
          else
            n <- lua_objlen t ;; ret (i32 (i32 n + 1))) ;;
  lua_rawseti t ref ;;;
  ret ref.

Definition luaL_unref (t ref : Z) : prog unit :=
  if 0 <=? ref then
    t <- abs_index t ;;
    lua_rawgeti t FREELIST_REF ;;;
    lua_rawseti t ref ;;;
    lua_pushinteger ref ;;;
    lua_rawseti t FREELIST_REF
  else skip.
End Api.

(** A Lua state next to the rest of a program's state. *)
#[export] Instance lua_fst (L W : Type) : HasLua (L * W) L :=
  {| get_lua s := s.1; put_lua l s := (l, s.2) |}.
#[export] Instance lua_fst_laws (L W : Type) : HasLuaLaws (L * W) L.
Proof. split; [done..|by intros []]. Qed.
