(* ===== verification/LuaRun.v ===== *)
(** * Reasoning about the Lua API

    [runs m l a l'] says that [m], started with the Lua state [l], returns [a]
    and leaves [l'], whatever surrounds the Lua state; the rules below are one
    per API function the clients use. *)

From stdpp Require Import base option strings countable gmap list.
From Stdlib Require Import ZArith Lia SpecFloat.
From S2P Require Import Prelude Number LuaApi.

Local Open Scope Z_scope.

(** The integer keys of a table are the numbers of their values. *)
Lemma int_key_inj m n : - 2 ^ 53 < m < 2 ^ 53 -> - 2 ^ 53 < n < 2 ^ 53 ->
  int_key m = int_key n -> m = n.
Proof.
  intros Hm Hn [= E]. apply (f_equal trunc_num) in E.
  rewrite !trunc_num_of_Z in E by done. by injection E.
Qed.

Lemma norm_int_key n : - 2 ^ 53 < n < 2 ^ 53 -> norm_key (int_key n) = int_key n.
Proof.
  intros Hn. unfold int_key, norm_key, num_of_Z, binary_normalize. destruct n as [|m|m]; [done|..].
  - by destruct (binary_round_small false m ltac:(lia)) as (m' & k & -> & _).
  - by destruct (binary_round_small true m ltac:(lia)) as (m' & k & -> & _).
Qed.

Section Run.
Context {V F St : Type} `{!HasLua St (lua_state V F)} `{!HasLuaLaws St (lua_state V F)} `{!LuaVM V F St}.

Let L : Type := lua_state V F.
Let prog (A : Type) : Type := M St lua_error A.
Implicit Types (l : L) (s : St).

Definition runs {A} (m : prog A) l (a : A) l' : Prop :=
  forall s, get_lua s = l -> m s = Ret a (put_lua l' s).

Definition raises {A} (m : prog A) l (e : lua_error) l' : Prop :=
  forall s, get_lua s = l -> m s = Raise e (put_lua l' s).

Lemma runs_bind {A B} (m : prog A) (k : A -> prog B) l a l1 b l2 :
  runs m l a l1 -> runs (k a) l1 b l2 -> runs (bind m k) l b l2.
Proof.
  intros Hm Hk s Hs. unfold bind. rewrite (Hm s Hs).
  rewrite (Hk (put_lua l1 s)) by apply get_put. by rewrite put_put.
Qed.

Lemma raises_bind {A B} (m : prog A) (k : A -> prog B) l e l1 :
  raises m l e l1 -> raises (bind m k) l e l1.
Proof. intros Hm s Hs. unfold bind. by rewrite (Hm s Hs). Qed.

Lemma runs_raises {A B} (m : prog A) (k : A -> prog B) l a l1 e l2 :
  runs m l a l1 -> raises (k a) l1 e l2 -> raises (bind m k) l e l2.
Proof.
  intros Hm Hk s Hs. unfold bind. rewrite (Hm s Hs).
  rewrite (Hk (put_lua l1 s)) by apply get_put. by rewrite put_put.
Qed.

Lemma runs_ret {A} (a : A) l : runs (ret a) l a l.
Proof. intros s <-. unfold ret. by rewrite put_get. Qed.

Lemma runs_eq {A} (m : prog A) l a l1 l2 : runs m l a l1 -> l1 = l2 -> runs m l a l2.
Proof. by intros ? <-. Qed.

Lemma runs_skip l : runs skip l tt l.
Proof. apply runs_ret. Qed.

Lemma runs_lget l : runs lget l l l.
Proof. intros s <-. unfold lget, gets. by rewrite put_get. Qed.

Lemma runs_lmod f l : runs (lmod f) l tt (f l).
Proof. by intros s <-. Qed.

Lemma runs_orfail {A} w (o : option A) a l : o = Some a -> runs (orfail w o) l a l.
Proof. intros ->. apply runs_ret. Qed.

Lemma raises_raise {A} e l : raises (A := A) (raise e) l e l.
Proof. intros s <-. unfold raise. by rewrite put_get. Qed.

Lemma runs_push v l : runs (push v) l tt (set_stack (stack l ++ [v]) l).
Proof. by intros s <-. Qed.

Lemma runs_get_tab t g l : tabs l !! t = Some g -> runs (get_tab t) l g l.
Proof. intros Ht. eapply runs_bind; [apply runs_lget|]. by apply runs_orfail. Qed.

Lemma runs_put_tab t g l : runs (put_tab t g) l tt (set_tabs (<[t := g]> (tabs l)) l).
Proof. by intros s <-. Qed.

(** ** Indices *)

Lemma runs_stk_pos l idx : 0 < idx <= Z.of_nat (length (stack l)) ->
  runs (stkindex2adr idx) l (AStk (Z.to_nat (idx - 1))) l.
Proof.
  intros Hi. eapply runs_bind; [apply runs_lget|]. cbn beta zeta.
  assert ((0 <? idx) = true) as -> by (apply Z.ltb_lt; lia).
  assert ((idx - 1 <? Z.of_nat (length (stack l))) = true) as -> by (apply Z.ltb_lt; lia).
  apply runs_ret.
Qed.

Lemma runs_stk_neg l idx : idx < 0 -> - idx <= Z.of_nat (length (stack l)) ->
  runs (stkindex2adr idx) l (AStk (Z.to_nat (Z.of_nat (length (stack l)) + idx))) l.
Proof.
  intros Hi Hn. eapply runs_bind; [apply runs_lget|]. cbn beta zeta.
  assert ((0 <? idx) = false) as -> by (apply Z.ltb_ge; lia).
  assert ((idx =? 0) = false) as -> by (apply Z.eqb_neq; lia).
  assert ((Z.of_nat (length (stack l)) <? - idx) = false) as -> by (apply Z.ltb_ge; lia).
  apply runs_ret.
Qed.

Lemma runs_read_stk l i v : stack l !! i = Some v -> runs (read (AStk i)) l v l.
Proof. intros Hi. eapply runs_bind; [apply runs_lget|]. by apply runs_orfail. Qed.

Lemma runs_read_val l v : runs (read (AVal v)) l v l.
Proof. eapply runs_bind; [apply runs_lget|]. apply runs_ret. Qed.

(** [idx > 0] within the stack, and [idx < 0] counted from the top. *)
Lemma runs_adr_pos l idx : 0 < idx <= Z.of_nat (length (stack l)) ->
  runs (index2adr idx) l (AStk (Z.to_nat (idx - 1))) l.
Proof.
  intros Hi. unfold index2adr.
  assert ((LUA_REGISTRYINDEX <? idx) = true) as -> by (apply Z.ltb_lt; unfold LUA_REGISTRYINDEX; lia).
  by apply runs_stk_pos.
Qed.

Lemma runs_adr_neg l idx : LUA_REGISTRYINDEX < idx < 0 -> - idx <= Z.of_nat (length (stack l)) ->
  runs (index2adr idx) l (AStk (Z.to_nat (Z.of_nat (length (stack l)) + idx))) l.
Proof.
  intros Hi Hn. unfold index2adr.
  assert ((LUA_REGISTRYINDEX <? idx) = true) as -> by (apply Z.ltb_lt; lia).
  apply runs_stk_neg; lia.
Qed.

Lemma runs_at_neg l idx v :
  LUA_REGISTRYINDEX < idx < 0 -> - idx <= Z.of_nat (length (stack l)) ->
  stack l !! Z.to_nat (Z.of_nat (length (stack l)) + idx) = Some v ->
  runs (at_index idx) l v l.
Proof. intros Hi Hn Hv. eapply runs_bind; [by apply runs_adr_neg|]. by apply runs_read_stk. Qed.

Lemma runs_at_pos l idx v : 0 < idx -> stack l !! Z.to_nat (idx - 1) = Some v ->
  runs (at_index idx) l v l.
Proof.
  intros Hi Hv. pose proof (lookup_lt_Some _ _ _ Hv). eapply runs_bind.
  - apply runs_adr_pos. lia.
  - by apply runs_read_stk.
Qed.

Lemma runs_at_top l st v : stack l = st ++ [v] -> runs (at_index (-1)) l v l.
Proof.
  intros Hst. apply runs_at_neg; [done| |]; rewrite Hst, length_app; simpl; [lia|].
  replace (Z.to_nat (Z.of_nat (length st + 1) + -1)) with (length st) by lia.
  by apply list_lookup_middle.
Qed.

Lemma runs_at_registry l : runs (at_index LUA_REGISTRYINDEX) l (TTab (registry l)) l.
Proof.
  eapply runs_bind; [|apply runs_read_val]. eapply runs_bind; [apply runs_lget|]. apply runs_ret.
Qed.

Lemma runs_at_globals l : runs (at_index LUA_GLOBALSINDEX) l (TTab (env_tab l)) l.
Proof.
  eapply runs_bind; [|apply runs_read_val]. eapply runs_bind; [apply runs_lget|]. apply runs_ret.
Qed.

Lemma runs_tabV l t : runs (tabV (TTab t)) l t l.
Proof. apply runs_ret. Qed.

(** ** The stack *)

Lemma runs_settop_neg l idx k : idx = - Z.of_nat k - 1 -> (k <= length (stack l))%nat ->
  runs (lua_settop idx) l tt (set_stack (take (length (stack l) - k) (stack l)) l).
Proof.
  intros -> Hk. eapply runs_bind; [apply runs_lget|]. cbn beta zeta.
  assert ((0 <=? - Z.of_nat k - 1) = false) as -> by (apply Z.leb_gt; lia).
  assert ((Z.of_nat (length (stack l)) <? - (- Z.of_nat k - 1 + 1)) = false) as ->
    by (apply Z.ltb_ge; lia).
  replace (Z.to_nat (Z.of_nat (length (stack l)) + (- Z.of_nat k - 1) + 1))
    with (length (stack l) - k)%nat by lia.
  by intros s <-.
Qed.

Lemma runs_pop1 l st v : stack l = st ++ [v] -> runs (lua_pop 1) l tt (set_stack st l).
Proof.
  intros Hst. pose proof (runs_settop_neg l (-1 - 1) 1 ltac:(lia)) as H.
  rewrite Hst, length_app in H. simpl in H.
  replace (length st + 1 - 1)%nat with (length st) in H by lia.
  rewrite take_app_length in H. apply H. lia.
Qed.

Lemma runs_popn l st vs n : stack l = st ++ vs -> n = Z.of_nat (length vs) ->
  runs (lua_pop n) l tt (set_stack st l).
Proof.
  intros Hst ->. pose proof (runs_settop_neg l (- Z.of_nat (length vs) - 1) (length vs) ltac:(lia)) as H.
  rewrite Hst, length_app in H.
  replace (length st + length vs - length vs)%nat with (length st) in H by lia.
  rewrite take_app_length in H. apply H. lia.
Qed.

Lemma set_stack_idem l st st' : set_stack st (set_stack st' l) = set_stack st l.
Proof. done. Qed.

Lemma runs_type_top l st v : stack l = st ++ [v] -> runs (lua_type (-1)) l (type_of v) l.
Proof.
  intros Hst. eapply runs_bind.
  - apply runs_adr_neg; [done|]. rewrite Hst, length_app. simpl. lia.
  - cbn beta iota. rewrite Hst, length_app. simpl.
    replace (Z.to_nat (Z.of_nat (length st + 1) + -1)) with (length st) by lia.
    eapply runs_bind; [apply runs_read_stk; rewrite Hst; by apply list_lookup_middle|]. apply runs_ret.
Qed.

(** ** Tables at an absolute or pseudo index *)

(** [idx] names the table [t] wherever the top of the stack is. *)
Definition names (l : L) (idx : Z) (t : ptr) : Prop :=
  (idx = LUA_REGISTRYINDEX /\ registry l = t) \/ (idx = LUA_GLOBALSINDEX /\ env_tab l = t).

Lemma runs_at_names l idx t : names l idx t -> runs (at_index idx) l (TTab t) l.
Proof. intros [[-> <-]|[-> <-]]; [apply runs_at_registry|apply runs_at_globals]. Qed.

Lemma names_stack l idx t st : names l idx t -> names (set_stack st l) idx t.
Proof. done. Qed.

Lemma runs_rawgeti l idx t g n : names l idx t -> tabs l !! t = Some g ->
  runs (lua_rawgeti idx n) l tt (set_stack (stack l ++ [tab_get g (int_key n)]) l).
Proof.
  intros Hi Ht. eapply runs_bind; [by apply runs_at_names|].
  eapply runs_bind; [apply runs_tabV|]. eapply runs_bind; [by apply runs_get_tab|]. apply runs_push.
Qed.

Lemma runs_rawseti l idx t g n st v : names l idx t -> tabs l !! t = Some g -> stack l = st ++ [v] ->
  runs (lua_rawseti idx n) l tt
    (set_stack st (set_tabs (<[t := tab_put (int_key n) v g]> (tabs l)) l)).
Proof.
  intros Hi Ht Hst. eapply runs_bind; [by apply runs_at_names|].
  eapply runs_bind; [apply runs_tabV|]. eapply runs_bind; [by eapply runs_at_top|].
  eapply runs_bind; [by apply runs_get_tab|]. eapply runs_bind; [apply runs_put_tab|].
  apply (runs_pop1 _ st v). done.
Qed.
End Run.
