(* ===== verification/LuaRef.v ===== *)
(** * References in the registry ([luaL_ref] and [luaL_unref])

    [luaL_ref] keeps the values C code holds on to in the integer slots of a
    table, and the free slots in a list threaded through that table from slot
    0.  [refs_inv] is its invariant: the live references and the free list share
    the slots [1 .. n] out between them. *)

From stdpp Require Import base option strings countable gmap list.
From Stdlib Require Import ZArith Lia SpecFloat.
From S2P Require Import Prelude Number LuaApi LuaRun.

Local Open Scope Z_scope.

(** The length of a table that has a border within [int] is such a border. *)
Class LuaVMLaws (V F St : Type) `{!LuaVM V F St} : Prop := {
  tab_len_border (t : gmap tvalue tvalue) (n : Z) :
    0 <= n <= INT_MAX -> t !! int_key (n + 1) = None ->
    0 <= tab_len t <= INT_MAX /\
    (tab_len t = 0 \/ t !! int_key (tab_len t) <> None) /\
    t !! int_key (tab_len t + 1) = None
}.

Section Tables.
Context {V : Type}.
Implicit Types (g : gctab V) (k v : tvalue).

Lemma tab_get_put g k v k' :
  tab_get (tab_put k v g) k' = if decide (norm_key k' = norm_key k) then v else tab_get g k'.
Proof.
  unfold tab_get, tab_put. destruct (decide (v = TNil)) as [->|]; simpl; case_decide as Hk.
  - by rewrite Hk, lookup_delete_eq.
  - by rewrite lookup_delete_ne.
  - by rewrite Hk, lookup_insert_eq.
  - by rewrite lookup_insert_ne.
Qed.

(** Slot [i] of the table. *)
Definition slot_at g (i : Z) : tvalue := tab_get g (int_key i).

Lemma slot_put g i j v : - 2 ^ 53 < i < 2 ^ 53 -> - 2 ^ 53 < j < 2 ^ 53 ->
  slot_at (tab_put (int_key i) v g) j = if decide (j = i) then v else slot_at g j.
Proof.
  intros Hi Hj. unfold slot_at. rewrite tab_get_put, !norm_int_key by done.
  destruct (decide (j = i)) as [->|]; [by rewrite decide_True|].
  rewrite decide_False; [done|]. intros ?%int_key_inj; done.
Qed.

(** The list threaded through the slots, from slot [a]. *)
Fixpoint free_chain g (a : Z) (free : list Z) : Prop :=
  match free with
  | [] => slot_at g a = TNil
  | f :: free => slot_at g a = int_key f /\ 1 <= f <= INT_MAX /\ free_chain g f free
  end.

Record refs_inv g (n : Z) (free : list Z) (live : gmap Z tvalue) : Prop := {
  ri_bound : 0 <= n < INT_MAX;
  ri_wf k : hash g !! k <> Some TNil;
  ri_chain : free_chain g 0 free;
  ri_nodup : NoDup free;
  ri_free f : f ∈ free -> 1 <= f <= n;
  ri_cover i : 1 <= i <= n -> (i ∈ free) \/ is_Some (live !! i);
  ri_live i v : live !! i = Some v -> 1 <= i <= n /\ (i ∉ free) /\ v <> TNil /\ slot_at g i = v;
  ri_above i : n < i < 2 ^ 53 -> slot_at g i = TNil
}.

Definition ref_key (k : tvalue) : Prop := exists i, 0 <= i <= INT_MAX /\ norm_key k = int_key i.

Lemma free_chain_put g i v a free :
  - 2 ^ 53 < i < 2 ^ 53 -> - 2 ^ 53 < a < 2 ^ 53 -> i <> a -> i ∉ free ->
  free_chain g a free -> free_chain (tab_put (int_key i) v g) a free.
Proof.
  intros Hi. revert a. induction free as [|f free IH]; intros a Ha Hne Hni; simpl.
  - intros <-. rewrite slot_put by done. by rewrite decide_False.
  - rewrite not_elem_of_cons in Hni. destruct Hni as [Hif Hni]. intros (H1 & H2 & H3).
    split; [rewrite slot_put, decide_False by done; done|]. split; [done|].
    apply IH; [unfold INT_MAX in *; lia|done..].
Qed.
End Tables.

Lemma tab_len_full {V F St} `{!LuaVM V F St} `{!LuaVMLaws V F St} (g : gctab V) n live :
  refs_inv g n [] live -> tab_len (hash g) = n.
Proof.
  intros [Hb Hwf _ _ _ Hc Hl Ha].
  assert (forall i, - 2 ^ 53 < i < 2 ^ 53 -> slot_at g i = default TNil (hash g !! int_key i)) as Hslot.
  { intros i Hi. unfold slot_at, tab_get. by rewrite norm_int_key. }
  destruct (tab_len_border (hash g) n) as (Hr & H0 & H1); [lia| |].
  { pose proof (Ha (n + 1) ltac:(unfold INT_MAX in *; lia)) as E.
    rewrite Hslot in E by (unfold INT_MAX in *; lia).
    destruct (hash g !! int_key (n + 1)) as [v|] eqn:Ev; [|done]. simpl in E. subst v.
    by apply Hwf in Ev. }
  set (b := tab_len (hash g)) in *. unfold INT_MAX in *.
  destruct (Z.lt_trichotomy b n) as [Hlt|[|Hgt]]; [|done|].
  - destruct (Hc (b + 1)) as [[]%not_elem_of_nil|[v Hv]]; [lia|].
    destruct (Hl _ _ Hv) as (_ & _ & Hn & Hs). rewrite Hslot in Hs by lia. by rewrite H1 in Hs.
  - exfalso. destruct H0 as [H0|H0]; [lia|]. pose proof (Ha b ltac:(lia)) as Hb'.
    rewrite Hslot in Hb' by lia. destruct (hash g !! int_key b) as [v|] eqn:E; [|done].
    simpl in Hb'. subst v. by apply (Hwf (int_key b)).
Qed.

Lemma put_wf {V} (g : gctab V) k v : (forall k, hash g !! k <> Some TNil) ->
  forall k', hash (tab_put k v g) !! k' <> Some TNil.
Proof.
  intros Hwf k'. unfold tab_put. destruct (decide (v = TNil)) as [->|]; simpl.
  - rewrite lookup_delete_Some. intros [_ ?]. by apply (Hwf k').
  - rewrite lookup_insert_Some. intros [[_ ?]|[_ ?]]; [done|by apply (Hwf k')].
Qed.

Section Refs.
Context {V F St : Type} `{!HasLua St (lua_state V F)} `{!HasLuaLaws St (lua_state V F)}.
Context `{!LuaVM V F St} `{!LuaVMLaws V F St}.
Implicit Types (l : lua_state V F) (g : gctab V) (n r : Z) (free : list Z) (live : gmap Z tvalue).

(** The registry table after an allocation. *)
Lemma refs_alloc_fresh g n live v :
  refs_inv g n [] live -> v <> TNil -> n + 1 < INT_MAX ->
  refs_inv (tab_put (int_key (n + 1)) v g) (n + 1) [] (<[n + 1 := v]> live).
Proof.
  intros [Hb Hwf Hch Hnd Hf Hc Hl Ha] Hv Hn. unfold INT_MAX in *.
  split; try done; unfold INT_MAX in *.
  - lia.
  - by apply put_wf.
  - by apply free_chain_put; [lia..|set_solver|].
  - set_solver.
  - intros i Hi. right. destruct (decide (i = n + 1)) as [->|]; [by rewrite lookup_insert_eq|].
    rewrite lookup_insert_ne by done. destruct (Hc i) as [[]%not_elem_of_nil|]; [lia|done].
  - intros i w. rewrite lookup_insert_Some. intros [[<- <-]|[Hne Hi]].
    + split_and!; [lia..|set_solver|done|]. rewrite slot_put by lia. by rewrite decide_True.
    + destruct (Hl _ _ Hi) as (? & ? & ? & ?). split_and!; [lia..|done|done|].
      rewrite slot_put by lia. by rewrite decide_False.
  - intros i Hi. rewrite slot_put by lia. rewrite decide_False by lia. apply Ha. lia.
Qed.

Lemma refs_alloc_free g n f free live v :
  refs_inv g n (f :: free) live -> v <> TNil ->
  refs_inv (tab_put (int_key f) v (tab_put (int_key 0) (slot_at g f) g)) n free (<[f := v]> live).
Proof.
  intros [Hb Hwf [Hch1 [Hch2 Hch3]] Hnd Hf Hc Hl Ha] Hv. unfold INT_MAX in *.
  apply NoDup_cons in Hnd as [Hnf Hnd].
  assert (forall x, x ∈ free -> 1 <= x <= n) as Hf' by (intros; apply Hf; set_solver).
  pose proof (Hf f ltac:(set_solver)) as Hfn.
  assert (0 ∉ free) as H0 by (intros H0; apply Hf' in H0; lia).
  split; try done; unfold INT_MAX in *.
  - by apply put_wf, put_wf.
  - assert (free_chain (tab_put (int_key 0) (slot_at g f) g) 0 free) as Hc0.
    { destruct free as [|f' free]; simpl in *.
      - rewrite slot_put by lia. by rewrite decide_True.
      - destruct Hch3 as (H1 & H2 & H3). rewrite not_elem_of_cons in H0. destruct H0.
        rewrite slot_put by lia. rewrite decide_True by done. split; [done|]. split; [done|].
        by apply free_chain_put; [unfold INT_MAX in *; lia..|done|]. }
    apply free_chain_put; [lia..|done|done].
  - intros i Hi. destruct (decide (i = f)) as [->|].
    + right. by rewrite lookup_insert_eq.
    + rewrite lookup_insert_ne by done. destruct (Hc i Hi) as [[->|]%elem_of_cons|]; auto. done.
  - intros i w. rewrite lookup_insert_Some. intros [[<- <-]|[Hne Hi]].
    + split_and!; [lia..|done|done|]. rewrite slot_put by lia. by rewrite decide_True.
    + destruct (Hl _ _ Hi) as (? & Hni & ? & ?). rewrite not_elem_of_cons in Hni. destruct Hni.
      split_and!; [lia..|done|done|]. rewrite !slot_put by lia. by rewrite !decide_False by lia.
  - intros i Hi. rewrite !slot_put by lia. rewrite !decide_False by lia. apply Ha. lia.
Qed.

Lemma refs_free g n free live r v :
  refs_inv g n free live -> live !! r = Some v ->
  refs_inv (tab_put (int_key 0) (int_key r) (tab_put (int_key r) (slot_at g 0) g)) n (r :: free)
    (delete r live).
Proof.
  intros [Hb Hwf Hch Hnd Hf Hc Hl Ha] Hr. unfold INT_MAX in *.
  destruct (Hl _ _ Hr) as (Hrn & Hrf & _ & _).
  assert (0 ∉ free) as H0 by (intros H0; apply Hf in H0; lia).
  split; unfold INT_MAX in *.
  - done.
  - by apply put_wf, put_wf.
  - assert (free_chain (tab_put (int_key r) (slot_at g 0) g) r free) as Hcr.
    { destruct free as [|f' free]; simpl in *.
      - rewrite slot_put by lia. by rewrite decide_True.
      - destruct Hch as (H1 & H2 & H3). rewrite not_elem_of_cons in Hrf. destruct Hrf.
        rewrite slot_put by lia. rewrite decide_True by done. split; [done|]. split; [done|].
        by apply free_chain_put; [unfold INT_MAX in *; lia..|done|]. }
    simpl. rewrite slot_put by lia. rewrite decide_True by done. split; [done|].
    split; [unfold INT_MAX; lia|]. by apply free_chain_put; [lia..|done|].
  - by apply NoDup_cons.
  - intros f [->|?]%elem_of_cons; [lia|by apply Hf].
  - intros i Hi. destruct (decide (i = r)) as [->|]; [left; set_solver|].
    rewrite lookup_delete_ne by done. destruct (Hc i Hi); [left; set_solver|by right].
  - intros i w [Hne Hi]%lookup_delete_Some. destruct (Hl _ _ Hi) as (? & Hni & ? & ?).
    split_and!; [lia..|set_solver|done|]. rewrite !slot_put by lia. by rewrite !decide_False by lia.
  - intros i Hi. rewrite !slot_put by lia. rewrite !decide_False by lia. apply Ha. lia.
Qed.

(** Only the reference slots of the table changed. *)
Definition frame g g' : Prop :=
  (forall k, ~ ref_key k -> tab_get g' k = tab_get g k) /\ metatable g' = metatable g.

Lemma frame_put g i v : 0 <= i <= INT_MAX -> frame g (tab_put (int_key i) v g).
Proof.
  unfold INT_MAX. intros Hi. split.
  - intros k Hk. rewrite tab_get_put. rewrite decide_False; [done|]. intros E. apply Hk.
    exists i. unfold INT_MAX. rewrite E, norm_int_key by lia. done.
  - unfold tab_put. by case_decide.
Qed.

Lemma reg_frame_trans g1 g2 g3 : frame g1 g2 -> frame g2 g3 -> frame g1 g3.
Proof. intros [H1 E1] [H2 E2]. split; [intros k Hk; by rewrite H2, H1|congruence]. Qed.

Lemma runs_tointeger_top l st f : stack l = st ++ [int_key f] -> - 2 ^ 53 < f < 2 ^ 53 ->
  runs (lua_tointeger (-1)) l f l.
Proof.
  intros Hst Hf. eapply runs_bind; [by eapply runs_at_top|]. unfold to_integer, int_key. simpl.
  apply runs_orfail. apply c_cast_num_of_Z; lia.
Qed.

Lemma runs_tointeger_nil l st : stack l = st ++ [TNil] -> runs (lua_tointeger (-1)) l 0 l.
Proof. intros Hst. eapply runs_bind; [by eapply runs_at_top|]. apply runs_ret. Qed.

Lemma runs_abs_registry l : runs (abs_index LUA_REGISTRYINDEX) l LUA_REGISTRYINDEX l.
Proof. apply runs_ret. Qed.

Lemma runs_isnil_top l st v : stack l = st ++ [v] ->
  runs (lua_isnil (-1)) l (type_of v =? LUA_TNIL) l.
Proof. intros Hst. eapply runs_bind; [by eapply runs_type_top|]. apply runs_ret. Qed.

Lemma type_of_nil v : (type_of v =? LUA_TNIL) = bool_decide (v = TNil).
Proof. by destruct v. Qed.

Lemma runs_objlen_registry l g : tabs l !! registry l = Some g ->
  runs (lua_objlen LUA_REGISTRYINDEX) l (tab_len (hash g)) l.
Proof.
  intros Hg. eapply runs_bind; [|eapply runs_bind; [apply runs_read_val|]].
  { eapply runs_bind; [apply runs_lget|]. apply runs_ret. }
  cbn beta iota. eapply runs_bind; [by apply runs_get_tab|]. apply runs_ret.
Qed.

Lemma names_registry l : names l LUA_REGISTRYINDEX (registry l).
Proof. by left. Qed.

(** What [luaL_ref] does when there is a free slot, and when there is none. *)
Lemma runs_ref_nil l st : stack l = st ++ [TNil] ->
  runs (luaL_ref LUA_REGISTRYINDEX) l LUA_REFNIL (set_stack st l).
Proof.
  intros Hst. eapply runs_bind; [apply runs_abs_registry|].
  eapply runs_bind; [by eapply runs_isnil_top|]. cbn.
  eapply runs_bind; [by eapply runs_pop1|]. apply runs_ret.
Qed.

Definition with_registry l g : lua_state V F := set_tabs (<[registry l := g]> (tabs l)) l.

Lemma runs_ref_free l st v g f : stack l = st ++ [v] -> v <> TNil ->
  tabs l !! registry l = Some g -> slot_at g 0 = int_key f -> 1 <= f <= INT_MAX ->
  runs (luaL_ref LUA_REGISTRYINDEX) l f
    (set_stack st (with_registry l (tab_put (int_key f) v (tab_put (int_key 0) (slot_at g f) g)))).
Proof.
  intros Hst Hv Hg H0 Hf. unfold INT_MAX in *.
  eapply runs_bind; [apply runs_abs_registry|].
  eapply runs_bind; [by eapply runs_isnil_top|]. rewrite type_of_nil, bool_decide_eq_false_2 by done.
  eapply runs_bind; [eapply runs_rawgeti; [apply names_registry|exact Hg]|].
  change (tab_get g (int_key FREELIST_REF)) with (slot_at g 0). rewrite H0.
  eapply runs_bind; [eapply runs_tointeger_top; [done|lia]|]. cbn beta zeta.
  assert (i32 f = f) as -> by (apply wrap_s_small; lia).
  eapply runs_bind; [by eapply runs_pop1|]. cbn [set_stack stack].
  rewrite (proj2 (Z.eqb_neq f 0)) by lia. cbn [negb].
  eapply runs_bind.
  { eapply runs_bind; [eapply runs_rawgeti; [apply names_registry|exact Hg]|].
    eapply runs_bind; [eapply runs_rawseti; [apply names_registry|exact Hg|done]|]. apply runs_ret. }
  cbn beta. eapply runs_bind.
  { eapply runs_rawseti; [apply names_registry|apply lookup_insert_eq|done]. }
  cbn. unfold with_registry. rewrite insert_insert_eq. apply runs_ret.
Qed.

Lemma runs_ref_new l st v g : stack l = st ++ [v] -> v <> TNil ->
  tabs l !! registry l = Some g -> slot_at g 0 = TNil -> 0 <= tab_len (hash g) < INT_MAX ->
  runs (luaL_ref LUA_REGISTRYINDEX) l (tab_len (hash g) + 1)
    (set_stack st (with_registry l (tab_put (int_key (tab_len (hash g) + 1)) v g))).
Proof.
  intros Hst Hv Hg H0 Hn. unfold INT_MAX in *. eapply runs_bind; [apply runs_abs_registry|].
  eapply runs_bind; [by eapply runs_isnil_top|]. rewrite type_of_nil, bool_decide_eq_false_2 by done.
  eapply runs_bind; [eapply runs_rawgeti; [apply names_registry|exact Hg]|].
  change (tab_get g (int_key FREELIST_REF)) with (slot_at g 0). rewrite H0.
  eapply runs_bind; [by eapply runs_tointeger_nil|]. cbn beta zeta.
  eapply runs_bind; [by eapply runs_pop1|].
  change (negb (i32 0 =? 0)) with false. cbn beta iota.
  eapply runs_bind; [by eapply runs_bind; [apply runs_objlen_registry, Hg|apply runs_ret]|].
  assert (i32 (i32 (tab_len (hash g)) + 1) = tab_len (hash g) + 1) as ->.
  { rewrite (wrap_s_small 32 (tab_len (hash g))) by lia. apply wrap_s_small; lia. }
  cbn beta. eapply runs_bind; [eapply runs_rawseti; [apply names_registry|exact Hg|done]|].
  apply runs_ret.
Qed.

Lemma runs_unref l g r : tabs l !! registry l = Some g -> 0 <= r ->
  runs (luaL_unref LUA_REGISTRYINDEX r) l tt
    (with_registry l (tab_put (int_key 0) (int_key r) (tab_put (int_key r) (slot_at g 0) g))).
Proof.
  intros Hg Hr. unfold luaL_unref. rewrite (proj2 (Z.leb_le 0 r)) by done.
  eapply runs_bind; [apply runs_abs_registry|].
  eapply runs_bind; [eapply runs_rawgeti; [apply names_registry|exact Hg]|].
  eapply runs_bind; [eapply runs_rawseti; [apply names_registry|exact Hg|done]|].
  eapply runs_bind; [apply runs_push|].
  eapply runs_eq.
  - eapply runs_rawseti; [apply names_registry|apply lookup_insert_eq|done].
  - unfold with_registry. cbn. rewrite insert_insert_eq. by destruct l.
Qed.

Lemma runs_unref_none l r : r < 0 -> runs (luaL_unref LUA_REGISTRYINDEX r) l tt l.
Proof.
  intros Hr. unfold luaL_unref. rewrite (proj2 (Z.leb_gt 0 r)) by done. apply runs_skip.
Qed.

(** A reference to a value: a slot no live reference uses. *)
Lemma ref_spec l st v g n free live :
  stack l = st ++ [v] -> v <> TNil -> tabs l !! registry l = Some g -> refs_inv g n free live ->
  n + 1 < INT_MAX ->
  exists r g' n' free', runs (luaL_ref LUA_REGISTRYINDEX) l r (set_stack st (with_registry l g')) /\
    refs_inv g' n' free' (<[r := v]> live) /\ live !! r = None /\ 1 <= r <= INT_MAX /\
    n <= n' <= n + 1 /\ frame g g'.
Proof.
  intros Hst Hv Hg Hi Hn. destruct free as [|f free].
  - pose proof (tab_len_full g n live Hi) as Hlen. pose proof (ri_bound _ _ _ _ Hi) as Hb.
    assert (slot_at g 0 = TNil) as H0 by apply (ri_chain _ _ _ _ Hi).
    pose proof (runs_ref_new l st v g Hst Hv Hg H0 ltac:(lia)) as Hrun. rewrite Hlen in Hrun.
    eexists (n + 1), _, (n + 1), []. split; [exact Hrun|].
    split; [by apply refs_alloc_fresh|]. split_and!; try lia; [|apply frame_put; lia].
    destruct (live !! (n + 1)) as [w|] eqn:E; [|done].
    apply (ri_live _ _ _ _ Hi) in E as [? _]. lia.
  - pose proof (ri_chain _ _ _ _ Hi) as (H0 & Hf & _).
    eexists f, _, n, free. split; [by apply runs_ref_free|].
    split; [by apply refs_alloc_free|]. split_and!; try lia.
    + destruct (live !! f) as [w|] eqn:E; [|done].
      apply (ri_live _ _ _ _ Hi) in E as (_ & Hnf & _). set_solver.
    + eapply reg_frame_trans; apply frame_put; unfold INT_MAX in *; lia.
Qed.

(** Releasing a live reference frees its slot; releasing [LUA_NOREF] or
    [LUA_REFNIL] does nothing. *)
Lemma unref_spec l g n free live r v :
  tabs l !! registry l = Some g -> refs_inv g n free live -> live !! r = Some v ->
  exists g', runs (luaL_unref LUA_REGISTRYINDEX r) l tt (with_registry l g') /\
    refs_inv g' n (r :: free) (delete r live) /\ frame g g'.
Proof.
  intros Hg Hi Hr. destruct (ri_live _ _ _ _ Hi _ _ Hr) as (Hb & _).
  pose proof (ri_bound _ _ _ _ Hi) as Hbd. unfold INT_MAX in *.
  eexists. split; [apply runs_unref; [done|lia]|]. split; [by eapply refs_free|].
  eapply reg_frame_trans; apply frame_put; unfold INT_MAX; lia.
Qed.

(** The value of a live reference. *)
Lemma rawgeti_spec l g n free live r v :
  tabs l !! registry l = Some g -> refs_inv g n free live -> live !! r = Some v ->
  runs (lua_rawgeti LUA_REGISTRYINDEX r) l tt (set_stack (stack l ++ [v]) l).
Proof.
  intros Hg Hi Hr. destruct (ri_live _ _ _ _ Hi _ _ Hr) as (_ & _ & _ & <-).
  eapply runs_rawgeti; [apply names_registry|exact Hg].
Qed.
End Refs.
