(* ===== verification/LuaDemo.v ===== *)
(** * A virtual machine for concrete runs

    An instance of what [LuaApi] takes as parameters: decimal scanning and
    printing of integers, the length of a table as its first border found, and
    memory filled with a pattern.  The theorems about the API hold for any
    instance; this one runs them. *)

From stdpp Require Import base option strings pretty countable gmap list.
From Stdlib Require Import ZArith Lia SpecFloat Ascii.
From S2P Require Import Prelude Number LuaApi LuaRun LuaRef.

Local Open Scope Z_scope.

Definition key_int (k : tvalue) : option Z :=
  match k with TNum n => trunc_num n | _ => None end.

Definition is_border (t : gmap tvalue tvalue) (n : Z) : bool :=
  (0 <=? n) && (n <=? INT_MAX) && ((n =? 0) || bool_decide (is_Some (t !! int_key n))) &&
  bool_decide (t !! int_key (n + 1) = None).

Definition find_border (t : gmap tvalue tvalue) : Z :=
  default 0 (List.find (is_border t) (0 :: omap key_int (fst <$> map_to_list t))).

Fixpoint scan_digits (acc : Z) (s : string) : option Z :=
  match s with
  | EmptyString => Some acc
  | String a s =>
      let d := Z.of_N (N_of_ascii a) - 48 in
      if (0 <=? d) && (d <=? 9) then scan_digits (10 * acc + d) s else None
  end.

Definition demo_vm {V F St : Type} (run : F -> M St lua_error Z) : LuaVM V F St := {|
  strscan_num s := if decide (s = EmptyString) then None else num_of_Z <$> scan_digits 0 s;
  str_fromnumber n := match trunc_num n with Some z => pretty z | None => "nan" end;
  tab_len := find_border;
  uninit n := replicate (Z.to_nat n) 170;
  fmt_error e := match e with ErrMsg m => m | ErrArg _ m => m | _ => "error" end;
  c_function := run;
  lua_function _ _ := raise (ErrMsg "no Lua functions")
|}.

Lemma border_exists (t : gmap tvalue tvalue) n :
  0 <= n <= INT_MAX -> t !! int_key (n + 1) = None -> exists b, is_border t b = true.
Proof.
  intros [H0 Hn]. revert Hn. pattern n. apply natlike_ind; [| |done]; clear n H0.
  - intros _ H. exists 0. unfold is_border. by rewrite (bool_decide_eq_true_2 _ H).
  - intros n H0 IH Hn H. destruct (t !! int_key (n + 1)) as [v|] eqn:E; [|apply IH; [lia|done]].
    exists (n + 1). unfold is_border.
    rewrite (bool_decide_eq_true_2 (is_Some _)) by (rewrite E; by exists v).
    replace (Z.succ n + 1) with (n + 1 + 1) in H by lia. rewrite (bool_decide_eq_true_2 _ H).
    rewrite (proj2 (Z.leb_le 0 (n + 1))), (proj2 (Z.leb_le (n + 1) INT_MAX)) by lia.
    by rewrite orb_true_r.
Qed.

Lemma find_border_ok (t : gmap tvalue tvalue) n :
  0 <= n <= INT_MAX -> t !! int_key (n + 1) = None -> is_border t (find_border t) = true.
Proof.
  intros Hn Ht. destruct (border_exists t n Hn Ht) as [b Hb]. unfold find_border.
  destruct (List.find _ _) as [c|] eqn:E; [by apply List.find_some in E as [_ ?]|]. exfalso.
  assert (In b (0 :: omap key_int (fst <$> map_to_list t))) as Hin; [|].
  - destruct (decide (b = 0)) as [->|Hne]; [by left|]. right. apply list_elem_of_In, list_elem_of_omap.
    unfold is_border in Hb. rewrite !andb_true_iff, orb_true_iff in Hb.
    destruct Hb as [[[H0 H1] [H2|H2]] _]; [by apply Z.eqb_eq in H2|].
    apply bool_decide_eq_true in H2 as [v Hv]. exists (int_key b). split.
    + apply list_elem_of_fmap. exists (int_key b, v). split; [done|]. by apply elem_of_map_to_list.
    + apply trunc_num_of_Z. unfold INT_MAX in H1. lia.
  - apply (List.find_none _ _ E) in Hin. congruence.
Qed.

Lemma demo_vm_laws {V F St : Type} (run : F -> M St lua_error Z) :
  @LuaVMLaws V F St (demo_vm run).
Proof.
  constructor. intros t n Hn Ht. simpl. pose proof (find_border_ok t n Hn Ht) as H.
  unfold is_border in H. rewrite !andb_true_iff, orb_true_iff in H. destruct H as [[[H1 H2] H3] H4].
  apply bool_decide_eq_true in H4. split_and!; [lia..| |done].
  destruct H3 as [H3|H3]; [left; lia|right]. apply bool_decide_eq_true in H3 as [v ->]. done.
Qed.

Lemma demo_uninit_length {V F St : Type} (run : F -> M St lua_error Z) n : 0 <= n ->
  length (@uninit V F St (demo_vm run) n) = Z.to_nat n.
Proof. intros _. apply length_replicate. Qed.
