(* ===== verification/LuaProps.v ===== *)
(** * What the Lua API guarantees its clients

    The properties of [LuaApi] the C code of shark relies on: the stack
    operations as list operations, fields and the [__index] chain, protected
    calls, and references. *)

From stdpp Require Import base option strings pretty countable gmap list.
From Stdlib Require Import ZArith Lia SpecFloat Ascii.
From S2P Require Import Prelude Number LuaApi LuaRun LuaRef LuaDemo.

Local Open Scope Z_scope.
Local Open Scope prog_scope.

Section Props.
Context {V F St : Type} `{!HasLua St (lua_state V F)} `{!HasLuaLaws St (lua_state V F)}.
Context `{!LuaVM V F St}.
Let L : Type := lua_state V F.
Let prog (A : Type) : Type := M St lua_error A.
Implicit Types (l : L) (g : gctab V).

(** ** The stack *)

(** The index [idx] is the one of the element after [n] others. *)
Definition is_index l (n : nat) (idx : Z) : Prop :=
  idx = Z.of_nat n + 1 \/ idx = Z.of_nat n - Z.of_nat (length (stack l)).

Lemma runs_stk_index l n idx : (n < length (stack l))%nat -> is_index l n idx ->
  runs (stkindex2adr idx) l (AStk n) l.
Proof.
  intros Hn [->| ->].
  - replace (AStk n) with (AStk (Z.to_nat (Z.of_nat n + 1 - 1))) by (f_equal; lia).
    apply runs_stk_pos. lia.
  - eapply runs_bind; [apply runs_lget|]. cbn beta zeta.
    rewrite (proj2 (Z.ltb_ge 0 _)), (proj2 (Z.eqb_neq _ 0)), (proj2 (Z.ltb_ge _ _)) by lia.
    cbn. replace (Z.to_nat _) with n by lia. apply runs_ret.
Qed.

Lemma runs_adr_index l n idx : (n < length (stack l))%nat ->
  Z.of_nat (length (stack l)) < - LUA_REGISTRYINDEX -> is_index l n idx ->
  runs (index2adr idx) l (AStk n) l.
Proof.
  intros Hn Hr Hi. unfold index2adr. rewrite (proj2 (Z.ltb_lt _ _)) by (destruct Hi; lia).
  by apply runs_stk_index.
Qed.

Lemma runs_slot l n idx : (n < length (stack l))%nat -> is_index l n idx ->
  runs (slot idx) l n l.
Proof. intros Hn Hi. eapply runs_bind; [by apply runs_stk_index|]. apply runs_ret. Qed.

Lemma runs_settop_index l a x b idx : stack l = a ++ x :: b -> is_index l (length a) idx ->
  runs (lua_settop idx) l tt (set_stack (a ++ [x]) l).
Proof.
  intros Hst Hi. eapply runs_bind; [apply runs_lget|]. cbn beta zeta.
  assert (length (stack l) = length a + S (length b))%nat as Hlen by by rewrite Hst, length_app.
  assert (take (S (length a)) (stack l) = a ++ [x]) as Htake.
  { rewrite Hst, take_app_ge by lia. replace (S (length a) - length a)%nat with 1%nat by lia. done. }
  destruct (Z.leb_spec 0 idx).
  - destruct Hi as [->| ->]; [|lia]. replace (Z.to_nat (Z.of_nat (length a) + 1)) with (S (length a)) by lia.
    rewrite Htake. replace (S (length a) - length (stack l))%nat with 0%nat by lia.
    rewrite app_nil_r. by intros s <-.
  - destruct Hi as [->| ->]; [lia|].
    destruct (Z.ltb_spec (Z.of_nat (length (stack l)))
      (- (Z.of_nat (length a) - Z.of_nat (length (stack l)) + 1))); [lia|].
    replace (Z.to_nat _) with (S (length a)) by lia. rewrite Htake. by intros s <-.
Qed.

Lemma runs_insert l a x b v idx : stack l = a ++ x :: b ++ [v] -> is_index l (length a) idx ->
  runs (lua_insert idx) l tt (set_stack (a ++ v :: x :: b) l).
Proof.
  intros Hst Hi.
  assert (length (stack l) = length a + length b + 2)%nat as Hn.
  { rewrite Hst, length_app. simpl. rewrite length_app. simpl. lia. }
  eapply runs_bind; [apply runs_slot; [|exact Hi]; lia|]. eapply runs_eq; [apply runs_lmod|]. cbn beta. f_equal.
  assert (stack l !! (length (stack l) - 1)%nat = Some v) as ->.
  { rewrite Hst, app_comm_cons, app_assoc, length_app. simpl.
    rewrite Nat.add_sub. by apply list_lookup_middle. }
  simpl. rewrite Hst at 1. rewrite take_app_length. f_equal. f_equal.
  rewrite Hst, app_comm_cons, app_assoc, length_app. simpl.
  by rewrite Nat.add_sub, take_app_length, drop_app_length.
Qed.

(** Each stack operation is the list operation its name says, with a
    positive index and with the negative index of the same element: on the
    stack [a ++ x :: b ++ [v]] and the index of [x]. *)
Theorem stack_operations_correct l a x b v idx :
  stack l = a ++ x :: b ++ [v] -> Z.of_nat (length (stack l)) < - LUA_REGISTRYINDEX ->
  is_index l (length a) idx ->
  runs lua_gettop l (Z.of_nat (length a + length b + 2)) l /\
  runs (lua_type idx) l (type_of x) l /\
  runs (lua_pushvalue idx) l tt (set_stack (a ++ x :: b ++ [v; x]) l) /\
  runs (lua_insert idx) l tt (set_stack (a ++ v :: x :: b) l) /\
  runs (lua_remove idx) l tt (set_stack (a ++ b ++ [v]) l) /\
  runs (lua_replace idx) l tt (set_stack (a ++ v :: b) l) /\
  runs (lua_settop idx) l tt (set_stack (a ++ [x]) l).
Proof.
  intros Hst Hlen Hi.
  assert (length (stack l) = length a + length b + 2)%nat as Hn.
  { rewrite Hst, length_app. simpl. rewrite length_app. simpl. lia. }
  assert (stack l !! length a = Some x) as Hx by (rewrite Hst; by apply list_lookup_middle).
  assert (runs (index2adr idx) l (AStk (length a)) l) as Hadr by (apply runs_adr_index; [lia|done..]).
  assert (runs (slot idx) l (length a) l) as Hslot by (apply runs_slot; [lia|done]).
  split_and!.
  - eapply runs_bind; [apply runs_lget|]. rewrite Hn. apply runs_ret.
  - eapply runs_bind; [exact Hadr|]. eapply runs_bind; [by apply runs_read_stk|]. apply runs_ret.
  - eapply runs_bind; [eapply runs_bind; [exact Hadr|by apply runs_read_stk]|].
    eapply runs_eq; [apply runs_push|]. rewrite Hst, <- app_assoc. simpl. by rewrite <- app_assoc.
  - by apply runs_insert.
  - eapply runs_bind; [exact Hslot|]. eapply runs_eq; [apply runs_lmod|]. cbn beta. f_equal.
    rewrite Hst. by apply delete_middle.
  - eapply runs_bind; [eapply runs_at_top; rewrite Hst, app_comm_cons, app_assoc; done|].
    assert (idx <> LUA_GLOBALSINDEX /\ idx <> LUA_ENVIRONINDEX) as [Hg He].
    { unfold LUA_GLOBALSINDEX, LUA_ENVIRONINDEX, LUA_REGISTRYINDEX in *. destruct Hi; lia. }
    rewrite (proj2 (Z.eqb_neq _ _) Hg), (proj2 (Z.eqb_neq _ _) He).
    eapply runs_bind; [eapply runs_bind; [exact Hadr|]|].
    { eapply runs_bind; [apply runs_lget|]. apply runs_lmod. }
    eapply runs_eq; [apply (runs_pop1 _ (a ++ v :: b) v)|done]. simpl.
    rewrite Hst, insert_app_r_alt by lia. rewrite Nat.sub_diag. simpl. by rewrite <- app_assoc.
  - by eapply runs_settop_index.
Qed.

(** ** Fields *)

Lemma runs_meta_none l t g mm : tabs l !! t = Some g -> metatable g = None ->
  runs (meta_lookup (TTab t) mm) l TNil l.
Proof.
  intros Hg Hm. eapply runs_bind.
  - eapply runs_bind; [apply runs_lget|]. eapply runs_bind; [by apply runs_get_tab|]. apply runs_ret.
  - cbn beta. rewrite Hm. apply runs_ret.
Qed.

Lemma runs_meta_some l t g m gm mm : tabs l !! t = Some g -> metatable g = Some m ->
  tabs l !! m = Some gm -> runs (meta_lookup (TTab t) mm) l (tab_get gm (TStr mm)) l.
Proof.
  intros Hg Hm Hgm. eapply runs_bind.
  - eapply runs_bind; [apply runs_lget|]. eapply runs_bind; [by apply runs_get_tab|]. apply runs_ret.
  - cbn beta. rewrite Hm. eapply runs_bind; [by apply runs_get_tab|]. apply runs_ret.
Qed.

Lemma runs_tget_plain loop l t g k : tabs l !! t = Some g -> metatable g = None ->
  runs (lj_meta_tget (S loop) (TTab t) k) l (inl (tab_get g k)) l.
Proof.
  intros Hg Hm. simpl. eapply runs_bind; [by apply runs_get_tab|].
  eapply runs_bind; [by eapply runs_meta_none|]. cbn beta zeta.
  rewrite (bool_decide_eq_true_2 (TNil = TNil)) by done. rewrite orb_true_r. apply runs_ret.
Qed.

Lemma runs_tset_plain loop l t g k : tabs l !! t = Some g -> metatable g = None ->
  runs (lj_meta_tset (S loop) (TTab t) (TStr k)) l (inl t) l.
Proof.
  intros Hg Hm. simpl. eapply runs_bind; [by apply runs_get_tab|].
  eapply runs_bind; [by eapply runs_meta_none|]. cbn beta zeta.
  destruct (bool_decide _); [apply runs_ret|].
  rewrite (bool_decide_eq_true_2 (TNil = TNil)) by done.
  eapply runs_bind; [apply runs_skip|]. apply runs_ret.
Qed.

Lemma max_idxchain : LJ_MAX_IDXCHAIN = S 99.
Proof. done. Qed.

Lemma runs_get_plain l t g k : tabs l !! t = Some g -> metatable g = None ->
  runs (get_value (TTab t) k) l (tab_get g k) l.
Proof.
  intros Hg Hm. unfold get_value. rewrite max_idxchain.
  eapply runs_bind; [by apply runs_tget_plain|]. apply runs_ret.
Qed.

Lemma runs_set_plain l t g k v : tabs l !! t = Some g -> metatable g = None ->
  runs (set_value (TTab t) (TStr k) v) l tt (set_tabs (<[t := tab_put (TStr k) v g]> (tabs l)) l).
Proof.
  intros Hg Hm. unfold set_value. rewrite max_idxchain.
  eapply runs_bind; [by eapply runs_tset_plain|]. cbn beta iota.
  eapply runs_bind; [by apply runs_get_tab|]. apply runs_put_tab.
Qed.

Lemma runs_valid_names l idx t : names l idx t -> runs (valid_index idx) l (TTab t) l.
Proof.
  intros [[-> <-]|[-> <-]]; (eapply runs_bind; [eapply runs_bind; [apply runs_lget|]; apply runs_ret|]);
    apply runs_read_val.
Qed.

Lemma runs_getfield_plain l idx t g k : names l idx t -> tabs l !! t = Some g -> metatable g = None ->
  runs (lua_getfield idx k) l tt (set_stack (stack l ++ [tab_get g (TStr k)]) l).
Proof.
  intros Hi Hg Hm. eapply runs_bind; [by apply runs_valid_names|].
  eapply runs_bind; [by apply runs_get_plain|]. apply runs_push.
Qed.

Lemma runs_setfield_plain l idx t g k v st : names l idx t -> tabs l !! t = Some g ->
  metatable g = None -> stack l = st ++ [v] ->
  runs (lua_setfield idx k) l tt
    (set_stack st (set_tabs (<[t := tab_put (TStr k) v g]> (tabs l)) l)).
Proof.
  intros Hi Hg Hm Hst. eapply runs_bind; [by apply runs_valid_names|].
  eapply runs_bind; [by eapply runs_at_top|]. eapply runs_bind; [by apply runs_set_plain|].
  by eapply runs_pop1.
Qed.

Lemma tab_put_metatable g k v : metatable (tab_put k v g) = metatable g.
Proof. unfold tab_put. by case_decide. Qed.

(** A field set in a table without a metatable reads back, a field set to
    [nil] reads as [nil], and every other field, and every other table, is
    left as it was. *)
Theorem fields_correct l idx t g k v st k' :
  names l idx t -> tabs l !! t = Some g -> metatable g = None -> stack l = st ++ [v] ->
  exists l', runs (lua_setfield idx k) l tt l' /\ stack l' = st /\
    runs (lua_getfield idx k) l' tt (set_stack (st ++ [v]) l') /\
    (k' <> k -> runs (lua_getfield idx k') l' tt (set_stack (st ++ [tab_get g (TStr k')]) l')) /\
    (forall t', t' <> t -> tabs l' !! t' = tabs l !! t').
Proof.
  intros Hi Hg Hm Hst. eexists. split; [by eapply runs_setfield_plain|]. split; [done|].
  set (l' := set_stack st _).
  assert (forall f, runs (lua_getfield idx f) l' tt
    (set_stack (st ++ [tab_get (tab_put (TStr k) v g) (TStr f)]) l')) as Hget.
  { intros f. apply (runs_getfield_plain l' idx t (tab_put (TStr k) v g)); [done|apply lookup_insert_eq|].
    by rewrite tab_put_metatable. }
  split_and!.
  - pose proof (Hget k) as H. rewrite tab_get_put, decide_True in H by done. exact H.
  - intros Hne. pose proof (Hget k') as H. rewrite tab_get_put, decide_False in H by (simpl; congruence).
    exact H.
  - intros t' Hne. simpl. by rewrite lookup_insert_ne.
Qed.

(** ** The [__index] chain *)

(** [t], then the tables [rest], each the [__index] of the one before it; all
    but the last lack the key [k], and the last has it or has no metatable. *)
Fixpoint index_chain l (k : tvalue) (t : ptr) (rest : list ptr) : Prop :=
  match rest with
  | [] => exists g, tabs l !! t = Some g /\
      (metatable g = None \/
       tab_get g k <> TNil /\ exists m gm, metatable g = Some m /\ tabs l !! m = Some gm)
  | t' :: rest => exists g m gm, tabs l !! t = Some g /\ tab_get g k = TNil /\
      metatable g = Some m /\ tabs l !! m = Some gm /\
      tab_get gm (TStr "__index") = TTab t' /\ index_chain l k t' rest
  end.

Definition chain_value l (k : tvalue) (t : ptr) (rest : list ptr) : tvalue :=
  from_option (fun g => tab_get g k) TNil (tabs l !! List.last rest t).

Lemma runs_tget_chain l k rest : forall t loop, (length rest < loop)%nat ->
  index_chain l k t rest -> runs (lj_meta_tget loop (TTab t) k) l (inl (chain_value l k t rest)) l.
Proof.
  induction rest as [|t' rest IH]; intros t [|loop] Hl; simpl in Hl; try lia.
  - intros (g & Hg & [Hm|(Hv & m & gm & Hm & Hgm)]); unfold chain_value; simpl List.last;
      rewrite Hg; [by apply runs_tget_plain|]. simpl.
    eapply runs_bind; [by apply runs_get_tab|]. eapply runs_bind; [by eapply runs_meta_some|].
    cbn beta zeta. rewrite bool_decide_eq_true_2 by done. apply runs_ret.
  - intros (g & m & gm & Hg & Hv & Hm & Hgm & Hi & Hc). simpl.
    eapply runs_bind; [by apply runs_get_tab|]. eapply runs_bind; [by eapply runs_meta_some|].
    cbn beta zeta. rewrite Hv, Hi, !bool_decide_eq_false_2 by naive_solver.
    replace (chain_value l k t (t' :: rest)) with (chain_value l k t' rest).
    + apply IH; [lia|done].
    + unfold chain_value. do 2 f_equal. destruct rest as [|x rest]; [done|].
      clear. change (List.last (x :: rest) t' = List.last (x :: rest) t).
      revert x. induction rest as [|y rest IH]; intros x; [done|apply (IH y)].
Qed.

Lemma raises_tget_chain l k rest : forall t loop, (loop <= length rest)%nat ->
  index_chain l k t rest ->
  raises (lj_meta_tget loop (TTab t) k) l (ErrMsg "loop in gettable") l.
Proof.
  induction rest as [|t' rest IH]; intros t [|loop] Hl; simpl in Hl; try lia; try (intros _; apply raises_raise).
  intros (g & m & gm & Hg & Hv & Hm & Hgm & Hi & Hc). simpl.
  eapply runs_raises; [by apply runs_get_tab|]. eapply runs_raises; [by eapply runs_meta_some|].
  cbn beta zeta. rewrite Hv, Hi, !bool_decide_eq_false_2 by naive_solver. apply IH; [lia|done].
Qed.

(** Reading a field follows the chain of [__index] tables to the first one
    that has it, and gives up with an error, not a hang, on a chain of more
    than [LJ_MAX_IDXCHAIN] tables, such as a table that is its own [__index]. *)
Theorem index_chain_correct l idx t k rest :
  names l idx t -> index_chain l (TStr k) t rest ->
  if (length rest <? LJ_MAX_IDXCHAIN)%nat
  then runs (lua_getfield idx k) l tt
         (set_stack (stack l ++ [chain_value l (TStr k) t rest]) l)
  else raises (lua_getfield idx k) l (ErrMsg "loop in gettable") l.
Proof.
  intros Hi Hc. destruct (Nat.ltb_spec (length rest) LJ_MAX_IDXCHAIN) as [Hl|Hl].
  - eapply runs_bind; [by apply runs_valid_names|].
    eapply runs_bind; [|apply runs_push]. unfold get_value.
    eapply runs_bind; [by apply runs_tget_chain|]. apply runs_ret.
  - eapply runs_raises; [by apply runs_valid_names|]. apply raises_bind. unfold get_value.
    apply raises_bind. by eapply raises_tget_chain.
Qed.

(** ** Calls *)

(** The frame a C function [f] runs in when called from [l]. *)
Definition callee (f : ptr) (args : list tvalue) l : L := set_curr_func (Some f) (set_stack args l).
Definition back (l l2 : L) (st : list tvalue) : L := set_curr_func (curr_func l) (set_stack st l2).

Lemma runs_take_call l st f args : stack l = st ++ TFunc f :: args ->
  runs (take_call (length args)) l (TFunc f, args) (set_stack st l).
Proof.
  intros Hst. eapply runs_bind; [apply runs_lget|]. cbn beta zeta.
  assert (length (stack l) = length st + S (length args))%nat as Hlen by (by rewrite Hst, length_app).
  rewrite Hlen, Nat.add_sub, Hst, drop_app_length, (proj2 (Nat.ltb_ge _ _)) by lia.
  rewrite take_app_length. eapply runs_bind; [apply runs_lmod|]. apply runs_ret.
Qed.

(** Calls of C functions, whatever they do to the rest of the program state. *)
Lemma vm_call_returns s f name up env args n s2 :
  funcs (get_lua s) !! f = Some (FuncC name up env) -> 0 <= n ->
  c_function name (put_lua (callee f args (get_lua s)) s) = Ret n s2 ->
  vm_call (TFunc f) args s =
    Ret (drop (length (stack (get_lua s2)) - Z.to_nat n) (stack (get_lua s2)))
      (put_lua (back (get_lua s) (get_lua s2) (stack (get_lua s))) s2).
Proof.
  intros Hf Hn Hrun. unfold vm_call, run_function, bind, lget, gets. rewrite Hf.
  unfold run_c, bind, lmod, modify, lget, gets. unfold callee, L in Hrun. cbn beta. rewrite Hrun.
  by rewrite (proj2 (Z.ltb_ge n 0)).
Qed.

Lemma vm_call_raises s f name up env args e s2 :
  funcs (get_lua s) !! f = Some (FuncC name up env) ->
  c_function name (put_lua (callee f args (get_lua s)) s) = Raise e s2 ->
  vm_call (TFunc f) args s = Raise e s2.
Proof.
  intros Hf Hrun. unfold vm_call, run_function, bind, lget, gets. rewrite Hf.
  unfold run_c, bind, lmod, modify, lget, gets. unfold callee, L in Hrun. cbn beta. by rewrite Hrun.
Qed.

Lemma pcall_start s st f args nresults :
  stack (get_lua s) = st ++ TFunc f :: args ->
  lua_pcall (length args) nresults 0 s =
    match vm_call (TFunc f) args (put_lua (set_stack st (get_lua s)) s) with
    | Ret rs s' => (push_all (adjust nresults rs) ;;; ret 0) s'
    | Raise e s' =>
        (lmod (fun l => set_curr_func (curr_func (get_lua s)) (set_stack st l)) ;;;
         push (err_value e) ;;; ret LUA_ERRRUN) s'
    | Halt c s' => Halt c s'
    | Fault w => Fault w
    end.
Proof.
  intros Hst. unfold lua_pcall. unfold bind at 1, ret at 1. simpl.
  unfold bind at 1. rewrite (runs_take_call (get_lua s) st f args Hst s eq_refl).
  unfold bind at 1, lget, gets. cbn [fst snd]. by rewrite get_put.
Qed.

Lemma pcall_returns s st f args name up env nresults n s2 :
  stack (get_lua s) = st ++ TFunc f :: args -> funcs (get_lua s) !! f = Some (FuncC name up env) -> 0 <= n ->
  c_function name (put_lua (callee f args (get_lua s)) s) = Ret n s2 ->
  lua_pcall (length args) nresults 0 s =
    Ret 0 (put_lua (back (get_lua s) (get_lua s2)
      (st ++ adjust nresults (drop (length (stack (get_lua s2)) - Z.to_nat n) (stack (get_lua s2))))) s2).
Proof.
  intros Hst Hf Hn Hrun. rewrite (pcall_start s st f args nresults Hst).
  rewrite (vm_call_returns _ f name up env args n s2); [|by rewrite get_put|done|by rewrite get_put, put_put].
  unfold push_all, bind, lmod, modify, ret. by rewrite !get_put, put_put.
Qed.

Lemma pcall_raises s st f args name up env nresults e s2 :
  stack (get_lua s) = st ++ TFunc f :: args -> funcs (get_lua s) !! f = Some (FuncC name up env) ->
  c_function name (put_lua (callee f args (get_lua s)) s) = Raise e s2 ->
  lua_pcall (length args) nresults 0 s =
    Ret LUA_ERRRUN (put_lua (back (get_lua s) (get_lua s2) (st ++ [err_value e])) s2).
Proof.
  intros Hst Hf Hrun. rewrite (pcall_start s st f args nresults Hst).
  rewrite (vm_call_raises _ f name up env args e s2); [|by rewrite get_put|by rewrite get_put, put_put].
  unfold push, bind, lmod, modify, ret. by rewrite !get_put, put_put.
Qed.

(** A protected call of a C function leaves its results, adjusted to the
    number asked for, or its error value and [LUA_ERRRUN]; either way the
    stack below the call and the running function are those of the caller, and
    what the function did to the rest of the program stays. *)
Theorem pcall_correct s st f args name up env nresults :
  stack (get_lua s) = st ++ TFunc f :: args -> funcs (get_lua s) !! f = Some (FuncC name up env) ->
  (forall n s2, 0 <= n -> c_function name (put_lua (callee f args (get_lua s)) s) = Ret n s2 ->
     lua_pcall (length args) nresults 0 s = Ret 0 (put_lua (back (get_lua s) (get_lua s2)
       (st ++ adjust nresults (drop (length (stack (get_lua s2)) - Z.to_nat n) (stack (get_lua s2))))) s2)) /\
  (forall e s2, c_function name (put_lua (callee f args (get_lua s)) s) = Raise e s2 ->
     lua_pcall (length args) nresults 0 s =
       Ret LUA_ERRRUN (put_lua (back (get_lua s) (get_lua s2) (st ++ [err_value e])) s2)).
Proof.
  intros Hst Hf. split; intros; [by eapply pcall_returns|by eapply pcall_raises].
Qed.
End Props.

(** ** References *)

Inductive ref_op := DoRef (v : tvalue) | DoUnref (r : Z).

Section References.
Context {V F St : Type} `{!HasLua St (lua_state V F)} `{!HasLuaLaws St (lua_state V F)}.
Context `{!LuaVM V F St} `{!LuaVMLaws V F St}.
Let L : Type := lua_state V F.
Let prog (A : Type) : Type := M St lua_error A.
Implicit Types (l : L) (g : gctab V) (n r : Z) (free : list Z) (live : gmap Z tvalue).

(** A client that refers and releases: [live] is its record of what it holds.
    It stops with a failed assertion when it is given a reference it still
    holds, and releases only what it holds or a negative constant. *)
Fixpoint play (ops : list ref_op) (live : gmap Z tvalue) : prog (gmap Z tvalue) :=
  match ops with
  | [] => ret live
  | DoRef v :: ops =>
      push v ;;;
      r <- luaL_ref LUA_REGISTRYINDEX ;;
      if decide (v = TNil) then assertM (r =? LUA_REFNIL) ;;; play ops live
      else assertM (bool_decide (live !! r = None)) ;;; play ops (<[r := v]> live)
  | DoUnref r :: ops =>
      if (0 <=? r) && bool_decide (live !! r = None) then play ops live
      else luaL_unref LUA_REGISTRYINDEX r ;;; play ops (delete r live)
  end.

Lemma runs_assert (b : bool) l : b = true -> runs (assertM b) l tt l.
Proof. intros ->. apply runs_ret. Qed.

Lemma reg_frame_refl g : frame g g.
Proof. by split. Qed.

Lemma with_registry_id l g : tabs l !! registry l = Some g -> with_registry l g = l.
Proof. intros Hg. unfold with_registry. rewrite insert_id by done. by destruct l. Qed.

Lemma with_registry_twice l g g' : with_registry (with_registry l g) g' = with_registry l g'.
Proof. unfold with_registry. simpl. by rewrite insert_insert_eq. Qed.

Lemma play_spec ops : forall l g n free live,
  tabs l !! registry l = Some g -> refs_inv g n free live ->
  n + Z.of_nat (length ops) < INT_MAX ->
  exists live' g' n' free', runs (play ops live) l live' (with_registry l g') /\
    refs_inv g' n' free' live' /\ frame g g' /\ n' <= n + Z.of_nat (length ops).
Proof.
  induction ops as [|[v|r] ops IH]; intros l g n free live Hg Hi Hn; simpl length in Hn.
  - exists live, g, n, free. rewrite with_registry_id by done.
    split_and!; [apply runs_ret|done|apply reg_frame_refl|simpl; lia].
  - destruct (decide (v = TNil)) as [->|Hv].
    + destruct (IH l g n free live Hg Hi ltac:(lia)) as (live' & g' & n' & free' & Hrun & Hi' & Hf & Hb).
      exists live', g', n', free'. split_and!; [|done..|simpl length; lia]. simpl.
      eapply runs_bind; [apply runs_push|]. eapply runs_bind; [by apply runs_ref_nil|].
      cbn beta. eapply runs_bind; [by apply runs_assert|].
      replace (set_stack (stack l) _) with l by (by destruct l). done.
    + destruct (ref_spec (set_stack (stack l ++ [v]) l) (stack l) v g n free live)
        as (r & g1 & n1 & free1 & Hrun & Hi1 & Hr & _ & Hn1 & Hf1); [done..|lia|].
      destruct (IH (with_registry l g1) g1 n1 free1 (<[r:=v]> live))
        as (live' & g' & n' & free' & Hrun' & Hi' & Hf & Hb);
        [by apply lookup_insert_eq|done|lia|].
      exists live', g', n', free'. split_and!; [|done|by eapply reg_frame_trans|simpl length; lia]. simpl.
      eapply runs_bind; [apply runs_push|]. eapply runs_bind; [exact Hrun|].
      cbn beta. rewrite decide_False by done.
      eapply runs_bind; [by apply runs_assert, bool_decide_eq_true_2|].
      rewrite with_registry_twice in Hrun'. destruct l; exact Hrun'.
  - simpl. destruct (live !! r) as [v|] eqn:Hr.
    + destruct (unref_spec l g n free live r v Hg Hi Hr) as (g1 & Hrun & Hi1 & Hf1).
      destruct (IH (with_registry l g1) g1 n (r :: free) (delete r live))
        as (live' & g' & n' & free' & Hrun' & Hi' & Hf & Hb);
        [by apply lookup_insert_eq|done|lia|].
      exists live', g', n', free'. split_and!; [|done|by eapply reg_frame_trans|simpl length; lia].
      rewrite bool_decide_eq_false_2, andb_false_r by done.
      eapply runs_bind; [exact Hrun|]. by rewrite with_registry_twice in Hrun'.
    + destruct (IH l g n free live Hg Hi ltac:(lia)) as (live' & g' & n' & free' & Hrun & Hi' & Hf & Hb).
      exists live', g', n', free'. split_and!; [|done..|simpl length; lia].
      rewrite bool_decide_eq_true_2, andb_true_r by done. destruct (Z.leb_spec 0 r); [done|].
      eapply runs_bind; [by apply runs_unref_none|]. by rewrite delete_id.
Qed.

(** C37 [luaL_ref] and [luaL_unref] are an allocator in the registry: through
    any sequence of them, a new reference is never one that is held, each
    reference held keeps its value, [nil] is [LUA_REFNIL] and takes no slot,
    and nothing but the slots of the references changes in the registry. *)
Theorem references_correct ops l g n free live :
  tabs l !! registry l = Some g -> refs_inv g n free live ->
  n + Z.of_nat (length ops) < INT_MAX ->
  exists live' g', runs (play ops live) l live' (with_registry l g') /\ frame g g' /\
    forall r v, live' !! r = Some v ->
      runs (lua_rawgeti LUA_REGISTRYINDEX r) (with_registry l g') tt
        (set_stack (stack l ++ [v]) (with_registry l g')).
Proof.
  intros Hg Hi Hn.
  destruct (play_spec ops l g n free live Hg Hi Hn) as (live' & g' & n' & free' & Hrun & Hi' & Hf & _).
  exists live', g'. split_and!; [done..|]. intros r v Hr.
  eapply (rawgeti_spec (with_registry l g') g'); [apply lookup_insert_eq|done|done].
Qed.
End References.

(** ** Runs *)

Module Demo.
Definition run (f : nat) : M (lua_state unit nat) lua_error Z :=
  match f with
  | O => bind (at_index 1) (fun v => bind (push v) (fun _ => bind (push v) (fun _ => ret 2)))
  | _ => raise (ErrMsg "no")
  end.
#[export] Instance vm : LuaVM unit nat (lua_state unit nat) := demo_vm run.
#[export] Instance laws : LuaVMLaws unit nat (lua_state unit nat) := demo_vm_laws run.

Abbreviation St := (lua_state unit nat).

(** Registry at 1, globals at 2, C functions at 3 and 4; table 6 is its own
    [__index] through its metatable 7, and 5 reads through to the globals. *)
Definition l0 : lua_state unit nat :=
  LuaState [TStr "a"; TFunc 3; TBool true] None 2%positive 1%positive
    (<[1%positive := new_tab]> (<[2%positive := tab_put (TStr "x") (TBool true) new_tab]>
      (<[5%positive := set_metatable_of (Some 8%positive) new_tab]>
      (<[6%positive := set_metatable_of (Some 7%positive) new_tab]>
      (<[7%positive := tab_put (TStr "__index") (TTab 6) new_tab]>
      {[ 8%positive := tab_put (TStr "__index") (TTab 2) new_tab ]})))))
    (<[3%positive := FuncC O [] 2%positive]> {[ 4%positive := FuncC 1%nat [] 2%positive ]})
    ∅ ∅ 9%positive.

Lemma fresh_registry : refs_inv (V := unit) new_tab 0 [] ∅.
Proof.
  split; try done; try (simpl; lia); try apply NoDup_nil_2.
  by intros f ?%not_elem_of_nil.
Qed.
End Demo.

Import Demo.

Lemma stack_operations_correct_witness :
  runs (St := St) (lua_insert (-2)) l0 tt (set_stack [TStr "a"; TBool true; TFunc 3] l0).
Proof.
  apply (stack_operations_correct l0 [TStr "a"] (TFunc 3) [] (TBool true) (-2));
    [reflexivity|reflexivity|right; reflexivity].
Defined.

Lemma fields_correct_witness :
  exists l', runs (St := St) (lua_setfield LUA_GLOBALSINDEX "y") l0 tt l' /\ stack l' = [TStr "a"; TFunc 3].
Proof.
  destruct (fields_correct (St := St) l0 LUA_GLOBALSINDEX 2%positive
    (tab_put (TStr "x") (TBool true) new_tab) "y" (TBool true) [TStr "a"; TFunc 3] "x")
    as (l' & H1 & H2 & _); [right; split; reflexivity|reflexivity|reflexivity|reflexivity|].
  exists l'. split; [exact H1|exact H2].
Defined.

Definition on_globals (t : ptr) (l : lua_state unit nat) : lua_state unit nat := set_env_tab t l.

Lemma index_chain_correct_witness :
  runs (St := St) (lua_getfield LUA_GLOBALSINDEX "x") (on_globals 5 l0) tt
    (set_stack [TStr "a"; TFunc 3; TBool true; TBool true] (on_globals 5 l0)).
Proof.
  apply (index_chain_correct (St := St) (on_globals 5 l0) LUA_GLOBALSINDEX 5%positive "x" [2%positive]).
  - right. split; reflexivity.
  - exists (set_metatable_of (Some 8%positive) new_tab), 8%positive, (tab_put (TStr "__index") (TTab 2) new_tab).
    split_and!; try reflexivity. simpl. exists (tab_put (TStr "x") (TBool true) new_tab).
    split; [reflexivity|left; reflexivity].
Defined.

Lemma pcall_correct_witness :
  lua_pcall (St := St) 1 1 0 l0 = Ret 0 (set_stack [TStr "a"; TBool true] l0).
Proof.
  destruct (pcall_correct (V := unit) (F := nat) (St := St) l0 [TStr "a"] 3%positive [TBool true] O [] 2%positive 1)
    as [H _]; [reflexivity|reflexivity|].
  apply (H 2 (set_curr_func (Some 3%positive) (set_stack [TBool true; TBool true; TBool true] l0))); reflexivity || discriminate.
Defined.

Lemma references_correct_witness :
  exists live' g', runs (St := St) (play [DoRef (TStr "f"); DoRef TNil; DoRef (TStr "g"); DoUnref 1; DoRef (TStr "h")] ∅)
    l0 live' (with_registry l0 g').
Proof.
  destruct (references_correct (St := St)
    [DoRef (TStr "f"); DoRef TNil; DoRef (TStr "g"); DoUnref 1; DoRef (TStr "h")] l0 new_tab 0 [] ∅)
    as (live' & g' & H & _); [reflexivity|exact fresh_registry|reflexivity|].
  exists live', g'. exact H.
Defined.
