(* ===== verification/Bpf.v ===== *)
(** * BPF maps as Lua tables ([bpf/bpf.c], [bpf/bpf_map_*_func.h], [bpf/libbpf/libbpf.c])

    A BPF map is a Lua table whose metamethods call the [bpf] system call.  The
    accessors are generated for every pair of a key type and a value type; here
    each block of generated functions is one definition on the value type.  C
    buffers are lists of bytes; [char] is signed, as on x86.  The kernel is a
    parameter: [sys_bpf] is the system call, on attributes whose pointers are
    given as the bytes of the object they point to. *)

From stdpp Require Import base option strings countable gmap list.
From Stdlib Require Import ZArith Lia SpecFloat Ascii.
From Stdlib Require String.
From S2P Require Import Prelude Number LuaApi.

Local Open Scope Z_scope.
Local Open Scope prog_scope.

(** ** Bytes *)

(** The object representation of an integer of [w] bytes, little endian. *)
Fixpoint bytes_of (w : nat) (z : Z) : list Z :=
  match w with
  | O => []
  | S w => z mod 256 :: bytes_of w (z / 256)
  end.

Fixpoint unsigned_of (bs : list Z) : Z :=
  match bs with
  | [] => 0
  | b :: bs => b + 256 * unsigned_of bs
  end.

Definition char_of (a : ascii) : Z := Z.of_N (N_of_ascii a).
Definition string_bytes (s : string) : list Z := char_of <$> String.list_ascii_of_string s.

(** The C string in a buffer: up to the first zero. *)
Fixpoint cstring (bs : list Z) : string :=
  match bs with
  | [] => EmptyString
  | b :: bs => if b =? 0 then EmptyString else String (ascii_of_N (Z.to_N b)) (cstring bs)
  end.

(** [strlen] of a Lua string: it ends at the first zero byte. *)
Fixpoint strlen (bs : list Z) : nat :=
  match bs with
  | [] => O
  | b :: bs => if b =? 0 then O else S (strlen bs)
  end.

(** Overwrites the start of an object; a write past its end is a fault. *)
Definition write_buf {St E} (new old : list Z) : M St E (list Z) :=
  if (length new <=? length old)%nat then ret (new ++ drop (length new) old) else fail OutOfBounds.

(** ** [libbpf.c] *)

Definition BPF_MAP_CREATE : Z := 0.
Definition BPF_MAP_LOOKUP_ELEM : Z := 1.
Definition BPF_MAP_UPDATE_ELEM : Z := 2.
Definition BPF_MAP_DELETE_ELEM : Z := 3.
Definition BPF_MAP_GET_NEXT_KEY : Z := 4.
Definition BPF_PROG_LOAD : Z := 5.
Definition BPF_ANY : Z := 0.
Definition LOG_BUF_SIZE : Z := 65536.

Record bpf_insn := BpfInsn { code : Z; dst_reg : Z; src_reg : Z; off : Z; imm : Z }.

(** [union bpf_attr], by the command it is for.  [value] is the object behind
    the value or next-key pointer, which the kernel may write. *)
Inductive bpf_attr :=
  | AttrCreate (map_type key_size value_size max_entries : Z)
  | AttrElem (fd : Z) (key value : list Z) (flags : Z)
  | AttrLoad (prog_type : Z) (insns : list bpf_insn) (insn_cnt : Z) (license : string)
      (log_size log_level kern_version : Z).

(** The system call returns its result and the bytes it wrote to [value]. *)
Class BpfKernel (K : Type) := {
  sys_bpf : Z -> bpf_attr -> K -> Z * list Z * K
}.

Definition MAX_MAPS : Z := 32.
Definition MAX_PROGS : Z := 32.

(** The globals of [bpf_load.c] and [libbpf.c], and the kernel. *)
Record bpf_world (K : Type) := BpfWorld {
  license : list Z;
  kern_version : Z;
  processed_sec : list bool;
  map_fd : list Z;
  prog_fd : list Z;
  event_fd : list Z;
  prog_cnt : Z;
  bpf_log_buf : list Z;
  kernel : K
}.

Arguments BpfWorld {K}.
Arguments license {K} b.
Arguments kern_version {K} b.
Arguments processed_sec {K} b.
Arguments map_fd {K} b.
Arguments prog_fd {K} b.
Arguments event_fd {K} b.
Arguments prog_cnt {K} b.
Arguments bpf_log_buf {K} b.
Arguments kernel {K} b.

Section Setters.
Context {K : Type}.
Implicit Types (w : bpf_world K).

Definition set_license v w : bpf_world K := BpfWorld v (kern_version w) (processed_sec w) (map_fd w)
  (prog_fd w) (event_fd w) (prog_cnt w) (bpf_log_buf w) (kernel w).
Definition set_kern_version v w : bpf_world K := BpfWorld (license w) v (processed_sec w) (map_fd w)
  (prog_fd w) (event_fd w) (prog_cnt w) (bpf_log_buf w) (kernel w).
Definition set_processed_sec v w : bpf_world K := BpfWorld (license w) (kern_version w) v (map_fd w)
  (prog_fd w) (event_fd w) (prog_cnt w) (bpf_log_buf w) (kernel w).
Definition set_map_fd v w : bpf_world K := BpfWorld (license w) (kern_version w) (processed_sec w) v
  (prog_fd w) (event_fd w) (prog_cnt w) (bpf_log_buf w) (kernel w).
Definition set_prog_fd v w : bpf_world K := BpfWorld (license w) (kern_version w) (processed_sec w)
  (map_fd w) v (event_fd w) (prog_cnt w) (bpf_log_buf w) (kernel w).
Definition set_event_fd v w : bpf_world K := BpfWorld (license w) (kern_version w) (processed_sec w)
  (map_fd w) (prog_fd w) v (prog_cnt w) (bpf_log_buf w) (kernel w).
Definition set_prog_cnt v w : bpf_world K := BpfWorld (license w) (kern_version w) (processed_sec w)
  (map_fd w) (prog_fd w) (event_fd w) v (bpf_log_buf w) (kernel w).
Definition set_bpf_log_buf v w : bpf_world K := BpfWorld (license w) (kern_version w)
  (processed_sec w) (map_fd w) (prog_fd w) (event_fd w) (prog_cnt w) v (kernel w).
Definition set_kernel (v : K) w : bpf_world K := BpfWorld (license w) (kern_version w)
  (processed_sec w) (map_fd w) (prog_fd w) (event_fd w) (prog_cnt w) (bpf_log_buf w) v.
End Setters.

Section LibBpf.
Context {L K E : Type} `{!BpfKernel K}.
Let st : Type := L * bpf_world K.
Let prog (A : Type) : Type := M st E A.

Definition wget : prog (bpf_world K) := gets snd.
Definition wmod (f : bpf_world K -> bpf_world K) : prog unit := modify (fun s => (s.1, f s.2)).

(** [syscall(__NR_bpf, cmd, &attr, sizeof(attr))] *)
Definition syscall_bpf (cmd : Z) (attr : bpf_attr) : prog (Z * list Z) :=
  w <- wget ;;
  let r := sys_bpf cmd attr (kernel w) in
  wmod (set_kernel r.2) ;;; ret r.1.

Definition bpf_create_map (map_type key_size value_size max_entries : Z) : prog Z :=
  r <- syscall_bpf BPF_MAP_CREATE (AttrCreate map_type key_size value_size max_entries) ;;
  ret r.1.

Definition bpf_update_elem (fd : Z) (key value : list Z) (flags : Z) : prog Z :=
  r <- syscall_bpf BPF_MAP_UPDATE_ELEM (AttrElem fd key value flags) ;; ret r.1.

(** Returns the result and the object [value] points to afterwards. *)
Definition bpf_lookup_elem (fd : Z) (key value : list Z) : prog (Z * list Z) :=
  r <- syscall_bpf BPF_MAP_LOOKUP_ELEM (AttrElem fd key value 0) ;;
  v <- write_buf r.2 value ;; ret (r.1, v).

Definition bpf_delete_elem (fd : Z) (key : list Z) : prog Z :=
  r <- syscall_bpf BPF_MAP_DELETE_ELEM (AttrElem fd key [] 0) ;; ret r.1.

Definition bpf_get_next_key (fd : Z) (key next_key : list Z) : prog (Z * list Z) :=
  r <- syscall_bpf BPF_MAP_GET_NEXT_KEY (AttrElem fd key next_key 0) ;;
  v <- write_buf r.2 next_key ;; ret (r.1, v).

(** [prog_len] is in bytes; an instruction has 8.  The kernel writes its log
    to [bpf_log_buf]. *)
Definition bpf_prog_load (prog_type : Z) (insns : list bpf_insn) (prog_len : Z)
    (license : string) (kern_version : Z) : prog Z :=
  wmod (fun w => set_bpf_log_buf (<[0%nat := 0]> (bpf_log_buf w)) w) ;;;
  r <- syscall_bpf BPF_PROG_LOAD
         (AttrLoad prog_type insns (prog_len / 8) license LOG_BUF_SIZE 1 kern_version) ;;
  w <- wget ;;
  b <- write_buf r.2 (bpf_log_buf w) ;;
  wmod (set_bpf_log_buf b) ;;; ret r.1.
End LibBpf.

(** ** Types of map elements *)

Inductive elem :=
  | MAP_ELEM_TYPE_u8 | MAP_ELEM_TYPE_u16 | MAP_ELEM_TYPE_u32 | MAP_ELEM_TYPE_u64
  | MAP_ELEM_TYPE_string | MAP_ELEM_TYPE_userdata.

#[export] Instance elem_eq_dec : EqDecision elem.
Proof. solve_decision. Defined.

(** [sizeof(long)] is 8. *)
Definition get_type (type_name : string) : elem :=
  if decide (type_name = "char" \/ type_name = "u8") then MAP_ELEM_TYPE_u8
  else if decide (type_name = "short" \/ type_name = "u16") then MAP_ELEM_TYPE_u16
  else if decide (type_name = "int" \/ type_name = "u32") then MAP_ELEM_TYPE_u32
  else if decide (type_name = "long") then MAP_ELEM_TYPE_u64
  else if decide (type_name = "long long" \/ type_name = "u64") then MAP_ELEM_TYPE_u64
  else if decide (type_name = "string") then MAP_ELEM_TYPE_string
  else MAP_ELEM_TYPE_userdata.

(** The C type of a number: [typedef char u8; typedef short u16;
    typedef unsigned int u32; typedef uint64_t u64]. *)
Inductive cnum := C_u8 | C_u16 | C_u32 | C_u64.

Definition width (c : cnum) : nat :=
  match c with C_u8 => 1 | C_u16 => 2 | C_u32 => 4 | C_u64 => 8 end.

Definition cast_to (c : cnum) : number -> option Z :=
  match c with
  | C_u8 => cast_char | C_u16 => cast_short | C_u32 => cast_uint | C_u64 => cast_uint64
  end.

(** The value of the object with these bytes. *)
Definition value_of (c : cnum) (bs : list Z) : Z :=
  match c with
  | C_u8 => i8 (unsigned_of bs) | C_u16 => i16 (unsigned_of bs)
  | C_u32 | C_u64 => unsigned_of bs
  end.

Record bpf_map_def := BpfMapDef {
  name : string;
  key_type : string;
  val_type : string;
  map_type : Z;
  key_size : Z;
  value_size : Z;
  max_entries : Z
}.

(** What the [void *] fields of a map's table hold. *)
Inductive hack :=
  | MapDef (m : bpf_map_def)
  | IndexFunc (key val : elem)
  | NewindexFunc (key val : elem)
  | NextFunc (key : elem).

(** The C functions of this component that Lua calls. *)
Class BpfFunctions (F : Type) := {
  fn_mt_index : F;
  fn_mt_newindex : F;
  fn_mt_pairs : F;
  fn_map_next : elem -> F
}.

Section Maps.
Context {F K : Type} `{!BpfKernel K} `{!BpfFunctions F}.
Let L : Type := lua_state hack F.
Let st : Type := L * bpf_world K.
Context `{!LuaVM hack F st}.
Let prog (A : Type) : Type := M st lua_error A.

(** The bytes of memory after the end of a Lua string. *)
Context (heap_after : string -> list Z).

Definition zeros (n : nat) : list Z := replicate n 0.

(** [(u8)lua_tonumber(ls, idx)] and its likes *)
Definition num_at (c : cnum) (idx : Z) : prog Z :=
  n <- lua_tonumber idx ;; orfail Unspecified (cast_to c n).

(** [lua_tostring], read from or copied from: NULL is not checked. *)
Definition tostring_at (idx : Z) : prog string :=
  s <- lua_tolstring idx ;; orfail NullDeref s.

(** [char key[1024] = {0}; memcpy(&key, str, strlen(str))] *)
Definition copy_strlen (s : string) : prog (list Z) :=
  write_buf (take (strlen (string_bytes s)) (string_bytes s)) (zeros 1024).

(** [char key[1024] = {0}; memcpy(&key, str, 1024)] reads on after the end of
    the string. *)
Definition copy_1024 (s : string) : prog (list Z) :=
  let m := string_bytes s ++ 0 :: heap_after s in
  if (length m <? 1024)%nat then fail OutOfBounds else write_buf (take 1024 m) (zeros 1024).

(** [lua_pushstring(ls, buf)]: the string must end within the buffer. *)
Definition push_cstring (buf : list Z) : prog unit :=
  if (strlen buf <? length buf)%nat then lua_pushstring (Some (cstring buf)) else fail OutOfBounds.

(** ** [bpf_map_index_func.h] *)

(** The part after the key: the lookup, whose result is ignored, and the push
    of the value. *)
Definition index_value (val : elem) (fd : Z) (map : bpf_map_def) (key : list Z) : prog Z :=
  let number (c : cnum) : prog Z :=
    r <- bpf_lookup_elem fd key (uninit (Z.of_nat (width c))) ;;
    lua_pushnumber (num_of_Z (value_of c r.2)) ;;; ret 1 in
  match val with
  | MAP_ELEM_TYPE_u8 => number C_u8
  | MAP_ELEM_TYPE_u16 => number C_u16
  | MAP_ELEM_TYPE_u32 => number C_u32
  | MAP_ELEM_TYPE_u64 => number C_u64
  | MAP_ELEM_TYPE_string =>
      r <- bpf_lookup_elem fd key (zeros 1024) ;; push_cstring r.2 ;;; ret 1
  | MAP_ELEM_TYPE_userdata =>
      r <- bpf_lookup_elem fd key (zeros 1024) ;;
      ud <- lua_newuserdata (value_size map) ;;
      if 1024 <? value_size map then fail OutOfBounds else
      lmod (fun l => set_udatas (alter (fun u =>
        GCudata (ud_len u) (ud_metatable u) (ud_env u) (take (Z.to_nat (value_size map)) r.2)) ud
        (udatas l)) l) ;;;
      ret 1
  end.

Definition index_num (c : cnum) (val : elem) (fd : Z) (map : bpf_map_def) : prog Z :=
  key <- num_at c (-1) ;; index_value val fd map (bytes_of (width c) key).

Definition map_index_u8_func : elem -> Z -> bpf_map_def -> prog Z := index_num C_u8.
Definition map_index_u16_func : elem -> Z -> bpf_map_def -> prog Z := index_num C_u16.
Definition map_index_u32_func : elem -> Z -> bpf_map_def -> prog Z := index_num C_u32.
Definition map_index_u64_func : elem -> Z -> bpf_map_def -> prog Z := index_num C_u64.

Definition map_index_string_func (val : elem) (fd : Z) (map : bpf_map_def) : prog Z :=
  str <- tostring_at (-1) ;;
  key <- copy_strlen str ;;
  index_value val fd map key.

Definition map_index_userdata_func (val : elem) (fd : Z) (map : bpf_map_def) : prog Z :=
  index_value val fd map (zeros 1024).

Definition map_index_func_array (key val : elem) : Z -> bpf_map_def -> prog Z :=
  match key with
  | MAP_ELEM_TYPE_u8 => map_index_u8_func val
  | MAP_ELEM_TYPE_u16 => map_index_u16_func val
  | MAP_ELEM_TYPE_u32 => map_index_u32_func val
  | MAP_ELEM_TYPE_u64 => map_index_u64_func val
  | MAP_ELEM_TYPE_string => map_index_string_func val
  | MAP_ELEM_TYPE_userdata => map_index_userdata_func val
  end.

(** ** [bpf_map_newindex_func.h] *)

(** The value's object, and the update, whose result is ignored. *)
Definition newindex_value (val : elem) (fd : Z) (key : list Z) : prog Z :=
  let number (c : cnum) : prog Z :=
    v <- num_at c (-1) ;;
    bpf_update_elem fd key (bytes_of (width c) v) BPF_ANY ;;; ret 0 in
  match val with
  | MAP_ELEM_TYPE_u8 => number C_u8
  | MAP_ELEM_TYPE_u16 => number C_u16
  | MAP_ELEM_TYPE_u32 => number C_u32
  | MAP_ELEM_TYPE_u64 => number C_u64
  | MAP_ELEM_TYPE_string =>
      s <- tostring_at (-1) ;; v <- copy_1024 s ;;
      bpf_update_elem fd key v BPF_ANY ;;; ret 0
  | MAP_ELEM_TYPE_userdata =>
      bpf_update_elem fd key (zeros 1024) BPF_ANY ;;; ret 0
  end.

Definition newindex_num (c : cnum) (val : elem) (fd : Z) (map : bpf_map_def) : prog Z :=
  key <- num_at c (-2) ;; newindex_value val fd (bytes_of (width c) key).

Definition map_newindex_u8_func : elem -> Z -> bpf_map_def -> prog Z := newindex_num C_u8.
Definition map_newindex_u16_func : elem -> Z -> bpf_map_def -> prog Z := newindex_num C_u16.
Definition map_newindex_u32_func : elem -> Z -> bpf_map_def -> prog Z := newindex_num C_u32.
Definition map_newindex_u64_func : elem -> Z -> bpf_map_def -> prog Z := newindex_num C_u64.

Definition map_newindex_string_func (val : elem) (fd : Z) (map : bpf_map_def) : prog Z :=
  s <- tostring_at (-2) ;; key <- copy_1024 s ;; newindex_value val fd key.

Definition map_newindex_userdata_func (val : elem) (fd : Z) (map : bpf_map_def) : prog Z :=
  newindex_value val fd (zeros 1024).

Definition map_newindex_func_array (key val : elem) : Z -> bpf_map_def -> prog Z :=
  match key with
  | MAP_ELEM_TYPE_u8 => map_newindex_u8_func val
  | MAP_ELEM_TYPE_u16 => map_newindex_u16_func val
  | MAP_ELEM_TYPE_u32 => map_newindex_u32_func val
  | MAP_ELEM_TYPE_u64 => map_newindex_u64_func val
  | MAP_ELEM_TYPE_string => map_newindex_string_func val
  | MAP_ELEM_TYPE_userdata => map_newindex_userdata_func val
  end.

(** ** [bpf_map_next_func.h] *)

(** [tabV(ls->top - n)] and the [int] in its [data1] *)
Definition hack_table (idx : Z) : prog (gctab hack) :=
  v <- at_index idx ;; t <- tabV v ;; get_tab t.
Definition hack_fd (t : gctab hack) : prog Z := orfail Unspecified (data1 t).

Definition next_num (c : cnum) : prog Z :=
  t <- hack_table (-2) ;;
  fd <- hack_fd t ;;
  key <- num_at c (-1) ;;
  r <- bpf_get_next_key fd (bytes_of (width c) key) (uninit (Z.of_nat (width c))) ;;
  if r.1 =? 0 then lua_pushnumber (num_of_Z (value_of c r.2)) ;;; ret 1 else ret 0.

Definition map_next_u8_func : prog Z := next_num C_u8.
Definition map_next_u16_func : prog Z := next_num C_u16.
Definition map_next_u32_func : prog Z := next_num C_u32.
Definition map_next_u64_func : prog Z := next_num C_u64.

Definition map_next_string_func : prog Z :=
  t <- hack_table (-2) ;;
  fd <- hack_fd t ;;
  nil <- lua_isnil (-1) ;;
  key <- (if nil then ret (zeros 1024)
          else str <- tostring_at (-1) ;; copy_strlen str) ;;
  r <- bpf_get_next_key fd key (zeros 1024) ;;
  if r.1 =? 0 then push_cstring r.2 ;;; ret 1 else ret 0.

Definition map_next_userdata_func : prog Z :=
  t <- hack_table (-2) ;;
  fd <- hack_fd t ;;
  r <- bpf_get_next_key fd (zeros 1024) (zeros 1024) ;;
  ret (if r.1 =? 0 then 1 else 0).

Definition map_next_func_array (key : elem) : prog Z :=
  match key with
  | MAP_ELEM_TYPE_u8 => map_next_u8_func
  | MAP_ELEM_TYPE_u16 => map_next_u16_func
  | MAP_ELEM_TYPE_u32 => map_next_u32_func
  | MAP_ELEM_TYPE_u64 => map_next_u64_func
  | MAP_ELEM_TYPE_string => map_next_string_func
  | MAP_ELEM_TYPE_userdata => map_next_userdata_func
  end.

(** ** [bpf.c] *)

Definition hack_map (t : gctab hack) : prog bpf_map_def :=
  match data2 t with Some (MapDef m) => ret m | _ => fail Unspecified end.

Definition mt_index : prog Z :=
  t <- hack_table (-2) ;;
  fd <- hack_fd t ;;
  map <- hack_map t ;;
  match data3 t with
  | Some (IndexFunc key val) => map_index_func_array key val fd map ;;; ret 1
  | _ => fail Unspecified
  end.

Definition mt_newindex : prog Z :=
  t <- hack_table (-3) ;;
  fd <- hack_fd t ;;
  map <- hack_map t ;;
  match data4 t with
  | Some (NewindexFunc key val) => map_newindex_func_array key val fd map ;;; ret 0
  | _ => fail Unspecified
  end.

Definition mt_pairs : prog Z :=
  t <- hack_table (-1) ;;
  match data5 t with
  | Some (NextFunc key) =>
      lua_pushcfunction (fn_map_next key) ;;;
      lua_pushvalue (-2) ;;;
      lua_pushnil ;;;
      ret 3
  | _ => fail Unspecified
  end.

Definition init_metatable (map : bpf_map_def) (fd : Z) : prog unit :=
  let key := get_type (key_type map) in
  let val := get_type (val_type map) in
  v <- at_index (-1) ;;
  t <- tabV v ;;
  g <- get_tab t ;;
  put_tab t (GCtab (hash g) (metatable g) (Some fd) (Some (MapDef map))
    (Some (IndexFunc key val)) (Some (NewindexFunc key val)) (Some (NextFunc key))) ;;;
  lua_createtable ;;;
  lua_pushcfunction fn_mt_index ;;;
  lua_setfield (-2) "__index" ;;;
  lua_pushcfunction fn_mt_newindex ;;;
  lua_setfield (-2) "__newindex" ;;;
  lua_pushcfunction fn_mt_pairs ;;;
  lua_setfield (-2) "__pairs" ;;;
  lua_pushcfunction fn_mt_pairs ;;;
  lua_setfield (-2) "__ipairs" ;;;
  lua_setmetatable (-2).

(** The loop over the maps; [i] counts them, and [map_fd] has [MAX_MAPS]
    entries. *)
Fixpoint create_maps (i : nat) (maps : list bpf_map_def) : prog bool :=
  match maps with
  | [] => ret true
  | map :: maps =>
      fd <- bpf_create_map (map_type map) (key_size map) (value_size map) (max_entries map) ;;
      w <- wget ;;
      if (length (map_fd w) <=? i)%nat then fail OutOfBounds else
      wmod (fun w => set_map_fd (<[i := fd]> (map_fd w)) w) ;;;
      if fd <? 0 then ret false else
      lua_createtable ;;;
      init_metatable map fd ;;;
      lua_setfield (-2) (name map) ;;;
      create_maps (S i) maps
  end.

Definition shark_create_bpf_map (maps : list bpf_map_def) : prog Z :=
  lua_getglobal "bpf" ;;;
  lua_createtable ;;;
  ok <- create_maps 0 maps ;;
  if negb ok then ret 1 else
  lua_setfield (-2) "var" ;;;
  lua_pop 1 ;;;
  lua_pushnil ;;;
  lua_setglobal "bpf" ;;;
  ret 0.
End Maps.
