(* ===== verification/BpfLoad.v ===== *)
(** * Loading BPF programs ([bpf/libbpf/bpf_load.c])

    [load_bpf_file] reads an ELF object with libelf, creates the maps of its
    maps section, patches the instructions that refer to maps, loads every
    program section and attaches it to its kprobe.  libelf and the operating
    system are parameters; an ELF file is what libelf returns of it, and the
    section contents are threaded through, since relocation patches them in
    place.  What is printed when a step fails is left out. *)

From stdpp Require Import base option strings countable gmap list.
From Stdlib Require Import ZArith Lia SpecFloat Ascii.
From Stdlib Require String.
From S2P Require Import Prelude Number LuaApi Bpf.

Local Open Scope Z_scope.
Local Open Scope prog_scope.

(** ** ELF files as libelf presents them *)

Record GElf_Shdr := GElfShdr {
  sh_type : Z;
  sh_size : Z;
  sh_info : Z;
  sh_entsize : Z
}.

(** A section: its header and its name, where libelf finds them, and the
    buffers of its data descriptors. *)
Record elf_scn := ElfScn {
  scn_shdr : option GElf_Shdr;
  scn_name : option string;
  scn_data : list (list Z)
}.

Abbreviation elf := (gmap Z elf_scn).

Definition SHT_SYMTAB : Z := 2.
Definition SHT_REL : Z := 9.

(** libelf: opening a file, the number of sections of its header, and the
    entries of relocation and symbol tables. *)
Class Libelf (K : Type) := {
  elf_version_ok : bool;
  elf_begin : Z -> K -> option elf;
  gelf_getehdr : elf -> option Z;
  gelf_getrel : list Z -> Z -> option (Z * Z);
  gelf_getsym : list Z -> Z -> option Z
}.

(** The system calls and library calls of [bpf_load.c] but [bpf] itself. *)
Class BpfSys (K : Type) := {
  sys_open : string -> K -> Z * K;
  sys_close : Z -> K -> K;
  sys_read : Z -> Z -> K -> Z * list Z * K;
  sys_system : string -> K -> Z * K;
  sys_perf_event_open : Z -> K -> Z * K;
  sys_ioctl : Z -> Z -> Z -> K -> K
}.

Definition dquote : string := String (ascii_of_N 34) EmptyString.

Definition DEBUGFS : string := "/sys/kernel/debug/tracing/".
Definition BPF_PROG_TYPE_SOCKET_FILTER : Z := 1.
Definition BPF_PROG_TYPE_KPROBE : Z := 2.
Definition BPF_PSEUDO_MAP_FD : Z := 1.
(** [BPF_LD | BPF_IMM | BPF_DW] *)
Definition BPF_LD_IMM_DW : Z := 0x18.
Definition PERF_EVENT_IOC_ENABLE : Z := 0x2400.
Definition PERF_EVENT_IOC_SET_BPF : Z := 0x40042408.

(** ** Structs in memory *)

Definition le (o n : nat) (bs : list Z) : Z := unsigned_of (take n (drop o bs)).

Definition sizeof_bpf_insn : Z := 8.
Definition sizeof_bpf_map_def : Z := 64.

Definition insn_of (bs : list Z) : bpf_insn :=
  BpfInsn (le 0 1 bs) (Z.land (le 1 1 bs) 15) (Z.shiftr (le 1 1 bs) 4) (i16 (le 2 2 bs))
    (i32 (le 4 4 bs)).

Definition map_def_of (bs : list Z) : bpf_map_def :=
  BpfMapDef (cstring (take 16 bs)) (cstring (take 16 (drop 16 bs))) (cstring (take 16 (drop 32 bs)))
    (le 48 4 bs) (le 52 4 bs) (le 56 4 bs) (le 60 4 bs).

(** [n] consecutive structs of [size] bytes *)
Fixpoint structs {A} (size n : nat) (dec : list Z -> A) (bs : list Z) : list A :=
  match n with
  | O => []
  | S n => dec bs :: structs size n dec (drop size bs)
  end.

Definition insns_of (bs : list Z) : list bpf_insn :=
  structs 8 (length bs / 8) insn_of bs.
Definition map_defs_of (bs : list Z) : list bpf_map_def :=
  structs 64 (length bs / 64) map_def_of bs.

(** [insn->src_reg = BPF_PSEUDO_MAP_FD; insn->imm = fd] on the bytes of one
    instruction *)
Definition patch_insn (fd : Z) (insn : list Z) : list Z :=
  take 1 insn ++ [Z.lor (Z.land (le 1 1 insn) 15) (Z.shiftl BPF_PSEUDO_MAP_FD 4)] ++
  take 2 (drop 2 insn) ++ bytes_of 4 fd ++ drop 8 insn.

(** [atoi]: the decimal digits a string starts with. *)
Fixpoint atoi (bs : list Z) (acc : Z) : Z :=
  match bs with
  | b :: bs => if (48 <=? b) && (b <=? 57) then atoi bs (10 * acc + (b - 48)) else acc
  | [] => acc
  end.

Section Load.
Context {F K : Type} `{!BpfKernel K} `{!BpfSys K} `{!Libelf K} `{!BpfFunctions F}.
Let L : Type := lua_state hack F.
Let st : Type := L * bpf_world K.
Context `{!LuaVM hack F st}.
Let prog (A : Type) : Type := M st lua_error A.

(** A call that returns a result. *)
Definition sys {A} (f : K -> A * K) : prog A :=
  w <- wget ;; let r := f (kernel w) in wmod (set_kernel r.2) ;;; ret r.1.
Definition sys_ (f : K -> K) : prog unit := wmod (fun w => set_kernel (f (kernel w)) w).

(** ** [load_and_attach] *)

Definition kprobe_cmd (c event : string) : string :=
  "echo '" +:+ c +:+ ":" +:+ event +:+ " " +:+ event +:+
  "' >> /sys/kernel/debug/tracing/kprobe_events".

(** [snprintf] into 256 bytes *)
Definition snprintf_256 (s : string) : string := String.substring 0 255 s.

(** Writes entry [i] of a global array of [MAX_PROGS] or [MAX_MAPS] entries. *)
Definition store_at (l : list Z) (i : Z) (v : Z) : prog (list Z) :=
  if (0 <=? i) && (i <? Z.of_nat (length l)) then ret (<[Z.to_nat i := v]> l) else fail OutOfBounds.

(** The kprobe of a loaded program: its id is read from debugfs and a perf
    event opened on it. *)
Definition attach_event (event : string) (fd : Z) : prog Z :=
  let path := DEBUGFS +:+ "events/kprobes/" +:+ event +:+ "/id" in
  if (256 <? Z.of_nat (String.length path) + 1) then fail OutOfBounds else
  efd <- sys (sys_open path) ;;
  if efd <? 0 then ret (-1) else
  r <- sys (fun k => let '(n, bs, k) := sys_read efd 256 k in ((n, bs), k)) ;;
  if (r.1 <? 0) || (256 <=? r.1) then ret (-1) else
  sys_ (sys_close efd) ;;;
  let id := atoi (take (Z.to_nat r.1) r.2) 0 in
  efd <- sys (sys_perf_event_open id) ;;
  if efd <? 0 then ret (-1) else
  w <- wget ;;
  fds <- store_at (event_fd w) (prog_cnt w - 1) efd ;;
  wmod (set_event_fd fds) ;;;
  sys_ (sys_ioctl efd PERF_EVENT_IOC_ENABLE 0) ;;;
  sys_ (sys_ioctl efd PERF_EVENT_IOC_SET_BPF fd) ;;;
  ret 0.

Definition load_and_attach (event : string) (prg : list bpf_insn) (size : Z) : prog Z :=
  let is_socket := String.prefix "socket" event in
  let is_kprobe := String.prefix "kprobe/" event in
  let is_kretprobe := String.prefix "kretprobe/" event in
  if negb (is_socket || is_kprobe || is_kretprobe) then ret (-1) else
  let prog_type := if is_socket then BPF_PROG_TYPE_SOCKET_FILTER else BPF_PROG_TYPE_KPROBE in
  let probe := is_kprobe || is_kretprobe in
  let skip_len := if is_kprobe then 7%nat else 10%nat in
  let event := if probe then String.substring skip_len (String.length event - skip_len) event
               else event in
  err <- (if probe then
            sys (sys_system (snprintf_256 (kprobe_cmd (if is_kprobe then "p" else "r") event)))
          else ret 0) ;;
  if err <? 0 then ret (-1) else
  w <- wget ;;
  fd <- bpf_prog_load prog_type prg size (cstring (license w)) (kern_version w) ;;
  if fd <? 0 then ret (-1) else
  w <- wget ;;
  fds <- store_at (prog_fd w) (prog_cnt w) fd ;;
  wmod (fun w => set_prog_cnt (i32 (prog_cnt w + 1)) (set_prog_fd fds w)) ;;;
  if is_socket then ret 0 else attach_event event fd.

(** ** Sections *)

Definition load_maps (buf : list Z) : prog Z := shark_create_bpf_map (map_defs_of buf).

(** [get_sec]: the name, the header and the data, or the error code. *)
Definition get_sec (e : elf) (i : Z) : Z + string * GElf_Shdr * list Z :=
  match e !! i with
  | None => inl 1
  | Some scn =>
      match scn_shdr scn with
      | None => inl 2
      | Some shdr =>
          match scn_name scn with
          | None => inl 3
          | Some shname =>
              if sh_size shdr =? 0 then inl 3 else
              match scn_data scn with
              | [data] => inr (shname, shdr, data)
              | _ => inl 4
              end
          end
      end
  end.

(** [insn[idx]] patched in the data of a section *)
Definition patch_at (idx : Z) (fd : Z) (insns : list Z) : list Z :=
  let o := Z.to_nat (8 * idx) in
  take o insns ++ patch_insn fd (take 8 (drop o insns)) ++ drop (o + 8) insns.

(** One relocation: [None] when the instruction does not load a map. *)
Definition apply_relo (data : list Z) (symbols : option (list Z)) (i : Z) (insns : list Z) :
    prog (option (list Z)) :=
  rel <- orfail Unspecified (gelf_getrel (K := K) data i) ;;
  let insn_idx := u32 (rel.1 / sizeof_bpf_insn) in
  sym <- orfail Unspecified (s ← symbols; gelf_getsym (K := K) s (Z.shiftr rel.2 32)) ;;
  if Z.of_nat (length insns) <? 8 * insn_idx + 8 then fail OutOfBounds else
  if negb (le (Z.to_nat (8 * insn_idx)) 1 insns =? BPF_LD_IMM_DW) then ret None else
  w <- wget ;;
  fd <- orfail OutOfBounds (map_fd w !! Z.to_nat (sym / sizeof_bpf_map_def)) ;;
  ret (Some (patch_at insn_idx fd insns)).

(** The loop over the relocations, on [nrels - i = n]: the patched data and
    whether all were applied. *)
Fixpoint apply_relos (n : nat) (i : Z) (data : list Z) (symbols : option (list Z)) (insns : list Z) :
    prog (bool * list Z) :=
  match n with
  | O => ret (true, insns)
  | S n =>
      r <- apply_relo data symbols i insns ;;
      match r with
      | None => ret (false, insns)
      | Some insns => apply_relos n (i + 1) data symbols insns
      end
  end.

Definition parse_relo_and_apply (data : list Z) (symbols : option (list Z)) (shdr : GElf_Shdr)
    (insns : list Z) : prog (bool * list Z) :=
  if sh_entsize shdr =? 0 then fail Unspecified else
  apply_relos (Z.to_nat (i32 (sh_size shdr / sh_entsize shdr))) 0 data symbols insns.

Definition is_prog_sec (shname : string) : bool :=
  String.prefix "kprobe/" shname || String.prefix "kretprobe/" shname || String.prefix "socket" shname.

(** [processed_sec[i] = true] *)
Definition mark_processed (i : Z) : prog unit :=
  w <- wget ;;
  if (0 <=? i) && (i <? Z.of_nat (length (processed_sec w)))
  then wmod (set_processed_sec (<[Z.to_nat i := true]> (processed_sec w)))
  else fail OutOfBounds.

(** First pass, one section: [None] is [goto err]. *)
Definition scan_sec (e : elf) (i : Z) (symbols : option (list Z)) : prog (option (option (list Z))) :=
  match get_sec e i with
  | inl _ => ret (Some symbols)
  | inr (shname, shdr, data) =>
      if decide (shname = "license") then
        mark_processed i ;;;
        w <- wget ;;
        b <- write_buf data (license w) ;;
        wmod (set_license b) ;;; ret (Some symbols)
      else if decide (shname = "version") then
        mark_processed i ;;;
        if negb (Z.of_nat (length data) =? 4) then ret None else
        wmod (set_kern_version (i32 (unsigned_of data))) ;;; ret (Some symbols)
      else if decide (shname = "maps") then
        mark_processed i ;;;
        r <- load_maps data ;;
        ret (if r =? 0 then Some symbols else None)
      else ret (Some (if sh_type shdr =? SHT_SYMTAB then Some data else symbols))
  end.

Fixpoint scan_secs (e : elf) (idxs : list Z) (symbols : option (list Z)) :
    prog (option (option (list Z))) :=
  match idxs with
  | [] => ret (Some symbols)
  | i :: idxs =>
      r <- scan_sec e i symbols ;;
      match r with None => ret None | Some symbols => scan_secs e idxs symbols end
  end.

(** Second pass, one section: relocate and load. *)
Definition relo_sec (e : elf) (i : Z) (symbols : option (list Z)) : prog elf :=
  match get_sec e i with
  | inl _ => ret e
  | inr (shname, shdr, data) =>
      if negb (sh_type shdr =? SHT_REL) then ret e else
      match get_sec e (sh_info shdr) with
      | inl _ => ret e
      | inr (shname_prog, shdr_prog, data_prog) =>
          mark_processed (sh_info shdr) ;;;
          mark_processed i ;;;
          r <- parse_relo_and_apply data symbols shdr data_prog ;;
          let e := <[sh_info shdr := ElfScn (Some shdr_prog) (Some shname_prog) [r.2]]> e in
          if negb r.1 then ret e else
          (when (is_prog_sec shname_prog) do
            (load_and_attach shname_prog (insns_of r.2) (Z.of_nat (length data_prog)) ;;; skip)) ;;;
          ret e
      end
  end.

Fixpoint relo_secs (e : elf) (idxs : list Z) (symbols : option (list Z)) : prog elf :=
  match idxs with
  | [] => ret e
  | i :: idxs => e <- relo_sec e i symbols ;; relo_secs e idxs symbols
  end.

(** Third pass, one section: load what is left. *)
Definition load_sec (e : elf) (i : Z) : prog unit :=
  w <- wget ;;
  p <- orfail OutOfBounds (processed_sec w !! Z.to_nat i : option bool) ;;
  if p then skip else
  match get_sec e i with
  | inl _ => skip
  | inr (shname, shdr, data) =>
      when (is_prog_sec shname) do
        (load_and_attach shname (insns_of data) (Z.of_nat (length data)) ;;; skip)
  end.

Fixpoint load_secs (e : elf) (idxs : list Z) : prog unit :=
  match idxs with
  | [] => skip
  | i :: idxs => load_sec e i ;;; load_secs e idxs
  end.

(** The label [err]. *)
Definition load_err (fd : Z) : prog Z :=
  (when (0 <=? fd) do sys_ (sys_close fd)) ;;; ret 1.

Definition load_bpf_file (path : string) : prog Z :=
  fd <- sys (sys_open path) ;;
  if (fd <? 0) || negb (elf_version_ok (K := K)) then load_err fd else
  w <- wget ;;
  match elf_begin fd (kernel w) with
  | None => load_err fd
  | Some e =>
      match gelf_getehdr (K := K) e with
      | None => load_err fd
      | Some e_shnum =>
          let idxs := Z.of_nat <$> seq 1 (Z.to_nat e_shnum - 1) in
          sys (sys_system ("echo " +:+ dquote +:+ dquote +:+ " > /sys/kernel/debug/tracing/kprobe_events")) ;;;
          r <- scan_secs e idxs None ;;
          match r with
          | None => load_err fd
          | Some symbols =>
              e <- relo_secs e idxs symbols ;;
              load_secs e idxs ;;;
              sys_ (sys_close fd) ;;;
              ret 0
          end
      end
  end.
End Load.
