(* ===== verification/BpfRun.v ===== *)
(** * BPF maps as Lua tables: the kernel's contract and the accessors' runs

    What the kernel documents of its map commands ([BpfKernelSpec]), numbers as
    bytes, and what the accessors of [Bpf] do on a map with that contract. *)

From stdpp Require Import base option strings countable gmap list.
From Stdlib Require Import ZArith Lia SpecFloat Ascii.
From Stdlib Require String.
From S2P Require Import Prelude Number LuaApi LuaRun Bpf.

Local Open Scope Z_scope.

(** ** BPF maps as the kernel documents them *)

Record kmap := KMap {
  k_size : nat;
  v_size : nat;
  k_max : nat;
  k_elems : list (list Z * list Z)
}.

Fixpoint assoc (key : list Z) (es : list (list Z * list Z)) : option (list Z) :=
  match es with
  | [] => None
  | (k, v) :: es => if decide (k = key) then Some v else assoc key es
  end.

(** The key after [key] in the order of the map, and the first key when [key]
    is not in it. *)
Fixpoint key_after (key : list Z) (es : list (list Z * list Z)) : option (list Z) :=
  match es with
  | [] => None
  | (k, _) :: es => if decide (k = key) then fst <$> head es else key_after key es
  end.

Definition next_of (key : list Z) (es : list (list Z * list Z)) : option (list Z) :=
  match assoc key es with
  | Some _ => key_after key es
  | None => fst <$> head es
  end.

(** The documented behaviour of the element commands: keys and values are the
    first [key_size] and [value_size] bytes of the objects; [BPF_ANY] creates or
    replaces, and fails only when a new key finds the map full. *)
Class BpfKernelSpec (K : Type) `{!BpfKernel K} := {
  maps_of : K -> Z -> option kmap;
  lookup_spec k fd m key buf fl : maps_of k fd = Some m -> (k_size m <= length key)%nat ->
    sys_bpf BPF_MAP_LOOKUP_ELEM (AttrElem fd key buf fl) k =
    match assoc (take (k_size m) key) (k_elems m) with
    | Some v => (0, v, k)
    | None => (-1, [], k)
    end;
  update_spec k fd m key val : maps_of k fd = Some m -> (k_size m <= length key)%nat ->
    (v_size m <= length val)%nat ->
    (is_Some (assoc (take (k_size m) key) (k_elems m)) \/ (length (k_elems m) < k_max m)%nat) ->
    exists k' m', sys_bpf BPF_MAP_UPDATE_ELEM (AttrElem fd key val BPF_ANY) k = (0, [], k') /\
      maps_of k' fd = Some m' /\ k_size m' = k_size m /\ v_size m' = v_size m /\
      forall key', assoc key' (k_elems m') =
        if decide (key' = take (k_size m) key) then Some (take (v_size m) val)
        else assoc key' (k_elems m);
  next_spec k fd m key buf fl : maps_of k fd = Some m -> (k_size m <= length key)%nat ->
    sys_bpf BPF_MAP_GET_NEXT_KEY (AttrElem fd key buf fl) k =
    match next_of (take (k_size m) key) (k_elems m) with
    | Some v => (0, v, k)
    | None => (-1, [], k)
    end
}.

(** ** Numbers as bytes *)

Definition c_range (c : cnum) (z : Z) : Prop :=
  match c with
  | C_u8 => -128 <= z <= 127
  | C_u16 => -32768 <= z <= 32767
  | C_u32 => 0 <= z <= UINT_MAX
  | C_u64 => 0 <= z < 2 ^ 53
  end.

Lemma bytes_of_length w z : length (bytes_of w z) = w.
Proof. revert z. induction w as [|w IH]; intros z; simpl; [done|by rewrite IH]. Qed.

Lemma unsigned_bytes w z : unsigned_of (bytes_of w z) = z mod 256 ^ Z.of_nat w.
Proof.
  revert z. induction w as [|w IH]; intros z; [simpl; by rewrite Z.mod_1_r|].
  simpl unsigned_of. rewrite IH, Nat2Z.inj_succ, Z.pow_succ_r by lia.
  rewrite (Z.mul_comm 256 (256 ^ Z.of_nat w)). symmetry.
  rewrite (Z.mul_comm (256 ^ Z.of_nat w)). apply Z.rem_mul_r; [lia|].
  apply Z.pow_pos_nonneg; lia.
Qed.

Lemma value_of_bytes c z : c_range c z -> value_of c (bytes_of (width c) z) = z.
Proof.
  intros Hz. destruct c; unfold value_of, width; rewrite unsigned_bytes; simpl Z.of_nat; simpl Z.pow.
  - unfold wrap_s. simpl Z.pow. simpl in Hz. lia.
  - unfold wrap_s. simpl Z.pow. simpl in Hz. lia.
  - unfold c_range, UINT_MAX in Hz. apply Z.mod_small. lia.
  - unfold c_range in Hz. apply Z.mod_small. lia.
Qed.

Lemma cast_range c z : c_range c z -> cast_to c (num_of_Z z) = Some z.
Proof.
  intros Hz. destruct c; unfold c_range, UINT_MAX in Hz; apply c_cast_num_of_Z;
    unfold UINT_MAX, UINT64_MAX; lia.
Qed.

Definition elem_of (c : cnum) : elem :=
  match c with
  | C_u8 => MAP_ELEM_TYPE_u8 | C_u16 => MAP_ELEM_TYPE_u16
  | C_u32 => MAP_ELEM_TYPE_u32 | C_u64 => MAP_ELEM_TYPE_u64
  end.

Section Run.
Context {F K : Type} `{!BpfKernel K} `{!BpfKernelSpec K} `{!BpfFunctions F}.
Let L : Type := lua_state hack F.
Let st : Type := L * bpf_world K.
Context `{!LuaVM hack F st}.
Context (heap_after : string -> list Z).
Implicit Types (l : L) (w : bpf_world K).

Lemma runs_num_at c idx l z :
  runs (St := st) (at_index idx) l (TNum (num_of_Z z)) l -> c_range c z ->
  runs (St := st) (num_at c idx) l z l.
Proof.
  intros Hat Hz. eapply runs_bind.
  - eapply runs_bind; [exact Hat|]. apply runs_ret.
  - apply runs_orfail. simpl. by apply cast_range.
Qed.

Lemma run_fst {A} (m : M st lua_error A) l w a l' : runs m l a l' -> m (l, w) = Ret a (l', w).
Proof. intros H. apply (H (l, w)). done. Qed.

Lemma set_kernel_id w : set_kernel (kernel w) w = w.
Proof. by destruct w. Qed.

Lemma lookup_run l w fd m key buf :
  maps_of (kernel w) fd = Some m -> (k_size m <= length key)%nat ->
  bpf_lookup_elem (E := lua_error) fd key buf (l, w) =
  match assoc (take (k_size m) key) (k_elems m) with
  | Some v => if (length v <=? length buf)%nat then Ret (0, v ++ drop (length v) buf) (l, w)
              else Fault OutOfBounds
  | None => Ret (-1, buf) (l, w)
  end.
Proof.
  intros Hm Hk. unfold bpf_lookup_elem, syscall_bpf, wget, wmod, gets, modify, bind. simpl.
  rewrite (lookup_spec (kernel w) fd m key buf 0 Hm Hk).
  destruct (assoc _ _) as [v|]; unfold write_buf; simpl; rewrite set_kernel_id.
  - by destruct (length v <=? length buf)%nat.
  - done.
Qed.

Lemma next_run l w fd m key buf :
  maps_of (kernel w) fd = Some m -> (k_size m <= length key)%nat ->
  bpf_get_next_key (E := lua_error) fd key buf (l, w) =
  match next_of (take (k_size m) key) (k_elems m) with
  | Some v => if (length v <=? length buf)%nat then Ret (0, v ++ drop (length v) buf) (l, w)
              else Fault OutOfBounds
  | None => Ret (-1, buf) (l, w)
  end.
Proof.
  intros Hm Hk. unfold bpf_get_next_key, syscall_bpf, wget, wmod, gets, modify, bind. simpl.
  rewrite (next_spec (kernel w) fd m key buf 0 Hm Hk).
  destruct (next_of _ _) as [v|]; unfold write_buf; simpl; rewrite set_kernel_id.
  - by destruct (length v <=? length buf)%nat.
  - done.
Qed.

Lemma update_run l w fd m key val :
  maps_of (kernel w) fd = Some m -> (k_size m <= length key)%nat -> (v_size m <= length val)%nat ->
  (is_Some (assoc (take (k_size m) key) (k_elems m)) \/ (length (k_elems m) < k_max m)%nat) ->
  exists k' m', bpf_update_elem (E := lua_error) fd key val BPF_ANY (l, w) =
      Ret 0 (l, set_kernel k' w) /\
    maps_of k' fd = Some m' /\ k_size m' = k_size m /\ v_size m' = v_size m /\
    forall key', assoc key' (k_elems m') =
      if decide (key' = take (k_size m) key) then Some (take (v_size m) val)
      else assoc key' (k_elems m).
Proof.
  intros Hm Hk Hv Hroom.
  destruct (update_spec (kernel w) fd m key val Hm Hk Hv Hroom) as (k' & m' & E & Hrest).
  exists k', m'. split; [|done].
  unfold bpf_update_elem, syscall_bpf, wget, wmod, gets, modify, bind. simpl. by rewrite E.
Qed.

(** A table that [init_metatable] has set up for the map [fd]. *)
Definition map_table l (t : ptr) (fd : Z) (map : bpf_map_def) : Prop :=
  exists g, tabs l !! t = Some g /\ data1 g = Some fd /\ data2 g = Some (MapDef map) /\
    data3 g = Some (IndexFunc (get_type (key_type map)) (get_type (val_type map))) /\
    data4 g = Some (NewindexFunc (get_type (key_type map)) (get_type (val_type map))) /\
    data5 g = Some (NextFunc (get_type (key_type map))).

Lemma map_table_stack l t fd map vs : map_table l t fd map -> map_table (set_stack vs l) t fd map.
Proof. done. Qed.

Lemma runs_hack_table l idx t g : runs (St := st) (at_index idx) l (TTab t) l -> tabs l !! t = Some g ->
  runs (St := st) (hack_table idx) l g l.
Proof.
  intros Hat Hg. eapply runs_bind; [exact Hat|]. eapply runs_bind; [apply runs_tabV|].
  by apply runs_get_tab.
Qed.

Lemma at_stack2 l a b : stack l = [a; b] ->
  runs (St := st) (at_index (-2)) l a l /\ runs (St := st) (at_index (-1)) l b l.
Proof. intros Hst. split; apply runs_at_neg; rewrite ?Hst; done. Qed.

Lemma at_stack3 l a b c : stack l = [a; b; c] ->
  runs (St := st) (at_index (-3)) l a l /\ runs (St := st) (at_index (-2)) l b l /\
  runs (St := st) (at_index (-1)) l c l.
Proof. intros Hst. split_and!; apply runs_at_neg; rewrite ?Hst; done. Qed.

Lemma bind_run {A B} (m : M st lua_error A) (k : A -> M st lua_error B) l w a l' :
  runs m l a l' -> bind m k (l, w) = k a (l', w).
Proof. intros H. unfold bind. by rewrite (run_fst m l w a l' H). Qed.

Lemma index_value_num cv l w fd map key :
  index_value (elem_of cv) fd map key (l, w) =
  (r <- bpf_lookup_elem fd key (uninit (Z.of_nat (width cv))) ;;
   lua_pushnumber (num_of_Z (value_of cv r.2)) ;;; ret 1)%prog (l, w).
Proof. by destruct cv. Qed.

Lemma index_array_num ck cv fd map :
  map_index_func_array (elem_of ck) (elem_of cv) fd map = index_num ck (elem_of cv) fd map.
Proof. by destruct ck. Qed.

Lemma newindex_array_num ck cv fd map :
  map_newindex_func_array heap_after (elem_of ck) (elem_of cv) fd map =
  newindex_num heap_after ck (elem_of cv) fd map.
Proof. by destruct ck. Qed.

Lemma newindex_value_num cv l w fd key :
  newindex_value heap_after (elem_of cv) fd key (l, w) =
  (v <- num_at cv (-1) ;;
   bpf_update_elem fd key (bytes_of (width cv) v) BPF_ANY ;;; ret 0)%prog (l, w).
Proof. by destruct cv. Qed.

(** What the table of a map says: its file and the types of its elements. *)
Definition num_map l (t : ptr) (fd : Z) (ck cv : cnum) : Prop :=
  exists map, map_table l t fd map /\ get_type (key_type map) = elem_of ck /\
    get_type (val_type map) = elem_of cv.

(** What a lookup leaves in a number's buffer: the value, or what was there. *)
Definition found (cv : cnum) (m : kmap) (key : list Z) : list Z :=
  default (uninit (V := hack) (F := F) (S := st) (Z.of_nat (width cv))) (assoc key (k_elems m)).

Lemma index_value_run l w fd map m cv key :
  maps_of (kernel w) fd = Some m -> (k_size m <= length key)%nat ->
  length (found cv m (take (k_size m) key)) = width cv ->
  length (uninit (V := hack) (F := F) (S := st) (Z.of_nat (width cv))) = width cv ->
  index_value (elem_of cv) fd map key (l, w) =
    Ret 1 (set_stack (stack l ++
      [TNum (num_of_Z (value_of cv (found cv m (take (k_size m) key))))]) l, w).
Proof.
  intros Hm Hk Hf Hun. rewrite index_value_num. unfold bind at 1.
  rewrite (lookup_run l w fd m) by done. unfold found in *.
  destruct (assoc _ _) as [v|]; [|done]. simpl in Hf.
  rewrite Hf, Hun, Nat.leb_refl. simpl. rewrite drop_ge by lia. by rewrite app_nil_r.
Qed.

Lemma newindex_value_run l w fd m cv key v st0 :
  maps_of (kernel w) fd = Some m -> (k_size m <= length key)%nat -> v_size m = width cv ->
  stack l = st0 ++ [TNum (num_of_Z v)] -> c_range cv v ->
  (is_Some (assoc (take (k_size m) key) (k_elems m)) \/ (length (k_elems m) < k_max m)%nat) ->
  exists k' m', newindex_value heap_after (elem_of cv) fd key (l, w) = Ret 0 (l, set_kernel k' w) /\
    maps_of k' fd = Some m' /\ k_size m' = k_size m /\
    forall key', assoc key' (k_elems m') =
      if decide (key' = take (k_size m) key) then Some (bytes_of (width cv) v)
      else assoc key' (k_elems m).
Proof.
  intros Hm Hk Hvs Hst Hv Hroom.
  assert (take (v_size m) (bytes_of (width cv) v) = bytes_of (width cv) v) as Htv.
  { apply take_ge. rewrite bytes_of_length. lia. }
  destruct (update_run l w fd m key (bytes_of (width cv) v) Hm)
    as (k' & m' & Hrun & Hm' & Hks' & _ & Hassoc); [done|rewrite bytes_of_length; lia|done|].
  rewrite Htv in Hassoc. exists k', m'. split; [|done]. rewrite newindex_value_num.
  rewrite (bind_run _ _ _ _ _ _ (runs_num_at cv _ _ v (runs_at_top l _ _ Hst) Hv)).
  unfold L in *. unfold bind. by rewrite Hrun.
Qed.

(** The accessors of a map's table, up to the call of the generated function. *)
Lemma mt_index_head l w t fd map k : map_table l t fd map -> stack l = [TTab t; k] ->
  mt_index (l, w) = (map_index_func_array (get_type (key_type map)) (get_type (val_type map))
    fd map ;;; ret 1)%prog (l, w).
Proof.
  intros (g & Hg & D1 & D2 & D3 & D4 & _) Hst. destruct (at_stack2 l _ _ Hst) as [A2 A1].
  unfold mt_index, hack_fd. rewrite (bind_run _ _ _ _ _ _ (runs_hack_table _ _ _ _ A2 Hg)).
  rewrite (bind_run _ _ _ _ _ _ (runs_orfail _ _ _ _ D1)).
  unfold hack_map. rewrite D2. rewrite (bind_run _ _ _ _ _ _ (runs_ret _ _)). by rewrite D3.
Qed.

Lemma mt_newindex_head l w t fd map k v : map_table l t fd map -> stack l = [TTab t; k; v] ->
  mt_newindex heap_after (l, w) =
    (map_newindex_func_array heap_after (get_type (key_type map)) (get_type (val_type map))
      fd map ;;; ret 0)%prog (l, w).
Proof.
  intros (g & Hg & D1 & D2 & D3 & D4 & _) Hst. destruct (at_stack3 l _ _ _ Hst) as (A3 & A2 & A1).
  unfold mt_newindex, hack_fd. rewrite (bind_run _ _ _ _ _ _ (runs_hack_table _ _ _ _ A3 Hg)).
  rewrite (bind_run _ _ _ _ _ _ (runs_orfail _ _ _ _ D1)).
  unfold hack_map. rewrite D2. rewrite (bind_run _ _ _ _ _ _ (runs_ret _ _)). by rewrite D4.
Qed.

Lemma take_key ck k m : k_size m = width ck ->
  take (k_size m) (bytes_of (width ck) k) = bytes_of (width ck) k.
Proof. intros Hks. apply take_ge. rewrite bytes_of_length. lia. Qed.

Lemma found_length cv m key :
  length (uninit (V := hack) (F := F) (S := st) (Z.of_nat (width cv))) = width cv ->
  (forall v, assoc key (k_elems m) = Some v -> length v = width cv) ->
  length (found cv m key) = width cv.
Proof. intros Hun Hlen. unfold found. destruct (assoc _ _) as [v|]; [by apply Hlen|done]. Qed.

Lemma mt_index_run l w t fd ck cv k m :
  num_map l t fd ck cv -> stack l = [TTab t; TNum (num_of_Z k)] -> c_range ck k ->
  maps_of (kernel w) fd = Some m -> k_size m = width ck ->
  length (uninit (V := hack) (F := F) (S := st) (Z.of_nat (width cv))) = width cv ->
  (forall v, assoc (bytes_of (width ck) k) (k_elems m) = Some v -> length v = width cv) ->
  mt_index (l, w) = Ret 1 (set_stack (stack l ++
    [TNum (num_of_Z (value_of cv (found cv m (bytes_of (width ck) k))))]) l, w).
Proof.
  intros (map & Ht & Ek & Ev) Hst Hk Hm Hks Hun Hlen. destruct (at_stack2 l _ _ Hst) as [_ A1].
  rewrite (mt_index_head l w t fd map _ Ht Hst), Ek, Ev, index_array_num. unfold index_num.
  rewrite bind_assoc, (bind_run _ _ _ _ _ _ (runs_num_at ck _ _ k A1 Hk)). unfold bind at 1.
  rewrite (index_value_run l w fd map m); rewrite ?take_key, ?bytes_of_length by done;
    [done|done|lia|by apply found_length|done].
Qed.

Lemma mt_newindex_run l w t fd ck cv k v m :
  num_map l t fd ck cv -> stack l = [TTab t; TNum (num_of_Z k); TNum (num_of_Z v)] ->
  c_range ck k -> c_range cv v ->
  maps_of (kernel w) fd = Some m -> k_size m = width ck -> v_size m = width cv ->
  (is_Some (assoc (bytes_of (width ck) k) (k_elems m)) \/ (length (k_elems m) < k_max m)%nat) ->
  exists k' m', mt_newindex heap_after (l, w) = Ret 0 (l, set_kernel k' w) /\
    maps_of k' fd = Some m' /\ k_size m' = width ck /\
    forall key', assoc key' (k_elems m') =
      if decide (key' = bytes_of (width ck) k) then Some (bytes_of (width cv) v)
      else assoc key' (k_elems m).
Proof.
  intros (map & Ht & Ek & Ev) Hst Hk Hv Hm Hks Hvs Hroom.
  destruct (at_stack3 l _ _ _ Hst) as (_ & A2 & _).
  destruct (newindex_value_run l w fd m cv (bytes_of (width ck) k) v [TTab t; TNum (num_of_Z k)])
    as (k' & m' & Hrun & Hm' & Hks' & Ha); rewrite ?take_key, ?bytes_of_length by done;
    [done|lia|done..|].
  rewrite take_key in Ha by done. exists k', m'. split; [|split_and!; [done|lia|done]].
  rewrite (mt_newindex_head l w t fd map _ _ Ht Hst), Ek, Ev, newindex_array_num. unfold newindex_num.
  rewrite bind_assoc, (bind_run _ _ _ _ _ _ (runs_num_at ck _ _ k A2 Hk)). unfold bind at 1.
  unfold L in *. by rewrite Hrun.
Qed.
End Run.
