(* ===== verification/BpfDemo.v ===== *)
(** * A kernel and a virtual machine for concrete runs of BPF maps

    Maps are association lists by descriptor; [update] replaces a key in place or
    appends it. *)

From stdpp Require Import base option strings countable gmap list.
From Stdlib Require Import ZArith Lia SpecFloat Ascii.
From Stdlib Require String.
From S2P Require Import Prelude Number LuaApi LuaRun LuaRef LuaDemo Bpf BpfRun.

Local Open Scope Z_scope.

Fixpoint assoc_set (key v : list Z) (es : list (list Z * list Z)) : list (list Z * list Z) :=
  match es with
  | [] => [(key, v)]
  | (k, x) :: es => if decide (k = key) then (k, v) :: es else (k, x) :: assoc_set key v es
  end.

Lemma assoc_set_spec key v es key' :
  assoc key' (assoc_set key v es) = if decide (key' = key) then Some v else assoc key' es.
Proof.
  induction es as [|[k x] es IH]; simpl; [repeat case_decide; congruence|].
  destruct (decide (k = key)) as [->|]; simpl; [repeat case_decide; congruence|].
  rewrite IH. repeat case_decide; congruence.
Qed.

Definition kernel_maps : Type := gmap Z kmap.

Definition demo_bpf (cmd : Z) (attr : bpf_attr) (k : kernel_maps) : Z * list Z * kernel_maps :=
  match attr with
  | AttrCreate _ ks vs n =>
      let fd := Z.of_nat (size k) + 3 in
      (fd, [], <[fd := KMap (Z.to_nat ks) (Z.to_nat vs) (Z.to_nat n) []]> k)
  | AttrElem fd key v _ =>
      match k !! fd with
      | None => (-1, [], k)
      | Some m =>
          let key := take (k_size m) key in
          if decide (cmd = BPF_MAP_LOOKUP_ELEM) then
            match assoc key (k_elems m) with Some v => (0, v, k) | None => (-1, [], k) end
          else if decide (cmd = BPF_MAP_UPDATE_ELEM) then
            if decide (is_Some (assoc key (k_elems m)) \/ (length (k_elems m) < k_max m)%nat)
            then (0, [], <[fd := KMap (k_size m) (v_size m) (k_max m)
                             (assoc_set key (take (v_size m) v) (k_elems m))]> k)
            else (-1, [], k)
          else if decide (cmd = BPF_MAP_GET_NEXT_KEY) then
            match next_of key (k_elems m) with Some v => (0, v, k) | None => (-1, [], k) end
          else (-1, [], k)
      end
  | AttrLoad _ _ _ _ _ _ _ => (-1, [], k)
  end.

#[export] Instance demo_kernel : BpfKernel kernel_maps := {| sys_bpf := demo_bpf |}.

#[export] Instance demo_kernel_spec : BpfKernelSpec kernel_maps.
Proof.
  refine {| maps_of k fd := k !! fd |}.
  - intros k fd m key buf fl Hm _. simpl. by rewrite Hm.
  - intros k fd m key val Hm _ _ Hroom. eexists _, _. split; [|split; [apply lookup_insert_eq|]].
    + simpl. rewrite Hm. by rewrite decide_True.
    + split_and!; [done..|]. intros key'. apply assoc_set_spec.
  - intros k fd m key buf fl Hm _. simpl. by rewrite Hm.
Defined.

(** The C functions of the component, by name. *)
Inductive bpf_fn := FIndex | FNewindex | FPairs | FNext (key : elem).

#[export] Instance demo_functions : BpfFunctions bpf_fn :=
  {| fn_mt_index := FIndex; fn_mt_newindex := FNewindex; fn_mt_pairs := FPairs; fn_map_next := FNext |}.

Abbreviation demo_state := (lua_state hack bpf_fn * bpf_world kernel_maps)%type.

(** A machine whose accessors read past a string 2000 bytes of value 7. *)
Definition demo_heap (s : string) : list Z := replicate (Z.to_nat 2000) 7.

Definition plain_vm : LuaVM hack bpf_fn demo_state := demo_vm (fun _ => ret 0).

Definition demo_run (f : bpf_fn) : M demo_state lua_error Z :=
  match f with
  | FIndex => mt_index (LuaVM0 := plain_vm)
  | FNewindex => mt_newindex (LuaVM0 := plain_vm) demo_heap
  | FPairs => mt_pairs
  | FNext key => map_next_func_array (LuaVM0 := plain_vm) key
  end.

#[export] Instance bpf_vm : LuaVM hack bpf_fn demo_state := demo_vm demo_run.
