(* ===== verification/BpfProps.v ===== *)
(** * BPF maps as Lua tables: what the accessors guarantee

    The properties of [Bpf]: reading back what was stored, missing keys, string
    keys, traversal, and tables read through their metamethods. *)

From stdpp Require Import base option strings countable gmap list.
From Stdlib Require Import ZArith Lia SpecFloat Ascii.
From Stdlib Require String.
From S2P Require Import Prelude Number LuaApi LuaRun LuaDemo Bpf BpfRun BpfDemo.

Local Open Scope Z_scope.

(** ** Properties *)

Section Properties.
Context {F K : Type} `{!BpfKernel K} `{!BpfKernelSpec K} `{!BpfFunctions F}.
Context `{!LuaVM hack F (lua_state hack F * bpf_world K)}.
Context (heap_after : string -> list Z).
(** Fresh memory has the size asked for. *)
Context (uninit_length : forall n, 0 <= n ->
  length (uninit (V := hack) (F := F) (S := lua_state hack F * bpf_world K) n) = Z.to_nat n).
Implicit Types (l : lua_state hack F) (w : bpf_world K).

Abbreviation fresh n := (uninit (V := hack) (F := F) (S := lua_state hack F * bpf_world K) n).

Lemma fresh_length c : length (fresh (Z.of_nat (width c))) = width c.
Proof. rewrite uninit_length by lia. lia. Qed.

Ltac side := first [assumption | reflexivity | apply fresh_length | eauto | congruence].

(** C4 Storing a number under a numeric key and reading the key back gives
    that number, for every pair of numeric element types and every key and
    value in range (64-bit ones below 2^53), as long as the map has the key or
    room for it; reading any other key that is in the map gives what it gave
    before. *)
Theorem map_store_load l w t fd ck cv k v m :
  num_map l t fd ck cv -> c_range ck k -> c_range cv v ->
  maps_of (kernel w) fd = Some m -> k_size m = width ck -> v_size m = width cv ->
  (forall key bs, assoc key (k_elems m) = Some bs -> length bs = width cv) ->
  (is_Some (assoc (bytes_of (width ck) k) (k_elems m)) \/ (length (k_elems m) < k_max m)%nat) ->
  let args := [TTab t; TNum (num_of_Z k)] in
  let store := set_stack (args ++ [TNum (num_of_Z v)]) l in
  let load k' := set_stack [TTab t; TNum (num_of_Z k')] l in
  exists w', mt_newindex heap_after (store, w) = Ret 0 (store, w') /\
    mt_index (load k, w') =
      Ret 1 (set_stack (args ++ [TNum (num_of_Z v)]) l, w') /\
    forall k' bs, c_range ck k' -> k' <> k -> assoc (bytes_of (width ck) k') (k_elems m) = Some bs ->
      exists l', mt_index (load k', w) = Ret 1 (l', w) /\ mt_index (load k', w') = Ret 1 (l', w').
Proof.
  intros Hmap Hk Hv Hm Hks Hvs Hlen Hroom args store load.
  destruct (mt_newindex_run heap_after store w t fd ck cv k v m) as (kk & m' & Hrun & Hm' & Hks' & Ha);
    [done..|]. exists (set_kernel kk w). split; [done|].
  assert (forall key bs, assoc key (k_elems m') = Some bs -> length bs = width cv) as Hlen'.
  { intros key bs. rewrite Ha. case_decide; [intros [= <-]; apply bytes_of_length|by apply Hlen]. }
  split.
  - rewrite (mt_index_run (load k) (set_kernel kk w) t fd ck cv k m') by side.
    unfold found. rewrite Ha, decide_True by done. simpl. by rewrite value_of_bytes.
  - intros k' bs Hk' Hne Hbs. eexists. split.
    + rewrite (mt_index_run (load k') w t fd ck cv k' m) by side. unfold found. by rewrite Hbs.
    + rewrite (mt_index_run (load k') (set_kernel kk w) t fd ck cv k' m') by side.
      unfold found. rewrite Ha, decide_False; [by rewrite Hbs|]. intros E. apply Hne.
      rewrite <- (value_of_bytes ck k'), <- (value_of_bytes ck k) by done. by rewrite E.
Qed.

(** The accessors ignore the result of the lookup: indexing a map with a
    number that is not a key pushes the number whose bytes the uninitialised
    local variable happens to hold, and never [nil]. *)
Theorem missing_key_reads_garbage l w t fd ck cv k m :
  num_map l t fd ck cv -> stack l = [TTab t; TNum (num_of_Z k)] -> c_range ck k ->
  maps_of (kernel w) fd = Some m -> k_size m = width ck ->
  assoc (bytes_of (width ck) k) (k_elems m) = None ->
  mt_index (l, w) = Ret 1 (set_stack (stack l ++
    [TNum (num_of_Z (value_of cv (fresh (Z.of_nat (width cv)))))]) l, w).
Proof.
  intros Hmap Hst Hk Hm Hks Hn.
  rewrite (mt_index_run l w t fd ck cv k m) by (side || (intros ?; by rewrite Hn)).
  unfold found. by rewrite Hn.
Qed.

(** [u8] and [u16] are signed here: a stored byte of 128 or more is read
    back 256 too small, and a 16-bit value of 32768 or more 65536 too small;
    and two 64-bit values above 2^53 can be read as the same number. *)
Theorem unsigned_values_misread l w t fd ck k m b :
  stack l = [TTab t; TNum (num_of_Z k)] -> c_range ck k ->
  maps_of (kernel w) fd = Some m -> k_size m = width ck ->
  let pushed z := Ret 1 (set_stack (stack l ++ [TNum (num_of_Z z)]) l, w) in
  (num_map l t fd ck C_u8 -> 128 <= b <= 255 ->
     assoc (bytes_of (width ck) k) (k_elems m) = Some (bytes_of 1 b) ->
     mt_index (l, w) = pushed (b - 256)) /\
  (num_map l t fd ck C_u16 -> 32768 <= b <= 65535 ->
     assoc (bytes_of (width ck) k) (k_elems m) = Some (bytes_of 2 b) ->
     mt_index (l, w) = pushed (b - 65536)) /\
  (num_map l t fd ck C_u64 ->
     assoc (bytes_of (width ck) k) (k_elems m) = Some (bytes_of 8 (2 ^ 53 + 1)) ->
     mt_index (l, w) = pushed (2 ^ 53)).
Proof.
  intros Hst Hk Hm Hks pushed. split_and!.
  - intros Hmap Hb Ha. rewrite (mt_index_run l w t fd ck C_u8 k m) by (side || (intros ? E; rewrite Ha in E; by injection E as <-)).
    unfold found, pushed, value_of, default. rewrite Ha. cbn [from_option]. unfold id. rewrite unsigned_bytes. unfold wrap_s.
    replace ((_ + _) mod _ - _) with (b - 256) by (simpl Z.of_nat; lia). done.
  - intros Hmap Hb Ha. rewrite (mt_index_run l w t fd ck C_u16 k m) by (side || (intros ? E; rewrite Ha in E; by injection E as <-)).
    unfold found, pushed, value_of, default. rewrite Ha. cbn [from_option]. unfold id. rewrite unsigned_bytes. unfold wrap_s.
    replace ((_ + _) mod _ - _) with (b - 65536) by (simpl Z.of_nat; lia). done.
  - intros Hmap Ha. rewrite (mt_index_run l w t fd ck C_u64 k m) by (side || (intros ? E; rewrite Ha in E; by injection E as <-)).
    unfold found, pushed. rewrite Ha. by vm_compute.
Qed.

(** Traversal hands the [nil] it starts with to the kernel as key 0: the
    first key visited is the first of the map only while 0 is not a key, and
    otherwise the key after 0, so that 0 and all keys before it are left
    out. *)
Theorem pairs_starts_at_zero l w t fd ck cv m :
  num_map l t fd ck cv -> stack l = [TTab t; TNil] ->
  maps_of (kernel w) fd = Some m -> k_size m = width ck ->
  (forall key bs, (key, bs) ∈ k_elems m -> length key = width ck) ->
  let next := match assoc (bytes_of (width ck) 0) (k_elems m) with
              | Some _ => key_after (bytes_of (width ck) 0) (k_elems m)
              | None => fst <$> head (k_elems m)
              end in
  map_next_func_array (elem_of ck) (l, w) =
    match next with
    | Some key => Ret 1 (set_stack (stack l ++ [TNum (num_of_Z (value_of ck key))]) l, w)
    | None => Ret 0 (l, w)
    end.
Proof.
  intros (map & (g & Hg & D1 & _) & Ek & Ev) Hst Hm Hks Hlen next.
  assert (map_next_func_array (elem_of ck) = next_num (F := F) (K := K) ck) as -> by by destruct ck.
  destruct (at_stack2 (K := K) l _ _ Hst) as [A2 A1]. unfold next_num, hack_fd.
  rewrite (bind_run _ _ _ _ _ _ (runs_hack_table _ _ _ _ A2 Hg)).
  rewrite (bind_run _ _ _ _ _ _ (runs_orfail _ _ _ _ D1)).
  assert (runs (St := lua_state hack F * bpf_world K) (num_at ck (-1)) l 0 l) as Hnum.
  { eapply runs_bind; [eapply runs_bind; [exact A1|apply runs_ret]|].
    apply runs_orfail. by destruct ck. }
  rewrite (bind_run _ _ _ _ _ _ Hnum). unfold bind at 1.
  rewrite (next_run l w fd m) by (done || rewrite bytes_of_length; lia).
  assert (take (k_size m) (bytes_of (width ck) 0) = bytes_of (width ck) 0) as ->.
  { apply take_ge. rewrite bytes_of_length. lia. }
  unfold next_of. change (match assoc _ _ with Some _ => _ | None => _ end) with next.
  assert (forall key, next = Some key -> length key = width ck) as Hkey.
  { intros key. unfold next. clear next. destruct (assoc _ _).
    - induction (k_elems m) as [|[k' v'] es IH]; simpl; [done|]. case_decide.
      + destruct es as [|[k2 v2] es]; simpl; [done|]. intros [= <-]. apply (Hlen k2 v2). set_solver.
      + apply IH. intros ? ? ?. apply (Hlen key0 bs). set_solver.
    - destruct (k_elems m) as [|[k2 v2] es]; simpl; [done|]. intros [= <-].
      apply (Hlen k2 v2). set_solver. }
  destruct next as [key|]; [|done]. specialize (Hkey key eq_refl).
  rewrite fresh_length, (proj2 (Nat.leb_le _ _)) by lia. simpl.
  rewrite drop_ge by (rewrite fresh_length; lia). by rewrite app_nil_r.
Qed.

(** ** String keys *)

Lemma string_bytes_length s : length (string_bytes s) = String.length s.
Proof. unfold string_bytes. rewrite length_fmap. induction s; simpl; lia. Qed.

Lemma runs_tostring_str l idx s : runs (St := lua_state hack F * bpf_world K) (index2adr idx) l (AStk (Z.to_nat (Z.of_nat (length (stack l)) + idx))) l ->
  stack l !! Z.to_nat (Z.of_nat (length (stack l)) + idx) = Some (TStr s) ->
  runs (St := lua_state hack F * bpf_world K) (tostring_at idx) l s l.
Proof.
  intros Ha Hs. eapply runs_bind; [|by apply runs_orfail].
  eapply runs_bind; [exact Ha|]. eapply runs_bind; [by apply runs_read_stk|]. apply runs_ret.
Qed.

(** The bytes of the key that a store and a load of the string [s] use. *)
Definition stored_key (m : kmap) (s : string) : list Z :=
  take (k_size m) (string_bytes s ++ 0 :: heap_after s).
Definition looked_key (m : kmap) (s : string) : list Z :=
  take (k_size m) (string_bytes s ++ zeros 1024).

(** The 1024-byte buffers the two key paths fill. *)
Definition stored_buf (s : string) : list Z := take 1024 (string_bytes s ++ 0 :: heap_after s).
Definition looked_buf (s : string) : list Z := string_bytes s ++ drop (String.length s) (zeros 1024).

Lemma copy_1024_run s (l : lua_state hack F) w :
  (1024 <= String.length s + S (length (heap_after s)))%nat ->
  copy_1024 (F := F) (K := K) heap_after s (l, w) = Ret (stored_buf s) (l, w) /\
  length (stored_buf s) = 1024%nat.
Proof.
  intros Hs. unfold copy_1024, stored_buf, write_buf. rewrite length_take, length_app, string_bytes_length.
  unfold zeros. rewrite length_replicate, length_cons.
  rewrite (proj2 (Nat.ltb_ge _ _)) by lia. rewrite (proj2 (Nat.leb_le _ _)) by lia.
  rewrite drop_ge, app_nil_r by (rewrite length_replicate; lia). split; [done|lia].
Qed.

Lemma copy_strlen_run s (l : lua_state hack F) w :
  strlen (string_bytes s) = String.length s -> (String.length s <= 1024)%nat ->
  copy_strlen (F := F) (K := K) s (l, w) = Ret (looked_buf s) (l, w) /\
  length (looked_buf s) = 1024%nat.
Proof.
  intros Hz Hs. pose proof (string_bytes_length s) as Hsb. unfold copy_strlen, looked_buf, write_buf.
  rewrite Hz, take_ge, Hsb by lia. unfold zeros. rewrite length_replicate, (proj2 (Nat.leb_le _ _)) by lia.
  split; [done|]. rewrite length_app, Hsb, length_drop, length_replicate. lia.
Qed.

Lemma take_stored_buf m s : (k_size m <= 1024)%nat -> take (k_size m) (stored_buf s) = stored_key m s.
Proof. intros Hm. unfold stored_buf. by rewrite take_take, Nat.min_l. Qed.

Lemma take_looked_buf m s : (k_size m <= 1024)%nat -> take (k_size m) (looked_buf s) = looked_key m s.
Proof.
  intros Hm. unfold looked_buf, looked_key. rewrite !take_app, string_bytes_length. f_equal.
  unfold zeros. rewrite drop_replicate, !take_replicate. f_equal. lia.
Qed.

Lemma index_string_run l w t fd map cv s m :
  map_table l t fd map -> get_type (key_type map) = MAP_ELEM_TYPE_string ->
  get_type (val_type map) = elem_of cv -> stack l = [TTab t; TStr s] ->
  maps_of (kernel w) fd = Some m -> (k_size m <= 1024)%nat ->
  (forall bs, assoc (looked_key m s) (k_elems m) = Some bs -> length bs = width cv) ->
  strlen (string_bytes s) = String.length s -> (String.length s <= 1024)%nat ->
  mt_index (l, w) = Ret 1 (set_stack (stack l ++
    [TNum (num_of_Z (value_of cv (found cv m (looked_key m s))))]) l, w).
Proof.
  intros Hmap Ek Ev Hst Hm Hks Hlen Hz Hs.
  assert (runs (St := lua_state hack F * bpf_world K) (tostring_at (-1)) l s l) as Hstr.
  { apply runs_tostring_str; [apply runs_adr_neg|]; rewrite ?Hst; done. }
  rewrite (mt_index_head l w t fd map _ Hmap Hst), Ek, Ev.
  change (map_index_func_array _ _ _ _) with (map_index_string_func (F := F) (K := K) (elem_of cv) fd map).
  unfold map_index_string_func. rewrite bind_assoc, (bind_run _ _ _ _ _ _ Hstr), bind_assoc.
  destruct (copy_strlen_run s l w Hz Hs) as [Hc Hb]. unfold bind at 1. rewrite Hc. unfold bind at 1.
  rewrite (index_value_run l w fd map m); rewrite ?take_looked_buf by done;
    [done|done|lia| |apply fresh_length]. by apply found_length; [apply fresh_length|].
Qed.

(** A store under a string key copies 1024 bytes from the string, and so
    the bytes of memory after it; a load pads the string with zeros.  The load
    finds what was stored only if those bytes are zeros as far as the map's key
    reaches; otherwise it gives what it gave before the store. *)
Theorem string_keys_read_past_end l w t fd map cv s v m :
  map_table l t fd map -> get_type (key_type map) = MAP_ELEM_TYPE_string ->
  get_type (val_type map) = elem_of cv -> c_range cv v ->
  maps_of (kernel w) fd = Some m -> (k_size m <= 1024)%nat -> v_size m = width cv ->
  (forall key bs, assoc key (k_elems m) = Some bs -> length bs = width cv) ->
  strlen (string_bytes s) = String.length s -> (String.length s <= 1024)%nat ->
  (1024 <= String.length s + S (length (heap_after s)))%nat ->
  (is_Some (assoc (stored_key m s) (k_elems m)) \/ (length (k_elems m) < k_max m)%nat) ->
  let store := set_stack [TTab t; TStr s; TNum (num_of_Z v)] l in
  let load := set_stack [TTab t; TStr s] l in
  let read bs := set_stack [TTab t; TStr s; TNum (num_of_Z (value_of cv bs))] l in
  exists w', mt_newindex heap_after (store, w) = Ret 0 (store, w') /\
    mt_index (load, w) = Ret 1 (read (found cv m (looked_key m s)), w) /\
    mt_index (load, w') =
      if decide (looked_key m s = stored_key m s)
      then Ret 1 (read (bytes_of (width cv) v), w')
      else Ret 1 (read (found cv m (looked_key m s)), w').
Proof.
  intros Hmap Ek Ev Hv Hm Hks Hvs Hlen Hz Hs Hheap Hroom store load read.
  assert (runs (St := lua_state hack F * bpf_world K) (tostring_at (-2)) store s store) as Hstr.
  { apply runs_tostring_str; [apply runs_adr_neg; [done|simpl; lia]|done]. }
  destruct (copy_1024_run s store w Hheap) as [Hc Hb].
  destruct (newindex_value_run heap_after store w fd m cv (stored_buf s) v [TTab t; TStr s])
    as (k' & m' & Hrun & Hm' & Hks' & Ha); rewrite ?take_stored_buf by done; [done|lia|done..|].
  rewrite take_stored_buf in Ha by done. exists (set_kernel k' w). split_and!.
  - rewrite (mt_newindex_head heap_after store w t fd map _ _ Hmap eq_refl), Ek, Ev.
    change (map_newindex_func_array _ _ _ _ _)
      with (map_newindex_string_func (F := F) (K := K) heap_after (elem_of cv) fd map).
    unfold map_newindex_string_func. rewrite bind_assoc, (bind_run _ _ _ _ _ _ Hstr), bind_assoc.
    unfold bind at 1. rewrite Hc. unfold bind at 1. by rewrite Hrun.
  - apply (index_string_run load w t fd map cv s m); side.
  - assert (looked_key m' s = looked_key m s) as Hlk by (unfold looked_key; by rewrite Hks').
    rewrite (index_string_run load (set_kernel k' w) t fd map cv s m'); rewrite ?Hlk, ?Hks'; try side.
    + unfold found. rewrite Ha. by destruct (decide _).
    + intros bs. rewrite Ha. case_decide; [intros [= <-]; apply bytes_of_length|apply Hlen].
Qed.
End Properties.

(** ** Runs *)

Module Demo.
Definition mapdef (k v : string) (ks vs : Z) : bpf_map_def := BpfMapDef "m" k v 1 ks vs 16.

(** A table for the map 3, whose metatable is left out. *)
Definition with_map (d : bpf_map_def) : lua_state hack bpf_fn :=
  LuaState [] None 2%positive 1%positive
    (<[5%positive := GCtab ∅ None (Some 3) (Some (MapDef d))
        (Some (IndexFunc (get_type (key_type d)) (get_type (val_type d))))
        (Some (NewindexFunc (get_type (key_type d)) (get_type (val_type d))))
        (Some (NextFunc (get_type (key_type d))))]>
     (<[1%positive := new_tab]> {[ 2%positive := new_tab ]})) ∅ ∅ ∅ 9%positive.

Definition kernel_with (m : kmap) : bpf_world kernel_maps :=
  BpfWorld (replicate 128 0) 0 (replicate 128 false) (replicate 32 0) (replicate 32 0)
    (replicate 32 0) 0 [] {[ 3 := m ]}.

Definition m32_64 : kmap := KMap 4 8 16 [(bytes_of 4 0, bytes_of 8 70); (bytes_of 4 5, bytes_of 8 75)].
Definition d32_64 : bpf_map_def := mapdef "u32" "u64" 4 8.
Definition m8_8 : kmap := KMap 1 1 16 [(bytes_of 1 7, bytes_of 1 200)].
Definition d8_8 : bpf_map_def := mapdef "char" "u8" 1 1.
Definition mstr : kmap := KMap 8 4 16 [].
Definition dstr : bpf_map_def := mapdef "string" "int" 8 4.

Lemma table_of d : map_table (with_map d) 5%positive 3 d.
Proof. eexists. split; [apply lookup_insert_eq|]. done. Qed.

Lemma num_table d ck cv : get_type (key_type d) = elem_of ck -> get_type (val_type d) = elem_of cv ->
  num_map (with_map d) 5%positive 3 ck cv.
Proof. intros Hk Hv. exists d. split; [apply table_of|done]. Qed.

Lemma two_lengths (a b x y : list Z) n key bs : length x = n -> length y = n ->
  assoc key [(a, x); (b, y)] = Some bs -> length bs = n.
Proof. simpl. intros Hx Hy. repeat case_decide; naive_solver. Qed.

Lemma fresh_ok n : 0 <= n ->
  length (uninit (V := hack) (F := bpf_fn) (S := demo_state) n) = Z.to_nat n.
Proof. apply demo_uninit_length. Qed.
End Demo.

Import Demo.

Lemma map_store_load_witness :
  let l := with_map d32_64 in let w := kernel_with m32_64 in
  let args := [TTab 5; TNum (num_of_Z 9)] in
  exists w', mt_newindex demo_heap (set_stack (args ++ [TNum (num_of_Z 1234)]) l, w) =
      Ret 0 (set_stack (args ++ [TNum (num_of_Z 1234)]) l, w') /\
    mt_index (set_stack args l, w') = Ret 1 (set_stack (args ++ [TNum (num_of_Z 1234)]) l, w').
Proof.
  intros l w args.
  destruct (map_store_load demo_heap fresh_ok l w 5%positive 3 C_u32 C_u64 9 1234 m32_64)
    as (w' & H1 & H2 & _).
  - apply num_table; reflexivity.
  - split; discriminate.
  - split; reflexivity || discriminate.
  - reflexivity.
  - reflexivity.
  - reflexivity.
  - intros key bs. apply two_lengths; reflexivity.
  - right. simpl. lia.
  - exists w'. split; [exact H1|exact H2].
Defined.

Lemma missing_key_reads_garbage_witness :
  let l := set_stack [TTab 5; TNum (num_of_Z 1)] (with_map d32_64) in
  mt_index (l, kernel_with m32_64) =
    Ret 1 (set_stack [TTab 5; TNum (num_of_Z 1); TNum (num_of_Z 12297829382473034410)] l,
           kernel_with m32_64).
Proof.
  apply (missing_key_reads_garbage fresh_ok (set_stack [TTab 5; TNum (num_of_Z 1)] (with_map d32_64))
    (kernel_with m32_64) 5%positive 3 C_u32 C_u64 1 m32_64).
  - apply num_table; reflexivity.
  - reflexivity.
  - split; discriminate.
  - reflexivity.
  - reflexivity.
  - vm_compute. reflexivity.
Defined.

Lemma unsigned_values_misread_witness :
  let l := set_stack [TTab 5; TNum (num_of_Z 7)] (with_map d8_8) in
  mt_index (l, kernel_with m8_8) =
    Ret 1 (set_stack [TTab 5; TNum (num_of_Z 7); TNum (num_of_Z (-56))] l, kernel_with m8_8).
Proof.
  apply (unsigned_values_misread fresh_ok (set_stack [TTab 5; TNum (num_of_Z 7)] (with_map d8_8))
    (kernel_with m8_8) 5%positive 3 C_u8 7 m8_8 200).
  - reflexivity.
  - split; discriminate.
  - reflexivity.
  - reflexivity.
  - apply num_table; reflexivity.
  - split; discriminate.
  - vm_compute. reflexivity.
Defined.

(** With 0 a key, traversal starts at 5. *)
Lemma pairs_starts_at_zero_witness :
  let l := set_stack [TTab 5; TNil] (with_map d32_64) in
  map_next_func_array MAP_ELEM_TYPE_u32 (l, kernel_with m32_64) =
    Ret 1 (set_stack [TTab 5; TNil; TNum (num_of_Z 5)] l, kernel_with m32_64).
Proof.
  apply (pairs_starts_at_zero fresh_ok (set_stack [TTab 5; TNil] (with_map d32_64))
    (kernel_with m32_64) 5%positive 3 C_u32 C_u64 m32_64).
  - apply num_table; reflexivity.
  - reflexivity.
  - reflexivity.
  - reflexivity.
  - intros key bs Hin. simpl in Hin. set_solver.
Defined.

(** The value stored under a two-letter key is not found again. *)
Lemma string_keys_read_past_end_witness :
  let l := with_map dstr in let w := kernel_with mstr in
  exists w', mt_newindex demo_heap (set_stack [TTab 5; TStr "ab"; TNum (num_of_Z 9)] l, w) =
      Ret 0 (set_stack [TTab 5; TStr "ab"; TNum (num_of_Z 9)] l, w') /\
    mt_index (set_stack [TTab 5; TStr "ab"] l, w') =
      Ret 1 (set_stack [TTab 5; TStr "ab"; TNum (num_of_Z 2863311530)] l, w').
Proof.
  intros l w.
  destruct (string_keys_read_past_end demo_heap fresh_ok l w 5%positive 3 dstr C_u32 "ab" 9 mstr)
    as (w' & H1 & _ & H2).
  - apply table_of.
  - reflexivity.
  - reflexivity.
  - split; discriminate.
  - reflexivity.
  - apply Nat.leb_le. reflexivity.
  - reflexivity.
  - discriminate.
  - reflexivity.
  - apply Nat.leb_le. reflexivity.
  - apply Nat.leb_le. reflexivity.
  - right. apply Nat.ltb_lt. reflexivity.
  - exists w'. split; [exact H1|].
    rewrite decide_False in H2 by (vm_compute; discriminate). exact H2.
Defined.
