(* ===== verification/BpfLoadRun.v ===== *)
(** * Loading BPF programs: instructions, relocations and sections

    What the parts of [BpfLoad] do: patching an instruction in the bytes of a
    section, as a change of the instruction; a relocation table, as a list of
    instructions and descriptors; and the passes over the sections. *)

From stdpp Require Import base option strings countable gmap list.
From Stdlib Require Import ZArith Lia SpecFloat Ascii.
From Stdlib Require String.
From S2P Require Import Prelude Number LuaApi LuaRun Bpf BpfRun BpfLoad.

Local Open Scope Z_scope.
Local Open Scope prog_scope.

(** ** Structs in a buffer *)

Lemma structs_lookup {A} size n (dec : list Z -> A) bs k :
  (k < n)%nat -> structs size n dec bs !! k = Some (dec (drop (size * k) bs)).
Proof.
  revert n bs. induction k as [|k IH]; intros [|n] bs Hk; try lia; simpl.
  - by rewrite Nat.mul_0_r, drop_0.
  - rewrite IH by lia. rewrite drop_drop. do 3 f_equal. lia.
Qed.

Lemma structs_length {A} size n (dec : list Z -> A) bs : length (structs size n dec bs) = n.
Proof. revert bs. induction n as [|n IH]; intros bs; simpl; [done|by rewrite IH]. Qed.

Lemma le_take o n m bs : (o + n <= m)%nat -> le o n (take m bs) = le o n bs.
Proof.
  intros H. unfold le. rewrite !take_drop_commute, take_take.
  do 3 f_equal. lia.
Qed.

Lemma insn_of_take bs : insn_of (take 8 bs) = insn_of bs.
Proof. unfold insn_of. by rewrite !le_take by lia. Qed.

Lemma insns_lookup bs k : (k < length bs / 8)%nat -> insns_of bs !! k = Some (insn_of (drop (8 * k) bs)).
Proof. apply structs_lookup. Qed.

Lemma insns_length bs : length (insns_of bs) = (length bs / 8)%nat.
Proof. apply structs_length. Qed.

(** ** Patching *)

(** The instruction that loads the address of the map behind [fd]. *)
Definition load_map (fd : Z) (i : bpf_insn) : bpf_insn :=
  BpfInsn (code i) (dst_reg i) BPF_PSEUDO_MAP_FD (off i) fd.

Definition int_range (z : Z) : Prop := - 2 ^ 31 <= z < 2 ^ 31.

Lemma i32_bytes fd : int_range fd -> i32 (unsigned_of (bytes_of 4 fd)) = fd.
Proof.
  unfold int_range. intros H. rewrite unsigned_bytes. change (256 ^ Z.of_nat 4) with (2 ^ 32).
  unfold wrap_s. simpl (2 ^ _) in *. lia.
Qed.

Lemma patch_insn_length fd bs : length bs = 8%nat -> length (patch_insn fd bs) = 8%nat.
Proof.
  intros H. unfold patch_insn. rewrite !length_app, !length_take, !length_drop, bytes_of_length, H. done.
Qed.

Lemma insn_of_patch fd bs : length bs = 8%nat -> int_range fd ->
  insn_of (patch_insn fd bs) = load_map fd (insn_of bs).
Proof.
  intros Hl Hfd. do 8 (destruct bs as [|? bs]; [discriminate Hl|]). destruct bs; [|discriminate Hl].
  unfold patch_insn, load_map, insn_of, le. cbn [take drop app code dst_reg off imm].
  assert (length (bytes_of 4 fd) = 4%nat) as Hb by apply bytes_of_length.
  destruct (bytes_of 4 fd) as [|a [|b [|c [|d [|? ?]]]]] eqn:E; try discriminate Hb.
  cbn [take drop app unsigned_of]. rewrite !Z.mul_0_r, !Z.add_0_r.
  f_equal.
  - rewrite Z.land_lor_distr_l, <- Z.land_assoc. simpl. by rewrite Z.lor_0_r.
  - rewrite Z.shiftr_lor, Z.shiftr_land. simpl. by rewrite Z.land_0_r.
  - rewrite <- (i32_bytes fd Hfd), E. cbn [unsigned_of]. by rewrite Z.mul_0_r, Z.add_0_r.
Qed.

Lemma patch_at_length idx fd bs : 0 <= idx -> 8 * idx + 8 <= Z.of_nat (length bs) ->
  length (patch_at idx fd bs) = length bs.
Proof.
  intros H0 H. unfold patch_at.
  rewrite !length_app, patch_insn_length by (rewrite length_take, length_drop; lia).
  rewrite length_take, length_drop. lia.
Qed.

Lemma drop_patch_ne idx fd bs k : 0 <= idx -> 8 * idx + 8 <= Z.of_nat (length bs) -> Z.of_nat k <> idx ->
  take 8 (drop (8 * k) (patch_at idx fd bs)) = take 8 (drop (8 * k) bs).
Proof.
  intros H0 H Hk. unfold patch_at. set (o := Z.to_nat (8 * idx)).
  assert (length (take o bs) = o) as Ho by (rewrite length_take; lia).
  assert (length (patch_insn fd (take 8 (drop o bs))) = 8%nat) as Hp
    by (apply patch_insn_length; rewrite length_take, length_drop; lia).
  destruct (decide (Z.of_nat k < idx)).
  - rewrite drop_app_le, take_app_le by (rewrite ?length_drop; lia).
    rewrite !take_drop_commute, take_take. do 2 f_equal. lia.
  - rewrite drop_app_ge, drop_app_ge by lia. rewrite drop_drop. do 2 f_equal. lia.
Qed.

Lemma drop_patch_eq idx fd bs : 0 <= idx -> 8 * idx + 8 <= Z.of_nat (length bs) ->
  take 8 (drop (8 * Z.to_nat idx) (patch_at idx fd bs)) =
    patch_insn fd (take 8 (drop (8 * Z.to_nat idx) bs)).
Proof.
  intros H0 H. unfold patch_at. replace (Z.to_nat (8 * idx)) with (8 * Z.to_nat idx)%nat by lia.
  set (o := (8 * Z.to_nat idx)%nat).
  assert (length (take o bs) = o) as Ho by (rewrite length_take; lia).
  assert (length (patch_insn fd (take 8 (drop o bs))) = 8%nat) as Hp
    by (apply patch_insn_length; rewrite length_take, length_drop; lia).
  rewrite drop_app_ge by lia. rewrite Ho, Nat.sub_diag, drop_0.
  rewrite take_app_le by lia. apply take_ge. lia.
Qed.

Lemma insns_patch (k : nat) fd bs : (k < length (insns_of bs))%nat -> int_range fd ->
  insns_of (patch_at (Z.of_nat k) fd bs) = alter (load_map fd) k (insns_of bs).
Proof.
  rewrite insns_length. intros Hk Hfd.
  assert (8 * k + 8 <= length bs)%nat as Hb by (pose proof (Nat.div_mod_eq (length bs) 8); nia).
  assert (length (patch_at (Z.of_nat k) fd bs) = length bs) as Hl by (apply patch_at_length; lia).
  apply list_eq. intros j. destruct (decide (j < length bs / 8)%nat) as [Hj|Hj].
  2:{ rewrite !lookup_ge_None_2; [done|rewrite length_alter, insns_length; lia|rewrite insns_length, Hl; lia]. }
  rewrite insns_lookup by by rewrite Hl. rewrite <- insn_of_take.
  destruct (decide (j = k)) as [->|Hne].
  - rewrite list_lookup_alter_eq, insns_lookup by done. cbn [fmap option_fmap option_map]. f_equal.
    pose proof (drop_patch_eq (Z.of_nat k) fd bs ltac:(lia) ltac:(lia)) as Hd. rewrite Nat2Z.id in Hd.
    rewrite Hd, insn_of_patch, insn_of_take by (done || (rewrite length_take, length_drop; lia)). done.
  - rewrite list_lookup_alter_ne, insns_lookup by done. rewrite drop_patch_ne by lia.
    by rewrite insn_of_take.
Qed.

(** ** Relocation tables *)

(** What a table of relocations means: the instructions that load maps, in
    order, each with the map's descriptor; it stops at one that is no load. *)
Fixpoint relocate (rs : list (nat * Z)) (insns : list bpf_insn) : bool * list bpf_insn :=
  match rs with
  | [] => (true, insns)
  | (k, fd) :: rs =>
      if bool_decide (code <$> insns !! k = Some BPF_LD_IMM_DW) then relocate rs (alter (load_map fd) k insns)
      else (false, insns)
  end.

Section Run.
Context {F K : Type} `{!BpfKernel K} `{!BpfSys K} `{!Libelf K} `{!BpfFunctions F}.
Local Abbreviation L := (lua_state hack F).
Local Abbreviation st := (lua_state hack F * bpf_world K)%type.
Context `{!LuaVM hack F st}.
Implicit Types (l : L) (w : bpf_world K).

(** Relocation [i] of a table: the instruction and the descriptor of the map. *)
Definition relo (data : list Z) (symbols : option (list Z)) (fds : list Z) (i : Z) : option (nat * Z) :=
  rel ← gelf_getrel (K := K) data i;
  s ← symbols;
  v ← gelf_getsym (K := K) s (Z.shiftr rel.2 32);
  fd ← fds !! Z.to_nat (v / sizeof_bpf_map_def);
  Some (Z.to_nat (u32 (rel.1 / sizeof_bpf_insn)), fd).

Lemma apply_relo_run data symbols i insns l w k fd :
  relo data symbols (map_fd w) i = Some (k, fd) -> (k < length (insns_of insns))%nat ->
  apply_relo data symbols i insns (l, w) =
    Ret (if bool_decide (code <$> insns_of insns !! k = Some BPF_LD_IMM_DW)
         then Some (patch_at (Z.of_nat k) fd insns) else None) (l, w).
Proof.
  unfold relo, apply_relo. rewrite insns_length. intros Hr Hk.
  destruct (gelf_getrel data i) as [rel|] eqn:Erel; [|done].
  destruct symbols as [s|]; [|done]. cbn [mbind option_bind] in Hr |- *.
  destruct (gelf_getsym s (Z.shiftr rel.2 32)) as [v|] eqn:Esym; [|done]. cbn [mbind option_bind] in Hr |- *.
  destruct (map_fd w !! Z.to_nat (v / sizeof_bpf_map_def)) as [fd'|] eqn:Hfd; [|done]. cbn in Hr.
  injection Hr as <- <-. cbn [orfail]. rewrite bind_ret, Esym. cbn [orfail]. rewrite bind_ret.
  pose proof (wrap_u_range 32 (rel.1 / sizeof_bpf_insn) ltac:(done)) as Hw.
  set (j := u32 (rel.1 / sizeof_bpf_insn)) in *.
  assert (8 * Z.to_nat j + 8 <= length insns)%nat as Hb by (pose proof (Nat.div_mod_eq (length insns) 8); nia).
  destruct (Z.ltb_spec (Z.of_nat (length insns)) (8 * j + 8)); [lia|].
  rewrite insns_lookup by done.
  assert (code <$> Some (insn_of (drop (8 * Z.to_nat j) insns)) = Some (le (Z.to_nat (8 * j)) 1 insns)) as ->.
  { cbn. unfold le. rewrite drop_0. do 4 f_equal. lia. }
  destruct (Z.eqb_spec (le (Z.to_nat (8 * j)) 1 insns) BPF_LD_IMM_DW) as [->|Hne].
  - rewrite bool_decide_eq_true_2 by done. simpl. unfold bind, wget, gets. cbn [snd]. rewrite Hfd.
    cbn. by rewrite Z2Nat.id by lia.
  - rewrite bool_decide_eq_false_2 by congruence. done.
Qed.

Lemma apply_relos_run rs : forall i data symbols insns l w,
  (forall j r, rs !! j = Some r -> relo data symbols (map_fd w) (i + Z.of_nat j) = Some r) ->
  Forall (fun r => (r.1 < length (insns_of insns))%nat /\ int_range r.2) rs ->
  exists insns', apply_relos (length rs) i data symbols insns (l, w) =
      Ret ((relocate rs (insns_of insns)).1, insns') (l, w) /\
    length insns' = length insns /\ insns_of insns' = (relocate rs (insns_of insns)).2.
Proof.
  induction rs as [|[k fd] rs IH]; intros i data symbols insns l w Hr Hb; [by exists insns|].
  inversion_clear Hb as [|? ? [Hk Hfd] Hb']. simpl in Hk, Hfd.
  cbn [length apply_relos relocate]. unfold bind at 1.
  pose proof (Hr 0%nat _ eq_refl) as H0. rewrite Z.add_0_r in H0.
  rewrite (apply_relo_run _ _ _ _ _ _ _ _ H0 Hk).
  case_bool_decide as Hc; [|by exists insns].
  pose proof (insns_patch k fd insns Hk Hfd) as Hp.
  destruct (IH (i + 1) data symbols (patch_at (Z.of_nat k) fd insns) l w) as (insns' & H1 & H2 & H3).
  - intros j r Hj. rewrite <- (Hr (S j) r Hj). f_equal. lia.
  - by rewrite Hp, length_alter.
  - exists insns'. rewrite Hp in H1, H3. split_and!; [done| |done].
    rewrite H2. apply patch_at_length; [lia|]. rewrite insns_length in Hk.
    pose proof (Nat.div_mod_eq (length insns) 8). nia.
Qed.

(** ** Steps of the globals and the system *)

Lemma wget_bind {A} (k : bpf_world K -> M st lua_error A) l w : bind wget k (l, w) = k w (l, w).
Proof. done. Qed.

Lemma wmod_bind {A} f (k : unit -> M st lua_error A) l w : bind (wmod f) k (l, w) = k tt (l, f w).
Proof. done. Qed.

Lemma sys_bind {A B} (f : K -> A * K) (k : A -> M st lua_error B) l w a k1 : f (kernel w) = (a, k1) ->
  bind (sys f) k (l, w) = k a (l, set_kernel k1 w).
Proof.
  intros H. unfold sys. rewrite bind_assoc, wget_bind. rewrite bind_assoc, wmod_bind. by rewrite H.
Qed.

Lemma sys__bind {A} f (k : unit -> M st lua_error A) l w :
  bind (sys_ f) k (l, w) = k tt (l, set_kernel (f (kernel w)) w).
Proof. done. Qed.

(** ** Steps that neither look at nor change what is marked *)

(** [m] leaves Lua, the maps and the marks as they are, and does the same
    whatever is marked. *)
Definition neutral {A} (m : M st lua_error A) : Prop :=
  forall l w a l' w', m (l, w) = Ret a (l', w') ->
    l' = l /\ map_fd w' = map_fd w /\ processed_sec w' = processed_sec w /\
    forall p, m (l, set_processed_sec p w) = Ret a (l, set_processed_sec p w').

Lemma neutral_ret {A} (a : A) : neutral (ret a).
Proof. by intros l w a' l' w' [= <- <- <-]. Qed.

Lemma neutral_fail {A} f : neutral (fail f : M st lua_error A).
Proof. by intros l w a l' w' ?. Qed.

Lemma neutral_bind {A B} (m : M st lua_error A) (k : A -> M st lua_error B) :
  neutral m -> (forall a, neutral (k a)) -> neutral (bind m k).
Proof.
  intros Hm Hk l w b l' w' H. run_inv H. destruct s as [l1 w1].
  destruct (Hm _ _ _ _ _ Hrun) as (-> & H1 & H2 & H3). destruct (Hk _ _ _ _ _ _ H) as (-> & H4 & H5 & H6).
  split_and!; [done|congruence..|]. intros p. unfold bind. by rewrite H3, H6.
Qed.

(** Reading the globals: the continuation must not depend on the marks. *)
Lemma neutral_wget {B} (k : bpf_world K -> M st lua_error B) :
  (forall w p, k (set_processed_sec p w) = k w) -> (forall w, neutral (k w)) -> neutral (bind wget k).
Proof.
  intros He Hk l w b l' w' H. destruct (Hk w l w b l' w' H) as (-> & H4 & H5 & H6).
  split_and!; [done..|]. intros p. unfold bind, wget, gets. cbn [snd]. rewrite He. apply H6.
Qed.

Lemma neutral_wmod (f : bpf_world K -> bpf_world K) :
  (forall w, map_fd (f w) = map_fd w) -> (forall w, processed_sec (f w) = processed_sec w) ->
  (forall w p, f (set_processed_sec p w) = set_processed_sec p (f w)) ->
  neutral (wmod f).
Proof.
  intros H1 H2 H3 l w a l' w' [= <- <- <-]. split_and!; [done|apply H1|apply H2|].
  intros p. unfold wmod, modify. simpl. by rewrite H3.
Qed.

Lemma neutral_sys {A} (f : K -> A * K) : neutral (sys f).
Proof. apply neutral_wget; [done|]. intros w. apply neutral_bind; [by apply neutral_wmod|intros; apply neutral_ret]. Qed.

Lemma neutral_sys_ (f : K -> K) : neutral (sys_ f).
Proof. by apply neutral_wmod. Qed.

Lemma neutral_write_buf bs buf : neutral (write_buf bs buf).
Proof. unfold write_buf. case_match; [apply neutral_ret|apply neutral_fail]. Qed.

Lemma neutral_store_at fds i v : neutral (store_at fds i v).
Proof. unfold store_at. case_match; [apply neutral_ret|apply neutral_fail]. Qed.

Create HintDb neutral.
Local Hint Resolve neutral_ret neutral_fail neutral_sys neutral_sys_ neutral_write_buf neutral_store_at : neutral.

Ltac neutral :=
  repeat first
    [ apply neutral_wget; [by intros|intros]
    | apply neutral_bind; [|intros]
    | by apply neutral_wmod
    | solve [auto with neutral]
    | case_match ].

Lemma neutral_syscall cmd attr : neutral (syscall_bpf cmd attr).
Proof. unfold syscall_bpf. neutral. Qed.
Local Hint Resolve neutral_syscall : neutral.

Lemma neutral_prog_load t insns n lic v : neutral (bpf_prog_load t insns n lic v).
Proof. unfold bpf_prog_load. neutral. Qed.
Local Hint Resolve neutral_prog_load : neutral.

Lemma neutral_attach event fd : neutral (attach_event event fd).
Proof. unfold attach_event. neutral. Qed.
Local Hint Resolve neutral_attach : neutral.

Lemma neutral_load event insns n : neutral (load_and_attach event insns n).
Proof. unfold load_and_attach. neutral. Qed.

(** ** The programs of an object *)

(** A relocation section whose target is found: the target's index, the header
    and the entries of the table, the target's name and its bytes. *)
Definition rel_of (e : elf) (i : Z) : option (Z * GElf_Shdr * list Z * string * list Z) :=
  match get_sec e i with
  | inr (_, shdr, data) =>
      if sh_type shdr =? SHT_REL then
        match get_sec e (sh_info shdr) with
        | inr (name, _, prg) => Some (sh_info shdr, shdr, data, name, prg)
        | inl _ => None
        end
      else None
  | inl _ => None
  end.

(** The relocations of a table. *)
Definition table_of (symbols : option (list Z)) (fds : list Z) (shdr : GElf_Shdr) (data : list Z) :
    option (list (nat * Z)) :=
  mapM (relo data symbols fds) (Z.of_nat <$> seq 0 (Z.to_nat (i32 (sh_size shdr / sh_entsize shdr)))).

Abbreviation program := (string * list bpf_insn * Z)%type.

(** The program a relocation section makes loadable. *)
Definition relocated (e : elf) (symbols : option (list Z)) (fds : list Z) (i : Z) : option program :=
  '(_, shdr, data, name, prg) ← rel_of e i;
  rs ← table_of symbols fds shdr data;
  let r := relocate rs (insns_of prg) in
  if r.1 && is_prog_sec name then Some (name, r.2, Z.of_nat (length prg)) else None.

(** The program of a section that is not marked. *)
Definition plain (e : elf) (marks : list bool) (i : Z) : option program :=
  if default true (marks !! Z.to_nat i) then None else
  match get_sec e i with
  | inr (name, _, prg) => if is_prog_sec name then Some (name, insns_of prg, Z.of_nat (length prg)) else None
  | inl _ => None
  end.

Definition mark (i : Z) (p : list bool) : list bool := <[Z.to_nat i := true]> p.

(** A relocation section marks its target and itself. *)
Definition mark_rel (e : elf) (i : Z) (p : list bool) : list bool :=
  match rel_of e i with Some (t, _, _, _, _) => mark i (mark t p) | None => p end.

Definition mark_rels (e : elf) (idxs : list Z) (p : list bool) : list bool :=
  foldl (fun p i => mark_rel e i p) p idxs.

(** What is loaded, and in which order. *)
Definition programs (e : elf) (symbols : option (list Z)) (fds : list Z) (idxs : list Z) (p : list bool) :
    list program :=
  omap (relocated e symbols fds) idxs ++ omap (plain e (mark_rels e idxs p)) idxs.

Fixpoint load_all (ps : list program) : M st lua_error unit :=
  match ps with
  | [] => skip
  | (name, insns, size) :: ps => load_and_attach name insns size ;;; load_all ps
  end.

(** An object the loader handles: every relocation table can be read, its
    entries are in range, and it is the only one of its program. *)
Record loadable (e : elf) (symbols : option (list Z)) (fds : list Z) (idxs : list Z) (np : nat) : Prop := {
  lo_range i : i ∈ idxs -> 0 <= i < Z.of_nat np;
  lo_target i t shdr data name prg : i ∈ idxs -> rel_of e i = Some (t, shdr, data, name, prg) ->
    0 <= t < Z.of_nat np /\ rel_of e t = None /\ sh_entsize shdr <> 0 /\
    exists rs, table_of symbols fds shdr data = Some rs /\
      Forall (fun r => (r.1 < length (insns_of prg))%nat /\ int_range r.2) rs;
  lo_once i j t h1 d1 n1 p1 h2 d2 n2 p2 : i ∈ idxs -> j ∈ idxs ->
    rel_of e i = Some (t, h1, d1, n1, p1) -> rel_of e j = Some (t, h2, d2, n2, p2) -> i = j
}.

(** ** The second pass *)

(** [e'] is [e] with the contents of the sections [T] changed. *)
Definition patched (T : Z -> Prop) (e e' : elf) : Prop :=
  forall t, get_sec e' t = get_sec e t \/
    T t /\ exists name shdr d d', get_sec e t = inr (name, shdr, d) /\ get_sec e' t = inr (name, shdr, d').

Lemma rel_of_patched T e e' i : patched T e e' ->
  match rel_of e i with
  | Some (t, _, _, _, _) => ~ T i -> ~ T t -> rel_of e' i = rel_of e i
  | None => rel_of e' i = None
  end.
Proof.
  intros Hp. unfold rel_of.
  destruct (Hp i) as [->|(HT & name & shdr & d & d' & -> & ->)].
  - destruct (get_sec e i) as [|[[name shdr] d]]; [done|]. destruct (sh_type shdr =? SHT_REL); [|done].
    destruct (Hp (sh_info shdr)) as [->|(HT & ? & ? & ? & ? & -> & ->)]; [|done].
    by destruct (get_sec e (sh_info shdr)) as [|[[] ?]].
  - destruct (sh_type shdr =? SHT_REL); [|done].
    destruct (Hp (sh_info shdr)) as [->|(HT' & ? & ? & ? & ? & -> & ->)]; [|done].
    by destruct (get_sec e (sh_info shdr)) as [|[[] ?]].
Qed.

Lemma table_lookup symbols fds shdr data rs : table_of symbols fds shdr data = Some rs ->
  length rs = Z.to_nat (i32 (sh_size shdr / sh_entsize shdr)) /\
  forall j r, rs !! j = Some r -> relo data symbols fds (0 + Z.of_nat j) = Some r.
Proof.
  unfold table_of. intros H. pose proof (length_mapM _ _ _ H) as Hl.
  rewrite length_fmap, length_seq in Hl. split; [done|]. intros j r Hj.
  apply mapM_Some in H. destruct (Forall2_lookup_r _ _ _ _ _ H Hj) as (i & Hi & Hr).
  apply list_lookup_fmap_Some in Hi as (k & -> & Hk). apply lookup_seq in Hk as [-> _]. exact Hr.
Qed.

Lemma get_sec_patched e t name shdr d d' : get_sec e t = inr (name, shdr, d) ->
  get_sec (<[t := ElfScn (Some shdr) (Some name) [d']]> e) t = inr (name, shdr, d').
Proof.
  unfold get_sec. rewrite lookup_insert_eq. simpl.
  destruct (e !! t) as [scn|]; [|done]. destruct (scn_shdr scn) as [h|]; [|done].
  destruct (scn_name scn); [|done]. destruct (sh_size h =? 0) eqn:E; [done|].
  destruct (scn_data scn) as [|? []]; try done. intros [= -> -> ->]. by rewrite E.
Qed.

Lemma patched_insert (T : Z -> Prop) e e' t name shdr d d' : patched T e e' -> get_sec e' t = inr (name, shdr, d) ->
  patched (fun i => i = t \/ T i) e (<[t := ElfScn (Some shdr) (Some name) [d']]> e').
Proof.
  intros Hp Ht i. destruct (decide (i = t)) as [->|Hne].
  - right. split; [by left|]. destruct (Hp t) as [Heq|(_ & n & h & d1 & d2 & H1 & H2)].
    + rewrite Heq in Ht. exists name, shdr, d, d'. split; [done|by eapply get_sec_patched; rewrite Heq].
    + rewrite H2 in Ht. injection Ht as -> -> ->. exists name, shdr, d1, d'. split; [done|by eapply get_sec_patched].
  - assert (get_sec (<[t := ElfScn (Some shdr) (Some name) [d']]> e') i = get_sec e' i) as Hs
      by (unfold get_sec; by rewrite lookup_insert_ne).
    rewrite Hs. destruct (Hp i) as [?|(? & ?)]; [by left|right]. split; [by right|done].
Qed.

Lemma mark_run i l w p : 0 <= i < Z.of_nat (length p) ->
  mark_processed i (l, set_processed_sec p w) = Ret tt (l, set_processed_sec (mark i p) w).
Proof.
  intros Hi. unfold mark_processed, bind, wget, gets. cbn [snd processed_sec set_processed_sec].
  by rewrite (proj2 (Z.leb_le _ _)), (proj2 (Z.ltb_lt _ _)) by lia.
Qed.

Lemma mark_length i p : length (mark i p) = length p.
Proof. apply length_insert. Qed.

Lemma load_all_app ps qs : forall s : st, load_all (ps ++ qs) s = bind (load_all ps) (fun _ => load_all qs) s.
Proof.
  induction ps as [|[[name insns] size] ps IH]; intros s; [done|]. cbn [app load_all].
  rewrite bind_assoc. unfold bind at 1. unfold bind at 1. destruct (load_and_attach name insns size s); [apply IH|done..].
Qed.

Lemma neutral_load_all ps : neutral (load_all ps).
Proof.
  induction ps as [|[[name insns] size] ps IH]; [apply neutral_ret|].
  apply neutral_bind; [apply neutral_load|by intros].
Qed.

Lemma relo_sec_none e i symbols (s : st) : rel_of e i = None -> relo_sec e i symbols s = Ret e s.
Proof.
  unfold rel_of, relo_sec. destruct (get_sec e i) as [|[[? shdr] ?]]; [done|].
  destruct (sh_type shdr =? SHT_REL); [|done]. by destruct (get_sec e (sh_info shdr)) as [|[[] ?]].
Qed.

Lemma parse_relo_run data symbols shdr prg rs l w :
  sh_entsize shdr <> 0 -> table_of symbols (map_fd w) shdr data = Some rs ->
  Forall (fun r => (r.1 < length (insns_of prg))%nat /\ int_range r.2) rs ->
  exists prg', parse_relo_and_apply data symbols shdr prg (l, w) =
      Ret ((relocate rs (insns_of prg)).1, prg') (l, w) /\
    length prg' = length prg /\ insns_of prg' = (relocate rs (insns_of prg)).2.
Proof.
  intros He Ht Hr. destruct (table_lookup _ _ _ _ _ Ht) as [Hl Hlook].
  unfold parse_relo_and_apply. rewrite (proj2 (Z.eqb_neq _ _) He), <- Hl.
  by apply apply_relos_run.
Qed.

Lemma relo_sec_some e i symbols t shdr data name prg rs p l w l' w' :
  rel_of e i = Some (t, shdr, data, name, prg) ->
  0 <= t < Z.of_nat (length p) -> 0 <= i < Z.of_nat (length p) -> sh_entsize shdr <> 0 ->
  table_of symbols (map_fd w) shdr data = Some rs ->
  Forall (fun r => (r.1 < length (insns_of prg))%nat /\ int_range r.2) rs ->
  load_all (omap (relocated e symbols (map_fd w)) [i]) (l, w) = Ret tt (l', w') ->
  exists shp d', relo_sec e i symbols (l, set_processed_sec p w) =
      Ret (<[t := ElfScn (Some shp) (Some name) [d']]> e) (l', set_processed_sec (mark i (mark t p)) w') /\
    get_sec e t = inr (name, shp, prg).
Proof.
  intros Hrel Ht Hi He Htab Hrs Hload.
  assert (relocated e symbols (map_fd w) i =
    if (relocate rs (insns_of prg)).1 && is_prog_sec name
    then Some (name, (relocate rs (insns_of prg)).2, Z.of_nat (length prg)) else None) as Hr
    by (unfold relocated; rewrite Hrel; simpl; by rewrite Htab).
  cbn [omap list_omap] in Hload. rewrite Hr in Hload. unfold rel_of in Hrel. unfold relo_sec.
  destruct (get_sec e i) as [|[[shname shdr'] data']]; [done|].
  destruct (sh_type shdr' =? SHT_REL); [|done].
  destruct (get_sec e (sh_info shdr')) as [|[[name' shp] prg']] eqn:Hsec; [done|].
  injection Hrel as <- <- <- <- <-.
  destruct (parse_relo_run data' symbols shdr' prg' rs l (set_processed_sec (mark i (mark (sh_info shdr') p)) w))
    as (d' & Hrun & Hlen & Hins); [done..|].
  exists shp, d'. split; [|done]. cbn [negb].
  unfold bind at 1. rewrite mark_run by done.
  unfold bind at 1. rewrite mark_run by by rewrite mark_length.
  unfold bind at 1. rewrite Hrun. cbn [fst snd].
  destruct (relocate rs (insns_of prg')) as [ok is'] eqn:Hre. cbn [fst snd] in *. subst is'.
  destruct ok; cbn [negb andb] in *; [|by injection Hload as <- <-].
  destruct (is_prog_sec name'); [|by injection Hload as <- <-].
  cbn [load_all] in Hload. run_inv Hload. destruct s as [l1 w1]. injection Hload as <- <-.
  destruct (neutral_load _ _ _ _ _ _ _ _ Hrun0) as (-> & _ & _ & Hn).
  unfold bind. by rewrite Hn.
Qed.

Lemma mark_rel_length e i p : length (mark_rel e i p) = length p.
Proof. unfold mark_rel. destruct (rel_of e i) as [[[[[? ?] ?] ?] ?]|]; by rewrite ?mark_length. Qed.

Lemma mark_rels_length e idxs : forall p, length (mark_rels e idxs p) = length p.
Proof.
  induction idxs as [|i idxs IH]; intros p; [done|].
  transitivity (length (mark_rel e i p)); [apply IH|apply mark_rel_length].
Qed.

Lemma mark_keeps i p t : p !! t = Some true -> mark i p !! t = Some true.
Proof.
  intros H. unfold mark. destruct (decide (t = Z.to_nat i)) as [->|].
  - apply list_lookup_insert_eq. by eapply lookup_lt_Some.
  - by rewrite list_lookup_insert_ne.
Qed.

Lemma mark_rels_keep e idxs : forall p t, p !! t = Some true -> mark_rels e idxs p !! t = Some true.
Proof.
  induction idxs as [|i idxs IH]; intros p t H; [done|]. apply (IH (mark_rel e i p)). unfold mark_rel.
  destruct (rel_of e i) as [[[[[? ?] ?] ?] ?]|]; [|done]. by do 2 apply mark_keeps.
Qed.

Lemma relocated_eq e e' symbols fds i : rel_of e' i = rel_of e i ->
  relocated e' symbols fds i = relocated e symbols fds i.
Proof. unfold relocated. by intros ->. Qed.

Lemma relo_secs_run e symbols all np idxs : forall (T : Z -> Prop) e' p l w l' w1,
  patched T e e' -> loadable e symbols (map_fd w) all np -> NoDup idxs -> idxs ⊆ all -> length p = np ->
  (forall i t h d n b, i ∈ idxs -> rel_of e i = Some (t, h, d, n, b) -> ~ T t /\ ~ T i) ->
  (forall t, T t -> p !! Z.to_nat t = Some true) ->
  load_all (omap (relocated e symbols (map_fd w)) idxs) (l, w) = Ret tt (l', w1) ->
  exists e'' (T' : Z -> Prop), relo_secs e' idxs symbols (l, set_processed_sec p w) =
      Ret e'' (l', set_processed_sec (mark_rels e idxs p) w1) /\
    patched T' e e'' /\ forall t, T' t -> mark_rels e idxs p !! Z.to_nat t = Some true.
Proof.
  induction idxs as [|i idxs IH]; intros T e' p l w l' w1 Hp Hlo Hnd Hsub Hnp HT Hm Hload.
  { injection Hload as <- <-. by exists e', T. }
  apply NoDup_cons in Hnd as [Hni Hnd].
  assert (i ∈ all) as Hi by (apply Hsub; left). assert (idxs ⊆ all) as Hsub' by (intros j Hj; apply Hsub; by right).
  change (i :: idxs) with ([i] ++ idxs) in Hload. rewrite omap_app, load_all_app in Hload.
  run_inv Hload. destruct s as [l1 w2], a.
  destruct (neutral_load_all _ _ _ _ _ _ Hrun) as (-> & Hfd & _). rewrite <- Hfd in Hload.
  cbn [relo_secs]. unfold mark_rels. cbn [foldl]. fold (mark_rels e idxs (mark_rel e i p)).
  pose proof (rel_of_patched T e e' i Hp) as Hr.
  assert (loadable e symbols (map_fd w2) all np) as Hlo' by by rewrite Hfd.
  destruct (rel_of e i) as [[[[[t h] d] n] b]|] eqn:Hrel.
  - destruct (HT i t h d n b) as [HTt HTi]; [left|done|]. specialize (Hr HTi HTt).
    destruct (lo_target _ _ _ _ _ Hlo i t h d n b Hi Hrel) as (Ht & Htn & He & rs & Htab & Hrs).
    destruct (relo_sec_some e' i symbols t h d n b rs p l w l w2) as (shp & d' & Hrun' & Hsec).
    { done. } { by rewrite Hnp. } { rewrite Hnp. by apply (lo_range _ _ _ _ _ Hlo). } { done. } { done. } { done. }
    { cbn [omap list_omap] in Hrun |- *. rewrite (relocated_eq e e') by by rewrite Hr, Hrel. exact Hrun. }
    destruct (IH (fun j => j = t \/ T j) (<[t := ElfScn (Some shp) (Some n) [d']]> e') (mark_rel e i p) l w2 l' w1)
      as (e'' & T' & Hrest & Hp' & Hm').
    { by eapply patched_insert. } { done. } { done. } { done. } { by rewrite mark_rel_length. }
    { intros j t' h' dj n' b' Hj Hrelj. destruct (HT j t' h' dj n' b') as [H1 H2]; [by right|done|].
      split; (intros [->|?]; [|done]).
      - apply Hni. by rewrite (lo_once _ _ _ _ _ Hlo i j t h d n b h' dj n' b' Hi (Hsub' j Hj) Hrel Hrelj).
      - by rewrite Htn in Hrelj. }
    { unfold mark_rel. rewrite Hrel. intros j [->|Hj]; [apply mark_keeps|by apply mark_keeps, mark_keeps, Hm].
      apply list_lookup_insert_eq. lia. }
    { done. }
    exists e'', T'. split; [|done]. unfold bind. rewrite Hrun'.
    unfold mark_rel at 1 in Hrest. rewrite Hrel in Hrest. exact Hrest.
  - assert (w2 = w) as ->.
    { cbn [omap list_omap] in Hrun. unfold relocated in Hrun. rewrite Hrel in Hrun. by injection Hrun. }
    assert (mark_rel e i p = p) as -> by (unfold mark_rel; by rewrite Hrel).
    destruct (IH T e' p l w l' w1) as (e'' & T' & Hrest & Hp' & Hm'); [done..| |done|done|].
    { intros j t h d n b Hj. apply HT. by right. }
    exists e'', T'. split; [|done]. unfold bind. by rewrite relo_sec_none.
Qed.

(** ** The third pass *)

Lemma plain_patched (T : Z -> Prop) e e' m i : patched T e e' ->
  (forall t, T t -> m !! Z.to_nat t = Some true) -> plain e' m i = plain e m i.
Proof.
  intros Hp Hm. unfold plain. destruct (Hp i) as [->|[HT _]]; [done|]. by rewrite (Hm i HT).
Qed.

Lemma load_sec_run e m i l w l' w1 : 0 <= i < Z.of_nat (length m) ->
  load_all (omap (plain e m) [i]) (l, w) = Ret tt (l', w1) ->
  load_sec e i (l, set_processed_sec m w) = Ret tt (l', set_processed_sec m w1).
Proof.
  intros Hi Hload. destruct (lookup_lt_is_Some_2 m (Z.to_nat i)) as [b Hb]; [lia|].
  unfold load_sec, bind at 1, wget, gets. cbn [snd processed_sec set_processed_sec].
  rewrite Hb. cbn [orfail]. rewrite bind_ret.
  unfold plain in Hload. cbn [omap list_omap] in Hload. rewrite Hb in Hload. simpl default in Hload.
  destruct b; [by injection Hload as <- <-|].
  destruct (get_sec e i) as [|[[name shdr] prg]]; [by injection Hload as <- <-|].
  destruct (is_prog_sec name); [|by injection Hload as <- <-].
  cbn [load_all] in Hload. run_inv Hload. destruct s as [l1 w2]. injection Hload as <- <-.
  destruct (neutral_load _ _ _ _ _ _ _ _ Hrun) as (-> & _ & _ & Hn).
  unfold bind. by rewrite Hn.
Qed.

Lemma load_secs_run (T : Z -> Prop) e e' m idxs : patched T e e' ->
  (forall t, T t -> m !! Z.to_nat t = Some true) -> (forall i, i ∈ idxs -> 0 <= i < Z.of_nat (length m)) ->
  forall l w l' w1, load_all (omap (plain e m) idxs) (l, w) = Ret tt (l', w1) ->
  load_secs e' idxs (l, set_processed_sec m w) = Ret tt (l', set_processed_sec m w1).
Proof.
  intros Hp Hm. induction idxs as [|i idxs IH]; intros Hr l w l' w1 Hload.
  { by injection Hload as <- <-. }
  change (i :: idxs) with ([i] ++ idxs) in Hload. rewrite omap_app, load_all_app in Hload.
  run_inv Hload. destruct s as [l1 w2], a. cbn [load_secs]. unfold bind.
  erewrite (load_sec_run e').
  - apply IH; [|done]. intros j Hj. apply Hr. by right.
  - apply Hr. by left.
  - cbn [omap list_omap] in Hrun |- *. by erewrite plain_patched.
Qed.

(** The two passes load the programs of the object in order. *)
Lemma passes_run {A} e symbols idxs l w l' w1 (k : M st lua_error A) :
  loadable e symbols (map_fd w) idxs (length (processed_sec w)) -> NoDup idxs ->
  load_all (programs e symbols (map_fd w) idxs (processed_sec w)) (l, w) = Ret tt (l', w1) ->
  (e' <- relo_secs e idxs symbols ;; load_secs e' idxs ;;; k) (l, w) =
    k (l', set_processed_sec (mark_rels e idxs (processed_sec w)) w1).
Proof.
  intros Hlo Hnd Hload. unfold programs in Hload. rewrite load_all_app in Hload.
  run_inv Hload. destruct s as [l1 w2], a.
  assert ((l, w) = (l, set_processed_sec (processed_sec w) w)) as Hw by by destruct w.
  destruct (relo_secs_run e symbols idxs (length (processed_sec w)) idxs (fun _ => False) e
    (processed_sec w) l w l1 w2) as (e' & T & Hrel & Hp & Hm); [by left|done..| |done|done|].
  { naive_solver. }
  rewrite Hw. unfold bind at 1. rewrite Hrel. unfold bind. erewrite load_secs_run; [done..| |done].
  intros i Hi. rewrite mark_rels_length. by apply (lo_range _ _ _ _ _ Hlo).
Qed.
End Run.
