(* ===== verification/BpfLoadProps.v ===== *)
(** * What the BPF loader does

    Properties of [BpfLoad]: relocation on the level of instructions, which
    programs of an object are loaded and in which order, and what a failed step
    leaves behind; each with a run that meets its hypotheses. *)

From stdpp Require Import base option strings countable gmap list.
From Stdlib Require Import ZArith Lia SpecFloat Ascii.
From Stdlib Require String.
From S2P Require Import Prelude Number LuaApi LuaRun LuaDemo Bpf BpfRun BpfLoad BpfLoadRun.

Local Open Scope Z_scope.
Local Open Scope prog_scope.

Section Load.
Context {F K : Type} `{!BpfKernel K} `{!BpfSys K} `{!Libelf K} `{!BpfFunctions F}.
Local Abbreviation L := (lua_state hack F).
Local Abbreviation st := (lua_state hack F * bpf_world K)%type.
Context `{!LuaVM hack F st}.
Implicit Types (l : L) (w : bpf_world K).

(** ** Relocation *)

(** C9 [parse_relo_and_apply] is [relocate] on the decoded instructions: each
    relocation, in order, makes the instruction it names a load of its map, and
    changes no other instruction and no other field; it stops at the first
    instruction that is not a 64-bit load, and says whether it reached the end. *)
Theorem relocation_correct data symbols shdr insns rs l w :
  sh_entsize shdr <> 0 -> table_of symbols (map_fd w) shdr data = Some rs ->
  Forall (fun r => (r.1 < length (insns_of insns))%nat /\ int_range r.2) rs ->
  exists insns', parse_relo_and_apply data symbols shdr insns (l, w) =
      Ret ((relocate rs (insns_of insns)).1, insns') (l, w) /\
    length insns' = length insns /\ insns_of insns' = (relocate rs (insns_of insns)).2.
Proof. apply parse_relo_run. Qed.

(** ** The whole object *)

(** C8 When the first pass succeeds, [load_bpf_file] loads the programs of the
    object: first those a relocation section names, with their maps patched in,
    in the order of the relocation sections; then the other program sections, in
    order, unless their index is marked, also from an object loaded before.  It
    returns 0 and closes the file whether or not the programs could be loaded. *)
Theorem load_bpf_file_correct path e n symbols l w fd k1 k2 r l2 w2 l' w' :
  let idxs := Z.of_nat <$> seq 1 (Z.to_nat n - 1) in
  sys_open path (kernel w) = (fd, k1) -> 0 <= fd -> elf_version_ok (K := K) = true ->
  elf_begin fd k1 = Some e -> gelf_getehdr (K := K) e = Some n ->
  sys_system ("echo " +:+ dquote +:+ dquote +:+ " > /sys/kernel/debug/tracing/kprobe_events") k1 = (r, k2) ->
  scan_secs e idxs None (l, set_kernel k2 w) = Ret (Some symbols) (l2, w2) ->
  loadable e symbols (map_fd w2) idxs (length (processed_sec w2)) ->
  load_all (programs e symbols (map_fd w2) idxs (processed_sec w2)) (l2, w2) = Ret tt (l', w') ->
  load_bpf_file path (l, w) = Ret 0
    (l', set_kernel (sys_close fd (kernel w')) (set_processed_sec (mark_rels e idxs (processed_sec w2)) w')).
Proof.
  intros idxs Ho Hfd Hv He Hn Hs Hscan Hlo Hload.
  assert (NoDup idxs) as Hnd by (apply NoDup_fmap_2, NoDup_seq; intros ? ?; lia).
  unfold load_bpf_file. rewrite (sys_bind _ _ _ _ _ _ Ho).
  destruct (Z.ltb_spec fd 0); [lia|]. rewrite Hv. cbn [orb negb]. rewrite wget_bind.
  cbn [kernel set_kernel]. rewrite He, Hn. fold idxs. erewrite sys_bind by exact Hs.
  change (set_kernel k2 (set_kernel k1 w)) with (set_kernel k2 w).
  unfold bind at 1. rewrite Hscan.
  by rewrite (passes_run e symbols idxs l2 w2 l' w').
Qed.

(** ** One program *)

Lemma substring_length s : forall n m, (String.length (String.substring n m s) <= String.length s)%nat.
Proof.
  induction s as [|c s IH]; intros n m; [by destruct n, m|].
  destruct n as [|n]; [destruct m as [|m]; [simpl; lia|]|]; simpl.
  - specialize (IH 0%nat m). lia.
  - specialize (IH n m). lia.
Qed.

Lemma string_length_app s t : String.length (s +:+ t) = (String.length s + String.length t)%nat.
Proof. induction s as [|c s IH]; [done|]. cbn [String.length]. change (String c s +:+ t) with (String c (s +:+ t)). simpl. by rewrite IH. Qed.

(** How a step of the loader can end: with its globals related by [P], or past
    the end of an object when [Q]. *)
Definition ends (P : Z -> bpf_world K -> Prop) (Q : Prop) l (o : outcome st lua_error Z) : Prop :=
  match o with
  | Ret r (l', w') => l' = l /\ P r w'
  | Fault f => f = OutOfBounds /\ Q
  | _ => False
  end.

(** The entry of [event_fd] a program gets when it is attached. *)
Definition attached (c : Z) w (r : Z) w' : Prop :=
  prog_fd w' = prog_fd w /\ prog_cnt w' = prog_cnt w /\
  (r = 0 /\ (exists efd, 0 <= efd /\ event_fd w' = <[Z.to_nat c := efd]> (event_fd w)) \/
   r = -1 /\ event_fd w' = event_fd w).

Local Ltac world := cbn [fst snd kernel event_fd prog_fd prog_cnt set_kernel set_prog_fd set_prog_cnt].

Lemma not_attached c w w' : prog_fd w' = prog_fd w -> prog_cnt w' = prog_cnt w -> event_fd w' = event_fd w ->
  attached c w (-1) w'.
Proof. intros. unfold attached. split_and!; [done..|]. by right. Qed.

Lemma attach_ends event fd l w : 1 <= prog_cnt w ->
  ends (attached (prog_cnt w - 1) w)
    (212 <= Z.of_nat (String.length event) \/ Z.of_nat (length (event_fd w)) < prog_cnt w) l
    (attach_event event fd (l, w)).
Proof.
  intros Hc. unfold attach_event.
  destruct (Z.ltb_spec 256 (Z.of_nat (String.length (DEBUGFS +:+ "events/kprobes/" +:+ event +:+ "/id")) + 1)) as [Hlen|Hlen].
  { rewrite !string_length_app in Hlen. simpl in Hlen. split; [done|left]. lia. }
  clear Hlen.
  destruct (sys_open (DEBUGFS +:+ "events/kprobes/" +:+ event +:+ "/id") (kernel w)) as [efd k1] eqn:Ho.
  rewrite (sys_bind _ _ _ _ _ _ Ho). destruct (efd <? 0); [by split; [|apply not_attached]|cbv iota].
  destruct (sys_read efd 256 k1) as [[n bs] k2] eqn:Hr.
  rewrite (sys_bind _ _ _ _ (n, bs) k2) by (cbn [kernel set_kernel]; by rewrite Hr). cbn [fst snd].
  destruct ((n <? 0) || (256 <=? n)); [by split; [|apply not_attached]|cbv iota].
  rewrite sys__bind. destruct (sys_perf_event_open (atoi (take (Z.to_nat n) bs) 0) (sys_close efd k2))
    as [pfd k3] eqn:Hp.
  rewrite (sys_bind _ _ _ _ pfd k3) by exact Hp. destruct (Z.ltb_spec pfd 0); [by split; [|apply not_attached]|cbv iota].
  rewrite wget_bind.
  unfold store_at. world.
  destruct (Z.leb_spec 0 (prog_cnt w - 1)); [|lia].
  destruct (Z.ltb_spec (prog_cnt w - 1) (Z.of_nat (length (event_fd w)))); cbn [andb].
  - split; [done|]. unfold attached. split_and!; [done..|]. left. split; [done|]. by exists pfd.
  - split; [done|right]. lia.
Qed.

Lemma ends_impl (P P' : Z -> bpf_world K -> Prop) (Q Q' : Prop) l o :
  (forall r w', P r w' -> P' r w') -> (Q -> Q') -> ends P Q l o -> ends P' Q' l o.
Proof. destruct o as [r [l' w']| | |]; simpl; naive_solver. Qed.

Lemma substring_drop n s : (String.length (String.substring n (String.length s - n) s) <= String.length s)%nat.
Proof. apply substring_length. Qed.

(** The program is in the table [prog_fd], and attached as [r] says. *)
Definition recorded (socket : bool) w (r : Z) w' : Prop :=
  prog_cnt w' = prog_cnt w + 1 /\
  (exists fd, 0 <= fd /\ prog_fd w' = <[Z.to_nat (prog_cnt w) := fd]> (prog_fd w)) /\
  (r = 0 /\ (if socket then event_fd w' = event_fd w
             else exists efd, 0 <= efd /\ event_fd w' = <[Z.to_nat (prog_cnt w) := efd]> (event_fd w)) \/
   r = -1 /\ socket = false /\ event_fd w' = event_fd w).

Definition unchanged w (r : Z) w' : Prop :=
  r = -1 /\ prog_fd w' = prog_fd w /\ prog_cnt w' = prog_cnt w /\ event_fd w' = event_fd w.

(** The log of the kernel fits the buffer it is given. *)
Definition log_fits w : Prop :=
  forall attr k, (length (sys_bpf BPF_PROG_LOAD attr k).1.2 <= length (bpf_log_buf w))%nat.

Lemma prog_load_run t insns size lic v l w : log_fits w ->
  exists w', bpf_prog_load t insns size lic v (l, w) =
      Ret (E := lua_error) (sys_bpf BPF_PROG_LOAD (AttrLoad t insns (size / 8) lic LOG_BUF_SIZE 1 v) (kernel w)).1.1 (l, w') /\
    prog_fd w' = prog_fd w /\ prog_cnt w' = prog_cnt w /\ event_fd w' = event_fd w.
Proof.
  intros Hlog. unfold bpf_prog_load, syscall_bpf. rewrite wmod_bind, bind_assoc, wget_bind, bind_assoc, wmod_bind.
  rewrite bind_ret, wget_bind. unfold write_buf. cbn [bpf_log_buf set_kernel set_bpf_log_buf].
  cbn [kernel set_bpf_log_buf]. rewrite length_insert.
  specialize (Hlog (AttrLoad t insns (size / 8) lic LOG_BUF_SIZE 1 v) (kernel w)).
  destruct (sys_bpf _ _ _) as [[r bs] k1]. cbn [fst snd] in *. rewrite (proj2 (Nat.leb_le _ _) Hlog).
  rewrite bind_ret, wmod_bind. by eexists.
Qed.

(** From the system call on. *)
Lemma loaded_ends (socket : bool) t event insns size l w : 0 <= prog_cnt w < INT_MAX -> log_fits w ->
  ends (fun r w' => unchanged w r w' \/ recorded socket w r w')
    (212 <= Z.of_nat (String.length event) \/
     Z.of_nat (length (prog_fd w)) <= prog_cnt w \/ Z.of_nat (length (event_fd w)) <= prog_cnt w) l
    ((w <- wget ;;
      fd <- bpf_prog_load t insns size (cstring (license w)) (kern_version w) ;;
      if fd <? 0 then ret (-1) else
      w <- wget ;;
      fds <- store_at (prog_fd w) (prog_cnt w) fd ;;
      wmod (fun w => set_prog_cnt (i32 (prog_cnt w + 1)) (set_prog_fd fds w)) ;;;
      if socket then ret 0 else attach_event event fd) (l, w)).
Proof.
  intros Hc Hlog. rewrite wget_bind.
  destruct (prog_load_run t insns size (cstring (license w)) (kern_version w) l w Hlog) as (w1 & Hrun & H1 & H2 & H3).
  unfold bind at 1. rewrite Hrun. set (fd := (sys_bpf _ _ _).1.1). clearbody fd.
  destruct (Z.ltb_spec fd 0); [by split; [|left]|]. rewrite wget_bind, H1, H2. unfold store_at.
  destruct (Z.leb_spec 0 (prog_cnt w)); [|lia].
  destruct (Z.ltb_spec (prog_cnt w) (Z.of_nat (length (prog_fd w)))); cbn [andb]; [|by split; [|right; left]].
  rewrite bind_ret, wmod_bind, H2.
  rewrite wrap_s_small by (unfold INT_MAX in *; lia).
  set (w2 := set_prog_cnt _ _). destruct socket.
  { split; [done|right]. unfold recorded. split_and!; [done|by exists fd|]. by left. }
  eapply ends_impl; [| |apply (attach_ends event fd l w2); simpl; lia].
  - intros r w' (Hf & Hn & Hev). right. unfold recorded. rewrite Hf, Hn. simpl in Hev |- *. rewrite H3 in Hev.
    replace (prog_cnt w + 1 - 1) with (prog_cnt w) in Hev by lia.
    split_and!; [done|by exists fd|]. destruct Hev as [?|[? ?]]; [by left|by right].
  - simpl. rewrite H3. intros [?|?]; [by left|right; right; lia].
Qed.

Lemma prefix_kinds e :
  let s := String.prefix "socket" e in let k := String.prefix "kprobe/" e in let r := String.prefix "kretprobe/" e in
  s = true /\ k = false /\ r = false \/ s = false /\ k = true /\ r = false \/
  s = false /\ k = false /\ r = true \/ s = false /\ k = false /\ r = false.
Proof.
  destruct e as [|c e]; [by right; right; right|]. cbn [String.prefix].
  destruct (ascii_dec "s" c) as [<-|]; [simpl; destruct (String.prefix _ e); tauto|].
  destruct (ascii_dec "k" c) as [<-|]; [|tauto].
  destruct e as [|c e]; [tauto|]. cbn [String.prefix].
  destruct (ascii_dec "p" c) as [<-|]; [simpl; destruct (String.prefix _ e); tauto|].
  destruct (ascii_dec "r" c) as [<-|]; [|tauto]. destruct (String.prefix _ e); tauto.
Qed.

(** A program section the kernel accepts is recorded at [prog_cnt], also when
    opening its event fails afterwards; any other failure leaves the tables as
    they are.  Nothing bounds the number of programs or the length of a section's
    name: past 32 programs, or with a name of 212 characters, the code writes
    outside its arrays. *)
Theorem load_and_attach_correct event insns size l w :
  0 <= prog_cnt w < INT_MAX -> log_fits w ->
  (is_prog_sec event = false -> load_and_attach event insns size (l, w) = Ret (-1) (l, w)) /\
  ends (fun r w' => unchanged w r w' \/ recorded (String.prefix "socket" event) w r w')
    (212 <= Z.of_nat (String.length event) \/
     Z.of_nat (length (prog_fd w)) <= prog_cnt w \/ Z.of_nat (length (event_fd w)) <= prog_cnt w) l
    (load_and_attach event insns size (l, w)).
Proof.
  intros Hc Hlog. unfold is_prog_sec, load_and_attach.
  pose proof (substring_drop 7 event) as H7. pose proof (substring_drop 10 event) as H10.
  destruct (prefix_kinds event) as [(-> & -> & ->)|[(-> & -> & ->)|[(-> & -> & ->)|(-> & -> & ->)]]];
    cbn [orb negb]; cbv zeta; cbv iota; (split; [done|]).
  - rewrite bind_ret. apply loaded_ends; done.
  - erewrite sys_bind by (apply surjective_pairing). case_match; [by split; [|left]|].
    eapply ends_impl; [| |by apply (loaded_ends false)]; [done|]. intros [?|?]; [left; lia|by right].
  - erewrite sys_bind by (apply surjective_pairing). case_match; [by split; [|left]|].
    eapply ends_impl; [| |by apply (loaded_ends false)]; [done|]. intros [?|?]; [left; lia|by right].
  - by split; [|left].
Qed.
End Load.

(** ** Runs that meet the hypotheses *)

Module Demo.
(** A system that counts the programs it accepts and keeps what they are. *)
Definition os : Type := list (list bpf_insn).

#[export] Instance demo_bpf : BpfKernel os := {|
  sys_bpf cmd attr k :=
    match attr with
    | AttrLoad _ insns _ _ _ _ _ => (10 + Z.of_nat (length k), [], k ++ [insns])
    | _ => (-1, [], k)
    end
|}.

#[export] Instance demo_sys : BpfSys os := {|
  sys_open _ k := (4, k);
  sys_close _ k := k;
  sys_read _ _ k := (3, [49; 50; 10], k);
  sys_system _ k := (0, k);
  sys_perf_event_open id k := (20 + id, k);
  sys_ioctl _ _ _ k := k
|}.

Definition progbits (name : string) (data : list Z) : elf_scn :=
  ElfScn (Some (GElfShdr 1 (Z.of_nat (length data)) 0 0)) (Some name) [data].

(** [r1 = map 0 ll; exit], and [exit] *)
Definition with_map : list Z :=
  [24; 1; 0; 0; 0; 0; 0; 0; 0; 0; 0; 0; 0; 0; 0; 0; 149; 0; 0; 0; 0; 0; 0; 0].
Definition exit_only : list Z := [149; 0; 0; 0; 0; 0; 0; 0].

(** One relocation, at offset 0 for symbol 1; symbol 1 has value 64, the second
    map. *)
Definition rel_data : list Z := replicate 12 0 ++ [1; 0; 0; 0].
Definition symbols : list Z := replicate 32 0 ++ [64; 0; 0; 0; 0; 0; 0; 0] ++ replicate 8 0.

Definition object : elf := list_to_map
  [(1, progbits "license" [71; 80; 76; 0]); (2, progbits "kprobe/sys_open" exit_only);
   (3, progbits "socket" with_map);
   (4, ElfScn (Some (GElfShdr SHT_REL 16 3 16)) (Some ".relsocket"%string) [rel_data]);
   (5, ElfScn (Some (GElfShdr SHT_SYMTAB 48 0 24)) (Some ".symtab"%string) [symbols])].

#[export] Instance demo_elf : Libelf os := {|
  elf_version_ok := true;
  elf_begin _ _ := Some object;
  gelf_getehdr _ := Some 6;
  gelf_getrel d i := Some (le (Z.to_nat (16 * i)) 8 d, le (Z.to_nat (16 * i + 8)) 8 d);
  gelf_getsym d i := Some (le (Z.to_nat (24 * i + 8)) 8 d)
|}.

Inductive fn := Index | Newindex | Pairs | Next (key : elem).

#[export] Instance demo_fns : BpfFunctions fn :=
  {| fn_mt_index := Index; fn_mt_newindex := Newindex; fn_mt_pairs := Pairs; fn_map_next := Next |}.

Abbreviation demo_state := (lua_state hack fn * bpf_world os)%type.

#[export] Instance demo_lua : LuaVM hack fn demo_state := demo_vm (fun _ => ret 0).

Definition lua0 : lua_state hack fn :=
  LuaState [] None 2%positive 1%positive
    (<[1%positive := new_tab]> {[ 2%positive := new_tab ]}) ∅ ∅ ∅ 3%positive.

(** Two maps are open; there is room for two programs. *)
Definition world0 : bpf_world os :=
  BpfWorld (replicate 16 0) 0 (replicate 8 false) [7; 8] [0; 0] [0; 0] 0 (replicate 4 0) [].

Definition marks : list bool := [false; true; false; true; true; false; false; false].

(** The socket program with its map patched in, and then the kprobe. *)
Definition world1 : bpf_world os :=
  BpfWorld ([71; 80; 76; 0] ++ replicate 12 0) 0 marks [7; 8] [10; 11] [0; 32] 2 (replicate 4 0)
    [[BpfInsn 24 1 1 0 8; BpfInsn 0 0 0 0 0; BpfInsn 149 0 0 0 0]; [BpfInsn 149 0 0 0 0]].

Lemma object_loadable : loadable object (Some symbols) [7; 8] (Z.of_nat <$> seq 1 5) 8.
Proof.
  assert (forall i, i ∈ Z.of_nat <$> seq 1 5 -> i = 1 \/ i = 2 \/ i = 3 \/ i = 4 \/ i = 5) as Hi
    by (intros i (k & -> & Hk%elem_of_seq)%list_elem_of_fmap; lia).
  assert (forall i t h d n b, i ∈ Z.of_nat <$> seq 1 5 -> rel_of object i = Some (t, h, d, n, b) ->
    i = 4 /\ t = 3 /\ h = GElfShdr SHT_REL 16 3 16 /\ d = rel_data /\ b = with_map) as Hrel
    by (intros i t h d n b Hx; destruct (Hi i Hx) as [->|[->|[->|[->| ->]]]]; vm_compute; [done..| |done]; by intros [= <- <- <- <- <-]).
  split.
  - intros i ?%Hi. lia.
  - intros i t h d n b H1 H2. destruct (Hrel i t h d n b H1 H2) as (-> & -> & -> & -> & ->).
    split_and!; [lia..|done|done|]. exists [(0%nat, 8)]. split; [done|].
    repeat constructor; unfold int_range; simpl; lia.
  - intros i j t h1 d1 n1 p1 h2 d2 n2 p2 Hi' Hj H1 H2.
    destruct (Hrel i t h1 d1 n1 p1 Hi' H1) as [-> _], (Hrel j t h2 d2 n2 p2 Hj H2) as [-> _]. done.
Qed.
End Demo.

Import Demo.

Lemma relocation_correct_witness :
  exists insns', parse_relo_and_apply (K := Demo.os) (F := Demo.fn) Demo.rel_data (Some Demo.symbols)
      (GElfShdr SHT_REL 16 3 16) Demo.with_map (Demo.lua0, Demo.world0) = Ret (true, insns') (Demo.lua0, Demo.world0) /\
    insns_of insns' = [BpfInsn 24 1 1 0 8; BpfInsn 0 0 0 0 0; BpfInsn 149 0 0 0 0].
Proof.
  destruct (relocation_correct (F := Demo.fn) Demo.rel_data (Some Demo.symbols) (GElfShdr SHT_REL 16 3 16)
    Demo.with_map [(0%nat, 8)] Demo.lua0 Demo.world0) as (insns' & H1 & _ & H3);
    [done|done|repeat constructor; unfold int_range; simpl; lia|].
  exists insns'. split; [exact H1|exact H3].
Defined.

Lemma load_bpf_file_correct_witness :
  load_bpf_file (K := Demo.os) "tcp.o" (Demo.lua0, Demo.world0) = Ret 0 (Demo.lua0, Demo.world1).
Proof.
  etransitivity; [apply (load_bpf_file_correct "tcp.o" Demo.object 6 (Some Demo.symbols) Demo.lua0 Demo.world0 4 [] [] 0 Demo.lua0
    (set_processed_sec [false; true; false; false; false; false; false; false]
       (set_license ([71; 80; 76; 0] ++ replicate 12 0) Demo.world0)) Demo.lua0
    (set_processed_sec [false; true; false; false; false; false; false; false] Demo.world1));
    [done|lia|done|done|done|done|by vm_compute|exact Demo.object_loadable|by vm_compute]|by vm_compute].
Defined.

Lemma load_and_attach_correct_witness :
  ends (fun r w' => unchanged Demo.world0 r w' \/ recorded false Demo.world0 r w')
    (212 <= 15 \/ 2 <= 0 \/ 2 <= 0) Demo.lua0
    (load_and_attach (K := Demo.os) "kprobe/sys_open" [BpfInsn 149 0 0 0 0] 8 (Demo.lua0, Demo.world0)).
Proof.
  apply (load_and_attach_correct "kprobe/sys_open" [BpfInsn 149 0 0 0 0] 8 Demo.lua0 Demo.world0);
    [split; done|].
  intros [] k; simpl; lia.
Defined.
