(* ===== verification/LuaAux.v ===== *)
(** * Modules and errors of the Lua API ([lib_aux.c], [lj_err.c])

    [luaL_openlib] and the functions it is made of, environments of functions
    and userdata, and the errors C functions raise themselves. *)

From stdpp Require Import base option strings countable gmap list.
From Stdlib Require Import ZArith Lia SpecFloat Ascii.
From S2P Require Import Prelude Number LuaApi.

Local Open Scope Z_scope.
Local Open Scope prog_scope.

(** The parts of a dotted name; there is at least one. *)
Fixpoint fields (s : string) : list string :=
  match s with
  | EmptyString => [EmptyString]
  | String c s =>
      if decide (c = "."%char) then EmptyString :: fields s
      else match fields s with
           | p :: ps => String c p :: ps
           | [] => [String c EmptyString]
           end
  end.

Fixpoint join (ps : list string) : string :=
  match ps with
  | [] => EmptyString
  | [p] => p
  | p :: ps => p +:+ "." +:+ join ps
  end.

Section Api.
Context {V F St : Type} `{!HasLua St (lua_state V F)} `{!LuaVM V F St}.

Let prog (A : Type) : Type := M St lua_error A.

Definition luaL_error {A} (msg : string) : prog A := raise (ErrMsg msg).

Definition luaL_argerror {A} (narg : Z) (msg : string) : prog A := raise (ErrArg narg msg).

Definition luaL_typerror {A} (narg : Z) (xname : string) : prog A := raise (ErrArgType narg xname).

Definition luaL_argcheck (cond : bool) (narg : Z) (msg : string) : prog unit :=
  if cond then skip else luaL_argerror narg msg.

(** One round of the [do] loop of [luaL_findtable], with the table on top of the
    stack: whether the field [p] is, or has become, a table. *)
Definition findtable_step (p : string) : prog bool :=
  lua_pushlstring p ;;;
  lua_rawget (-2) ;;;
  nil <- lua_isnil (-1) ;;
  if nil then
    lua_pop 1 ;;;
    lua_createtable ;;;
    lua_pushlstring p ;;;
    lua_pushvalue (-2) ;;;
    lua_settable (-4) ;;;
    lua_remove (-2) ;;; ret true
  else
    tab <- lua_istable (-1) ;;
    if tab then lua_remove (-2) ;;; ret true else lua_pop 2 ;;; ret false.

(** NULL, or the part of the name whose field is not a table. *)
Fixpoint findtable_loop (ps : list string) : prog (option string) :=
  match ps with
  | [] => ret None
  | p :: ps' =>
      ok <- findtable_step p ;;
      if ok then findtable_loop ps' else ret (Some (join ps))
  end.

Definition luaL_findtable (idx : Z) (fname : string) : prog (option string) :=
  lua_pushvalue idx ;;; findtable_loop (fields fname).

(** Pushes the [n] values on top of the stack again. *)
Fixpoint copy_upvalues (i n : nat) : prog unit :=
  match i with
  | O => skip
  | S i => lua_pushvalue (- Z.of_nat n) ;;; copy_upvalues i n
  end.

Fixpoint set_funcs_of (l : list (string * F)) (nup : nat) : prog unit :=
  match l with
  | [] => skip
  | (name, func) :: l =>
      copy_upvalues nup nup ;;;
      lua_pushcclosure func nup ;;;
      lua_setfield (- (Z.of_nat nup + 2)) name ;;;
      set_funcs_of l nup
  end.

Definition luaL_openlib (libname : option string) (l : list (string * F)) (nup : nat) : prog unit :=
  match libname with
  | None => skip
  | Some libname =>
      luaL_findtable LUA_REGISTRYINDEX "_LOADED" ;;;
      lua_getfield (-1) libname ;;;
      tab <- lua_istable (-1) ;;
      (when (negb tab) do
        (lua_pop 1 ;;;
         r <- luaL_findtable LUA_GLOBALSINDEX libname ;;
         match r with
         | Some _ => luaL_error ("name conflict for module '" +:+ libname +:+ "'")
         | None => lua_pushvalue (-1) ;;; lua_setfield (-3) libname
         end)) ;;;
      lua_remove (-2) ;;;
      lua_insert (- (Z.of_nat nup + 1))
  end ;;;
  set_funcs_of l nup ;;;
  lua_pop (Z.of_nat nup).

Definition luaL_register (libname : option string) (l : list (string * F)) : prog unit :=
  luaL_openlib libname l 0.

Definition luaL_newlib (l : list (string * F)) : prog unit := lua_newtable ;;; luaL_register None l.

Definition luaL_setfuncs (l : list (string * F)) (nup : nat) : prog unit :=
  assertM (nup =? 0)%nat ;;; luaL_register None l.

(** Coroutines are not modelled. *)
Definition lua_getfenv (idx : Z) : prog unit :=
  o <- valid_index idx ;;
  l <- lget ;;
  match o with
  | TFunc f =>
      g <- orfail NullDeref (funcs l !! f) ;;
      push (TTab match g with FuncC _ _ env => env | FuncL env => env end)
  | TUdata u => g <- orfail NullDeref (udatas l !! u) ;; push (TTab (ud_env g))
  | TThread _ => fail Unspecified
  | _ => push TNil
  end.

Definition lua_setfenv (idx : Z) : prog bool :=
  o <- valid_index idx ;;
  v <- at_index (-1) ;;
  t <- tabV v ;;
  l <- lget ;;
  match o with
  | TFunc f =>
      g <- orfail NullDeref (funcs l !! f) ;;
      lmod (fun l => set_funcs (<[f := match g with FuncC c up _ => FuncC c up t | FuncL _ => FuncL t end]>
                                (funcs l)) l) ;;;
      lua_pop 1 ;;; ret true
  | TUdata u =>
      g <- orfail NullDeref (udatas l !! u) ;;
      lmod (fun l => set_udatas (<[u := GCudata (ud_len g) (ud_metatable g) t (ud_bytes g)]>
                                 (udatas l)) l) ;;;
      lua_pop 1 ;;; ret true
  | TThread _ => fail Unspecified
  | _ => lua_pop 1 ;;; ret false
  end.

End Api.
