(* ===== verification/LuaLib.v ===== *)
(** * Registering libraries

    The rules of [LuaRun] for values anywhere on the stack, and the runs of the
    functions of [LuaAux] that build libraries: a table of C functions, filled
    by [luaL_register], and found or created under its name by [luaL_openlib]. *)

From stdpp Require Import base option strings countable gmap list.
From Stdlib Require Import ZArith Lia SpecFloat.
From S2P Require Import Prelude Number LuaApi LuaRun LuaRef LuaProps LuaAux.

Local Open Scope Z_scope.
Local Open Scope prog_scope.

Section Lib.
Context {V F St : Type} `{!HasLua St (lua_state V F)} `{!HasLuaLaws St (lua_state V F)}.
Context `{!LuaVM V F St}.
Let L : Type := lua_state V F.
Let prog (A : Type) : Type := M St lua_error A.
Implicit Types (l : L) (g : gctab V) (st : list tvalue) (v : tvalue).

(** ** Values at an index *)

(** The index [idx] holds the value [v]. *)
Definition holds l (idx : Z) v : Prop :=
  runs (at_index (St := St) idx) l v l /\ runs (valid_index (St := St) idx) l v l /\
  runs (lua_type (St := St) idx) l (type_of v) l.

Lemma holds_slot l idx i v :
  runs (index2adr (St := St) idx) l (AStk i) l -> stack l !! i = Some v -> holds l idx v.
Proof.
  intros Ha Hv. split_and!; (eapply runs_bind; [exact Ha|]); try by apply runs_read_stk.
  eapply runs_bind; [by apply runs_read_stk|]. apply runs_ret.
Qed.

Lemma holds_neg l st v vs idx : stack l = st ++ v :: vs -> idx = - Z.of_nat (S (length vs)) ->
  Z.of_nat (length vs) < 9999 -> holds l idx v.
Proof.
  intros Hst -> Hn. assert (length (stack l) = length st + S (length vs))%nat as Hl.
  { by rewrite Hst, length_app. }
  eapply (holds_slot _ _ (length st)); [|rewrite Hst; by apply list_lookup_middle].
  replace (length st) with (Z.to_nat (Z.of_nat (length (stack l)) + - Z.of_nat (S (length vs)))) by lia.
  apply runs_adr_neg; [unfold LUA_REGISTRYINDEX; lia|lia].
Qed.

Lemma holds_pos l st v vs idx : stack l = st ++ v :: vs -> idx = Z.of_nat (S (length st)) ->
  holds l idx v.
Proof.
  intros Hst ->. assert (length (stack l) = length st + S (length vs))%nat as Hl.
  { by rewrite Hst, length_app. }
  eapply (holds_slot _ _ (length st)); [|rewrite Hst; by apply list_lookup_middle].
  replace (length st) with (Z.to_nat (Z.of_nat (S (length st)) - 1)) at 2 by lia.
  apply runs_adr_pos. lia.
Qed.

Lemma holds_names l idx t : names l idx t -> holds l idx (TTab t).
Proof.
  intros Hi. split_and!; [by apply runs_at_names|by apply runs_valid_names|].
  destruct Hi as [[-> <-]|[-> <-]];
    (eapply runs_bind; [eapply runs_bind; [apply runs_lget|]; apply runs_ret|]);
    (eapply runs_bind; [apply runs_read_val|]); apply runs_ret.
Qed.

Lemma runs_isnil l idx v : holds l idx v -> runs (lua_isnil (St := St) idx) l (type_of v =? LUA_TNIL) l.
Proof. intros (_ & _ & Ht). eapply runs_bind; [exact Ht|]. apply runs_ret. Qed.

Lemma runs_istable l idx v : holds l idx v -> runs (lua_istable (St := St) idx) l (type_of v =? LUA_TTABLE) l.
Proof. intros (_ & _ & Ht). eapply runs_bind; [exact Ht|]. apply runs_ret. Qed.

Lemma runs_pushvalue l idx v : holds l idx v ->
  runs (lua_pushvalue (St := St) idx) l tt (set_stack (stack l ++ [v]) l).
Proof. intros (Ha & _). eapply runs_bind; [exact Ha|]. apply runs_push. Qed.

Lemma runs_rawget l idx t g k st : holds l idx (TTab t) -> tabs l !! t = Some g -> stack l = st ++ [k] ->
  runs (lua_rawget (St := St) idx) l tt (set_stack (st ++ [tab_get g k]) l).
Proof.
  intros (Ha & _) Hg Hst. eapply runs_bind; [exact Ha|]. eapply runs_bind; [apply runs_tabV|].
  eapply runs_bind; [by eapply runs_at_top|]. eapply runs_bind; [by apply runs_get_tab|].
  eapply runs_bind; [by eapply runs_pop1|]. eapply runs_eq; [apply runs_push|done].
Qed.

Lemma runs_rawseti_at l idx t g n st v : holds l idx (TTab t) -> tabs l !! t = Some g -> stack l = st ++ [v] ->
  runs (lua_rawseti (St := St) idx n) l tt
    (set_stack st (set_tabs (<[t := tab_put (int_key n) v g]> (tabs l)) l)).
Proof.
  intros (Ha & _) Hg Hst. eapply runs_bind; [exact Ha|]. eapply runs_bind; [apply runs_tabV|].
  eapply runs_bind; [by eapply runs_at_top|]. eapply runs_bind; [by apply runs_get_tab|].
  eapply runs_bind; [apply runs_put_tab|]. by eapply runs_pop1.
Qed.

Lemma runs_getfield l idx t g k : holds l idx (TTab t) -> tabs l !! t = Some g -> metatable g = None ->
  runs (lua_getfield (St := St) idx k) l tt (set_stack (stack l ++ [tab_get g (TStr k)]) l).
Proof.
  intros (_ & Hv & _) Hg Hm. eapply runs_bind; [exact Hv|].
  eapply runs_bind; [by apply runs_get_plain|]. apply runs_push.
Qed.

Lemma runs_setfield l idx t g k v st : holds l idx (TTab t) -> tabs l !! t = Some g ->
  metatable g = None -> stack l = st ++ [v] ->
  runs (lua_setfield (St := St) idx k) l tt
    (set_stack st (set_tabs (<[t := tab_put (TStr k) v g]> (tabs l)) l)).
Proof.
  intros (_ & Hv & _) Hg Hm Hst. eapply runs_bind; [exact Hv|].
  eapply runs_bind; [by eapply runs_at_top|]. eapply runs_bind; [by apply runs_set_plain|].
  by eapply runs_pop1.
Qed.

Lemma runs_settable l idx t g k v st : holds l idx (TTab t) -> tabs l !! t = Some g ->
  metatable g = None -> stack l = st ++ [TStr k; v] ->
  runs (lua_settable (St := St) idx) l tt
    (set_stack st (set_tabs (<[t := tab_put (TStr k) v g]> (tabs l)) l)).
Proof.
  intros (_ & Hv & _) Hg Hm Hst. eapply runs_bind; [exact Hv|].
  eapply runs_bind; [by apply (holds_neg l st (TStr k) [v])|].
  eapply runs_bind; [by apply (holds_neg l (st ++ [TStr k]) v []); [rewrite Hst, <- app_assoc|..]|].
  eapply runs_bind; [by apply runs_set_plain|]. by eapply (runs_popn _ st [TStr k; v]).
Qed.

Lemma runs_remove l st v vs idx : stack l = st ++ v :: vs -> idx = - Z.of_nat (S (length vs)) ->
  runs (lua_remove (St := St) idx) l tt (set_stack (st ++ vs) l).
Proof.
  intros Hst ->. eapply runs_bind.
  - apply (runs_slot l (length st)); [rewrite Hst, length_app; simpl; lia|].
    right. rewrite Hst, length_app. simpl. lia.
  - eapply runs_eq; [apply runs_lmod|]. f_equal. rewrite Hst. by apply delete_middle.
Qed.

(** [lua_insert(L, -1)] *)
Lemma runs_insert_top l st v : stack l = st ++ [v] -> runs (lua_insert (St := St) (-1)) l tt l.
Proof.
  intros Hst. assert (length (stack l) = S (length st)) as Hl by (rewrite Hst, length_app; simpl; lia).
  eapply runs_bind.
  - apply (runs_slot l (length st)); [lia|]. right. lia.
  - eapply runs_eq; [apply runs_lmod|]. rewrite Hl. replace (S (length st) - 1)%nat with (length st) by lia.
    rewrite Hst at 2. rewrite list_lookup_middle by done. simpl.
    rewrite Hst, take_app_length, drop_all, <- Hst. by destruct l.
Qed.

(** ** New objects *)

Definition cur_env l : ptr :=
  match curr_func l ≫= (fun f => funcs l !! f) with
  | Some (FuncC _ _ e) | Some (FuncL e) => e
  | None => env_tab l
  end.

Lemma runs_getcurrenv l : runs (getcurrenv (St := St)) l (cur_env l) l.
Proof.
  eapply runs_bind; [apply runs_lget|]. unfold cur_env.
  destruct (curr_func l ≫= _) as [[]|]; apply runs_ret.
Qed.

Lemma runs_alloc l : runs (alloc (St := St)) l (next_obj l) (set_next_obj (Pos.succ (next_obj l)) l).
Proof.
  eapply runs_bind; [apply runs_lget|]. eapply runs_bind; [apply runs_lmod|]. apply runs_ret.
Qed.

(** The state with a new C function without upvalues, or a new table, pushed. *)
Definition with_function l (f : F) : L :=
  set_stack (stack l ++ [TFunc (next_obj l)])
    (set_funcs (<[next_obj l := FuncC f [] (cur_env l)]> (funcs l))
      (set_next_obj (Pos.succ (next_obj l)) l)).

Definition with_table l : L :=
  set_stack (stack l ++ [TTab (next_obj l)])
    (set_tabs (<[next_obj l := new_tab]> (tabs l)) (set_next_obj (Pos.succ (next_obj l)) l)).

Lemma runs_pushcfunction l f : runs (lua_pushcfunction (St := St) f) l tt (with_function l f).
Proof.
  eapply runs_bind; [apply runs_lget|]. eapply runs_bind; [apply runs_getcurrenv|]. cbn.
  eapply runs_bind; [apply runs_alloc|]. eapply runs_bind; [apply runs_lmod|].
  eapply runs_bind; [apply runs_lmod|]. eapply runs_eq; [apply runs_push|].
  unfold with_function. simpl. by rewrite Nat.sub_0_r, drop_all, firstn_all.
Qed.

Lemma runs_createtable l : runs (lua_createtable (St := St)) l tt (with_table l).
Proof.
  eapply runs_bind.
  - eapply runs_bind; [apply runs_alloc|]. eapply runs_bind; [apply runs_put_tab|]. apply runs_ret.
  - eapply runs_eq; [apply runs_push|done].
Qed.

(** ** [luaL_register] *)

(** Fresh addresses are above those in use. *)
Definition heap_ok l : Prop :=
  (forall p, is_Some (tabs l !! p) -> (p < next_obj l)%positive) /\
  (forall p, is_Some (funcs l !! p) -> (p < next_obj l)%positive) /\
  (forall f, curr_func l = Some f -> is_Some (funcs l !! f)).

(** [l'] is [l] with objects added and the tables [ts] changed. *)
Record grows l l' (ts : list ptr) : Prop := {
  gr_tabs t : t ∉ ts -> is_Some (tabs l !! t) -> tabs l' !! t = tabs l !! t;
  gr_funcs f : is_Some (funcs l !! f) -> funcs l' !! f = funcs l !! f;
  gr_next : (next_obj l <= next_obj l')%positive;
  gr_udatas : udatas l' = udatas l;
  gr_registry : registry l' = registry l;
  gr_env : env_tab l' = env_tab l;
  gr_curr : curr_func l' = curr_func l;
  gr_basemt : basemt l' = basemt l
}.

Lemma grows_refl l ts : grows l l ts.
Proof. by split. Qed.

Lemma grows_trans l l1 l2 ts : grows l l1 ts -> grows l1 l2 ts -> grows l l2 ts.
Proof.
  intros [] []. split; try (etransitivity; eassumption).
  - intros t Ht Hs. rewrite gr_tabs1; [by apply gr_tabs0|done|]. by rewrite gr_tabs0.
  - intros f Hs. rewrite gr_funcs1; [by apply gr_funcs0|]. by rewrite gr_funcs0.
Qed.

Lemma grows_cur_env l l' ts : heap_ok l -> grows l l' ts -> cur_env l' = cur_env l.
Proof.
  intros (_ & _ & Hc) []. unfold cur_env. rewrite gr_curr0, gr_env0.
  destruct (curr_func l) as [f|]; [|done]. simpl. by rewrite gr_funcs0 by by apply Hc.
Qed.

Definition put_at t g l : L := set_tabs (<[t := g]> (tabs l)) l.

Lemma heap_ok_put t g l : heap_ok l -> is_Some (tabs l !! t) -> heap_ok (put_at t g l).
Proof.
  intros (Ht & Hf & Hc) Hs. split_and!; [|done|done]. intros p. simpl.
  destruct (decide (p = t)) as [->|]; [intros _; by apply Ht|]. rewrite lookup_insert_ne by done. apply Ht.
Qed.

Lemma grows_put t g l : grows l (put_at t g l) [t].
Proof.
  split; simpl; try done. intros x [Hx _]%not_elem_of_cons _. by rewrite lookup_insert_ne by congruence.
Qed.

Lemma heap_ok_table l : heap_ok l -> heap_ok (with_table l).
Proof.
  intros (Ht & Hf & Hc). split_and!; simpl; [| |done]; intros p.
  - destruct (decide (p = next_obj l)) as [->|]; [lia|]. rewrite lookup_insert_ne by done. intros Hp%Ht. lia.
  - intros Hp%Hf. lia.
Qed.

Lemma grows_table l ts : heap_ok l -> grows l (with_table l) ts.
Proof.
  intros (Ht & Hf & Hc). split; simpl; try done; [|lia].
  intros t _ Hs. pose proof (Ht t Hs). by rewrite lookup_insert_ne by lia.
Qed.

Lemma grows_stack l vs ts : grows l (set_stack vs l) ts.
Proof. by split. Qed.

Lemma grows_weaken l l' ts ts' : grows l l' ts -> ts ⊆ ts' -> grows l l' ts'.
Proof. intros Hg Hsub. split; try apply Hg. intros t Ht. apply (gr_tabs _ _ _ Hg). intros Hin. by apply Ht, Hsub. Qed.

(** Tables that did not exist may have changed. *)
Lemma grows_fresh l l' t ts : heap_ok l -> grows l l' (t :: ts) -> tabs l !! t = None -> grows l l' ts.
Proof.
  intros _ Hg Hn. split; try apply Hg. intros x Hx Hs. apply (gr_tabs _ _ _ Hg); [|done].
  intros [->|?]%elem_of_cons; [by rewrite Hn in Hs; destruct Hs|done].
Qed.

(** The state with the value on top, a new function, set in a table. *)
Definition with_field l t g (name : string) (f : F) : L :=
  set_stack (stack l) (set_tabs (<[t := tab_put (TStr name) (TFunc (next_obj l)) g]> (tabs l))
    (with_function l f)).

Lemma heap_ok_field l t g name f : heap_ok l -> tabs l !! t = Some g -> heap_ok (with_field l t g name f).
Proof.
  intros (Ht & Hf & Hc) Hg. split_and!; simpl; intros p.
  - destruct (decide (p = t)) as [->|]; [intros _|rewrite lookup_insert_ne by done; intros Hp%Ht; lia].
    pose proof (Ht t ltac:(by rewrite Hg)). lia.
  - destruct (decide (p = next_obj l)) as [->|]; [lia|]. rewrite lookup_insert_ne by done.
    intros Hp%Hf. lia.
  - intros Hp. destruct (decide (p = next_obj l)) as [->|]; [by rewrite lookup_insert_eq|].
    rewrite lookup_insert_ne by done. by apply Hc.
Qed.

Lemma grows_field l t g name f : heap_ok l -> grows l (with_field l t g name f) [t].
Proof.
  intros (Ht & Hf & Hc). split; simpl; try done; [| |lia].
  - intros x Hx _. by rewrite lookup_insert_ne by set_solver.
  - intros x Hx%Hf. rewrite lookup_insert_ne by lia. done.
Qed.

Lemma norm_key_str k s : norm_key k = TStr s -> k = TStr s.
Proof. by destruct k as [| | |[]| | | | |]. Qed.

(** The last function registered under a name. *)
Fixpoint last_named (k : string) (lib : list (string * F)) : option F :=
  match lib with
  | [] => None
  | (name, f) :: lib =>
      match last_named k lib with Some f => Some f | None => if decide (name = k) then Some f else None end
  end.

(** The table [t] has the functions of [lib], and its other fields as in [g]. *)
Definition has_functions l t g (lib : list (string * F)) l' : Prop :=
  exists g', tabs l' !! t = Some g' /\ metatable g' = metatable g /\
    forall k, match k with
      | TStr name =>
          match last_named name lib with
          | Some f => exists p, tab_get g' k = TFunc p /\ funcs l' !! p = Some (FuncC f [] (cur_env l))
          | None => tab_get g' k = tab_get g k
          end
      | _ => tab_get g' k = tab_get g k
      end.

Lemma runs_set_func l st t g name f (k : prog unit) r l' :
  stack l = st ++ [TTab t] -> tabs l !! t = Some g -> metatable g = None ->
  runs k (with_field l t g name f) r l' ->
  runs (lua_pushcclosure f 0 ;;; lua_setfield (-2) name ;;; k) l r l'.
Proof.
  intros Hst Hg Hm Hk. eapply runs_bind; [apply (runs_pushcfunction l f)|].
  eapply runs_bind; [|exact Hk]. eapply runs_eq.
  - apply (runs_setfield _ (-2) t g name (TFunc (next_obj l)) (stack l)); [|done..].
    apply (holds_neg _ st _ [TFunc (next_obj l)]); [|done..]. simpl. by rewrite Hst, <- app_assoc.
  - done.
Qed.

Lemma runs_set_funcs lib : forall l st t g,
  stack l = st ++ [TTab t] -> tabs l !! t = Some g -> metatable g = None -> heap_ok l ->
  exists l', runs (set_funcs_of (St := St) lib 0) l tt l' /\ stack l' = stack l /\ heap_ok l' /\
    grows l l' [t] /\ has_functions l t g lib l'.
Proof.
  induction lib as [|[name f] lib IH]; intros l st t g Hst Hg Hm Hok.
  - exists l. split_and!; [apply runs_skip|done|done|apply grows_refl|].
    exists g. split_and!; [done..|]. by intros [].
  - destruct (IH (with_field l t g name f) st t (tab_put (TStr name) (TFunc (next_obj l)) g))
      as (l' & Hrun & Hst' & Hok' & Hgr & g' & Hg' & Hm' & Hk);
      [done|apply lookup_insert_eq|by rewrite tab_put_metatable|by apply heap_ok_field|].
    pose proof (grows_field l t g name f Hok) as Hgr1.
    exists l'. split; [|split_and!; [done|done|by eapply grows_trans|]].
    + simpl. eapply runs_bind; [apply runs_skip|]. by eapply runs_set_func.
    + exists g'. rewrite tab_put_metatable in Hm'. split_and!; [done..|].
      rewrite (grows_cur_env _ _ _ Hok Hgr1) in Hk. intros k. specialize (Hk k).
      destruct k as [| | | |s| | | |];
        try (rewrite tab_get_put, decide_False in Hk by (intros E%norm_key_str; congruence); exact Hk).
      simpl. destruct (last_named s lib); [exact Hk|]. rewrite tab_get_put in Hk. simpl in Hk.
      destruct (decide (name = s)) as [->|Hne].
      * rewrite decide_True in Hk by done. exists (next_obj l). split; [done|].
        rewrite (gr_funcs _ _ _ Hgr); simpl; by rewrite lookup_insert_eq.
      * rewrite decide_False in Hk by congruence. done.
Qed.

Lemma runs_pop0 l : runs (lua_pop (St := St) 0) l tt l.
Proof.
  eapply runs_eq; [apply (runs_settop_neg l _ 0); [done|lia]|].
  rewrite Nat.sub_0_r, firstn_all. by destruct l.
Qed.

Lemma runs_register lib l st t g :
  stack l = st ++ [TTab t] -> tabs l !! t = Some g -> metatable g = None -> heap_ok l ->
  exists l', runs (luaL_register (St := St) None lib) l tt l' /\ stack l' = stack l /\ heap_ok l' /\
    grows l l' [t] /\ has_functions l t g lib l'.
Proof.
  intros Hst Hg Hm Hok. destruct (runs_set_funcs lib l st t g Hst Hg Hm Hok) as (l' & Hrun & H).
  exists l'. split; [|exact H]. eapply runs_bind; [apply runs_skip|].
  eapply runs_bind; [exact Hrun|]. apply runs_pop0.
Qed.

(** ** [luaL_findtable], for a name without dots *)

Section Find.
Context (l : L) (idx : Z) (t0 : ptr) (g0 : gctab V) (p : string).
Context (Hi : holds l idx (TTab t0)) (Hg : tabs l !! t0 = Some g0) (Hp : fields p = [p]).

(** The state in which the field is looked at. *)
Let l1 : L := set_stack (stack l ++ [TTab t0; tab_get g0 (TStr p)]) l.

Lemma runs_find_field (k : prog bool) b l' : runs k l1 b l' ->
  runs (lua_pushlstring p ;;; lua_rawget (-2) ;;; k) (set_stack (stack l ++ [TTab t0]) l) b l'.
Proof.
  intros Hk. eapply runs_bind; [apply runs_push|]. eapply runs_bind; [|exact Hk].
  eapply runs_eq.
  - eapply runs_rawget; [by apply (holds_neg _ (stack l) _ [TStr p]); [simpl; by rewrite <- app_assoc|..]|exact Hg|done].
  - unfold l1. simpl. by rewrite <- app_assoc.
Qed.

Lemma holds_field : holds l1 (-1) (tab_get g0 (TStr p)).
Proof. by apply (holds_neg _ (stack l ++ [TTab t0]) _ []); [simpl; by rewrite <- app_assoc|..]. Qed.

Lemma runs_find (r : bool) l' : runs (findtable_step (St := St) p) (set_stack (stack l ++ [TTab t0]) l) r l' ->
  runs (luaL_findtable (St := St) idx p) l (if r then None else Some p) l'.
Proof.
  intros Hs. eapply runs_bind; [by apply runs_pushvalue|]. rewrite Hp. simpl.
  eapply runs_bind; [exact Hs|]. destruct r; apply runs_ret.
Qed.

Lemma runs_find_found t : tab_get g0 (TStr p) = TTab t ->
  runs (luaL_findtable (St := St) idx p) l None (set_stack (stack l ++ [TTab t]) l).
Proof.
  intros Ht. apply (runs_find true). apply runs_find_field. unfold l1. pose proof holds_field as Hf.
  unfold l1 in Hf. rewrite Ht in *. eapply runs_bind; [by apply runs_isnil|]. cbn.
  eapply runs_bind; [by apply runs_istable|]. cbn.
  eapply runs_bind; [by apply (runs_remove _ (stack l) (TTab t0) [TTab t])|]. apply runs_ret.
Qed.

Lemma runs_find_bad : tab_get g0 (TStr p) <> TNil -> (forall t, tab_get g0 (TStr p) <> TTab t) ->
  runs (luaL_findtable (St := St) idx p) l (Some p) l.
Proof.
  intros Hn Ht. apply (runs_find false). apply runs_find_field. pose proof holds_field as Hf.
  eapply runs_bind; [by apply runs_isnil|]. rewrite type_of_nil, bool_decide_eq_false_2 by done.
  eapply runs_bind; [by apply runs_istable|].
  assert ((type_of (tab_get g0 (TStr p)) =? LUA_TTABLE) = false) as ->.
  { destruct (tab_get g0 (TStr p)); try done. by edestruct Ht. }
  eapply runs_bind; [by apply (runs_popn _ (stack l) [TTab t0; tab_get g0 (TStr p)])|].
  eapply runs_eq; [apply runs_ret|]. by destruct l.
Qed.

Lemma runs_find_new : tab_get g0 (TStr p) = TNil -> metatable g0 = None -> t0 <> next_obj l ->
  runs (luaL_findtable (St := St) idx p) l None
    (set_stack (stack l ++ [TTab (next_obj l)])
      (set_tabs (<[t0 := tab_put (TStr p) (TTab (next_obj l)) g0]> (<[next_obj l := new_tab]> (tabs l)))
        (set_next_obj (Pos.succ (next_obj l)) l))).
Proof.
  intros Hn Hm Hne. apply (runs_find true). apply runs_find_field. pose proof holds_field as Hf.
  rewrite Hn in Hf. unfold l1 in *. rewrite Hn in *.
  eapply runs_bind; [by apply runs_isnil|]. cbn.
  eapply runs_bind; [by apply (runs_pop1 _ (stack l ++ [TTab t0]) TNil); simpl; rewrite <- app_assoc|].
  eapply runs_bind; [apply runs_createtable|]. set (n := next_obj l).
  eapply runs_bind; [apply runs_push|].
  eapply runs_bind.
  { apply runs_pushvalue. apply (holds_neg _ (stack l ++ [TTab t0]) (TTab n) [TStr p]); [|done..].
    simpl. by rewrite <- !app_assoc. }
  eapply runs_bind.
  { apply (runs_settable _ _ t0 g0 p (TTab n) (stack l ++ [TTab t0; TTab n])).
    - apply (holds_neg _ (stack l) (TTab t0) [TTab n; TStr p; TTab n]); [|done..].
      simpl. by rewrite <- !app_assoc.
    - simpl. by rewrite lookup_insert_ne.
    - done.
    - simpl. by rewrite <- !app_assoc. }
  eapply runs_bind; [by apply (runs_remove _ (stack l) (TTab t0) [TTab n])|]. apply runs_ret.
Qed.
End Find.

(** ** [luaL_openlib] *)

Section Open.
Context (l : L) (libname : string) (lib : list (string * F)).
Context (loaded : ptr) (gr gl ge : gctab V).
Context (Hgr : tabs l !! registry l = Some gr) (Hloaded : tab_get gr (TStr "_LOADED") = TTab loaded).
Context (Hgl : tabs l !! loaded = Some gl) (Hml : metatable gl = None).
Context (Hge : tabs l !! env_tab l = Some ge) (Hme : metatable ge = None).
Context (Hname : fields libname = [libname]) (Hok : heap_ok l).

Let with_top vs : L := set_stack (stack l ++ vs) l.

(** After [_LOADED[libname]] has been read. *)
Lemma runs_get_loaded {A} (k : prog A) a l' :
  runs k (with_top [TTab loaded; tab_get gl (TStr libname)]) a l' ->
  runs (luaL_findtable (St := St) LUA_REGISTRYINDEX "_LOADED" ;;; lua_getfield (-1) libname ;;; k) l a l'.
Proof.
  intros Hk. eapply runs_bind.
  { by apply (runs_find_found l _ (registry l) gr "_LOADED" (holds_names _ _ _ (names_registry l))
      Hgr eq_refl loaded). }
  eapply runs_bind; [|exact Hk]. eapply runs_eq.
  - apply (runs_getfield _ (-1) loaded gl); [|done..]. by apply (holds_neg _ (stack l) _ []).
  - unfold with_top. simpl. by rewrite <- app_assoc.
Qed.

Lemma raises_get_loaded {A} (k : prog A) e l' :
  raises k (with_top [TTab loaded; tab_get gl (TStr libname)]) e l' ->
  raises (luaL_findtable (St := St) LUA_REGISTRYINDEX "_LOADED" ;;; lua_getfield (-1) libname ;;; k) l e l'.
Proof.
  intros Hk. eapply runs_raises.
  { by apply (runs_find_found l _ (registry l) gr "_LOADED" (holds_names _ _ _ (names_registry l))
      Hgr eq_refl loaded). }
  eapply runs_raises; [|exact Hk]. eapply runs_eq.
  - apply (runs_getfield _ (-1) loaded gl); [|done..]. by apply (holds_neg _ (stack l) _ []).
  - unfold with_top. simpl. by rewrite <- app_assoc.
Qed.

Lemma holds_loaded : holds (with_top [TTab loaded; tab_get gl (TStr libname)]) (-1) (tab_get gl (TStr libname)).
Proof. by apply (holds_neg _ (stack l ++ [TTab loaded]) _ []); [simpl; by rewrite <- app_assoc|..]. Qed.

(** The end of the search, with the table of the library above [_LOADED]. *)
Lemma runs_drop_under st x v l1 : stack l1 = st ++ [x; v] ->
  runs (lua_remove (St := St) (-2) ;;; lua_insert (- (Z.of_nat 0 + 1))) l1 tt (set_stack (st ++ [v]) l1).
Proof.
  intros Hst. eapply runs_bind; [by apply (runs_remove _ st x [v])|].
  eapply runs_eq; [by apply (runs_insert_top _ st v)|done].
Qed.

Lemma runs_openlib_loaded t g :
  tab_get gl (TStr libname) = TTab t -> tabs l !! t = Some g -> metatable g = None ->
  exists l', runs (luaL_openlib (St := St) (Some libname) lib 0) l tt l' /\
    stack l' = stack l ++ [TTab t] /\ heap_ok l' /\ grows l l' [t] /\ has_functions l t g lib l'.
Proof.
  intros Ht Hg Hm. set (l2 := with_top [TTab t]).
  destruct (runs_set_funcs lib l2 (stack l) t g eq_refl Hg Hm Hok) as (l' & Hrun & H1 & H2 & [] & H4).
  exists l'. split; [|split_and!; [done|done|by split|done]]. eapply runs_bind.
  - apply runs_get_loaded. eapply runs_bind; [apply runs_istable, holds_loaded|].
    rewrite Ht. cbn. eapply runs_bind; [apply runs_skip|]. by eapply runs_drop_under.
  - eapply runs_bind; [exact Hrun|apply runs_pop0].
Qed.

Lemma raises_openlib_conflict :
  (forall t, tab_get gl (TStr libname) <> TTab t) ->
  tab_get ge (TStr libname) <> TNil -> (forall t, tab_get ge (TStr libname) <> TTab t) ->
  raises (luaL_openlib (St := St) (Some libname) lib 0) l
    (ErrMsg ("name conflict for module '" +:+ libname +:+ "'")) (with_top [TTab loaded]).
Proof.
  intros Hn He1 He2. apply raises_bind, raises_get_loaded.
  eapply runs_raises; [apply runs_istable, holds_loaded|].
  assert ((type_of (tab_get gl (TStr libname)) =? LUA_TTABLE) = false) as ->.
  { destruct (tab_get gl (TStr libname)); try done. by edestruct Hn. }
  apply raises_bind. eapply runs_raises.
  { apply (runs_pop1 _ (stack l ++ [TTab loaded]) (tab_get gl (TStr libname))).
    simpl. by rewrite <- app_assoc. }
  eapply runs_raises.
  { apply (runs_find_bad (with_top [TTab loaded]) _ (env_tab l) ge libname); [|done..].
    by apply holds_names; right. }
  apply raises_raise.
Qed.

(** A new table as global and as loaded module. *)
Definition opened : L :=
  put_at loaded (tab_put (TStr libname) (TTab (next_obj l)) gl)
    (put_at (env_tab l) (tab_put (TStr libname) (TTab (next_obj l)) ge) (with_table l)).

Lemma runs_new_module {A} (k : prog A) a l' :
  tab_get ge (TStr libname) = TNil -> loaded <> env_tab l ->
  runs k (set_stack (stack l ++ [TTab loaded; TTab (next_obj l)]) opened) a l' ->
  runs ((lua_pop (St := St) 1 ;;;
    r <- luaL_findtable LUA_GLOBALSINDEX libname ;;
    match r with
    | Some _ => luaL_error ("name conflict for module '" +:+ libname +:+ "'")
    | None => lua_pushvalue (-1) ;;; lua_setfield (-3) libname
    end) ;;; k) (with_top [TTab loaded; tab_get gl (TStr libname)]) a l'.
Proof.
  intros He Hne Hk. set (t := next_obj l).
  assert (forall x g, tabs l !! x = Some g -> x <> t) as Hl
    by (intros x g Hx ->; pose proof (proj1 Hok t ltac:(by eexists)); unfold t in *; lia).
  eapply runs_bind; [|exact Hk]. eapply runs_bind.
  { apply (runs_pop1 _ (stack l ++ [TTab loaded]) (tab_get gl (TStr libname))).
    simpl. by rewrite <- app_assoc. }
  eapply runs_bind.
  { apply (runs_find_new (with_top [TTab loaded]) _ (env_tab l) ge libname); [|done..|by eapply Hl].
    by apply holds_names; right. }
  simpl. eapply runs_bind.
  { apply runs_pushvalue. apply (holds_neg _ (stack l ++ [TTab loaded]) (TTab t) []); done. }
  eapply runs_eq.
  { apply (runs_setfield _ _ loaded gl libname (TTab t) (stack l ++ [TTab loaded; TTab t])).
    - apply (holds_neg _ (stack l) (TTab loaded) [TTab t; TTab t]); [|done..].
      simpl. by rewrite <- !app_assoc.
    - simpl. by rewrite !lookup_insert_ne by (done || by apply not_eq_sym; eapply Hl).
    - done.
    - simpl. by rewrite <- !app_assoc. }
  done.
Qed.

Lemma opened_ok : heap_ok opened /\ grows l opened [env_tab l; loaded].
Proof.
  split.
  - apply heap_ok_put; [apply heap_ok_put; [by apply heap_ok_table|]|]; simpl;
      rewrite ?lookup_insert_is_Some.
    + destruct (decide (next_obj l = env_tab l)); eauto using mk_is_Some.
    + destruct (decide (env_tab l = loaded)), (decide (next_obj l = loaded)); eauto 6 using mk_is_Some.
  - apply (grows_trans _ (put_at (env_tab l) (tab_put (TStr libname) (TTab (next_obj l)) ge) (with_table l)));
      [|apply (grows_weaken _ _ _ _ (grows_put loaded _ _)); set_solver].
    apply (grows_trans _ (with_table l)); [by apply grows_table|].
    apply (grows_weaken _ _ _ _ (grows_put (env_tab l) _ _)). set_solver.
Qed.

Lemma runs_openlib_new :
  (forall t, tab_get gl (TStr libname) <> TTab t) -> tab_get ge (TStr libname) = TNil -> loaded <> env_tab l ->
  exists l' t, runs (luaL_openlib (St := St) (Some libname) lib 0) l tt l' /\ tabs l !! t = None /\
    stack l' = stack l ++ [TTab t] /\ heap_ok l' /\ grows l l' [env_tab l; loaded] /\
    has_functions l t new_tab lib l' /\
    tabs l' !! env_tab l = Some (tab_put (TStr libname) (TTab t) ge) /\
    tabs l' !! loaded = Some (tab_put (TStr libname) (TTab t) gl).
Proof.
  intros Hn He Hne. set (t := next_obj l).
  assert (forall x g, tabs l !! x = Some g -> x <> t) as Hl
    by (intros x g Hx ->; pose proof (proj1 Hok t ltac:(by eexists)); unfold t in *; lia).
  assert (tabs l !! t = None) as Hnt by (destruct (tabs l !! t) eqn:E; [by apply Hl in E|done]).
  destruct opened_ok as [Hok2 Hgr2].
  destruct (runs_set_funcs lib (set_stack (stack l ++ [TTab t]) opened) (stack l) t new_tab eq_refl)
    as (l' & Hrun & H1 & H2 & Hgrow & H4);
    [simpl; by rewrite !lookup_insert_ne, lookup_insert_eq by (by eapply Hl)|done|done|].
  assert (forall x g, x <> t -> tabs opened !! x = Some g -> tabs l' !! x = Some g) as Hkeep.
  { intros x g Hx Hxg. rewrite (gr_tabs _ _ _ Hgrow); [done|by rewrite list_elem_of_singleton|by eexists]. }
  exists l', t. split_and!; try done.
  - eapply runs_bind; [|eapply runs_bind; [exact Hrun|apply runs_pop0]].
    apply runs_get_loaded. eapply runs_bind; [apply runs_istable, holds_loaded|].
    assert ((type_of (tab_get gl (TStr libname)) =? LUA_TTABLE) = false) as ->.
    { destruct (tab_get gl (TStr libname)); try done. by edestruct Hn. }
    apply runs_new_module; [done..|].
    by apply (runs_drop_under (stack l) (TTab loaded) (TTab t)
      (set_stack (stack l ++ [TTab loaded; TTab t]) opened)).
  - apply (grows_fresh _ _ t); [done| |done].
    apply (grows_trans _ opened); [apply (grows_weaken _ _ _ _ Hgr2); set_solver|].
    apply (grows_trans _ (set_stack (stack l ++ [TTab t]) opened)); [apply grows_stack|].
    apply (grows_weaken _ _ _ _ Hgrow). set_solver.
  - apply Hkeep; [by eapply Hl|]. simpl. by rewrite lookup_insert_ne, lookup_insert_eq by done.
  - apply Hkeep; [by eapply Hl|]. simpl. by rewrite lookup_insert_eq.
Qed.
End Open.
End Lib.

Section Props.
Context {V F St : Type} `{!HasLua St (lua_state V F)} `{!HasLuaLaws St (lua_state V F)}.
Context `{!LuaVM V F St}.
Implicit Types (l : lua_state V F) (g : gctab V).

(** [luaL_openlib] under a name without dots fills the table of that name in
    [_LOADED] when there is one; otherwise it makes a new table, sets it as the
    global of that name and in [_LOADED], and fills it; and it raises an error
    when that global is something else.  Filled means that each name of the list
    has the last function given for it, with the current environment, and every
    other field is left alone.  The table is left on the stack, and nothing else
    in the heap changes. *)
Theorem openlib_correct l libname (lib : list (string * F)) loaded gr gl ge :
  tabs l !! registry l = Some gr -> tab_get gr (TStr "_LOADED") = TTab loaded ->
  tabs l !! loaded = Some gl -> metatable gl = None ->
  tabs l !! env_tab l = Some ge -> metatable ge = None -> loaded <> env_tab l ->
  fields libname = [libname] -> heap_ok l ->
  (forall t g, tab_get gl (TStr libname) = TTab t -> tabs l !! t = Some g -> metatable g = None ->
     exists l', runs (St := St) (luaL_openlib (Some libname) lib 0) l tt l' /\
       stack l' = stack l ++ [TTab t] /\ grows l l' [t] /\ has_functions l t g lib l') /\
  ((forall t, tab_get gl (TStr libname) <> TTab t) -> tab_get ge (TStr libname) = TNil ->
     exists l' t, runs (St := St) (luaL_openlib (Some libname) lib 0) l tt l' /\ tabs l !! t = None /\
       stack l' = stack l ++ [TTab t] /\ grows l l' [env_tab l; loaded] /\
       has_functions l t new_tab lib l' /\
       tabs l' !! env_tab l = Some (tab_put (TStr libname) (TTab t) ge) /\
       tabs l' !! loaded = Some (tab_put (TStr libname) (TTab t) gl)) /\
  ((forall t, tab_get gl (TStr libname) <> TTab t) -> tab_get ge (TStr libname) <> TNil ->
     (forall t, tab_get ge (TStr libname) <> TTab t) ->
     raises (St := St) (luaL_openlib (Some libname) lib 0) l
       (ErrMsg ("name conflict for module '" +:+ libname +:+ "'"))
       (set_stack (stack l ++ [TTab loaded]) l)).
Proof.
  intros Hgr Hl Hgl Hml Hge Hme Hne Hn Hok. split_and!.
  - intros t g Ht Hg Hm.
    destruct (runs_openlib_loaded l libname lib loaded gr gl Hgr Hl Hgl Hml Hok t g Ht Hg Hm)
      as (l' & H1 & H2 & _ & H3 & H4). by exists l'.
  - intros Ht He.
    destruct (runs_openlib_new l libname lib loaded gr gl ge Hgr Hl Hgl Hml Hge Hme Hn Hok Ht He Hne)
      as (l' & t & H1 & H2 & H3 & _ & H4 & H5 & H6 & H7). by exists l', t.
  - intros. by eapply raises_openlib_conflict.
Qed.
End Props.

(** The globals are table 2 and [_LOADED] is table 3. *)
Definition bare : lua_state unit nat :=
  LuaState [TNil] None 2%positive 1%positive
    (<[1%positive := tab_put (TStr "_LOADED") (TTab 3) new_tab]>
      (<[2%positive := new_tab]> {[ 3%positive := new_tab ]})) ∅ ∅ ∅ 4%positive.

Lemma bare_heap : heap_ok bare.
Proof.
  split_and!; [|by intros p []|done]. intros p Hp.
  apply elem_of_dom in Hp.
  assert (p ∈ ({[1; 2; 3]}%positive : gset ptr)) as Hin.
  { assert (dom (tabs bare) = {[1; 2; 3]}%positive) as <-; [by vm_compute|done]. }
  rewrite !elem_of_union, !elem_of_singleton in Hin. simpl. lia.
Qed.

Import LuaProps.Demo.

Lemma openlib_correct_witness :
  exists l' t, runs (St := Demo.St) (luaL_openlib (Some "shark"%string) [("ref"%string, 7%nat)] 0) bare tt l' /\
    tabs bare !! t = None /\ stack l' = [TNil; TTab t].
Proof.
  destruct (openlib_correct (St := Demo.St) bare "shark" [("ref"%string, 7%nat)] 3
    (tab_put (TStr "_LOADED") (TTab 3) new_tab) new_tab new_tab) as (_ & H & _);
    [by vm_compute|by vm_compute|by vm_compute|done|by vm_compute|done|discriminate|done|exact bare_heap|].
  destruct (H ltac:(discriminate) eq_refl) as (l' & t & H1 & H2 & H3 & _).
  exists l', t. split; [exact H1|]. split; [exact H2|exact H3].
Defined.
