(* ===== verification/BpfMaps.v ===== *)
(** * Creating the maps of an object: [shark_create_bpf_map]

    What [bpf/bpf.c] leaves behind for a script: a table [bpf.var] with a table
    per map, whose metatable has the accessors of [Bpf] and whose own fields are
    what the accessors look at. *)

From stdpp Require Import base option strings countable gmap list.
From Stdlib Require Import ZArith Lia SpecFloat Ascii.
From S2P Require Import Prelude Number LuaApi LuaRun LuaRef LuaProps LuaDemo LuaAux LuaLib Bpf BpfRun BpfDemo BpfLoadRun.

Local Open Scope Z_scope.
Local Open Scope prog_scope.

Section Maps.
Context {F K : Type} `{!BpfKernel K} `{!BpfFunctions F}.
Local Abbreviation L := (lua_state hack F).
Local Abbreviation st := (lua_state hack F * bpf_world K)%type.
Context `{!LuaVM hack F st}.
Implicit Types (l : L) (w : bpf_world K) (t : ptr) (map : bpf_map_def).

(** ** The table of one map *)

Definition accessors : list (string * F) :=
  [("__index", fn_mt_index); ("__newindex", fn_mt_newindex); ("__pairs", fn_mt_pairs); ("__ipairs", fn_mt_pairs)].

(** A script can index [t] as the map behind [fd]; its metatable is [m]. *)
Definition is_map l t m (fd : Z) map : Prop :=
  map_table l t fd map /\
  exists g gm, tabs l !! t = Some g /\ metatable g = Some m /\ tabs l !! m = Some gm /\
    forall name f, (name, f) ∈ accessors ->
      exists p e, tab_get gm (TStr name) = TFunc p /\ funcs l !! p = Some (FuncC f [] e).

Lemma is_map_grows l l' t m fd map ts : is_map l t m fd map -> grows l l' ts -> t ∉ ts -> m ∉ ts ->
  is_map l' t m fd map.
Proof.
  intros ((g0 & Hg0 & Hd) & g & gm & Hg & Hm & Hgm & Hacc) Hgr Ht Hmt.
  pose proof (gr_tabs _ _ _ Hgr _ Ht ltac:(by eexists)) as Et.
  pose proof (gr_tabs _ _ _ Hgr _ Hmt ltac:(by eexists)) as Em.
  split; [exists g0; by rewrite Et|]. exists g, gm. rewrite Et, Em. split_and!; [done..|].
  intros name f Hin. destruct (Hacc name f Hin) as (p & e & ? & Hp). exists p, e.
  split; [done|]. by rewrite (gr_funcs _ _ _ Hgr) by by eexists.
Qed.

Lemma accessors_named name f : (name, f) ∈ accessors -> last_named name accessors = Some f.
Proof.
  unfold accessors. intros H. repeat (apply elem_of_cons in H as [[= -> ->]|H]; [done|]).
  by apply not_elem_of_nil in H.
Qed.

Lemma bind_congr {A B} (m : M st lua_error A) (k1 k2 : A -> M st lua_error B) s :
  (forall a s, k1 a s = k2 a s) -> bind m k1 s = bind m k2 s.
Proof. intros H. unfold bind. by destruct (m s). Qed.

Lemma set_funcs_step {A} name f lib (k : M st lua_error A) s :
  (lua_pushcfunction f ;;; lua_setfield (-2) name ;;; set_funcs_of lib 0 ;;; k) s =
  (set_funcs_of ((name, f) :: lib) 0 ;;; k) s.
Proof.
  cbn [set_funcs_of copy_upvalues]. unfold bind, skip, ret, lua_pushcfunction. change (- (Z.of_nat 0 + 2)) with (-2).
  destruct (lua_pushcclosure f 0 s) as [? s1| | |]; [|done..]. by destruct (lua_setfield (-2) name s1).
Qed.

(** The accessors are set one by one, as [luaL_register] would. *)
Lemma set_accessors {A} (k : M st lua_error A) s :
  (lua_pushcfunction fn_mt_index ;;; lua_setfield (-2) "__index" ;;;
   lua_pushcfunction fn_mt_newindex ;;; lua_setfield (-2) "__newindex" ;;;
   lua_pushcfunction fn_mt_pairs ;;; lua_setfield (-2) "__pairs" ;;;
   lua_pushcfunction fn_mt_pairs ;;; lua_setfield (-2) "__ipairs" ;;; k) s =
  (set_funcs_of accessors 0 ;;; k) s.
Proof.
  unfold accessors.
  do 3 (etransitivity; [|apply set_funcs_step]; apply bind_congr; intros _ ?; apply bind_congr; intros _ ?).
  etransitivity; [|apply set_funcs_step]. done.
Qed.

Lemma runs_pointwise {A} (m1 m2 : M st lua_error A) l a l' :
  (forall s, m1 s = m2 s) -> runs (St := st) m2 l a l' -> runs m1 l a l'.
Proof. intros He H s Hs. rewrite He. by apply H. Qed.

Lemma runs_setmetatable l st0 t g m : stack l = st0 ++ [TTab t; TTab m] -> tabs l !! t = Some g ->
  runs (St := st) (lua_setmetatable (-2)) l tt
    (set_stack (st0 ++ [TTab t]) (put_at t (set_metatable_of (Some m) g) l)).
Proof.
  intros Hst Hg. assert (stack l = (st0 ++ [TTab t]) ++ [TTab m]) as Hst' by by rewrite <- app_assoc.
  assert (holds (St := st) l (-2) (TTab t)) as (_ & Hv & _) by by eapply (holds_neg _ st0 _ [TTab m]).
  eapply runs_bind; [exact Hv|]. eapply runs_bind; [by eapply runs_at_top|].
  eapply runs_bind; [eapply runs_bind; [apply runs_tabV|apply runs_ret]|].
  eapply runs_bind; [eapply runs_bind; [by apply runs_get_tab|apply runs_put_tab]|].
  by apply (runs_pop1 _ _ (TTab m)).
Qed.

Lemma init_metatable_run l st0 t g fd map :
  stack l = st0 ++ [TTab t] -> tabs l !! t = Some g -> metatable g = None -> heap_ok l ->
  exists l', runs (St := st) (init_metatable map fd) l tt l' /\ stack l' = stack l /\ heap_ok l' /\
    grows l l' [t] /\ is_map l' t (next_obj l) fd map /\ (next_obj l < next_obj l')%positive.
Proof.
  intros Hst Hg Hm Hok.
  set (g1 := GCtab (hash g) (metatable g) (Some fd) (Some (MapDef map))
    (Some (IndexFunc (get_type (key_type map)) (get_type (val_type map))))
    (Some (NewindexFunc (get_type (key_type map)) (get_type (val_type map))))
    (Some (NextFunc (get_type (key_type map))))).
  set (l1 := put_at t g1 l). set (m := next_obj l). set (l2 := with_table l1).
  assert (heap_ok l1) as Hok1 by (apply heap_ok_put; [done|by eexists]).
  assert (t < m)%positive as Htm by (apply (proj1 Hok); by eexists).
  assert (tabs l !! m = None) as Hnm.
  { destruct (tabs l !! m) eqn:E; [|done]. pose proof (proj1 Hok m ltac:(by eexists)). lia. }
  destruct (runs_set_funcs (St := st) accessors l2 (stack l) m new_tab) as (l3 & Hrun & Hst3 & Hok3 & Hgr3 & Hfun);
    [done|apply lookup_insert_eq|done|by apply heap_ok_table|].
  destruct Hfun as (gm & Hgm & _ & Hk).
  assert (tabs l3 !! t = Some g1) as Ht3.
  { assert (tabs l2 !! t = Some g1) as Ht2.
    { change (tabs l2) with (<[m := new_tab]> (<[t := g1]> (tabs l))).
      rewrite lookup_insert_ne by lia. apply lookup_insert_eq. }
    rewrite (gr_tabs _ _ _ Hgr3); [done| |by eexists]. rewrite list_elem_of_singleton. lia. }
  set (l4 := set_stack (stack l) (put_at t (set_metatable_of (Some m) g1) l3)).
  assert (grows l l4 [t]) as Hgr.
  { apply (grows_fresh _ _ m [t] Hok); [|done].
    apply (grows_trans _ l1); [apply (grows_weaken _ _ _ _ (grows_put t g1 l)); set_solver|].
    apply (grows_trans _ l2); [by apply grows_table|].
    apply (grows_trans _ l3); [apply (grows_weaken _ _ _ _ Hgr3); set_solver|].
    apply (grows_trans _ (put_at t (set_metatable_of (Some m) g1) l3));
      [apply (grows_weaken _ _ _ _ (grows_put t _ l3)); set_solver|apply grows_stack]. }
  exists l4. split_and!.
  - eapply runs_bind; [by eapply runs_at_top|]. eapply runs_bind; [apply runs_tabV|].
    eapply runs_bind; [by apply runs_get_tab|]. eapply runs_bind; [apply runs_put_tab|].
    eapply runs_bind; [apply (runs_createtable l1)|].
    apply (runs_pointwise _ _ _ _ _ (set_accessors _)). eapply runs_bind; [exact Hrun|].
    eapply runs_eq; [apply (runs_setmetatable l3 st0 t g1 m); [|done]|unfold l4; by rewrite Hst].
    rewrite Hst3. change (stack l2) with (stack l ++ [TTab m]). by rewrite Hst, <- app_assoc.
  - done.
  - apply (heap_ok_put t _ l3); [done|by eexists].
  - done.
  - split.
    + exists (set_metatable_of (Some m) g1). split; [apply lookup_insert_eq|done].
    + exists (set_metatable_of (Some m) g1), gm. split_and!; [apply lookup_insert_eq|done| |].
      * simpl. rewrite lookup_insert_ne by lia. done.
      * intros name f Hin. specialize (Hk (TStr name)). cbv beta iota in Hk.
        rewrite (accessors_named name f Hin) in Hk. destruct Hk as (p & H1 & H2). by exists p, (cur_env l2).
  - pose proof (gr_next _ _ _ Hgr3). simpl in *. lia.
Qed.

(** ** The loop over the maps *)

(** What the kernel answers: whether it created every map, and the descriptors
    up to the first it refused. *)
Fixpoint create_all (maps : list bpf_map_def) (k : K) : bool * list Z * K :=
  match maps with
  | [] => (true, [], k)
  | map :: maps =>
      let '(fd, _, k) := sys_bpf BPF_MAP_CREATE
        (AttrCreate (map_type map) (key_size map) (value_size map) (max_entries map)) k in
      if fd <? 0 then (false, [fd], k) else
      let '(ok, fds, k) := create_all maps k in (ok, fd :: fds, k)
  end.

(** The table [var] has a table for each of the maps that were created. *)
Definition has_maps l (low : ptr) (gv : gctab hack) (maps : list bpf_map_def) (fds : list Z) : Prop :=
  forall j map fd, maps !! j = Some map -> fds !! j = Some fd -> 0 <= fd ->
    exists t m, tab_get gv (TStr (name map)) = TTab t /\ is_map l t m fd map /\ (low <= t)%positive /\ (low <= m)%positive.

Lemma create_maps_cons i map maps l w fd x k1 :
  sys_bpf BPF_MAP_CREATE (AttrCreate (map_type map) (key_size map) (value_size map) (max_entries map)) (kernel w) =
    (fd, x, k1) -> (i < length (map_fd w))%nat ->
  create_maps i (map :: maps) (l, w) =
    (if fd <? 0 then ret false else
     lua_createtable ;;; init_metatable map fd ;;; lua_setfield (-2) (name map) ;;; create_maps (S i) maps)
    (l, set_map_fd (<[i := fd]> (map_fd w)) (set_kernel k1 w)).
Proof.
  intros Hs Hi. cbn [create_maps]. unfold bpf_create_map, syscall_bpf.
  rewrite !bind_assoc, wget_bind, Hs. cbn [fst snd]. rewrite bind_assoc, wmod_bind, !bind_ret, wget_bind.
  cbn [map_fd set_kernel]. rewrite (proj2 (Nat.leb_gt _ _) Hi). by rewrite wmod_bind.
Qed.

Lemma runs_fst {A B} (m : M st lua_error A) (k : A -> M st lua_error B) l w a l' :
  runs (St := st) m l a l' -> bind m k (l, w) = k a (l', w).
Proof. intros H. unfold bind. by rewrite (H (l, w) eq_refl). Qed.

(** One map the kernel created. *)
Lemma add_map_run l st0 var gv map fd :
  stack l = st0 ++ [TTab var] -> tabs l !! var = Some gv -> metatable gv = None -> heap_ok l ->
  exists l', runs (St := st) (lua_createtable ;;; init_metatable map fd ;;; lua_setfield (-2) (name map)) l tt l' /\
    stack l' = stack l /\ heap_ok l' /\ grows l l' [var] /\
    tabs l' !! var = Some (tab_put (TStr (name map)) (TTab (next_obj l)) gv) /\
    is_map l' (next_obj l) (Pos.succ (next_obj l)) fd map.
Proof.
  intros Hst Hv Hm Hok. set (t := next_obj l).
  assert (var < t)%positive as Hvt by (apply (proj1 Hok); by eexists).
  assert (tabs l !! t = None) as Hnt.
  { destruct (tabs l !! t) eqn:E; [|done]. pose proof (proj1 Hok t ltac:(by eexists)). lia. }
  destruct (init_metatable_run (with_table l) (stack l) t new_tab fd map)
    as (l2 & Hrun & Hst2 & Hok2 & Hgr2 & His & _);
    [done|apply lookup_insert_eq|done|by apply heap_ok_table|].
  assert (tabs l2 !! var = Some gv) as Hv2.
  { assert (tabs (with_table l) !! var = Some gv) as Hv1 by (simpl; by rewrite lookup_insert_ne by lia).
    rewrite (gr_tabs _ _ _ Hgr2); [done| |by eexists]. rewrite list_elem_of_singleton. lia. }
  set (gv' := tab_put (TStr (name map)) (TTab t) gv).
  exists (set_stack (stack l) (put_at var gv' l2)). split_and!.
  - eapply runs_bind; [apply runs_createtable|]. eapply runs_bind; [exact Hrun|].
    eapply runs_eq; [apply (runs_setfield l2 (-2) var gv (name map) (TTab t) (stack l))|]; [|done..| |done].
    + apply (holds_neg _ st0 _ [TTab t]); [|done..]. rewrite Hst2. simpl. by rewrite Hst, <- app_assoc.
    + by rewrite Hst2.
  - done.
  - apply (heap_ok_put var _ l2); [done|by eexists].
  - apply (grows_fresh _ _ t [var] Hok); [|done].
    apply (grows_trans _ (with_table l)); [by apply grows_table|].
    apply (grows_trans _ l2); [apply (grows_weaken _ _ _ _ Hgr2); set_solver|].
    apply (grows_trans _ (put_at var gv' l2)); [apply (grows_weaken _ _ _ _ (grows_put var _ l2)); set_solver|].
    apply grows_stack.
  - apply lookup_insert_eq.
  - eapply (is_map_grows l2 _ _ _ _ _ [var]); [exact His| | |].
    + apply (grows_trans _ (put_at var gv' l2)); [apply grows_put|apply grows_stack].
    + rewrite list_elem_of_singleton. lia.
    + rewrite list_elem_of_singleton. simpl. lia.
Qed.

Lemma bind3_assoc {A} (a b c : M st lua_error unit) (k : M st lua_error A) s :
  (a ;;; b ;;; c ;;; k) s = ((a ;;; b ;;; c) ;;; k) s.
Proof.
  rewrite bind_assoc. apply bind_congr. intros _ s1. by rewrite bind_assoc.
Qed.

(** The state of the loop after the maps from [i] on. *)
Definition maps_world (i : nat) (fds : list Z) (k : K) w : bpf_world K :=
  set_kernel k (set_map_fd (list_inserts i fds (map_fd w)) w).

Lemma create_maps_run maps : forall i l w st0 var gv,
  stack l = st0 ++ [TTab var] -> tabs l !! var = Some gv -> metatable gv = None -> heap_ok l ->
  (i + length maps <= length (map_fd w))%nat -> NoDup (name <$> maps) ->
  exists l' gv', create_maps i maps (l, w) = Ret (create_all maps (kernel w)).1.1
      (l', maps_world i (create_all maps (kernel w)).1.2 (create_all maps (kernel w)).2 w) /\
    stack l' = stack l /\ heap_ok l' /\ grows l l' [var] /\ tabs l' !! var = Some gv' /\ metatable gv' = None /\
    (forall s, s ∉ name <$> maps -> tab_get gv' (TStr s) = tab_get gv (TStr s)) /\
    has_maps l' (next_obj l) gv' maps (create_all maps (kernel w)).1.2.
Proof.
  induction maps as [|map maps IH]; intros i l w st0 var gv Hst Hv Hm Hok Hlen Hnd.
  { exists l, gv. split; [by destruct w|]. split_and!; done. }
  cbn [length fmap list_fmap] in Hlen, Hnd. apply NoDup_cons in Hnd as [Hni Hnd].
  destruct (sys_bpf BPF_MAP_CREATE
    (AttrCreate (map_type map) (key_size map) (value_size map) (max_entries map)) (kernel w)) as [[fd x] k1] eqn:Hs.
  rewrite (create_maps_cons i map maps l w fd x k1 Hs) by lia. cbn [create_all]. rewrite Hs.
  destruct (Z.ltb_spec fd 0).
  { exists l, gv. split; [done|]. split_and!; try done.
    intros [|j] map' fd'; cbn; intros; simplify_eq; lia. }
  destruct (add_map_run l st0 var gv map fd Hst Hv Hm Hok)
    as (l1 & Hrun & Hst1 & Hok1 & Hgr1 & Hv1 & His). set (gv1 := tab_put _ _ gv) in Hv1.
  set (w1 := set_map_fd (<[i := fd]> (map_fd w)) (set_kernel k1 w)).
  destruct (IH (S i) l1 w1 st0 var gv1) as (l' & gv' & Hrest & Hst' & Hok' & Hgr' & Hv' & Hm' & Hother & Hmaps);
    [by rewrite Hst1|done|by unfold gv1; rewrite tab_put_metatable|done|simpl; rewrite length_insert; lia|done|].
  change (kernel w1) with k1 in Hrest, Hmaps.
  destruct (create_all maps k1) as [[ok fds] k'] eqn:Hall. cbn [fst snd] in *.
  exists l', gv'. split_and!; [|congruence|done|by eapply grows_trans|done|done| |].
  - rewrite bind3_assoc, (runs_fst _ _ _ _ _ _ Hrun), Hrest. f_equal. unfold maps_world, w1. simpl.
    by rewrite list_insert_inserts_lt by lia.
  - intros s Hs'. rewrite Hother by set_solver. unfold gv1. rewrite tab_get_put. simpl.
    rewrite decide_False; [done|]. intros [= ->]. set_solver.
  - pose proof (gr_next _ _ _ Hgr1) as Hnext.
    assert (var < next_obj l)%positive as Hvt by (apply (proj1 Hok); by eexists).
    intros [|j] map' fd'; cbn; intros H1 H2 H3; simplify_eq.
    + exists (next_obj l), (Pos.succ (next_obj l)). split_and!; [| |lia..].
      * rewrite Hother by done. unfold gv1. rewrite tab_get_put. simpl. by rewrite decide_True.
      * apply (is_map_grows l1 _ _ _ _ _ [var]); [done|done|rewrite list_elem_of_singleton; lia..].
    + destruct (Hmaps j map' fd' H1 H2 H3) as (t & m & ? & ? & ? & ?). exists t, m. split_and!; [done|done|lia..].
Qed.

(** ** The whole function *)

(** The global table [bpf] that the Lua module keeps while an object is loaded. *)
Record has_bpf l (bpf : ptr) (gg gb : gctab hack) : Prop := {
  hb_globals : tabs l !! env_tab l = Some gg;
  hb_plain : metatable gg = None;
  hb_field : tab_get gg (TStr "bpf") = TTab bpf;
  hb_table : tabs l !! bpf = Some gb;
  hb_meta : metatable gb = None;
  hb_other : bpf <> env_tab l
}.

Lemma create_start_run maps l w bpf gg gb : heap_ok l -> has_bpf l bpf gg gb ->
  (length maps <= length (map_fd w))%nat -> NoDup (name <$> maps) ->
  exists l1 gv, forall (k : bool -> M st lua_error Z),
    (lua_getglobal "bpf" ;;; lua_createtable ;;; ok <- create_maps 0 maps ;; k ok) (l, w) =
      k (create_all maps (kernel w)).1.1
        (l1, maps_world 0 (create_all maps (kernel w)).1.2 (create_all maps (kernel w)).2 w) /\
    stack l1 = stack l ++ [TTab bpf; TTab (next_obj l)] /\ heap_ok l1 /\ grows l l1 [] /\
    tabs l1 !! next_obj l = Some gv /\ has_maps l1 (next_obj l) gv maps (create_all maps (kernel w)).1.2.
Proof.
  intros Hok [Hg Hp Hf Hb Hm Hne] Hlen Hnd. set (var := next_obj l).
  set (l0 := set_stack (stack l ++ [TTab bpf]) l).
  assert (tabs l !! var = None) as Hnv.
  { destruct (tabs l !! var) eqn:E; [|done]. pose proof (proj1 Hok var ltac:(by eexists)). lia. }
  destruct (create_maps_run maps 0 (with_table l0) w (stack l ++ [TTab bpf]) var new_tab)
    as (l1 & gv & Hrun & Hst1 & Hok1 & Hgr1 & Hv1 & _ & _ & Hmaps);
    [done|apply lookup_insert_eq|done|by apply heap_ok_table|done|done|].
  exists l1, gv. intros k. split_and!.
  - rewrite (runs_fst _ _ _ _ tt l0).
    2:{ eapply runs_eq; [by eapply runs_getfield; [apply holds_names; by right|..]|]. by rewrite Hf. }
    rewrite (runs_fst _ _ _ _ _ _ (runs_createtable l0)). unfold bind. by rewrite Hrun.
  - rewrite Hst1. simpl. by rewrite <- app_assoc.
  - done.
  - apply (grows_fresh _ _ var [] Hok); [|done].
    apply (grows_trans _ (with_table l0)); [|done].
    apply (grows_trans _ l0); [apply grows_stack|by apply grows_table].
  - done.
  - intros j map fd H1 H2 H3. destruct (Hmaps j map fd H1 H2 H3) as (t & m & ? & ? & ? & ?).
    exists t, m. simpl in *. split_and!; [done|done|lia..].
Qed.

Lemma has_maps_grows l l' low gv maps fds ts : has_maps l low gv maps fds -> grows l l' ts ->
  (forall t, t ∈ ts -> (t < low)%positive) -> has_maps l' low gv maps fds.
Proof.
  intros Hmaps Hgr Hts j map fd H1 H2 H3. destruct (Hmaps j map fd H1 H2 H3) as (t & m & ? & ? & ? & ?).
  exists t, m. split_and!; [done| |done..].
  eapply is_map_grows; [done|done|intros Hin%Hts; lia..].
Qed.

(** The table is published in [bpf.var], and the global cleared. *)
Lemma publish_run l st0 bpf var gg gb : heap_ok l -> stack l = st0 ++ [TTab bpf; TTab var] ->
  tabs l !! env_tab l = Some gg -> metatable gg = None -> tabs l !! bpf = Some gb -> metatable gb = None ->
  bpf <> env_tab l ->
  exists l', runs (St := st) (lua_setfield (-2) "var" ;;; lua_pop 1 ;;; lua_pushnil ;;; lua_setglobal "bpf" ;;; ret 0)
      l 0 l' /\ stack l' = st0 /\ heap_ok l' /\ grows l l' [bpf; env_tab l] /\
    (exists gb', tabs l' !! bpf = Some gb' /\ tab_get gb' (TStr "var") = TTab var) /\
    (exists gg', tabs l' !! env_tab l = Some gg' /\ tab_get gg' (TStr "bpf") = TNil).
Proof.
  intros Hok Hst Hg Hp Hb Hm Hne.
  set (gb' := tab_put (TStr "var") (TTab var) gb). set (gg' := tab_put (TStr "bpf") TNil gg).
  set (l2 := set_stack (st0 ++ [TTab bpf]) (put_at bpf gb' l)).
  exists (set_stack st0 (put_at (env_tab l) gg' l2)). split_and!; try done.
  - eapply runs_bind.
    { eapply runs_eq; [eapply (runs_setfield l (-2) bpf gb "var" (TTab var) (st0 ++ [TTab bpf]))|]; try done.
      - by apply (holds_neg _ st0 _ [TTab var]).
      - by rewrite Hst, <- app_assoc. }
    eapply runs_bind; [by eapply (runs_pop1 l2)|]. eapply runs_bind; [apply runs_push|].
    eapply runs_bind; [|apply runs_ret].
    eapply runs_eq; [eapply (runs_setfield _ LUA_GLOBALSINDEX (env_tab l) gg "bpf" TNil st0)|]; try done.
    + apply holds_names. by right.
    + simpl. by rewrite lookup_insert_ne.
  - apply (heap_ok_put (env_tab l) _ l2); [apply (heap_ok_put bpf _ l); [done|by eexists]|].
    exists gg. simpl. by rewrite lookup_insert_ne.
  - split; simpl; try done. intros x Hx _. rewrite !lookup_insert_ne; [done|set_solver..].
  - exists gb'. split; [simpl; rewrite lookup_insert_ne by done; apply lookup_insert_eq|].
    unfold gb'. rewrite tab_get_put. by rewrite decide_True.
  - exists gg'. split; [apply lookup_insert_eq|]. unfold gg'. rewrite tab_get_put. by rewrite decide_True.
Qed.

(** C6 [shark_create_bpf_map] asks the kernel for the maps in order and keeps
    their descriptors.  When it gets them all, a script finds under the name of
    each map in [bpf.var] a table whose metatable has the accessors and whose
    fields are the map's, so that the accessors work on that map; the global
    [bpf] is cleared and the stack is as before.  At the first map it does not
    get it returns 1, and leaves the two tables on the stack and the global. *)
Theorem create_maps_correct maps l w bpf gg gb : heap_ok l -> has_bpf l bpf gg gb ->
  (length maps <= length (map_fd w))%nat -> NoDup (name <$> maps) ->
  let '(ok, fds, k) := create_all maps (kernel w) in
  exists l' var gv, shark_create_bpf_map maps (l, w) =
      Ret (if ok then 0 else 1) (l', maps_world 0 fds k w) /\
    heap_ok l' /\ tabs l' !! var = Some gv /\ has_maps l' var gv maps fds /\
    if ok : bool then
      stack l' = stack l /\
      (exists gb', tabs l' !! bpf = Some gb' /\ tab_get gb' (TStr "var") = TTab var) /\
      (exists gg', tabs l' !! env_tab l = Some gg' /\ tab_get gg' (TStr "bpf") = TNil)
    else
      stack l' = stack l ++ [TTab bpf; TTab var] /\
      (exists gg', tabs l' !! env_tab l = Some gg' /\ tab_get gg' (TStr "bpf") = TTab bpf).
Proof.
  intros Hok Hb Hlen Hnd. pose proof Hb as [Hg Hp Hf Ht Hm Hne].
  destruct (create_start_run maps l w bpf gg gb Hok Hb Hlen Hnd) as (l1 & gv & Hrun).
  set (var := next_obj l) in *.
  assert (forall t g, tabs l !! t = Some g -> (t < var)%positive) as Hlow
    by (intros t g Htg; apply (proj1 Hok); by eexists).
  destruct (create_all maps (kernel w)) as [[ok fds] k]. cbn [fst snd] in Hrun.
  destruct (Hrun (fun _ => ret 0)) as (_ & Hst1 & Hok1 & Hgr1 & Hv1 & Hmaps).
  assert (forall t g, tabs l !! t = Some g -> tabs l1 !! t = Some g) as Hkeep
    by (intros t g Htg; rewrite (gr_tabs _ _ _ Hgr1); [done|apply not_elem_of_nil|by eexists]).
  pose proof (gr_env _ _ _ Hgr1) as He.
  unfold shark_create_bpf_map. rewrite (proj1 (Hrun _)). destruct ok; cbn [negb].
  - destruct (publish_run l1 (stack l) bpf var gg gb) as (l' & Hpub & Hst' & Hok' & Hgr' & Hb' & Hg');
      [done|done|rewrite He; by apply Hkeep|done|by apply Hkeep|done|by rewrite He|].
    rewrite He in Hgr', Hg'.
    exists l', var, gv. split_and!; [by rewrite (Hpub (l1, maps_world 0 fds k w) eq_refl)|done| | |done..].
    + rewrite (gr_tabs _ _ _ Hgr'); [done| |by eexists].
      apply Hlow in Hg, Ht. rewrite !not_elem_of_cons. split_and!; [lia..|apply not_elem_of_nil].
    + eapply has_maps_grows; [done|exact Hgr'|]. intros t [->|[->|[]%not_elem_of_nil]%elem_of_cons]%elem_of_cons; eauto.
  - exists l1, var, gv. split_and!; try done. exists gg. auto.
Qed.
End Maps.

(** ** A run that meets the hypotheses *)

Module Demo.
Definition globals : gctab hack := tab_put (TStr "bpf") (TTab 3) new_tab.

Definition lua0 : lua_state hack bpf_fn :=
  LuaState [TBool true] None 2%positive 1%positive
    (<[1%positive := new_tab]> (<[2%positive := globals]> {[ 3%positive := new_tab ]})) ∅ ∅ ∅ 4%positive.

Definition world0 : bpf_world kernel_maps :=
  BpfWorld [] 0 [] (replicate 4 0) [] [] 0 [] ∅.

Definition counts : bpf_map_def := BpfMapDef "counts" "u32" "u64" 1 4 8 16.
Definition names : bpf_map_def := BpfMapDef "names" "u64" "string" 1 8 64 16.

Lemma lua0_heap : heap_ok lua0.
Proof.
  split_and!; [| |done].
  - intros p. unfold lua0. simpl. rewrite !lookup_insert_is_Some, lookup_singleton_is_Some. lia.
  - intros p [x Hx]. simpl in Hx. by rewrite lookup_empty in Hx.
Qed.

Lemma lua0_bpf : has_bpf lua0 3 globals new_tab.
Proof. by split. Qed.
End Demo.

Lemma create_maps_correct_witness :
  exists l' t, shark_create_bpf_map [Demo.counts; Demo.names] (Demo.lua0, Demo.world0) =
      Ret 0 (l', maps_world 0 [3; 4] (create_all [Demo.counts; Demo.names] ∅).2 Demo.world0) /\
    stack l' = [TBool true] /\ num_map l' t 3 C_u32 C_u64.
Proof.
  pose proof (create_maps_correct [Demo.counts; Demo.names] Demo.lua0 Demo.world0 3 Demo.globals new_tab
    Demo.lua0_heap Demo.lua0_bpf) as H.
  destruct H as (l' & var & gv & H1 & _ & _ & H2 & H3 & _);
    [simpl; lia|apply NoDup_cons; split; [|apply NoDup_singleton]; rewrite list_elem_of_singleton; discriminate|].
  destruct (H2 0%nat Demo.counts 3 eq_refl eq_refl ltac:(lia)) as (t & m & _ & [Ht _] & _).
  exists l', t. split; [exact H1|]. split; [exact H3|]. exists Demo.counts. split; [exact Ht|split; reflexivity].
Defined.
