(* ===== verification/Luv.v ===== *)
(** * The Lua bindings of libuv: what every binding shares

    The state of a program that runs Lua over the event loop, the records luv
    hangs on handles and requests ([core/luv/lhandle.c], [core/luv/lreq.c]), and
    how results and errors are reported ([core/luv/util.c]).

    A handle is a userdata: its payload, the [uv_handle] of [UvLoop], has the
    address of the userdata.  [uv_handle.data] points to a [luv_handle_t] that
    [malloc] returned, in the store [luv_data]; the libuv callbacks of luv are the
    constructors of [luv_cb]. *)

From stdpp Require Import base option strings countable gmap list.
From Stdlib Require Import ZArith Lia SpecFloat.
From S2P Require Import Prelude UvPrio UvQueue UvLoop UvCore Number UvErr LuaApi LuaAux.

Local Open Scope Z_scope.
Local Open Scope prog_scope.

(** The C functions luv hands to libuv. *)
Inductive luv_cb :=
  | luv_timer_cb | luv_prepare_cb | luv_check_cb | luv_idle_cb | luv_close_cb.

(** Userdata and event callbacks, as references in the registry: slot
    [LUV_CLOSED] of [callbacks] is for the close event, slot 1 for all others. *)
Record luv_handle_t := LuvHandle { ref : Z; callbacks : list Z }.

Definition LUV_CLOSED : nat := 0.
Definition LUV_TIMEOUT : nat := 1.
Definition LUV_PREPARE : nat := 1.
Definition LUV_IDLE : nat := 1.
Definition LUV_CHECK : nat := 1.

Definition set_callback (id : nat) (r : Z) (d : luv_handle_t) : luv_handle_t :=
  LuvHandle (ref d) (<[id := r]> (callbacks d)).

Record luv_req_t := LuvReq {
  req_ref : Z;
  callback_ref : Z;
  data_ref : Z;
  req_extra : option ptr
}.

(** The world around the loop: Lua, the memory of luv, and the system. *)
Record luv_env (V F O : Type) := LuvEnv {
  lua : lua_state V F;
  luv_data : gmap ptr luv_handle_t;
  luv_reqs : gmap ptr luv_req_t;
  next_data : ptr;
  os : O
}.

Arguments LuvEnv {V F O}.
Arguments lua {V F O} l.
Arguments luv_data {V F O} l.
Arguments luv_reqs {V F O} l.
Arguments next_data {V F O} l.
Arguments os {V F O} l.

Section Setters.
Context {V F O : Type}.
Implicit Types (e : luv_env V F O).

Definition set_lua v e : luv_env V F O := LuvEnv v (luv_data e) (luv_reqs e) (next_data e) (os e).
Definition set_luv_data v e : luv_env V F O := LuvEnv (lua e) v (luv_reqs e) (next_data e) (os e).
Definition set_luv_reqs v e : luv_env V F O := LuvEnv (lua e) (luv_data e) v (next_data e) (os e).
Definition set_next_data v e : luv_env V F O := LuvEnv (lua e) (luv_data e) (luv_reqs e) v (os e).
Definition set_os v e : luv_env V F O := LuvEnv (lua e) (luv_data e) (luv_reqs e) (next_data e) v.
End Setters.

Abbreviation luv_state Q V F O := (uv_state Q luv_cb (luv_env V F O)).

#[export] Instance luv_has_lua {Q V F O : Type} : HasLua (luv_state Q V F O) (lua_state V F) :=
  {| get_lua s := lua (env s); put_lua l s := set_env (set_lua l (env s)) s |}.

#[export] Instance luv_has_lua_laws {Q V F O : Type} : HasLuaLaws (luv_state Q V F O) (lua_state V F).
Proof. split; [done..|]. by intros [? ? ? ? ? ? ? ? ? []]. Qed.

(** The system below: [malloc], the clock, the standard error, how [%p] prints
    a pointer, the size of handles, and the bytes of a new handle. *)
Class LuvSys (O : Type) := {
  malloc_ok : O -> bool * O;
  clock : O -> Z * O;
  stderr : string -> O -> O;
  fmt_ptr : ptr -> string;
  sizeof_handle : uv_handle_type -> Z;
  raw_handle : uv_handle luv_cb
}.

Section Luv.
Context {Q V F O : Type} `{!PrioQueue Q} `{!LuvSys O} `{!LuaVM V F (luv_state Q V F O)}.

Let st : Type := luv_state Q V F O.
Let prog (A : Type) : Type := M st lua_error A.

Definition emod (f : luv_env V F O -> luv_env V F O) : prog unit :=
  modify (fun s => set_env (f (env s)) s).

Definition print_err (msg : string) : prog unit := emod (fun e => set_os (stderr msg (os e)) e).

(** [malloc]: NULL, or an address of its own. *)
Definition malloc : prog (option ptr) :=
  s <- get ;;
  let '(ok, o) := malloc_ok (os (env s)) in
  emod (set_os o) ;;;
  if negb ok then ret None else
  emod (fun e => set_next_data (Pos.succ (next_data e)) e) ;;;
  ret (Some (next_data (env s))).

(** [*data] for a [luv_handle_t *data] that may be NULL or freed *)
Definition get_data (d : option ptr) : prog luv_handle_t :=
  s <- get ;; orfail NullDeref (d ≫= fun d => luv_data (env s) !! d).

Definition put_data (d : ptr) (v : luv_handle_t) : prog unit :=
  emod (fun e => set_luv_data (<[d := v]> (luv_data e)) e).

(** The address behind a [luv_handle_t *] that is dereferenced *)
Definition nonnull (d : option ptr) : prog ptr := orfail NullDeref d.

(** ** [util.c] *)

Definition luv_error (status : Z) : prog Z :=
  lua_pushnil ;;;
  name <- uv_err_name status ;;
  lua_pushlstring (name +:+ ": " +:+ uv_strerror status) ;;;
  name <- uv_err_name status ;;
  lua_pushstring (Some name) ;;;
  ret 3.

Definition luv_status (status : Z) : prog unit :=
  if status <? 0 then
    name <- uv_err_name status ;;
    print_err (name +:+ ": " +:+ uv_strerror status) ;;;
    lua_pushstring (Some name)
  else lua_pushnil.

(** The two ways most bindings end. *)
Definition push_result (r : Z) : prog Z :=
  if r <? 0 then luv_error r else lua_pushinteger r ;;; ret 1.

(** ** [lhandle.c] *)

(** The names [XX(uc, lc)] of [UV_HANDLE_TYPE_MAP] *)
Definition handle_name (t : uv_handle_type) : option string :=
  match t with
  | UV_ASYNC => Some "async" | UV_CHECK => Some "check" | UV_FS_EVENT => Some "fs_event"
  | UV_FS_POLL => Some "fs_poll" | UV_HANDLE => Some "handle" | UV_IDLE => Some "idle"
  | UV_NAMED_PIPE => Some "pipe" | UV_POLL => Some "poll" | UV_PREPARE => Some "prepare"
  | UV_PROCESS => Some "process" | UV_STREAM => Some "stream" | UV_TCP => Some "tcp"
  | UV_TIMER => Some "timer" | UV_TTY => Some "tty" | UV_UDP => Some "udp"
  | UV_SIGNAL => Some "signal" | UV_UNKNOWN_HANDLE | UV_FILE => None
  end.

(** Sets up the handle whose userdata is on top of the stack. *)
Definition luv_setup_handle : prog ptr :=
  handle <- lua_touserdata (-1) ;;
  luaL_checktype (-1) LUA_TUSERDATA ;;;
  data <- malloc ;;
  data <- match data with Some d => ret d | None => luaL_error "Can't allocate luv handle" end ;;
  handle <- nonnull handle ;;
  h <- deref handle ;;
  match handle_name (type h) with
  | Some lc => luaL_getmetatable ("uv_" +:+ lc)
  | None => luaL_error "Unknown handle type"
  end ;;;
  lua_setmetatable (-2) ;;;
  lua_pushvalue (-1) ;;;
  r <- luaL_ref LUA_REGISTRYINDEX ;;
  put_data data (LuvHandle r [LUA_NOREF; LUA_NOREF]) ;;;
  ret data.

Definition luv_check_callback (data : option ptr) (id : nat) (index : Z) : prog unit :=
  luaL_checktype index LUA_TFUNCTION ;;;
  d <- get_data data ;;
  old <- orfail OutOfBounds (callbacks d !! id) ;;
  luaL_unref LUA_REGISTRYINDEX old ;;;
  lua_pushvalue index ;;;
  r <- luaL_ref LUA_REGISTRYINDEX ;;
  d <- get_data data ;;
  p <- nonnull data ;;
  put_data p (set_callback id r d).

(** A callback that raises an error ends the program. *)
Definition luv_call_callback (data : option ptr) (id : nat) (nargs : nat) : prog unit :=
  d <- get_data data ;;
  r <- orfail OutOfBounds (callbacks d !! id) ;;
  if r =? LUA_NOREF then lua_pop (Z.of_nat nargs) else
  lua_rawgeti LUA_REGISTRYINDEX r ;;;
  (when (negb (nargs =? 0)%nat) do lua_insert (-1 - Z.of_nat nargs)) ;;;
  status <- lua_pcall nargs 0 0 ;;
  if status =? 0 then skip else
  msg <- lua_tolstring (-1) ;;
  print_err ("Uncaught Error: " +:+ default "(null)" msg) ;;;
  halt (-1).

Definition luv_cleanup_handle (data : ptr) : prog unit :=
  d <- get_data (Some data) ;;
  luaL_unref LUA_REGISTRYINDEX (ref d) ;;;
  c0 <- orfail OutOfBounds (callbacks d !! 0%nat) ;;
  luaL_unref LUA_REGISTRYINDEX c0 ;;;
  c1 <- orfail OutOfBounds (callbacks d !! 1%nat) ;;
  luaL_unref LUA_REGISTRYINDEX c1 ;;;
  emod (fun e => set_luv_data (delete data (luv_data e)) e).

Definition luv_find_handle (data : option ptr) : prog unit :=
  d <- get_data data ;; lua_rawgeti LUA_REGISTRYINDEX (ref d).

(** ** [lreq.c] *)

Definition get_req (d : ptr) : prog luv_req_t :=
  s <- get ;; orfail NullDeref (luv_reqs (env s) !! d).

Definition luv_check_continuation (index : Z) : prog Z :=
  none <- lua_isnoneornil index ;;
  if none then ret LUA_NOREF else
  luaL_checktype index LUA_TFUNCTION ;;;
  lua_pushvalue index ;;;
  luaL_ref LUA_REGISTRYINDEX.

Definition luv_setup_req (callback_ref : Z) : prog ptr :=
  luaL_checktype (-1) LUA_TUSERDATA ;;;
  data <- malloc ;;
  data <- match data with Some d => ret d | None => luaL_error "Problem allocating luv request" end ;;
  luaL_getmetatable "uv_req" ;;;
  lua_setmetatable (-2) ;;;
  lua_pushvalue (-1) ;;;
  r <- luaL_ref LUA_REGISTRYINDEX ;;
  emod (fun e => set_luv_reqs (<[data := LuvReq r callback_ref LUA_NOREF None]> (luv_reqs e)) e) ;;;
  ret data.

Definition luv_fulfill_req (data : ptr) (nargs : nat) : prog unit :=
  d <- get_req data ;;
  if callback_ref d =? LUA_NOREF then lua_pop (Z.of_nat nargs) else
  lua_rawgeti LUA_REGISTRYINDEX (callback_ref d) ;;;
  (when (negb (nargs =? 0)%nat) do lua_insert (-1 - Z.of_nat nargs)) ;;;
  lua_call nargs 0.

Definition luv_cleanup_req (data : ptr) : prog unit :=
  d <- get_req data ;;
  luaL_unref LUA_REGISTRYINDEX (req_ref d) ;;;
  luaL_unref LUA_REGISTRYINDEX (callback_ref d) ;;;
  luaL_unref LUA_REGISTRYINDEX (data_ref d) ;;;
  emod (fun e => set_luv_reqs (delete data (luv_reqs e)) e).
End Luv.
