(* ===== verification/LuvHandle.v ===== *)
(** * The Lua bindings of handles, timers, watchers and the loop

    [core/luv/handle.c], [timer.c], [prepare.c], [check.c], [idle.c] and
    [loop.c].  The three watcher files are the same text for three names, and are
    one definition on the kind of watcher.  [luv_call] is what calling each
    callback of luv does, and closes the circle: the loop of [UvCore] runs it. *)

From stdpp Require Import base option strings countable gmap list.
From Stdlib Require Import ZArith Lia SpecFloat.
From S2P Require Import Prelude UvPrio UvQueue UvLoop UvCore Number UvErr LuaApi LuaAux Luv.

Local Open Scope Z_scope.
Local Open Scope prog_scope.

Section Luv.
Context {Q V F O : Type} `{!PrioQueue Q} `{!LuvSys O} `{!LuaVM V F (luv_state Q V F O)}.

Let st : Type := luv_state Q V F O.
Let prog (A : Type) : Type := M st lua_error A.

(** The parts of the loop below this development: pending and polled
    descriptors, and closing the kinds of handle that own descriptors. *)
Context (run_pending : prog Z) (io_poll : Z -> prog unit) (loop_cleanup : prog unit).
Context (close_other finish_close_other : uv_handle_type -> ptr -> prog unit).
(** Fuel for the loops of [uv_run] and [uv_walk]. *)
Context (rounds fuel : nat).

Definition hrtime (e : luv_env V F O) : Z * luv_env V F O :=
  let '(t, o) := clock (os e) in (t, set_os o e).

(** ** The loop behind the state ([luv.c]) *)

Definition luv_loop : prog (option ptr) :=
  lua_pushstring (Some "uv_loop") ;;;
  lua_rawget LUA_REGISTRYINDEX ;;;
  loop <- lua_touserdata (-1) ;;
  lua_pop 1 ;;;
  ret loop.

(** A call on [luv_loop(L)], which it dereferences *)
Definition on_loop {A} (m : prog A) : prog A := l <- luv_loop ;; nonnull l ;;; m.

(** ** [handle.c] *)

Definition luv_check_handle (index : Z) : prog ptr :=
  let bad := luaL_argerror index "Expected uv_handle userdata" in
  handle <- lua_touserdata index ;;
  match handle with
  | None => bad
  | Some handle =>
      lua_getfield LUA_REGISTRYINDEX "uv_handle" ;;;
      lua_getmetatable (if index <? 0 then index - 1 else index) ;;;
      lua_rawget (-2) ;;;
      isHandle <- lua_toboolean (-1) ;;
      lua_pop 2 ;;;
      if isHandle : bool then ret handle else bad
  end.

Definition luv_handle_tostring : prog Z :=
  p <- luv_check_handle 1 ;;
  h <- deref p ;;
  match handle_name (type h) with
  | Some lc => lua_pushlstring ("uv_" +:+ lc +:+ "_t: " +:+ fmt_ptr p)
  | None => lua_pushlstring ("uv_handle_t: " +:+ fmt_ptr p)
  end ;;;
  ret 1.

Definition luv_is_active : prog Z :=
  p <- luv_check_handle 1 ;;
  r <- uv_is_active p ;;
  lua_pushboolean r ;;; ret 1.

Definition luv_is_closing : prog Z :=
  p <- luv_check_handle 1 ;;
  r <- uv_is_closing p ;;
  lua_pushboolean r ;;; ret 1.

(** [luv_close_cb] *)
Definition close_cb_body (p : ptr) : prog unit :=
  h <- deref p ;;
  match data h with
  | None => skip
  | Some d =>
      luv_call_callback (Some d) LUV_CLOSED 0 ;;;
      luv_cleanup_handle d ;;;
      assign p (set_data None)
  end.

Definition luv_close : prog Z :=
  p <- luv_check_handle 1 ;;
  closing <- uv_is_closing p ;;
  (when closing do luaL_error ("handle " +:+ fmt_ptr p +:+ " is already closing")) ;;;
  none <- lua_isnoneornil 2 ;;
  (when (negb none) do (h <- deref p ;; luv_check_callback (data h) LUV_CLOSED 2)) ;;;
  uv_close close_other p (Some luv_close_cb) ;;;
  ret 0.

Definition luv_ref : prog Z := p <- luv_check_handle 1 ;; uv_ref p ;;; ret 0.
Definition luv_unref : prog Z := p <- luv_check_handle 1 ;; uv_unref p ;;; ret 0.

Definition luv_has_ref : prog Z :=
  p <- luv_check_handle 1 ;;
  r <- uv_has_ref p ;;
  lua_pushboolean r ;;; ret 1.

(** ** What [timer.c], [prepare.c], [check.c] and [idle.c] share *)

(** [luv_check_timer] and its likes: the userdata at [index], when its metatable
    is the one of the type and it has not been released. *)
Definition check_typed (t : uv_handle_type) (lc : string) (index : Z) : prog ptr :=
  p <- luaL_checkudata index ("uv_" +:+ lc) ;;
  h <- deref p ;;
  luaL_argcheck (bool_decide (type h = t) && bool_decide (is_Some (data h))) index
    ("Expected uv_" +:+ lc +:+ "_t") ;;;
  ret p.

(** A new userdata, initialised by [init] and set up. *)
Definition new_handle (t : uv_handle_type) (init : ptr -> uv_handle luv_cb -> prog Z) : prog Z :=
  p <- lua_newuserdata (sizeof_handle t) ;;
  r <- on_loop (init p raw_handle) ;;
  if r <? 0 then lua_pop 1 ;;; luv_error r else
  d <- luv_setup_handle ;;
  assign p (set_data (Some d)) ;;;
  ret 1.

(** ** [timer.c] *)

Definition luv_check_timer (index : Z) : prog ptr := check_typed UV_TIMER "timer" index.

Definition luv_new_timer : prog Z := new_handle UV_TIMER uv_timer_init.

(** [luv_timer_cb] *)
Definition timer_cb_body (p : ptr) : prog unit :=
  h <- deref p ;; luv_call_callback (data h) LUV_TIMEOUT 0.

Definition luv_timer_start : prog Z :=
  p <- luv_check_timer 1 ;;
  timeout <- luaL_checkinteger 2 ;;
  repeat <- luaL_checkinteger 3 ;;
  h <- deref p ;;
  luv_check_callback (data h) LUV_TIMEOUT 4 ;;;
  r <- uv_timer_start p (Some luv_timer_cb) (u64 timeout) (u64 repeat) ;;
  push_result r.

Definition luv_timer_stop : prog Z :=
  p <- luv_check_timer 1 ;; r <- uv_timer_stop p ;; push_result r.

Definition luv_timer_again : prog Z :=
  p <- luv_check_timer 1 ;; r <- uv_timer_again p ;; push_result r.

Definition luv_timer_set_repeat : prog Z :=
  p <- luv_check_timer 1 ;;
  repeat <- luaL_checkinteger 2 ;;
  uv_timer_set_repeat p (u64 repeat) ;;; ret 0.

(** The 64-bit period is pushed as a signed [lua_Integer]. *)
Definition luv_timer_get_repeat : prog Z :=
  p <- luv_check_timer 1 ;;
  repeat <- uv_timer_get_repeat p ;;
  lua_pushinteger (i64 repeat) ;;; ret 1.

(** ** [prepare.c], [check.c], [idle.c] *)

Definition watcher_name (k : watcher) : string :=
  match k with Prepare => "prepare" | Check_ => "check" | Idle => "idle" end.

Definition watcher_callback (k : watcher) : luv_cb :=
  match k with Prepare => luv_prepare_cb | Check_ => luv_check_cb | Idle => luv_idle_cb end.

Definition watcher_slot (k : watcher) : nat :=
  match k with Prepare => LUV_PREPARE | Check_ => LUV_CHECK | Idle => LUV_IDLE end.

Definition luv_check_watcher (k : watcher) (index : Z) : prog ptr :=
  check_typed (watcher_type k) (watcher_name k) index.

Definition luv_new_watcher (k : watcher) : prog Z := new_handle (watcher_type k) (uv_watcher_init k).

(** [luv_prepare_cb], [luv_check_cb], [luv_idle_cb] *)
Definition watcher_cb_body (k : watcher) (p : ptr) : prog unit :=
  h <- deref p ;; luv_call_callback (data h) (watcher_slot k) 0.

Definition luv_watcher_start (k : watcher) : prog Z :=
  p <- luv_check_watcher k 1 ;;
  h <- deref p ;;
  luv_check_callback (data h) (watcher_slot k) 2 ;;;
  r <- uv_watcher_start k p (Some (watcher_callback k)) ;;
  push_result r.

Definition luv_watcher_stop (k : watcher) : prog Z :=
  p <- luv_check_watcher k 1 ;; r <- uv_watcher_stop p ;; push_result r.

(** ** Running callbacks *)

Definition luv_call (c : luv_cb) (p : ptr) : prog unit :=
  match c with
  | luv_timer_cb => timer_cb_body p
  | luv_prepare_cb => watcher_cb_body Prepare p
  | luv_check_cb => watcher_cb_body Check_ p
  | luv_idle_cb => watcher_cb_body Idle p
  | luv_close_cb => close_cb_body p
  end.

(** ** [loop.c] *)

Definition luv_loop_close : prog Z :=
  r <- on_loop (uv_loop_close loop_cleanup fuel) ;; push_result r.

Definition luv_runmodes : list string := ["default"; "once"; "nowait"].

Definition run_mode_of (mode : Z) : uv_run_mode :=
  if mode =? 0 then UV_RUN_DEFAULT else if mode =? 1 then UV_RUN_ONCE else UV_RUN_NOWAIT.

Definition luv_run : prog Z :=
  mode <- luaL_checkoption 1 (Some "default") luv_runmodes ;;
  r <- on_loop (uv_run luv_call hrtime run_pending io_poll finish_close_other rounds fuel
                  (run_mode_of mode)) ;;
  lua_pushboolean r ;;; ret 1.

Definition luv_loop_alive : prog Z :=
  r <- on_loop uv_loop_alive ;; lua_pushboolean r ;;; ret 1.

Definition luv_stop : prog Z := on_loop uv_stop ;;; ret 0.

Definition luv_backend_fd : prog Z := r <- on_loop uv_backend_fd ;; push_result r.

Definition luv_backend_timeout : prog Z :=
  r <- on_loop uv_backend_timeout ;; lua_pushinteger r ;;; ret 1.

Definition luv_now : prog Z := now <- on_loop uv_now ;; lua_pushinteger (i64 now) ;;; ret 1.

Definition luv_update_time : prog Z := on_loop (uv_update_time hrtime) ;;; ret 0.

Definition luv_walk_cb (p : ptr) : prog unit :=
  h <- deref p ;;
  (match data h with
   | None => fail AssertFail
   | Some _ => d <- get_data (data h) ;; assertM (ref d <? 0x1000000)
   end) ;;;
  lua_pushvalue 1 ;;;
  luv_find_handle (data h) ;;;
  lua_call 1 0.

Definition luv_walk : prog Z :=
  luaL_checktype 1 LUA_TFUNCTION ;;;
  on_loop (uv_walk fuel luv_walk_cb) ;;;
  ret 0.
End Luv.
