(* ===== verification/LuvRun.v ===== *)
(** * Runs of the bindings

    What the functions of [Luv] and [LuvHandle] do to a program state: the
    Lua state in it, the records of luv, and the loop. *)

From stdpp Require Import base option strings countable gmap list.
From Stdlib Require Import ZArith Lia SpecFloat.
From S2P Require Import Prelude UvPrio UvQueue UvLoop UvCore UvInv UvTimer UvFire UvClose Number UvErr.
From S2P Require Import LuaApi LuaRun LuaRef LuaProps LuaAux LuaLib Luv LuvHandle.

Local Open Scope Z_scope.
Local Open Scope prog_scope.

Section Run.
Context {Q V F O : Type} `{!PrioQueue Q} `{!LuvSys O} `{!LuaVM V F (luv_state Q V F O)}.
Context `{!LuaVMLaws V F (luv_state Q V F O)}.

Let st : Type := luv_state Q V F O.
Implicit Types (s : st) (l : lua_state V F) (g : gctab V) (p d : ptr) (free : list Z) (live : gmap Z tvalue).

(** The Lua state of a program state. *)
Definition lua_of s : lua_state V F := lua (env s).

Definition with_lua l s : st := put_lua l s.

Definition with_data d v s : st :=
  set_env (set_luv_data (<[d := v]> (luv_data (env s))) (env s)) s.

Lemma lua_with l s : lua_of (with_lua l s) = l.
Proof. done. Qed.

Lemma with_lua_lua l l' s : with_lua l (with_lua l' s) = with_lua l s.
Proof. done. Qed.

Lemma with_lua_id s : with_lua (lua_of s) s = s.
Proof. by destruct s as [? ? ? ? ? ? ? ? ? []]. Qed.

(** A run on the Lua state, as a run of the program. *)
Lemma run_lua {A} (m : M st lua_error A) s a l' :
  runs m (lua_of s) a l' -> m s = Ret a (with_lua l' s).
Proof. intros H. by apply H. Qed.

Lemma run_lua_bind {A B} (m : M st lua_error A) (k : A -> M st lua_error B) s a l' :
  runs m (lua_of s) a l' -> bind m k s = k a (with_lua l' s).
Proof. intros H. unfold bind. by rewrite (run_lua m s a l' H). Qed.

Lemma run_lua_bind_id {A B} (m : M st lua_error A) (k : A -> M st lua_error B) s a :
  runs m (lua_of s) a (lua_of s) -> bind m k s = k a s.
Proof. intros H. by rewrite (run_lua_bind m k s a _ H), with_lua_id. Qed.

(** The registry of the program: its table, and the references it holds. *)
Record registry_ok s g (n : Z) free live : Prop := {
  ro_tab : tabs (lua_of s) !! registry (lua_of s) = Some g;
  ro_refs : refs_inv g n free live
}.

(** What releasing a reference leaves: nothing for [LUA_NOREF] and
    [LUA_REFNIL]. *)
Definition releasable (r : Z) live : Prop := r < 0 \/ is_Some (live !! r).

Lemma unref_run l g n free live r :
  tabs l !! registry l = Some g -> refs_inv g n free live -> releasable r live ->
  exists g' free', runs (St := st) (luaL_unref LUA_REGISTRYINDEX r) l tt (with_registry l g') /\
    refs_inv g' n free' (delete r live) /\ frame g g'.
Proof.
  intros Hg Hi [Hr|[v Hr]].
  - exists g, free. rewrite with_registry_id by done. split_and!; [by apply runs_unref_none| |by split].
    rewrite delete_id; [done|]. destruct (live !! r) eqn:E; [|done].
    apply (ri_live _ _ _ _ Hi) in E as [? _]. lia.
  - destruct (unref_spec l g n free live r v Hg Hi Hr) as (g' & ? & ? & ?). by exists g', (r :: free).
Qed.

(** ** [luv_check_callback] *)

Lemma check_callback_run s d v id idx f st1 st2 old g n free live :
  luv_data (env s) !! d = Some v -> callbacks v !! id = Some old -> releasable old live ->
  stack (lua_of s) = st1 ++ TFunc f :: st2 -> idx = Z.of_nat (S (length st1)) ->
  registry_ok s g n free live -> n + 1 < INT_MAX ->
  exists r g' n' free',
    luv_check_callback (Some d) id idx s =
      Ret tt (with_data d (set_callback id r v) (with_lua (with_registry (lua_of s) g') s)) /\
    refs_inv g' n' free' (<[r := TFunc f]> (delete old live)) /\ frame g g' /\
    delete old live !! r = None /\ 1 <= r <= INT_MAX.
Proof.
  intros Hd Hid Hold Hst -> [Hg Hi] Hn. unfold luv_check_callback.
  assert (holds (St := st) (lua_of s) (Z.of_nat (S (length st1))) (TFunc f)) as Hh by by eapply holds_pos.
  destruct (unref_run (lua_of s) g n free live old Hg Hi Hold) as (g1 & free1 & Hun & Hi1 & Hf1).
  set (l1 := with_registry (lua_of s) g1).
  destruct (ref_spec (St := st) (set_stack (stack l1 ++ [TFunc f]) l1) (stack l1) (TFunc f) g1 n free1
    (delete old live)) as (r & g2 & n2 & free2 & Href & Hi2 & Hr & Hb & _ & Hf2);
    [done|done|apply lookup_insert_eq|done|done|].
  exists r, g2, n2, free2.
  split; [|split_and!; [done|by eapply reg_frame_trans|done|lia..]].
  rewrite (run_lua_bind_id _ _ _ tt).
  2:{ eapply runs_bind; [apply Hh|]. apply runs_skip. }
  unfold bind at 1, get_data, bind at 1, get. cbn [mbind option_bind]. rewrite Hd. cbn.
  unfold bind at 1. rewrite Hid. cbn.
  rewrite (run_lua_bind _ _ _ _ _ Hun). fold l1.
  rewrite (run_lua_bind _ _ _ tt (set_stack (stack l1 ++ [TFunc f]) l1)).
  2:{ apply (runs_pushvalue l1). eapply holds_pos; [exact Hst|done]. }
  rewrite with_lua_lua.
  erewrite run_lua_bind; [|exact Href]. rewrite with_lua_lua.
  unfold bind, get. cbn. rewrite Hd. cbn. unfold put_data, emod, modify. f_equal.
  unfold with_data, with_lua, with_registry. cbn. rewrite insert_insert_eq. done.
Qed.
End Run.
