(* ===== verification/LuvConst.v ===== *)
(** * The constants of luv ([core/luv/constants.c])

    The table of constants scripts see, and the conversions between names and
    numbers of address families, lookup flags, socket types and signals.  The
    numbers are those of Linux on x86-64; a constant Linux does not define is left
    out, as the [#ifdef]s leave it out. *)

From stdpp Require Import base option strings countable gmap list.
From Stdlib Require Import ZArith Lia.
From S2P Require Import Prelude Number LuaApi.

Local Open Scope Z_scope.
Local Open Scope prog_scope.

Definition AF_UNIX : Z := 1.
Definition AF_INET : Z := 2.
Definition AF_AX25 : Z := 3.
Definition AF_IPX : Z := 4.
Definition AF_APPLETALK : Z := 5.
Definition AF_ATMPVC : Z := 8.
Definition AF_X25 : Z := 9.
Definition AF_INET6 : Z := 10.
Definition AF_NETLINK : Z := 16.
Definition AF_PACKET : Z := 17.
Definition AI_PASSIVE : Z := 1.
Definition AI_NUMERICHOST : Z := 4.
Definition AI_V4MAPPED : Z := 8.
Definition AI_ALL : Z := 16.
Definition AI_ADDRCONFIG : Z := 32.
Definition AI_NUMERICSERV : Z := 1024.
Definition SOCK_STREAM : Z := 1.
Definition SOCK_DGRAM : Z := 2.
Definition SOCK_RAW : Z := 3.
Definition SOCK_RDM : Z := 4.
Definition SOCK_SEQPACKET : Z := 5.
Definition O_RDONLY : Z := 0.
Definition O_WRONLY : Z := 1.
Definition O_RDWR : Z := 2.
Definition O_CREAT : Z := 64.
Definition O_EXCL : Z := 128.
Definition O_NOCTTY : Z := 256.
Definition O_TRUNC : Z := 512.
Definition O_APPEND : Z := 1024.
Definition O_NONBLOCK : Z := 2048.
Definition O_DSYNC : Z := 4096.
Definition O_SYNC : Z := 1052672.
Definition O_RSYNC : Z := 1052672.
Definition SIGHUP : Z := 1.
Definition SIGINT : Z := 2.
Definition SIGQUIT : Z := 3.
Definition SIGILL : Z := 4.
Definition SIGTRAP : Z := 5.
Definition SIGABRT : Z := 6.
Definition SIGIOT : Z := 6.
Definition SIGBUS : Z := 7.
Definition SIGFPE : Z := 8.
Definition SIGKILL : Z := 9.
Definition SIGUSR1 : Z := 10.
Definition SIGSEGV : Z := 11.
Definition SIGUSR2 : Z := 12.
Definition SIGPIPE : Z := 13.
Definition SIGALRM : Z := 14.
Definition SIGTERM : Z := 15.
Definition SIGSTKFLT : Z := 16.
Definition SIGCHLD : Z := 17.
Definition SIGCONT : Z := 18.
Definition SIGSTOP : Z := 19.
Definition SIGTSTP : Z := 20.
Definition SIGTTIN : Z := 21.
Definition SIGTTOU : Z := 22.
Definition SIGURG : Z := 23.
Definition SIGXCPU : Z := 24.
Definition SIGXFSZ : Z := 25.
Definition SIGVTALRM : Z := 26.
Definition SIGPROF : Z := 27.
Definition SIGWINCH : Z := 28.
Definition SIGIO : Z := 29.
Definition SIGPOLL : Z := 29.
Definition SIGPWR : Z := 30.
Definition SIGSYS : Z := 31.
Definition AF_UNSPEC : Z := 0.

(** ** The table of constants *)

(** [O_*] *)
Definition open_constants : list (string * Z) :=
  [("O_RDONLY", O_RDONLY); ("O_WRONLY", O_WRONLY); ("O_RDWR", O_RDWR);
   ("O_APPEND", O_APPEND); ("O_CREAT", O_CREAT); ("O_DSYNC", O_DSYNC); ("O_EXCL", O_EXCL);
   ("O_NOCTTY", O_NOCTTY); ("O_NONBLOCK", O_NONBLOCK); ("O_RSYNC", O_RSYNC);
   ("O_SYNC", O_SYNC); ("O_TRUNC", O_TRUNC)].

(** [SOCK_*] *)
Definition sock_constants : list (string * Z) :=
  [("SOCK_STREAM", SOCK_STREAM); ("SOCK_DGRAM", SOCK_DGRAM);
   ("SOCK_SEQPACKET", SOCK_SEQPACKET); ("SOCK_RAW", SOCK_RAW); ("SOCK_RDM", SOCK_RDM)].

(** [AF_*] *)
Definition af_constants : list (string * Z) :=
  [("AF_UNIX", AF_UNIX); ("AF_INET", AF_INET); ("AF_INET6", AF_INET6); ("AF_IPX", AF_IPX);
   ("AF_NETLINK", AF_NETLINK); ("AF_X25", AF_X25); ("AF_AX25", AF_AX25);
   ("AF_ATMPVC", AF_ATMPVC); ("AF_APPLETALK", AF_APPLETALK); ("AF_PACKET", AF_PACKET)].

(** [AI_*] *)
Definition ai_constants : list (string * Z) :=
  [("AI_ADDRCONFIG", AI_ADDRCONFIG); ("AI_V4MAPPED", AI_V4MAPPED); ("AI_ALL", AI_ALL);
   ("AI_NUMERICHOST", AI_NUMERICHOST); ("AI_PASSIVE", AI_PASSIVE);
   ("AI_NUMERICSERV", AI_NUMERICSERV)].

(** [SIG*] *)
Definition sig_constants : list (string * Z) :=
  [("SIGHUP", SIGHUP); ("SIGINT", SIGINT); ("SIGQUIT", SIGQUIT); ("SIGILL", SIGILL);
   ("SIGTRAP", SIGTRAP); ("SIGABRT", SIGABRT); ("SIGIOT", SIGIOT); ("SIGBUS", SIGBUS);
   ("SIGFPE", SIGFPE); ("SIGKILL", SIGKILL); ("SIGUSR1", SIGUSR1); ("SIGSEGV", SIGSEGV);
   ("SIGUSR2", SIGUSR2); ("SIGPIPE", SIGPIPE); ("SIGALRM", SIGALRM); ("SIGTERM", SIGTERM);
   ("SIGCHLD", SIGCHLD); ("SIGSTKFLT", SIGSTKFLT); ("SIGCONT", SIGCONT);
   ("SIGSTOP", SIGSTOP); ("SIGTSTP", SIGTSTP); ("SIGTTIN", SIGTTIN); ("SIGTTOU", SIGTTOU);
   ("SIGURG", SIGURG); ("SIGXCPU", SIGXCPU); ("SIGXFSZ", SIGXFSZ); ("SIGVTALRM", SIGVTALRM);
   ("SIGPROF", SIGPROF); ("SIGWINCH", SIGWINCH); ("SIGIO", SIGIO); ("SIGPOLL", SIGPOLL);
   ("SIGPWR", SIGPWR); ("SIGSYS", SIGSYS)].

Section Constants.
Context {V F St : Type} `{!HasLua St (lua_state V F)} `{!LuaVM V F St}.

Let prog (A : Type) : Type := M St lua_error A.

(** [lua_pushinteger(L, v); lua_setfield(L, -2, name)] for each constant *)
Fixpoint set_constants (l : list (string * Z)) : prog unit :=
  match l with
  | [] => skip
  | (name, v) :: l => lua_pushinteger v ;;; lua_setfield (-2) name ;;; set_constants l
  end.

Definition luv_constants : prog Z :=
  lua_newtable ;;;
  set_constants (open_constants ++ sock_constants ++ af_constants ++ ai_constants ++ sig_constants) ;;;
  ret 1.
End Constants.

(** ** Names and numbers *)

(** A chain of [strcmp]s that return, and a [switch] that returns. *)
Fixpoint num_of_name (s : string) (l : list (string * Z)) : option Z :=
  match l with
  | [] => None
  | (n, v) :: l => if decide (n = s) then Some v else num_of_name s l
  end.

Fixpoint name_of_num (v : Z) (l : list (string * Z)) : option string :=
  match l with
  | [] => None
  | (n, w) :: l => if decide (w = v) then Some n else name_of_num v l
  end.

(** The comparisons of [luv_af_string_to_num] *)
Definition af_names : list (string * Z) :=
  [("unix", AF_UNIX); ("inet", AF_INET); ("inet6", AF_INET6); ("ipx", AF_IPX);
   ("netlink", AF_NETLINK); ("x25", AF_X25); ("ax25", AF_AX25); ("atmpvc", AF_ATMPVC);
   ("appletalk", AF_APPLETALK); ("packet", AF_PACKET)].

(** The cases of [luv_af_num_to_string] *)
Definition af_cases : list (string * Z) :=
  [("unix", AF_UNIX); ("inet", AF_INET); ("inet6", AF_INET6); ("ipx", AF_IPX);
   ("netlink", AF_NETLINK); ("x25", AF_X25); ("ax25", AF_AX25); ("atmpvc", AF_ATMPVC);
   ("appletalk", AF_APPLETALK); ("packet", AF_PACKET)].

Definition luv_af_string_to_num (s : option string) : Z :=
  match s with None => AF_UNSPEC | Some s => default 0 (num_of_name s af_names) end.
Definition luv_af_num_to_string (num : Z) : option string := name_of_num num af_cases.

(** The comparisons of [luv_ai_string_to_num] *)
Definition ai_names : list (string * Z) :=
  [("addrconfig", AI_ADDRCONFIG); ("v4mapped", AI_V4MAPPED); ("all", AI_ALL);
   ("numerichost", AI_NUMERICHOST); ("passive", AI_PASSIVE); ("numericserv", AI_NUMERICSERV)].

(** The cases of [luv_ai_num_to_string] *)
Definition ai_cases : list (string * Z) :=
  [("addrconfig", AI_ADDRCONFIG); ("v4mapped", AI_V4MAPPED); ("all", AI_ALL);
   ("numerichost", AI_NUMERICHOST); ("passive", AI_PASSIVE); ("numericserv", AI_NUMERICSERV)].

Definition luv_ai_string_to_num (s : option string) : Z :=
  match s with None => 0 | Some s => default 0 (num_of_name s ai_names) end.
Definition luv_ai_num_to_string (num : Z) : option string := name_of_num num ai_cases.

(** The comparisons of [luv_sock_string_to_num] *)
Definition sock_names : list (string * Z) :=
  [("stream", SOCK_STREAM); ("dgram", SOCK_DGRAM); ("seqpacket", SOCK_SEQPACKET);
   ("raw", SOCK_RAW); ("rdm", SOCK_RDM)].

(** The cases of [luv_sock_num_to_string] *)
Definition sock_cases : list (string * Z) :=
  [("stream", SOCK_STREAM); ("dgram", SOCK_DGRAM); ("seqpacket", SOCK_SEQPACKET);
   ("raw", SOCK_RAW); ("rdm", SOCK_RDM)].

Definition luv_sock_string_to_num (s : option string) : Z :=
  match s with None => 0 | Some s => default 0 (num_of_name s sock_names) end.
Definition luv_sock_num_to_string (num : Z) : option string := name_of_num num sock_cases.

(** The comparisons of [luv_sig_string_to_num] *)
Definition sig_names : list (string * Z) :=
  [("sighup", SIGHUP); ("sigint", SIGINT); ("sigquit", SIGQUIT); ("sigill", SIGILL);
   ("sigtrap", SIGTRAP); ("sigabrt", SIGABRT); ("sigiot", SIGIOT); ("sigbus", SIGBUS);
   ("sigfpe", SIGFPE); ("sigkill", SIGKILL); ("sigusr1", SIGUSR1); ("sigsegv", SIGSEGV);
   ("sigusr2", SIGUSR2); ("sigpipe", SIGPIPE); ("sigalrm", SIGALRM); ("sigterm", SIGTERM);
   ("sigchld", SIGCHLD); ("sigstkflt", SIGSTKFLT); ("sigcont", SIGCONT);
   ("sigstop", SIGSTOP); ("sigtstp", SIGTSTP); ("sigttin", SIGTTIN); ("sigttou", SIGTTOU);
   ("sigurg", SIGURG); ("sigxcpu", SIGXCPU); ("sigxfsz", SIGXFSZ); ("sigvtalrm", SIGVTALRM);
   ("sigprof", SIGPROF); ("sigwinch", SIGWINCH); ("sigio", SIGIO); ("sigpoll", SIGPOLL);
   ("sigpwr", SIGPWR); ("sigsys", SIGSYS)].

(** The cases of [luv_sig_num_to_string] *)
Definition sig_cases : list (string * Z) :=
  [("sighup", SIGHUP); ("sigint", SIGINT); ("sigquit", SIGQUIT); ("sigill", SIGILL);
   ("sigtrap", SIGTRAP); ("sigabrt", SIGABRT); ("sigbus", SIGBUS); ("sigfpe", SIGFPE);
   ("sigkill", SIGKILL); ("sigusr1", SIGUSR1); ("sigsegv", SIGSEGV); ("sigusr2", SIGUSR2);
   ("sigpipe", SIGPIPE); ("sigalrm", SIGALRM); ("sigterm", SIGTERM); ("sigchld", SIGCHLD);
   ("sigstkflt", SIGSTKFLT); ("sigcont", SIGCONT); ("sigstop", SIGSTOP);
   ("sigtstp", SIGTSTP); ("sigttin", SIGTTIN); ("sigttou", SIGTTOU); ("sigurg", SIGURG);
   ("sigxcpu", SIGXCPU); ("sigxfsz", SIGXFSZ); ("sigvtalrm", SIGVTALRM);
   ("sigprof", SIGPROF); ("sigwinch", SIGWINCH); ("sigio", SIGIO); ("sigpwr", SIGPWR);
   ("sigsys", SIGSYS)].

Definition luv_sig_string_to_num (s : option string) : Z :=
  match s with None => 0 | Some s => default 0 (num_of_name s sig_names) end.
Definition luv_sig_num_to_string (num : Z) : option string := name_of_num num sig_cases.

