(* ===== verification/LuvOpen.v ===== *)
(** * Opening the luv module ([core/luv/luv.c], [core/luv/req.c])

    The tables of functions and methods, the metatables of handles and requests,
    and [luaopen_luv].  A C function is named by its C identifier. *)

From stdpp Require Import base option strings countable gmap list.
From Stdlib Require Import ZArith Lia SpecFloat.
From S2P Require Import Prelude UvPrio UvQueue UvLoop UvCore Number UvErr LuaApi LuaAux Luv LuvHandle LuvConst.

Local Open Scope Z_scope.
Local Open Scope prog_scope.

(** The C functions of the bindings, by identifier. *)
Class LuvFunctions (F : Type) := { fn : string -> F }.

Section Luv.
Context {Q V F O : Type} `{!PrioQueue Q} `{!LuvSys O} `{!LuaVM V F (luv_state Q V F O)} `{!LuvFunctions F}.

Let st : Type := luv_state Q V F O.
Let prog (A : Type) : Type := M st lua_error A.

(** ** The tables *)

(** [luv_functions], the functions before those of [fs.c] *)
Definition luv_io_functions : list (string * F) :=
  [("loop_close", fn "luv_loop_close"); ("run", fn "luv_run");
   ("loop_alive", fn "luv_loop_alive"); ("stop", fn "luv_stop");
   ("backend_fd", fn "luv_backend_fd"); ("backend_timeout", fn "luv_backend_timeout");
   ("now", fn "luv_now"); ("update_time", fn "luv_update_time"); ("walk", fn "luv_walk");
   ("cancel", fn "luv_cancel"); ("is_active", fn "luv_is_active");
   ("is_closing", fn "luv_is_closing"); ("close", fn "luv_close"); ("ref", fn "luv_ref");
   ("unref", fn "luv_unref"); ("has_ref", fn "luv_has_ref");
   ("send_buffer_size", fn "luv_send_buffer_size");
   ("recv_buffer_size", fn "luv_recv_buffer_size"); ("fileno", fn "luv_fileno");
   ("new_timer", fn "luv_new_timer"); ("timer_start", fn "luv_timer_start");
   ("timer_stop", fn "luv_timer_stop"); ("timer_again", fn "luv_timer_again");
   ("timer_set_repeat", fn "luv_timer_set_repeat");
   ("timer_get_repeat", fn "luv_timer_get_repeat"); ("new_prepare", fn "luv_new_prepare");
   ("prepare_start", fn "luv_prepare_start"); ("prepare_stop", fn "luv_prepare_stop");
   ("new_check", fn "luv_new_check"); ("check_start", fn "luv_check_start");
   ("check_stop", fn "luv_check_stop"); ("new_idle", fn "luv_new_idle");
   ("idle_start", fn "luv_idle_start"); ("idle_stop", fn "luv_idle_stop");
   ("new_async", fn "luv_new_async"); ("async_send", fn "luv_async_send");
   ("new_poll", fn "luv_new_poll"); ("poll_start", fn "luv_poll_start");
   ("poll_stop", fn "luv_poll_stop"); ("new_signal", fn "luv_new_signal");
   ("signal_start", fn "luv_signal_start"); ("signal_stop", fn "luv_signal_stop");
   ("disable_stdio_inheritance", fn "luv_disable_stdio_inheritance");
   ("spawn", fn "luv_spawn"); ("process_kill", fn "luv_process_kill");
   ("kill", fn "luv_kill"); ("shutdown", fn "luv_shutdown"); ("listen", fn "luv_listen");
   ("accept", fn "luv_accept"); ("read_start", fn "luv_read_start");
   ("read_stop", fn "luv_read_stop"); ("write", fn "luv_write"); ("write2", fn "luv_write2");
   ("try_write", fn "luv_try_write"); ("is_readable", fn "luv_is_readable");
   ("is_writable", fn "luv_is_writable");
   ("stream_set_blocking", fn "luv_stream_set_blocking"); ("new_tcp", fn "luv_new_tcp");
   ("tcp_open", fn "luv_tcp_open"); ("tcp_nodelay", fn "luv_tcp_nodelay");
   ("tcp_keepalive", fn "luv_tcp_keepalive");
   ("tcp_simultaneous_accepts", fn "luv_tcp_simultaneous_accepts");
   ("tcp_bind", fn "luv_tcp_bind"); ("tcp_getpeername", fn "luv_tcp_getpeername");
   ("tcp_getsockname", fn "luv_tcp_getsockname"); ("tcp_connect", fn "luv_tcp_connect");
   ("tcp_write_queue_size", fn "luv_write_queue_size"); ("new_pipe", fn "luv_new_pipe");
   ("pipe_open", fn "luv_pipe_open"); ("pipe_bind", fn "luv_pipe_bind");
   ("pipe_connect", fn "luv_pipe_connect"); ("pipe_getsockname", fn "luv_pipe_getsockname");
   ("pipe_getpeername", fn "luv_pipe_getpeername");
   ("pipe_pending_instances", fn "luv_pipe_pending_instances");
   ("pipe_pending_count", fn "luv_pipe_pending_count");
   ("pipe_pending_type", fn "luv_pipe_pending_type"); ("new_tty", fn "luv_new_tty");
   ("tty_set_mode", fn "luv_tty_set_mode"); ("tty_reset_mode", fn "luv_tty_reset_mode");
   ("tty_get_winsize", fn "luv_tty_get_winsize"); ("new_udp", fn "luv_new_udp");
   ("udp_open", fn "luv_udp_open"); ("udp_bind", fn "luv_udp_bind");
   ("udp_getsockname", fn "luv_udp_getsockname");
   ("udp_set_membership", fn "luv_udp_set_membership");
   ("udp_set_multicast_loop", fn "luv_udp_set_multicast_loop");
   ("udp_set_multicast_ttl", fn "luv_udp_set_multicast_ttl");
   ("udp_set_multicast_interface", fn "luv_udp_set_multicast_interface");
   ("udp_set_broadcast", fn "luv_udp_set_broadcast"); ("udp_set_ttl", fn "luv_udp_set_ttl");
   ("udp_send", fn "luv_udp_send"); ("udp_try_send", fn "luv_udp_try_send");
   ("udp_recv_start", fn "luv_udp_recv_start"); ("udp_recv_stop", fn "luv_udp_recv_stop");
   ("new_fs_event", fn "luv_new_fs_event"); ("fs_event_start", fn "luv_fs_event_start");
   ("fs_event_stop", fn "luv_fs_event_stop");
   ("fs_event_getpath", fn "luv_fs_event_getpath"); ("new_fs_poll", fn "luv_new_fs_poll");
   ("fs_poll_start", fn "luv_fs_poll_start"); ("fs_poll_stop", fn "luv_fs_poll_stop");
   ("fs_poll_getpath", fn "luv_fs_poll_getpath")].

(** [luv_functions], from the functions of [fs.c] on *)
Definition luv_system_functions : list (string * F) :=
  [("fs_close", fn "luv_fs_close"); ("fs_open", fn "luv_fs_open");
   ("fs_read", fn "luv_fs_read"); ("fs_unlink", fn "luv_fs_unlink");
   ("fs_write", fn "luv_fs_write"); ("fs_mkdir", fn "luv_fs_mkdir");
   ("fs_mkdtemp", fn "luv_fs_mkdtemp"); ("fs_rmdir", fn "luv_fs_rmdir");
   ("fs_scandir", fn "luv_fs_scandir"); ("fs_scandir_next", fn "luv_fs_scandir_next");
   ("fs_stat", fn "luv_fs_stat"); ("fs_fstat", fn "luv_fs_fstat");
   ("fs_lstat", fn "luv_fs_lstat"); ("fs_rename", fn "luv_fs_rename");
   ("fs_fsync", fn "luv_fs_fsync"); ("fs_fdatasync", fn "luv_fs_fdatasync");
   ("fs_ftruncate", fn "luv_fs_ftruncate"); ("fs_sendfile", fn "luv_fs_sendfile");
   ("fs_access", fn "luv_fs_access"); ("fs_chmod", fn "luv_fs_chmod");
   ("fs_fchmod", fn "luv_fs_fchmod"); ("fs_utime", fn "luv_fs_utime");
   ("fs_futime", fn "luv_fs_futime"); ("fs_link", fn "luv_fs_link");
   ("fs_symlink", fn "luv_fs_symlink"); ("fs_readlink", fn "luv_fs_readlink");
   ("fs_chown", fn "luv_fs_chown"); ("fs_fchown", fn "luv_fs_fchown");
   ("getaddrinfo", fn "luv_getaddrinfo"); ("getnameinfo", fn "luv_getnameinfo");
   ("chdir", fn "luv_chdir"); ("cpu_info", fn "luv_cpu_info"); ("cwd", fn "luv_cwd");
   ("exepath", fn "luv_exepath"); ("get_process_title", fn "luv_get_process_title");
   ("get_total_memory", fn "luv_get_total_memory"); ("getpid", fn "luv_getpid");
   ("getuid", fn "luv_getuid"); ("setuid", fn "luv_setuid"); ("getgid", fn "luv_getgid");
   ("setgid", fn "luv_setgid"); ("getrusage", fn "luv_getrusage");
   ("guess_handle", fn "luv_guess_handle"); ("hrtime", fn "luv_hrtime");
   ("interface_addresses", fn "luv_interface_addresses"); ("loadavg", fn "luv_loadavg");
   ("resident_set_memory", fn "luv_resident_set_memory");
   ("set_process_title", fn "luv_set_process_title"); ("uptime", fn "luv_uptime");
   ("version", fn "luv_version"); ("version_string", fn "luv_version_string");
   ("new_thread", fn "luv_new_thread"); ("thread_equal", fn "luv_thread_equal");
   ("thread_self", fn "luv_thread_self"); ("thread_join", fn "luv_thread_join");
   ("sleep", fn "luv_thread_sleep"); ("new_work", fn "luv_new_work");
   ("queue_work", fn "luv_queue_work")].

(** [luv_handle_methods] *)
Definition luv_handle_methods : list (string * F) :=
  [("is_active", fn "luv_is_active"); ("is_closing", fn "luv_is_closing");
   ("close", fn "luv_close"); ("ref", fn "luv_ref"); ("unref", fn "luv_unref");
   ("has_ref", fn "luv_has_ref"); ("send_buffer_size", fn "luv_send_buffer_size");
   ("recv_buffer_size", fn "luv_recv_buffer_size"); ("fileno", fn "luv_fileno")].

(** [luv_async_methods] *)
Definition luv_async_methods : list (string * F) :=
  [("send", fn "luv_async_send")].

(** [luv_check_methods] *)
Definition luv_check_methods : list (string * F) :=
  [("start", fn "luv_check_start"); ("stop", fn "luv_check_stop")].

(** [luv_fs_event_methods] *)
Definition luv_fs_event_methods : list (string * F) :=
  [("start", fn "luv_fs_event_start"); ("stop", fn "luv_fs_event_stop");
   ("getpath", fn "luv_fs_event_getpath")].

(** [luv_fs_poll_methods] *)
Definition luv_fs_poll_methods : list (string * F) :=
  [("start", fn "luv_fs_poll_start"); ("stop", fn "luv_fs_poll_stop");
   ("getpath", fn "luv_fs_poll_getpath")].

(** [luv_idle_methods] *)
Definition luv_idle_methods : list (string * F) :=
  [("start", fn "luv_idle_start"); ("stop", fn "luv_idle_stop")].

(** [luv_stream_methods] *)
Definition luv_stream_methods : list (string * F) :=
  [("shutdown", fn "luv_shutdown"); ("listen", fn "luv_listen"); ("accept", fn "luv_accept");
   ("read_start", fn "luv_read_start"); ("read_stop", fn "luv_read_stop");
   ("write", fn "luv_write"); ("write2", fn "luv_write2"); ("try_write", fn "luv_try_write");
   ("is_readable", fn "luv_is_readable"); ("is_writable", fn "luv_is_writable");
   ("set_blocking", fn "luv_stream_set_blocking")].

(** [luv_pipe_methods] *)
Definition luv_pipe_methods : list (string * F) :=
  [("open", fn "luv_pipe_open"); ("bind", fn "luv_pipe_bind");
   ("connect", fn "luv_pipe_connect"); ("getsockname", fn "luv_pipe_getsockname");
   ("getpeername", fn "luv_pipe_getpeername");
   ("pending_instances", fn "luv_pipe_pending_instances");
   ("pending_count", fn "luv_pipe_pending_count");
   ("pending_type", fn "luv_pipe_pending_type")].

(** [luv_poll_methods] *)
Definition luv_poll_methods : list (string * F) :=
  [("start", fn "luv_poll_start"); ("stop", fn "luv_poll_stop")].

(** [luv_prepare_methods] *)
Definition luv_prepare_methods : list (string * F) :=
  [("start", fn "luv_prepare_start"); ("stop", fn "luv_prepare_stop")].

(** [luv_process_methods] *)
Definition luv_process_methods : list (string * F) :=
  [("kill", fn "luv_process_kill")].

(** [luv_tcp_methods] *)
Definition luv_tcp_methods : list (string * F) :=
  [("open", fn "luv_tcp_open"); ("nodelay", fn "luv_tcp_nodelay");
   ("keepalive", fn "luv_tcp_keepalive");
   ("simultaneous_accepts", fn "luv_tcp_simultaneous_accepts"); ("bind", fn "luv_tcp_bind");
   ("getpeername", fn "luv_tcp_getpeername"); ("getsockname", fn "luv_tcp_getsockname");
   ("connect", fn "luv_tcp_connect"); ("write_queue_size", fn "luv_write_queue_size")].

(** [luv_timer_methods] *)
Definition luv_timer_methods : list (string * F) :=
  [("start", fn "luv_timer_start"); ("stop", fn "luv_timer_stop");
   ("again", fn "luv_timer_again"); ("set_repeat", fn "luv_timer_set_repeat");
   ("get_repeat", fn "luv_timer_get_repeat")].

(** [luv_tty_methods] *)
Definition luv_tty_methods : list (string * F) :=
  [("set_mode", fn "luv_tty_set_mode"); ("get_winsize", fn "luv_tty_get_winsize")].

(** [luv_udp_methods] *)
Definition luv_udp_methods : list (string * F) :=
  [("open", fn "luv_udp_open"); ("bind", fn "luv_udp_bind");
   ("bindgetsockname", fn "luv_udp_getsockname");
   ("set_membership", fn "luv_udp_set_membership");
   ("set_multicast_loop", fn "luv_udp_set_multicast_loop");
   ("set_multicast_ttl", fn "luv_udp_set_multicast_ttl");
   ("set_multicast_interface", fn "luv_udp_set_multicast_interface");
   ("set_broadcast", fn "luv_udp_set_broadcast"); ("set_ttl", fn "luv_udp_set_ttl");
   ("send", fn "luv_udp_send"); ("try_send", fn "luv_udp_try_send");
   ("recv_start", fn "luv_udp_recv_start"); ("recv_stop", fn "luv_udp_recv_stop")].

(** [luv_signal_methods] *)
Definition luv_signal_methods : list (string * F) :=
  [("start", fn "luv_signal_start"); ("stop", fn "luv_signal_stop")].

Definition luv_functions : list (string * F) := luv_io_functions ++ luv_system_functions.

(** ** Metatables *)

(** [UV_HANDLE_TYPE_MAP], with the methods of each type. *)
Definition handle_methods : list (string * list (string * F)) :=
  [("async", luv_async_methods); ("check", luv_check_methods); ("fs_event", luv_fs_event_methods);
   ("fs_poll", luv_fs_poll_methods); ("handle", luv_handle_methods); ("idle", luv_idle_methods);
   ("pipe", luv_pipe_methods); ("poll", luv_poll_methods); ("prepare", luv_prepare_methods);
   ("process", luv_process_methods); ("stream", luv_stream_methods); ("tcp", luv_tcp_methods);
   ("timer", luv_timer_methods); ("tty", luv_tty_methods); ("udp", luv_udp_methods);
   ("signal", luv_signal_methods)].

(** [XX(uc, lc)] of [luv_handle_init], with the table of handles on top. *)
Definition init_metatable_of (lc : string) (methods : list (string * F)) : prog unit :=
  luaL_newmetatable ("uv_" +:+ lc) ;;;
  lua_pushcfunction (fn "luv_handle_tostring") ;;;
  lua_setfield (-2) "__tostring" ;;;
  luaL_newlib methods ;;;
  luaL_setfuncs luv_handle_methods 0 ;;;
  lua_setfield (-2) "__index" ;;;
  lua_pushboolean true ;;;
  lua_rawset (-3).

Fixpoint init_metatables (l : list (string * list (string * F))) : prog unit :=
  match l with
  | [] => skip
  | (lc, methods) :: l => init_metatable_of lc methods ;;; init_metatables l
  end.

(** Adds the stream methods to a type, with the table of streams on top. *)
Definition init_stream (lc : string) : prog unit :=
  luaL_getmetatable ("uv_" +:+ lc) ;;;
  lua_getfield (-1) "__index" ;;;
  luaL_setfuncs luv_stream_methods 0 ;;;
  lua_pop 1 ;;;
  lua_pushboolean true ;;;
  lua_rawset (-3).

Definition luv_handle_init : prog unit :=
  lua_newtable ;;;
  init_metatables handle_methods ;;;
  lua_setfield LUA_REGISTRYINDEX "uv_handle" ;;;
  lua_newtable ;;;
  init_stream "pipe" ;;;
  init_stream "tcp" ;;;
  init_stream "tty" ;;;
  lua_setfield LUA_REGISTRYINDEX "uv_stream".

(** [req.c] *)
Definition luv_req_init : prog unit :=
  luaL_newmetatable "uv_req" ;;;
  lua_pushcfunction (fn "luv_req_tostring") ;;;
  lua_setfield (-2) "__tostring" ;;;
  lua_pop 1.

(** [uv_loop_init], [luv_thread_init] and [luv_work_init] are parameters. *)
Definition luaopen_luv (sizeof_loop : Z) (loop_init : prog Z) (thread_init work_init : prog unit) : prog Z :=
  lua_newuserdata sizeof_loop ;;;
  r <- loop_init ;;
  if r <? 0 then
    name <- uv_err_name r ;;
    luaL_error (name +:+ ": " +:+ uv_strerror r +:+ String (Ascii.ascii_of_N 10) EmptyString)
  else
  lua_pushstring (Some "uv_loop") ;;;
  lua_insert (-2) ;;;
  lua_rawset LUA_REGISTRYINDEX ;;;
  luv_req_init ;;;
  luv_handle_init ;;;
  luaL_newlib luv_functions ;;;
  luv_constants ;;;
  lua_setfield (-2) "constants" ;;;
  thread_init ;;;
  work_init ;;;
  ret 1.
End Luv.
