(* ===== verification/Shark.v ===== *)
(** * The shark program ([core/shark.c])

    The command line, the [shark] library of scripts, and [main], which opens
    the Lua libraries, runs the initialisation and the script, and then the
    event loop.  The argument vector is the list of the strings before its
    NULL. *)

From stdpp Require Import base option strings pretty countable gmap list.
From Stdlib Require Import ZArith Lia SpecFloat Ascii.
From S2P Require Import Prelude UvPrio UvQueue UvLoop UvCore Number UvErr LuaApi LuaAux Luv LuvHandle LuvOpen.

Local Open Scope Z_scope.
Local Open Scope prog_scope.

(** The static variables of [shark.c]. *)
Record shark_vars := SharkVars {
  progname : string;
  shark_verbose : bool;
  g_event_loop : option ptr
}.

Definition set_progname (p : string) (v : shark_vars) : shark_vars :=
  SharkVars p (shark_verbose v) (g_event_loop v).
Definition set_shark_verbose (b : bool) (v : shark_vars) : shark_vars :=
  SharkVars (progname v) b (g_event_loop v).
Definition set_g_event_loop (p : option ptr) (v : shark_vars) : shark_vars :=
  SharkVars (progname v) (shark_verbose v) p.

(** What [shark.c] uses of the system: its own variables live next to it; the
    sockets, each call with its result and then [errno] by [strerror]; [prog_fd]
    of [bpf_load.c]. *)
Class SharkSys (O : Type) := {
  vars : O -> shark_vars;
  set_vars : shark_vars -> O -> O;
  stdout : string -> O -> O;
  socket : O -> Z * O;
  if_nametoindex : option string -> O -> Z * O;
  bind_sll : Z -> Z -> O -> Z * O;
  close_fd : Z -> O -> O;
  attach_bpf : Z -> list Z -> O -> Z * O;
  strerror : O -> string;
  prog_fd : O -> list Z
}.

Definition LF : string := String (ascii_of_N 10) EmptyString.

Definition EXIT_FAILURE : Z := 1.
Definition FLAGS_VERSION : Z := 1.
Definition SHARK_VERSION : string := "shark 0.1".
Definition SHARK_COPYRIGHT : string := "Copyright (C) 2015 Shark Authors".
Definition SHARK_URL : string := "None".

(** The number [htonl] puts in network order, printed by [inet_ntoa]: the bytes
    from the highest. *)
Definition inet_ntoa_htonl (ip : Z) : string :=
  pretty (u8 (Z.shiftr ip 24)) +:+ "." +:+ pretty (u8 (Z.shiftr ip 16)) +:+ "." +:+
  pretty (u8 (Z.shiftr ip 8)) +:+ "." +:+ pretty (u8 ip).

Section Shark.
Context {Q V F O : Type} `{!PrioQueue Q} `{!LuvSys O} `{!SharkSys O}.
Context `{!LuaVM V F (luv_state Q V F O)} `{!LuvFunctions F}.

Let st : Type := luv_state Q V F O.
Let prog (A : Type) : Type := M st lua_error A.

(** Parts of the Lua implementation that [shark.c] calls: opening a state,
    loading code, the traceback of [lj_debug.c], and closing; and the loop. *)
Context (lua_open : prog bool) (lua_close : prog unit).
Context (luaL_loadbuffer luaL_loadfile : string -> prog Z).
Context (luaL_traceback : option string -> Z -> prog unit).
Context (run_pending : prog Z) (io_poll : Z -> prog unit).
Context (finish_close_other : uv_handle_type -> ptr -> prog unit).
Context (rounds fuel : nat).

Definition getv {A} (f : shark_vars -> A) : prog A := gets (fun s => f (vars (os (env s)))).
Definition modv (f : shark_vars -> shark_vars) : prog unit :=
  emod (fun e => set_os (set_vars (f (vars (os e))) (os e)) e).
Definition print_out (msg : string) : prog unit := emod (fun e => set_os (stdout msg (os e)) e).
Definition sys {A} (f : O -> A * O) : prog A :=
  s <- get ;; let '(a, o) := f (os (env s)) in emod (set_os o) ;;; ret a.
Definition strerror_errno : prog string := gets (fun s => strerror (os (env s))).

(** ** Messages *)

Definition l_message (pname : option string) (msg : string) : prog unit :=
  match pname with Some p => print_err (p +:+ ": ") | None => skip end ;;;
  print_err (msg +:+ LF).

Definition lua_report (status : Z) : prog Z :=
  nil <- (if status =? 0 then ret true else lua_isnil (-1)) ;;
  (when (negb nil) do
    (msg <- lua_tolstring (-1) ;;
     p <- getv progname ;;
     l_message (Some p) (default "(error object is not a string)" msg) ;;;
     lua_pop 1)) ;;;
  ret status.

(** The conditions of the [if] have effects, and run in order. *)
Definition lua_traceback : prog Z :=
  str <- lua_isstring 1 ;;
  unprintable <- (if str : bool then ret false else
    none <- lua_isnoneornil 1 ;;
    if none : bool then ret true else
    called <- luaL_callmeta 1 "__tostring" ;;
    if negb called then ret true else
    str <- lua_isstring (-1) ;;
    if negb str then ret true else lua_remove 1 ;;; ret false) ;;
  if unprintable : bool then ret 1 else
  msg <- lua_tolstring 1 ;;
  luaL_traceback msg 1 ;;;
  ret 1.

(** ** The library *)

Definition shark_api_debuginfo_set : prog Z := ret 0.

Definition shark_api_lua_ref : prog Z :=
  lua_pushvalue (-1) ;;;
  ref <- luaL_ref LUA_REGISTRYINDEX ;;
  lua_pushnumber (num_of_Z ref) ;;;
  ret 1.

Definition shark_api_get_ref : prog Z :=
  n <- lua_tonumber (-1) ;;
  ref <- orfail Unspecified (cast_int n) ;;
  lua_rawgeti LUA_REGISTRYINDEX ref ;;;
  ret 1.

Definition shark_api_stats : prog Z := ret 0.
Definition shark_api_set_binary : prog Z := ret 0.
Definition shark_api_exec : prog Z := ret 0.

Definition shark_api_open_raw_sock : prog Z :=
  name <- lua_tolstring (-1) ;;
  sock <- sys socket ;;
  if sock <? 0 then print_out ("cannot create raw socket" +:+ LF) ;;; ret (-1) else
  ifindex <- sys (if_nametoindex name) ;;
  r <- sys (bind_sll sock ifindex) ;;
  if r <? 0 then
    err <- strerror_errno ;;
    print_out ("bind to " +:+ default "(null)" name +:+ ": " +:+ err +:+ LF) ;;;
    emod (fun e => set_os (close_fd sock (os e)) e) ;;;
    ret (-1)
  else
  lua_pushnumber (num_of_Z sock) ;;;
  ret 1.

Definition shark_api_sock_attach_bpf : prog Z :=
  n <- lua_tonumber (-1) ;;
  sock <- orfail Unspecified (cast_int n) ;;
  fds <- gets (fun s => prog_fd (os (env s))) ;;
  r <- sys (attach_bpf sock fds) ;;
  if negb (r =? 0) then
    err <- strerror_errno ;;
    print_out ("cannot setsockopt: " +:+ err +:+ LF) ;;;
    ret (-1)
  else ret 0.

Definition shark_api_iptos : prog Z :=
  n <- lua_tonumber (-1) ;;
  ip <- to_integer n ;;
  lua_pushstring (Some (inet_ntoa_htonl (u32 ip))) ;;;
  ret 1.

Definition ll_shark : list (string * F) :=
  [("debuginfo_set", fn "shark_api_debuginfo_set"); ("lua_ref", fn "shark_api_lua_ref");
   ("get_ref", fn "shark_api_get_ref"); ("stats", fn "shark_api_stats");
   ("set_binary", fn "shark_api_set_binary"); ("exec", fn "shark_api_exec");
   ("open_raw_sock", fn "shark_api_open_raw_sock");
   ("sock_attach_bpf", fn "shark_api_sock_attach_bpf"); ("iptos", fn "shark_api_iptos")].

(** ** The command line *)

(** [notail(x)]: the option has two characters *)
Definition notail (x : string) : bool := (String.length x <=? 2)%nat.

(** [argv[i+1] != NULL ? i+1 : 0], with what follows [argv[i]] *)
Definition next_arg (i : Z) (rest : list string) : Z :=
  match rest with [] => 0 | _ => i + 1 end.

(** The loop of [collectargs] from [argv[i]] on; the result and the flags. *)
Fixpoint collectargs_from (args : list string) (i flags : Z) : prog (Z * Z) :=
  match args with
  | [] => ret (0, flags)
  | a :: rest =>
      if negb (bool_decide (String.get 0 a = Some "-"%char)) then ret (i, flags) else
      match String.get 1 a with
      | None => ret (i, flags)
      | Some c =>
          if Ascii.eqb c "-" then
            if notail a then ret (next_arg i rest, flags) else ret (-1, flags)
          else if Ascii.eqb c "v" then
            if notail a then collectargs_from rest (i + 1) (Z.lor flags FLAGS_VERSION)
            else ret (-1, flags)
          else if Ascii.eqb c "V" then
            modv (set_shark_verbose true) ;;; ret (next_arg i rest, flags)
          else ret (-1, flags)
      end
  end.

(** Without [argv[0]] the loop starts after the end of the vector. *)
Definition collectargs (argv : list string) (flags : Z) : prog (Z * Z) :=
  match argv with
  | [] => fail OutOfBounds
  | _ :: args => collectargs_from args 1 flags
  end.

(** [for (i = n + 1; i < argc; i++) lua_pushstring(ls, argv[i])] *)
Fixpoint push_args (args : list string) : prog unit :=
  match args with
  | [] => skip
  | a :: args => lua_pushstring (Some a) ;;; push_args args
  end.

(** [for (i = 0; i < argc; i++)] with the table on top *)
Fixpoint set_args (args : list string) (i n : Z) : prog unit :=
  match args with
  | [] => skip
  | a :: args => lua_pushstring (Some a) ;;; lua_rawseti (-2) (i - n) ;;; set_args args (i + 1) n
  end.

Definition getargs (argv : list string) (n : Z) : prog Z :=
  let argc := Z.of_nat (length argv) in
  let narg := argc - (n + 1) in
  luaL_checkstack (narg + 3) "too many arguments to script" ;;;
  push_args (drop (Z.to_nat (n + 1)) argv) ;;;
  lua_createtable ;;;
  set_args argv 0 n ;;;
  ret narg.

Definition usage : string :=
  "usage: shark [options]... [script [args]...]." +:+ LF +:+
  "Available options are:" +:+ LF +:+
  "  -v        Show version information." +:+ LF.

Definition print_usage : prog unit := print_err usage.

Definition print_version : prog unit :=
  print_out (SHARK_VERSION +:+ " -- " +:+ SHARK_COPYRIGHT +:+ ". " +:+ SHARK_URL +:+ LF) ;;;
  halt 0.

(** ** [luaL_openlibs] ([lib_init.c]), with the FFI *)

Definition lj_lib_load : list (string * F) :=
  [("", fn "luaopen_base"); ("package", fn "luaopen_package"); ("table", fn "luaopen_table");
   ("io", fn "luaopen_io"); ("os", fn "luaopen_os"); ("string", fn "luaopen_string");
   ("math", fn "luaopen_math"); ("debug", fn "luaopen_debug"); ("bit", fn "luaopen_bit");
   ("jit", fn "luaopen_jit")].

Definition lj_lib_preload : list (string * F) := [("ffi", fn "luaopen_ffi")].

Fixpoint load_libs (l : list (string * F)) : prog unit :=
  match l with
  | [] => skip
  | (name, func) :: l =>
      lua_pushcfunction func ;;; lua_pushstring (Some name) ;;; lua_call 1 0 ;;; load_libs l
  end.

Fixpoint preload_libs (l : list (string * F)) : prog unit :=
  match l with
  | [] => skip
  | (name, func) :: l => lua_pushcfunction func ;;; lua_setfield (-2) name ;;; preload_libs l
  end.

Definition luaL_openlibs : prog unit :=
  load_libs lj_lib_load ;;;
  luaL_findtable LUA_REGISTRYINDEX "_PRELOAD" ;;;
  preload_libs lj_lib_preload ;;;
  lua_pop 1.

(** ** [main] *)

(** The libraries of scripts: [preload.uv], [shark] and [arg]. *)
Definition open_shark (argv : list string) (script : Z) : prog unit :=
  luaL_openlibs ;;;
  lua_getglobal "package" ;;;
  lua_getfield (-1) "preload" ;;;
  lua_remove (-2) ;;;
  lua_pushcfunction (fn "luaopen_luv") ;;;
  lua_setfield (-2) "uv" ;;;
  luaL_openlib (Some "shark") ll_shark 0 ;;;
  lua_getglobal "shark" ;;;
  verbose <- getv shark_verbose ;;
  lua_pushboolean verbose ;;;
  lua_setfield (-2) "verbose" ;;;
  lua_pop 1 ;;;
  getargs argv script ;;;
  lua_setglobal "arg".

(** The script, once loaded, with the traceback as its error handler. *)
Definition run_script : prog unit :=
  top <- lua_gettop ;;
  let base := top - 1 in
  lua_pushcfunction (fn "lua_traceback") ;;;
  lua_insert base ;;;
  r <- lua_pcall 0 0 base ;;
  if negb (r =? 0) then
    msg <- lua_tolstring (-1) ;;
    print_err (default "(null)" msg +:+ LF) ;;;
    halt EXIT_FAILURE
  else lua_pop 1.

Definition run_loop : prog unit :=
  loop <- getv g_event_loop ;;
  nonnull loop ;;;
  uv_run (luv_call) hrtime run_pending io_poll finish_close_other rounds fuel UV_RUN_DEFAULT ;;;
  skip.

(** From the compiled [shark_init.lua] to [out] *)
Definition run_shark (shark_init scriptname : string) : prog Z :=
  luaL_loadbuffer shark_init ;;;
  r <- lua_pcall 0 0 0 ;;
  ret_ <- (if negb (r =? 0) then lua_report r else
    loop <- luv_loop ;;
    modv (set_g_event_loop loop) ;;;
    r <- luaL_loadfile scriptname ;;
    if negb (r =? 0) then lua_report r else
    run_script ;;;
    run_loop ;;;
    ret 0) ;;
  lua_close ;;;
  ret ret_.

Definition main (shark_init : string) (argv : list string) : prog Z :=
  (match head argv with
   | Some p => when (negb (String.eqb p "")) do modv (set_progname p)
   | None => skip
   end) ;;;
  ls <- lua_open ;;
  if negb ls then
    p <- getv progname ;;
    l_message (Some p) "cannot create state: not enough memory" ;;;
    ret EXIT_FAILURE
  else
  c <- collectargs argv 0 ;;
  let '(script, flags) := c in
  if script <=? 0 then print_usage ;;; ret 0 else
  (when (negb (Z.land flags FLAGS_VERSION =? 0)) do print_version) ;;;
  open_shark argv script ;;;
  scriptname <- orfail OutOfBounds (argv !! Z.to_nat script) ;;
  run_shark shark_init scriptname.
End Shark.
