(* ===== verification/LuvDemo.v ===== *)
(** * A program state for concrete runs of the bindings

    A system that logs what is printed and counts time, and a virtual machine
    whose C functions are the bindings by name.  A function called [note.x] adds
    [x] to the standard output and is what stands for a callback in Lua.
    Calls nest at most [n] deep. *)

From stdpp Require Import base option strings countable gmap list.
From Stdlib Require Import ZArith Lia SpecFloat Ascii.
From S2P Require Import Prelude UvPrio UvHeap UvHeapSpec UvQueue UvLoop UvCore Number UvErr LuaApi LuaDemo.
From S2P Require Import LuaAux Luv LuvHandle LuvConst LuvOpen Shark.

Local Open Scope Z_scope.
Local Open Scope prog_scope.

Record system := System {
  sys_vars : shark_vars;
  sys_err : string;
  sys_out : string;
  sys_clock : Z
}.

Definition set_sys_vars v (o : system) := System v (sys_err o) (sys_out o) (sys_clock o).
Definition set_sys_err v (o : system) := System (sys_vars o) v (sys_out o) (sys_clock o).
Definition set_sys_out v (o : system) := System (sys_vars o) (sys_err o) v (sys_clock o).

(** Memory never runs out; the clock stands; the socket calls fail. *)
#[export] Instance demo_luv_sys : LuvSys system := {|
  malloc_ok o := (true, o);
  clock o := (sys_clock o, o);
  stderr msg o := set_sys_err (sys_err o +:+ msg) o;
  fmt_ptr _ := "0x55d0";
  sizeof_handle _ := 128;
  raw_handle := UvHandle UV_UNKNOWN_HANDLE 0 None None None None 0 0 0 None None 0
|}.

#[export] Instance demo_shark_sys : SharkSys system := {|
  vars := sys_vars;
  set_vars := set_sys_vars;
  stdout msg o := set_sys_out (sys_out o +:+ msg) o;
  socket o := (-1, o);
  if_nametoindex _ o := (0, o);
  bind_sll _ _ o := (-1, o);
  close_fd _ o := o;
  attach_bpf _ _ o := (-1, o);
  strerror _ := "Operation not permitted";
  prog_fd _ := []
|}.

#[export] Instance demo_functions : LuvFunctions string := {| fn name := name |}.

Abbreviation demo_state := (luv_state hstate unit string system).

(** Polling sleeps as long as it is told. *)
Definition demo_poll (t : Z) : M demo_state lua_error unit :=
  emod (fun e => set_os (System (sys_vars (os e)) (sys_err (os e)) (sys_out (os e))
                           (sys_clock (os e) + 1000000 * Z.max 0 t)) e).

Section Dispatch.
Context `{!LuaVM unit string demo_state}.

Definition dispatch (name : string) : M demo_state lua_error Z :=
  let called (s : string) := bool_decide (name = s) in
  if called "luv_new_timer" then luv_new_timer
  else if called "luv_timer_start" then luv_timer_start
  else if called "luv_timer_stop" then luv_timer_stop
  else if called "luv_close" then luv_close (fun _ _ => skip)
  else if called "luv_is_closing" then luv_is_closing
  else if called "luv_run" then
    luv_run (ret 0) demo_poll (fun _ _ => skip) 20 20
  else if called "shark_api_lua_ref" then shark_api_lua_ref
  else if called "shark_api_get_ref" then shark_api_get_ref
  else if called "shark_api_open_raw_sock" then shark_api_open_raw_sock
  else if String.prefix "note." name then
    emod (fun e => set_os (stdout (String.substring 5 100 name) (os e)) e) ;;; ret 0
  else raise (ErrMsg "no such function").
End Dispatch.

Fixpoint demo_luv_vm (n : nat) : LuaVM unit string demo_state :=
  match n with
  | O => demo_vm (fun _ => raise (ErrMsg "calls nest too deep"))
  | S n => demo_vm (@dispatch (demo_luv_vm n))
  end.

#[export] Instance demo_vm5 : LuaVM unit string demo_state := demo_luv_vm 5.

(** The main program before it has opened anything: the registry is table 1, the
    globals are table 2, and the loop is fresh. *)
Definition start_lua : lua_state unit string :=
  LuaState [] None 2%positive 1%positive
    (<[1%positive := new_tab]> {[ 2%positive := new_tab ]}) ∅ ∅ ∅ 3%positive.

Definition start : demo_state :=
  uv_loop_init_fields hrtime
    (LuvEnv start_lua ∅ ∅ 1%positive (System (SharkVars "shark" false None) "" "" 5000000)).
