(* ===== verification/SharkProps.v ===== *)
(** * What the shark program does with its command line and for its scripts

    Properties of [Shark], each with a run that meets its hypotheses. *)

From stdpp Require Import base option strings pretty countable gmap list.
From Stdlib Require Import ZArith Lia SpecFloat Ascii.
From S2P Require Import Prelude UvPrio UvQueue UvLoop UvCore Number UvErr LuaApi LuaRun LuaRef LuaProps.
From S2P Require Import LuaAux LuaLib LuaDemo Luv LuvHandle LuvOpen Shark LuvDemo UvHeap UvHeapSpec.

Local Open Scope Z_scope.
Local Open Scope prog_scope.

Section Args.
Context {Q V F O : Type} `{!PrioQueue Q} `{!LuvSys O} `{!SharkSys O}.
Context `{!LuaVM V F (luv_state Q V F O)} `{!LuvFunctions F}.

Let st : Type := luv_state Q V F O.
Implicit Types (s : st) (l : lua_state V F) (g : gctab V).

(** ** The options *)

Definition with_vars (f : shark_vars -> shark_vars) s : st :=
  set_env (set_os (set_vars (f (vars (os (env s)))) (os (env s))) (env s)) s.

(** What an argument is, by its first characters. *)
Definition is_script (a : string) : bool := negb (String.prefix "-" a) || String.eqb a "-".

(** The result of the loop at the first argument that is not [-v], after [k]
    that are. *)
Definition options_result (k : nat) (rest : list string) s : Z * st :=
  match rest with
  | [] => (0, s)
  | a :: more =>
      let next := match more with [] => 0 | _ => Z.of_nat k + 2 end in
      if is_script a then (Z.of_nat k + 1, s)
      else if String.eqb a "--" then (next, s)
      else if String.prefix "-V" a then (next, with_vars (set_shark_verbose true) s)
      else (-1, s)
  end.

Lemma collect_v k : forall rest i flags s,
  collectargs_from (replicate k "-v"%string ++ rest) i flags s =
  collectargs_from rest (i + Z.of_nat k) (if decide (k = 0%nat) then flags else Z.lor flags FLAGS_VERSION) s.
Proof.
  induction k as [|k IH]; intros rest i flags s.
  - simpl. by rewrite Z.add_0_r.
  - change (replicate (S k) "-v"%string ++ rest) with ("-v"%string :: (replicate k "-v"%string ++ rest)).
    transitivity (collectargs_from (replicate k "-v"%string ++ rest) (i + 1) (Z.lor flags FLAGS_VERSION) s);
      [done|].
    rewrite IH. f_equal; [lia|]. destruct k; [done|]. simpl.
    by rewrite <- Z.lor_assoc, Z.lor_diag.
Qed.

Lemma prefix_cons c p d a :
  String.prefix (String c p) (String d a) = Ascii.eqb c d && String.prefix p a.
Proof. simpl. destruct (ascii_dec c d) as [->|Hn]; [by rewrite Ascii.eqb_refl|].
  by apply Ascii.eqb_neq in Hn as ->. Qed.

Lemma prefix_nil p : String.prefix "" p = true.
Proof. by destruct p. Qed.

Lemma get0_dash c a : bool_decide (String.get 0 (String c a) = Some "-"%char) = Ascii.eqb "-" c.
Proof.
  change (String.get 0 (String c a)) with (Some c).
  destruct (Ascii.eqb_spec "-" c) as [<-|Hn]; [done|]. apply bool_decide_eq_false. congruence.
Qed.

Lemma collectargs_run p k rest s :
  head rest <> Some "-v"%string ->
  collectargs (p :: replicate k "-v"%string ++ rest) 0 s =
    Ret ((options_result k rest s).1, if decide (k = 0%nat) then 0 else FLAGS_VERSION)
      (options_result k rest s).2.
Proof.
  intros Hh. unfold collectargs. rewrite collect_v. simpl Z.lor.
  destruct rest as [|a more]; [done|]. simpl head in Hh.
  unfold options_result, is_script, next_arg.
  assert ((if decide (k = 0%nat) then 0 else Z.lor 0 FLAGS_VERSION) =
    if decide (k = 0%nat) then 0 else FLAGS_VERSION) as Hfl by by case_decide.
  rewrite Z.add_comm. destruct a as [|c0 [|c1 a]]; cbn [collectargs_from].
  - by rewrite Hfl.
  - rewrite get0_dash, prefix_cons, prefix_nil, andb_true_r, Hfl.
    destruct (Ascii.eqb_spec "-" c0) as [<-|Hn]; done.
  - rewrite get0_dash, !prefix_cons, !prefix_nil, !andb_true_r.
    destruct (Ascii.eqb_spec "-" c0) as [<-|Hn]; cbn [negb andb]; [|by rewrite Hfl].
    change (String.get 1 (String "-" (String c1 a))) with (Some c1). cbv iota beta.
    rewrite Hfl. assert (next_arg (Z.of_nat k + 1) more =
      match more with [] => 0 | _ => Z.of_nat k + 2 end) as -> by (destruct more; [done|simpl; lia]).
    rewrite (proj2 (String.eqb_neq (String "-" (String c1 a)) "-")) by congruence. cbn [orb].
    destruct (Ascii.eqb_spec c1 "-") as [->|H1]; [by destruct a|].
    rewrite (proj2 (String.eqb_neq _ "--")) by congruence.
    destruct (Ascii.eqb_spec c1 "v") as [->|H2].
    { destruct a; [done|]. done. }
    rewrite Ascii.eqb_sym. by destruct (Ascii.eqb_spec "V" c1) as [<-|].
Qed.

(** C38 [collectargs] reads the options before the script: any number of [-v],
    then the index of the script, which is the first argument that is not an
    option or is [-], or comes after [--] or [-V...]; 0 when there is none; and
    -1 for any other option.  The flags say whether [-v] was there, and only
    [-V] changes the state. *)
Theorem collectargs_correct p k rest s :
  head rest <> Some "-v"%string ->
  collectargs (p :: replicate k "-v"%string ++ rest) 0 s =
    Ret ((options_result k rest s).1, if decide (k = 0%nat) then 0 else FLAGS_VERSION)
      (options_result k rest s).2.
Proof. apply collectargs_run. Qed.

(** ** The table of arguments *)

(** The table with the strings [args] from slot [j] on. *)
Fixpoint fill (args : list string) (j : Z) g : gctab V :=
  match args with
  | [] => g
  | a :: args => fill args (j + 1) (tab_put (int_key j) (TStr a) g)
  end.

Lemma fill_metatable args : forall j g, metatable (fill args j g) = metatable g.
Proof. induction args as [|a args IH]; intros j g; simpl; [done|]. by rewrite IH, tab_put_metatable. Qed.

Lemma fill_slot args : forall j g i, - 2 ^ 53 < j -> j + Z.of_nat (length args) < 2 ^ 53 ->
  - 2 ^ 53 < i < 2 ^ 53 ->
  slot_at (fill args j g) i =
    match (if j <=? i then args !! Z.to_nat (i - j) else None) with
    | Some a => TStr a
    | None => slot_at g i
    end.
Proof.
  induction args as [|a args IH]; intros j g i Hj Hl Hi; simpl length in Hl.
  { simpl. rewrite lookup_nil. by destruct (j <=? i). }
  cbn [fill]. rewrite IH by lia. rewrite slot_put by lia.
  destruct (Z.leb_spec (j + 1) i), (Z.leb_spec j i); try lia.
  - replace (Z.to_nat (i - j)) with (S (Z.to_nat (i - (j + 1)))) by lia. simpl.
    rewrite decide_False by lia. done.
  - assert (i = j) as -> by lia. rewrite decide_True, Z.sub_diag by done. done.
  - rewrite decide_False by lia. done.
Qed.

Lemma runs_push_args args : forall l,
  runs (St := st) (push_args args) l tt (set_stack (stack l ++ (TStr <$> args)) l).
Proof.
  induction args as [|a args IH]; intros l; simpl.
  - rewrite app_nil_r. eapply runs_eq; [apply runs_skip|]. by destruct l.
  - eapply runs_bind; [apply runs_push|]. eapply runs_eq; [apply IH|]. simpl. by rewrite <- app_assoc.
Qed.

Lemma runs_set_args args : forall l st' t g i n,
  stack l = st' ++ [TTab t] -> tabs l !! t = Some g ->
  runs (St := st) (set_args args i n) l tt (set_tabs (<[t := fill args (i - n) g]> (tabs l)) l).
Proof.
  induction args as [|a args IH]; intros l st' t g i n Hst Hg; simpl.
  - eapply runs_eq; [apply runs_skip|]. rewrite insert_id by done. by destruct l.
  - eapply runs_bind; [apply runs_push|]. eapply runs_bind.
    { apply (runs_rawseti_at _ (-2) t g (i - n) (stack l) (TStr a)); [|done..].
      apply (holds_neg _ st' _ [TStr a]); [|done..]. simpl. by rewrite Hst, <- app_assoc. }
    eapply runs_eq; [eapply (IH _ st' t); [done|apply lookup_insert_eq]|].
    simpl. rewrite insert_insert_eq. replace (i + 1 - n) with (i - n + 1) by lia. done.
Qed.

(** [getargs] leaves the arguments of the script on the stack and the table
    [arg] above them: slot 0 has the script, the negative slots what comes
    before it, the positive ones its arguments, and no other integer slot is
    set; it returns their number.  When they do not fit on the stack it raises
    an error. *)
Theorem getargs_correct argv n l :
  0 <= n < Z.of_nat (length argv) -> Z.of_nat (length argv) <= INT_MAX ->
  let narg := Z.of_nat (length argv) - (n + 1) in
  if Z.of_nat (length (stack l)) + narg + 3 <=? LUAI_MAXCSTACK then
    exists l' t g, runs (St := st) (getargs argv n) l narg l' /\
      stack l' = stack l ++ (TStr <$> drop (Z.to_nat (n + 1)) argv) ++ [TTab t] /\
      tabs l' = <[t := g]> (tabs l) /\ t = next_obj l /\ metatable g = None /\
      forall i, - 2 ^ 52 < i < 2 ^ 52 -> tab_get g (int_key i) =
        match (if 0 <=? i + n then argv !! Z.to_nat (i + n) else None) with
        | Some a => TStr a
        | None => TNil
        end
  else raises (St := st) (getargs argv n) l (ErrMsg "stack overflow (too many arguments to script)") l.
Proof.
  intros Hn Hmax narg. unfold INT_MAX in Hmax.
  assert (runs (St := st) (lua_checkstack (narg + 3)) l
    (Z.of_nat (length (stack l)) + narg + 3 <=? LUAI_MAXCSTACK) l) as Hcheck.
  { eapply runs_bind; [apply runs_lget|]. cbn beta.
    replace (negb _) with (Z.of_nat (length (stack l)) + narg + 3 <=? LUAI_MAXCSTACK); [apply runs_ret|].
    unfold LUAI_MAXCSTACK. destruct (Z.ltb_spec 8000 (narg + 3)), (Z.leb_spec (Z.of_nat (length (stack l)) + narg + 3) 8000),
      (Z.ltb_spec 8000 (Z.of_nat (length (stack l)) + (narg + 3))); simpl; lia. }
  destruct (_ <=? LUAI_MAXCSTACK) eqn:Hfit.
  - set (l1 := set_stack (stack l ++ (TStr <$> drop (Z.to_nat (n + 1)) argv)) l).
    set (g := fill argv (0 - n) new_tab).
    exists (set_tabs (<[next_obj l := g]> (tabs (with_table l1))) (with_table l1)), (next_obj l), g.
    split_and!.
    + eapply runs_bind.
      { eapply runs_bind; [exact Hcheck|]. cbn. apply runs_skip. }
      eapply runs_bind; [apply runs_push_args|]. eapply runs_bind; [apply (runs_createtable l1)|].
      eapply runs_bind; [|apply runs_ret].
      by eapply runs_set_args; [|apply lookup_insert_eq].
    + simpl. by rewrite <- app_assoc.
    + simpl. by rewrite insert_insert_eq.
    + done.
    + unfold g. by rewrite fill_metatable.
    + intros i Hi. change (tab_get g (int_key i)) with (slot_at g i). unfold g.
      rewrite fill_slot by lia. replace (i - (0 - n)) with (i + n) by lia.
      destruct (Z.leb_spec (0 - n) i), (Z.leb_spec 0 (i + n)); try lia; done.
  - apply raises_bind. eapply runs_raises; [exact Hcheck|]. apply raises_raise.
Qed.

(** ** References of scripts *)

(** [shark.lua_ref] and [shark.get_ref] keep a value of a script: the number
    the first returns is a slot of the registry that nothing else uses, or
    [LUA_REFNIL] for [nil], and the second gives the value back for it. *)
Theorem lua_ref_roundtrip `{!LuaVMLaws V F st} l st' v g n free live :
  stack l = st' ++ [v] -> tabs l !! registry l = Some g -> refs_inv g n free live ->
  n + 1 < INT_MAX -> slot_at g LUA_REFNIL = TNil ->
  exists r l', runs (St := st) shark_api_lua_ref l 1 l' /\
    stack l' = st' ++ [v; int_key r] /\ live !! r = None /\
    runs (St := st) shark_api_get_ref l' 1 (set_stack (st' ++ [v; int_key r; v]) l').
Proof.
  intros Hst Hg Hi Hn Hnil.
  assert (exists r g1, runs (St := st) (luaL_ref LUA_REGISTRYINDEX) (set_stack (stack l ++ [v]) l) r
      (with_registry l g1) /\ live !! r = None /\ - 1 <= r <= INT_MAX /\
      tab_get g1 (int_key r) = v) as (r & g1 & Hrun & Hr & Hb & Hv).
  { destruct (decide (v = TNil)) as [->|Hv].
    - exists LUA_REFNIL, g. rewrite with_registry_id by done. split_and!; try done.
      + eapply runs_eq; [by apply runs_ref_nil|]. by destruct l.
      + destruct (live !! LUA_REFNIL) eqn:E; [|done].
        apply (ri_live _ _ _ _ Hi) in E as [? _]. unfold LUA_REFNIL in *. lia.
    - destruct (ref_spec (set_stack (stack l ++ [v]) l) (stack l) v g n free live)
        as (r & g1 & n1 & free1 & Hrun & Hi1 & Hr & Hb & _); [done..|].
      exists r, g1. split_and!; [|done|unfold INT_MAX in *; lia..|].
      + eapply runs_eq; [exact Hrun|]. by destruct l.
      + by apply (ri_live _ _ _ _ Hi1), lookup_insert_eq. }
  exists r, (set_stack (stack l ++ [int_key r]) (with_registry l g1)). split_and!.
  - eapply runs_bind; [apply runs_pushvalue|].
    { by apply (holds_neg _ st' _ []). }
    eapply runs_bind; [exact Hrun|]. eapply runs_bind; [apply runs_push|]. apply runs_ret.
  - simpl. by rewrite Hst, <- app_assoc.
  - done.
  - eapply runs_bind.
    { eapply runs_bind; [by eapply runs_at_top|]. apply runs_ret. }
    eapply runs_bind; [apply runs_orfail; apply c_cast_num_of_Z; unfold INT_MAX in *; lia|].
    eapply runs_bind; [|apply runs_ret]. eapply runs_eq.
    { eapply runs_rawgeti; [apply names_registry|apply lookup_insert_eq]. }
    rewrite Hv. simpl. by rewrite Hst, <- !app_assoc.
Qed.

(** ** Addresses *)

(** The number a dotted quad stands for. *)
Definition dotted (q : string) : option Z :=
  match mapM (scan_digits 0) (fields q) with
  | Some [a; b; c; d] => Some (((a * 256 + b) * 256 + c) * 256 + d)
  | _ => None
  end.

Lemma fields_dot p q : fields p = [p] -> fields (p +:+ String "." q) = p :: fields q.
Proof.
  induction p as [|c p IH]; [done|]. intros Hp. simpl in Hp |- *.
  destruct (decide (c = "."%char)); [by destruct (fields p)|].
  assert (fields p = [p]) as Hp'.
  { destruct (fields p) eqn:E; [|congruence]. injection Hp as <-. done. }
  by rewrite IH.
Qed.

Lemma fields_append p q : fields p = [p] -> fields (p +:+ "." +:+ q) = p :: fields q.
Proof. apply fields_dot. Qed.

Lemma byte_digits b : 0 <= b < 256 ->
  fields (pretty b) = [pretty b] /\ scan_digits 0 (pretty b) = Some b.
Proof.
  intros Hb.
  assert (forallb (fun b => bool_decide (fields (pretty b) = [pretty b]) &&
    bool_decide (scan_digits 0 (pretty b) = Some b)) (Z.of_nat <$> seq 0 256) = true) as H by by vm_compute.
  rewrite forallb_forall in H. specialize (H b).
  rewrite andb_true_iff, !bool_decide_eq_true in H. apply H, list_elem_of_In, list_elem_of_fmap.
  exists (Z.to_nat b). rewrite elem_of_seq. lia.
Qed.

(** [shark.iptos] prints the 32-bit number of an IPv4 address as the dotted
    quad that stands for it. *)
Theorem iptos_correct l st' ip : stack l = st' ++ [int_key ip] -> 0 <= ip < 2 ^ 32 ->
  exists q, runs (St := st) shark_api_iptos l 1 (set_stack (stack l ++ [TStr q]) l) /\ dotted q = Some ip.
Proof.
  intros Hst Hip. exists (inet_ntoa_htonl ip). split.
  - eapply runs_bind; [eapply runs_bind; [by eapply runs_at_top|]; apply runs_ret|].
    eapply runs_bind; [apply runs_orfail; apply c_cast_num_of_Z; lia|].
    rewrite wrap_u_small by lia. eapply runs_bind; [apply runs_push|]. apply runs_ret.
  - unfold dotted, inet_ntoa_htonl.
    assert (forall n, 0 <= u8 n < 256) as Hu by (intros; by apply wrap_u_range).
    destruct (byte_digits _ (Hu (Z.shiftr ip 24))) as [F1 S1], (byte_digits _ (Hu (Z.shiftr ip 16))) as [F2 S2],
      (byte_digits _ (Hu (Z.shiftr ip 8))) as [F3 S3], (byte_digits _ (Hu ip)) as [F4 S4].
    rewrite !fields_append, F4 by done. cbn [mapM].
    rewrite S1, S2, S3, S4. cbn. f_equal.
    rewrite !Z.shiftr_div_pow2 by done. unfold wrap_u.
    change (2 ^ 24) with 16777216. change (2 ^ 16) with 65536. change (2 ^ 8) with 256.
    change (2 ^ 32) with 4294967296 in Hip. lia.
Qed.

(** ** The early exits of [main] *)

Section Main.
Context (lua_open : M st lua_error bool) (lua_close : M st lua_error unit).
Context (luaL_loadbuffer luaL_loadfile : string -> M st lua_error Z).
Context (run_pending : M st lua_error Z) (io_poll : Z -> M st lua_error unit).
Context (finish_close_other : uv_handle_type -> ptr -> M st lua_error unit).
Context (rounds fuel : nat) (shark_init : string).

Let run_main (argv : list string) : M st lua_error Z :=
  main lua_open lua_close luaL_loadbuffer luaL_loadfile run_pending io_poll finish_close_other
    rounds fuel shark_init argv.

Definition on_os (f : O -> O) s : st := set_env (set_os (f (os (env s))) (env s)) s.

Definition named (p : string) s : st :=
  if String.eqb p "" then s else with_vars (set_progname p) s.

Definition version : string :=
  "shark 0.1 -- Copyright (C) 2015 Shark Authors. None" +:+ LF.

Lemma main_start p args s s1 r :
  lua_open (named p s) = Ret true s1 -> collectargs (p :: args) 0 s1 = Ret r s1 ->
  run_main (p :: args) s =
    (if r.1 <=? 0 then print_usage ;;; ret 0 else
     (when (negb (Z.land r.2 FLAGS_VERSION =? 0)) do print_version) ;;;
     open_shark (p :: args) r.1 ;;;
     scriptname <- orfail OutOfBounds ((p :: args) !! Z.to_nat r.1) ;;
     run_shark lua_close luaL_loadbuffer luaL_loadfile run_pending io_poll finish_close_other
       rounds fuel shark_init scriptname) s1.
Proof.
  intros Ho Hc. unfold run_main, main. unfold bind at 1. cbn [head].
  assert ((when (negb (String.eqb p "")) do modv (set_progname p)) s =
    Ret (E := lua_error) tt (named p s)) as -> by (unfold named; by destruct (String.eqb p "")).
  unfold bind at 1. rewrite Ho. cbn [negb]. unfold bind at 1. rewrite Hc. by destruct r.
Qed.

(** [main] stops before it runs anything: with the version on the standard
    output and status 0 when [-v] comes before a script; with the usage on the
    standard error and status 0 for [-v] alone, which the usage says shows the
    version, for no script and for an option it does not know. *)
Theorem main_stops_early p s s1 :
  lua_open (named p s) = Ret true s1 ->
  (forall script rest, is_script script = true ->
     run_main (p :: "-v"%string :: script :: rest) s = Halt 0 (on_os (stdout version) s1)) /\
  run_main [p; "-v"%string] s = Ret 0 (on_os (stderr usage) s1) /\
  run_main [p] s = Ret 0 (on_os (stderr usage) s1) /\
  (forall a rest, is_script a = false -> a <> "-v"%string -> a <> "--"%string -> String.prefix "-V" a = false ->
     run_main (p :: a :: rest) s = Ret 0 (on_os (stderr usage) s1)).
Proof.
  intros Ho. split_and!.
  - intros script rest Hs. rewrite (main_start p _ s s1 (2, FLAGS_VERSION)); [done..|].
    rewrite (collectargs_run p 1 (script :: rest)).
    + simpl. by rewrite Hs.
    + intros [= ->]. by vm_compute in Hs.
  - rewrite (main_start p _ s s1 (0, FLAGS_VERSION)); [done..|].
    by rewrite (collectargs_run p 1 []).
  - rewrite (main_start p _ s s1 (0, 0)); [done..|]. by rewrite (collectargs_run p 0 []).
  - intros a rest Ha Hv Hd HV. rewrite (main_start p _ s s1 (-1, 0)); [done..|].
    rewrite (collectargs_run p 0 (a :: rest)) by (intros [= ?]; done).
    simpl. by rewrite Ha, (proj2 (String.eqb_neq _ _) Hd), HV.
Qed.
End Main.
End Args.

(** ** Runs that meet the hypotheses *)

Lemma collectargs_correct_witness :
  collectargs (Q := hstate) (V := unit) (F := string) ["shark"; "-v"; "top.lua"; "-n"]%string 0 start =
    Ret (2, FLAGS_VERSION) start.
Proof. apply (collectargs_correct "shark" 1 ["top.lua"; "-n"]%string start). discriminate. Defined.

Lemma getargs_correct_witness :
  exists l' t (g : gctab unit), runs (St := demo_state) (getargs ["shark"; "-v"; "top.lua"; "-n"]%string 2) start_lua 1 l' /\
    stack l' = [TStr "-n"; TTab t] /\ tab_get g (int_key 0) = TStr "top.lua".
Proof.
  destruct (getargs_correct (Q := hstate) (O := system) ["shark"; "-v"; "top.lua"; "-n"]%string 2 start_lua
    ltac:(simpl; lia) ltac:(by vm_compute)) as (l' & t & g & H1 & H2 & _ & _ & _ & H3).
  exists l', t, g. split; [exact H1|]. split; [exact H2|]. apply (H3 0). lia.
Defined.

#[export] Instance demo_vm5_laws : LuaVMLaws unit string demo_state := demo_vm_laws _.

Lemma lua_ref_roundtrip_witness :
  exists r l', runs (St := demo_state) shark_api_lua_ref (set_stack [TStr "event"] start_lua) 1 l' /\
    stack l' = [TStr "event"; int_key r] /\
    runs (St := demo_state) shark_api_get_ref l' 1 (set_stack [TStr "event"; int_key r; TStr "event"] l').
Proof.
  destruct (lua_ref_roundtrip (Q := hstate) (O := system) (set_stack [TStr "event"] start_lua) []
    (TStr "event") new_tab 0 [] ∅) as (r & l' & H1 & H2 & _ & H3);
    [done|done|apply LuaProps.Demo.fresh_registry|done|done|].
  exists r, l'. split; [exact H1|]. split; [exact H2|exact H3].
Defined.

Lemma iptos_correct_witness :
  exists q, runs (St := demo_state) shark_api_iptos (set_stack [int_key 3232235777] start_lua) 1
    (set_stack [int_key 3232235777; TStr q] start_lua) /\ dotted q = Some 3232235777.
Proof.
  apply (iptos_correct (Q := hstate) (O := system) (set_stack [int_key 3232235777] start_lua) []);
    [done|split; [discriminate|reflexivity]].
Defined.

Lemma main_stops_early_witness :
  main (Q := hstate) (ret true) skip (fun _ => ret 0) (fun _ => ret 0) (ret 0) demo_poll (fun _ _ => skip)
    9 9 "" ["shark"; "-v"]%string start = Ret 0 (on_os (stderr usage) (with_vars (set_progname "shark") start)).
Proof.
  destruct (main_stops_early (Q := hstate) (ret true) skip (fun _ => ret 0) (fun _ => ret 0) (ret 0) demo_poll
    (fun _ _ => skip) 9 9 "" "shark" start (with_vars (set_progname "shark") start) eq_refl) as (_ & H & _).
  exact H.
Defined.
