(* ===== verification/LuvProps.v ===== *)
(** * What the Lua bindings of libuv do

    Properties of [LuvConst], [Luv] and [LuvHandle] over the event loop: the
    calls of a script on a timer, the callbacks the loop makes into Lua, and the
    life of the record behind a handle; each with a run that meets its
    hypotheses. *)

From stdpp Require Import base option strings countable gmap list.
From Stdlib Require Import ZArith Lia SpecFloat.
From S2P Require Import Prelude UvPrio UvHeap UvHeapSpec UvQueue UvLoop UvCore UvInv UvTimer UvFire UvClose UvInit.
From S2P Require Import UvProps Number UvErr LuaApi LuaRun LuaRef LuaProps LuaDemo LuaAux LuaLib Luv LuvHandle LuvRun.
From S2P Require Import LuvConst LuvOpen Shark LuvDemo.

Local Open Scope Z_scope.
Local Open Scope prog_scope.

(** ** Names and numbers *)

(** The name a number is printed with, of the names it can be read from. *)
Definition canonical (s : string) : string :=
  if String.eqb s "sigiot" then "sigabrt" else if String.eqb s "sigpoll" then "sigio" else s.

(** Reading and printing with two tables agree. *)
Definition inverse (read : option string -> Z) (print : Z -> option string) (nm : string -> string) : Prop :=
  (forall v s, print v = Some s -> read (Some s) = v /\ v <> 0) /\
  (forall s, read (Some s) <> 0 -> print (read (Some s)) = Some (nm s)) /\ print 0 = None.

Lemma name_of_num_in v s l : name_of_num v l = Some s -> In (s, v) l.
Proof.
  induction l as [|[n w] l IH]; simpl; [done|]. case_decide as Hw; [intros [= <-]; subst; by left|].
  intros H. right. by apply IH.
Qed.

Lemma num_of_name_in s v l : num_of_name s l = Some v -> In (s, v) l.
Proof.
  induction l as [|[n w] l IH]; simpl; [done|]. case_decide as Hw; [intros [= <-]; subst; by left|].
  intros H. right. by apply IH.
Qed.

Definition check_inverse (names cases : list (string * Z)) (nm : string -> string) : bool :=
  forallb (fun e => bool_decide (num_of_name e.1 names = Some e.2) && negb (e.2 =? 0)) cases &&
  forallb (fun e => bool_decide (name_of_num e.2 cases = Some (nm e.1))) names &&
  bool_decide (name_of_num 0 cases = None).

Lemma inverse_tables d names cases nm : check_inverse names cases nm = true ->
  inverse (fun s => match s with None => d | Some s => default 0 (num_of_name s names) end)
    (fun v => name_of_num v cases) nm.
Proof.
  unfold check_inverse. rewrite !andb_true_iff, !forallb_forall, bool_decide_eq_true. intros [[H1 H2] H3].
  split_and!; [| |done].
  - intros v s Hin%name_of_num_in. specialize (H1 _ Hin). simpl in H1.
    rewrite andb_true_iff, bool_decide_eq_true, negb_true_iff, Z.eqb_neq in H1. destruct H1 as [-> ?]. done.
  - intros s. destruct (num_of_name s names) as [v|] eqn:Hv; [simpl|done]. intros _.
    apply num_of_name_in in Hv. specialize (H2 _ Hv). by rewrite bool_decide_eq_true in H2.
Qed.

(** The conversions between names and numbers of address families, lookup
    flags, socket types and signals are inverse: what prints a number reads
    back as it, and a name that is read prints as itself, but for the signals
    that have two names; an unknown name reads as 0, which has no name. *)
Theorem names_roundtrip :
  inverse luv_af_string_to_num luv_af_num_to_string id /\
  inverse luv_ai_string_to_num luv_ai_num_to_string id /\
  inverse luv_sock_string_to_num luv_sock_num_to_string id /\
  inverse luv_sig_string_to_num luv_sig_num_to_string canonical /\
  (forall s, s ∉ sig_names.*1 -> luv_sig_string_to_num (Some s) = 0).
Proof.
  split_and!; try (apply inverse_tables; by vm_compute).
  intros s Hs. unfold luv_sig_string_to_num. destruct (num_of_name s sig_names) as [v|] eqn:Hv; [|done].
  destruct Hs. apply num_of_name_in, list_elem_of_In in Hv.
  by apply (list_elem_of_fmap_2 fst) in Hv.
Qed.

Section Luv.
Context {Q V F O : Type} `{!PrioQueue Q} `{!PrioQueueSpec Q} `{!LuvSys O} `{!LuaVM V F (luv_state Q V F O)}.
Context `{!LuaVMLaws V F (luv_state Q V F O)}.

Local Abbreviation st := (luv_state Q V F O).
Implicit Types (s : st) (l : lua_state V F) (g : gctab V) (u d : ptr) (h : uv_handle luv_cb) (v : luv_handle_t)
  (free : list Z) (live : gmap Z tvalue).

(** ** Starting a timer *)

(** The userdata [u] is a handle of type [t] with the metatable of its type, and
    its record is [v] at [d]. *)
Record handle_at s g (t : uv_handle_type) (lc : string) u h d v : Prop := {
  ha_handle : handles s !! u = Some h;
  ha_type : type h = t;
  ha_data : data h = Some d;
  ha_record : luv_data (env s) !! d = Some v;
  ha_meta : exists ud m, udatas (lua_of s) !! u = Some ud /\ ud_metatable ud = Some m /\
    tab_get g (TStr ("uv_" +:+ lc)) = TTab m
}.

Arguments ha_handle {s g t lc u h d v} _.
Arguments ha_type {s g t lc u h d v} _.
Arguments ha_data {s g t lc u h d v} _.
Arguments ha_record {s g t lc u h d v} _.

Lemma checkudata_run l idx u ud m g name : holds (St := st) l idx (TUdata u) ->
  tabs l !! registry l = Some g -> udatas l !! u = Some ud -> ud_metatable ud = Some m ->
  tab_get g (TStr name) = TTab m ->
  runs (St := st) (luaL_checkudata idx name) l u l.
Proof.
  intros Hh Hg Hu Hm Hn. eapply runs_bind; [apply Hh|]. eapply runs_bind; [apply runs_lget|]. cbn beta.
  eapply runs_bind; [by apply runs_get_tab|]. cbn beta iota.
  eapply runs_bind; [by apply runs_orfail|]. rewrite Hm, Hn.
  rewrite !bool_decide_eq_true_2 by (done || by eexists). apply runs_ret.
Qed.

Lemma check_typed_run s g t lc u h d v idx : handle_at s g t lc u h d v ->
  tabs (lua_of s) !! registry (lua_of s) = Some g -> holds (St := st) (lua_of s) idx (TUdata u) ->
  check_typed t lc idx s = Ret u s.
Proof.
  intros [Hp Ht Hd _ (ud & m & Hu & Hm & Hn)] Hg Hh. unfold check_typed.
  rewrite (run_lua_bind_id _ _ _ _ (checkudata_run _ _ _ _ _ _ _ Hh Hg Hu Hm Hn)).
  unfold bind at 1. rewrite (deref_run _ _ _ Hp).
  rewrite !bool_decide_eq_true_2 by (done || by eexists). done.
Qed.

Lemma checkinteger_run l idx z : holds (St := st) l idx (int_key z) -> - 2 ^ 53 < z < 2 ^ 53 ->
  runs (St := st) (luaL_checkinteger idx) l z l.
Proof.
  intros Hh Hz. eapply runs_bind; [apply Hh|]. cbn. apply runs_orfail. apply c_cast_num_of_Z; lia.
Qed.


(** ** Callbacks into Lua *)

Definition on_stderr (msg : string) s : st := set_env (set_os (stderr msg (os (env s))) (env s)) s.

Lemma get_data_bind {A} d v (k : luv_handle_t -> M st lua_error A) s : luv_data (env s) !! d = Some v ->
  bind (get_data (Some d)) k s = k v s.
Proof. intros Hd. unfold get_data, bind, get. cbn. by rewrite Hd. Qed.

Lemma tolstring_top l st0 m : stack l = st0 ++ [TStr m] -> runs (St := st) (lua_tolstring (-1)) l (Some m) l.
Proof.
  intros Hst. assert (stack l !! length st0 = Some (TStr m)) as Hm by (rewrite Hst; by apply list_lookup_middle).
  assert (length (stack l) = S (length st0)) as Hl by (rewrite Hst, length_app; simpl; lia).
  eapply runs_bind; [apply runs_adr_neg; [done|lia]|].
  replace (Z.to_nat (Z.of_nat (length (stack l)) + -1)) with (length st0) by lia.
  eapply runs_bind; [by apply runs_read_stk|]. apply runs_ret.
Qed.

(** The function a callback holds is pushed below its arguments. *)
Lemma push_callback_run l g n free live r f st0 args :
  tabs l !! registry l = Some g -> refs_inv g n free live -> live !! r = Some (TFunc f) ->
  stack l = st0 ++ args ->
  runs (St := st) (lua_rawgeti LUA_REGISTRYINDEX r ;;;
    when (negb (length args =? 0)%nat) do lua_insert (-1 - Z.of_nat (length args))) l tt
    (set_stack (st0 ++ TFunc f :: args) l).
Proof.
  intros Hg Hi Hr Hst. eapply runs_bind; [by eapply rawgeti_spec|].
  destruct args as [|x args]; cbn [length Nat.eqb negb].
  - rewrite app_nil_r in Hst. eapply runs_eq; [apply runs_skip|]. by rewrite Hst.
  - eapply runs_eq; [apply (runs_insert _ st0 x args (TFunc f))|].
    + simpl. by rewrite Hst, <- app_assoc.
    + right. simpl. rewrite Hst, !length_app. simpl. lia.
    + done.
Qed.

Lemma call_callback_start {A} s st0 args r f g n free live (k : unit -> M st lua_error A) :
  registry_ok s g n free live -> live !! r = Some (TFunc f) -> stack (lua_of s) = st0 ++ args ->
  bind (lua_rawgeti LUA_REGISTRYINDEX r) (fun _ =>
    bind (when (negb (length args =? 0)%nat) do lua_insert (-1 - Z.of_nat (length args))) k) s =
  k tt (with_lua (set_stack (st0 ++ TFunc f :: args) (lua_of s)) s).
Proof.
  intros [Hg Hi] Hr Hst. rewrite <- bind_assoc.
  by rewrite (run_lua_bind _ _ _ _ _ (push_callback_run _ _ _ _ _ _ _ _ _ Hg Hi Hr Hst)).
Qed.


(** ** The end of a handle *)

Lemma loop_inv_data s u h (x : option ptr) : loop_inv s -> handles s !! u = Some h -> loop_inv (upd u (set_data x h) s).
Proof.
  intros Hi Hp. pose proof (li_count _ Hi) as [Hc Hsm].
  assert (recount (upd u (set_data x h) (set_queues (queues s) (set_timer_heap (timer_heap s) s))) =
    upd u (set_data x h) s) as <-.
  { unfold recount, upd. simpl. rewrite (where_insert_same _ _ u h) by done. rewrite <- Hc. by destruct s. }
  apply (loop_inv_upd s u h); [done|done|by repeat split| | | |by intros a _].
  - by destruct (li_ok _ Hi _ _ Hp).
  - by apply (heap_upd_same s u h).
  - by apply (watch_upd_same s u h).
Qed.

Lemma unref_with_registry l g n free live r g0 :
  tabs l !! registry l = Some g0 -> refs_inv g n free live -> releasable r live ->
  exists g' free', runs (St := st) (luaL_unref LUA_REGISTRYINDEX r) (with_registry l g) tt (with_registry l g') /\
    refs_inv g' n free' (delete r live) /\ frame g g'.
Proof.
  intros Hg Hi Hr.
  destruct (unref_run (Q := Q) (O := O) (with_registry l g) g n free live r) as (g' & free' & Hrun & Hi' & Hf);
    [apply lookup_insert_eq|done..|].
  exists g', free'. split_and!; [|done..]. by rewrite with_registry_twice in Hrun.
Qed.

(** The record at [d] is freed. *)
Definition forget d s : st := set_env (set_luv_data (delete d (luv_data (env s))) (env s)) s.

Lemma cleanup_run s g n free live d v c0 c1 :
  registry_ok s g n free live -> luv_data (env s) !! d = Some v -> callbacks v = [c0; c1] ->
  releasable (ref v) live -> releasable c0 (delete (ref v) live) ->
  releasable c1 (delete c0 (delete (ref v) live)) ->
  exists g' free', luv_cleanup_handle d s =
      Ret tt (forget d (with_lua (with_registry (lua_of s) g') s)) /\
    refs_inv g' n free' (delete c1 (delete c0 (delete (ref v) live))) /\ frame g g'.
Proof.
  intros [Hg Hi] Hd Hc Hr H0 H1. unfold luv_cleanup_handle. rewrite (get_data_bind d v) by done.
  rewrite Hc. cbn [lookup list_lookup orfail]. set (l := lua_of s) in *.
  destruct (unref_with_registry l g n free live (ref v) g Hg Hi Hr) as (g1 & f1 & R1 & I1 & F1).
  destruct (unref_with_registry l g1 n f1 _ c0 g Hg I1 H0) as (g2 & f2 & R2 & I2 & F2).
  destruct (unref_with_registry l g2 n f2 _ c1 g Hg I2 H1) as (g3 & f3 & R3 & I3 & F3).
  rewrite with_registry_id in R1 by done.
  exists g3, f3. split_and!; [|done|by do 2 (eapply reg_frame_trans; [done|])].
  rewrite (run_lua_bind _ _ _ _ _ R1), bind_ret.
  erewrite run_lua_bind by exact R2. rewrite with_lua_lua, bind_ret.
  erewrite run_lua_bind by exact R3. rewrite with_lua_lua. done.
Qed.

(** C28 When the loop finishes the close of a handle, luv calls the close
    callback, gives back the references of the userdata and of its callbacks
    and the record, and resets the handle's data; the loop stays consistent.  A
    timer callback after that, which a timer started after its close still
    gets, dereferences NULL. *)
Theorem close_releases s s1 g n free live u h d v c0 c1 h0 :
  handles s !! u = Some h0 -> data h0 = Some d ->
  luv_call_callback (Some d) LUV_CLOSED 0 s = Ret tt s1 -> loop_inv s1 -> handles s1 !! u = Some h ->
  registry_ok s1 g n free live -> luv_data (env s1) !! d = Some v -> callbacks v = [c0; c1] ->
  releasable (ref v) live -> releasable c0 (delete (ref v) live) ->
  releasable c1 (delete c0 (delete (ref v) live)) ->
  exists s' g' free', luv_call luv_close_cb u s = Ret tt s' /\ loop_inv s' /\
    handles s' = <[u := set_data None h]> (handles s1) /\ luv_data (env s') = delete d (luv_data (env s1)) /\
    stack (lua_of s') = stack (lua_of s1) /\
    registry_ok s' g' n free' (delete c1 (delete c0 (delete (ref v) live))) /\ frame g g' /\
    luv_call luv_timer_cb u s' = Fault NullDeref.
Proof.
  intros Hp0 Hd0 Hcb Hi Hp Hreg Hd Hc Hr H0 H1.
  destruct (cleanup_run s1 g n free live d v c0 c1 Hreg Hd Hc Hr H0 H1) as (g' & free' & Hrun & Hinv & Hf).
  set (s2 := forget d _) in Hrun.
  assert (loop_inv s2) as Hi2 by (do 2 apply loop_inv_env; done).
  exists (upd u (set_data None h) s2), g', free'. split_and!; try done.
  - unfold luv_call, close_cb_body. unfold bind at 1. rewrite (deref_run _ _ _ Hp0), Hd0.
    unfold bind at 1. rewrite Hcb. unfold bind at 1. rewrite Hrun. by apply assign_run.
  - by apply loop_inv_data.
  - split; [apply lookup_insert_eq|done].
  - unfold luv_call, timer_cb_body, bind. by rewrite (deref_run _ _ (set_data None h)) by apply lookup_insert_eq.
Qed.
End Luv.

(** ** Runs that meet the hypotheses *)

Module Demo.
#[export] Instance laws : LuaVMLaws unit string demo_state := demo_vm_laws _.

(** The registry has the metatable of timers, and [note.tick] in slot 1. *)
Definition registry0 : gctab unit := tab_put (TStr "uv_timer") (TTab 4) new_tab.
Definition registry1 : gctab unit := tab_put (int_key 1) (TFunc 6) registry0.

Definition lua1 (g : gctab unit) (st0 : list tvalue) : lua_state unit string :=
  LuaState st0 None 2%positive 1%positive
    (<[1%positive := g]> (<[2%positive := new_tab]> {[ 4%positive := new_tab ]}))
    {[ 6%positive := FuncC "note.tick"%string [] 2%positive ]}
    {[ 5%positive := GCudata 128 (Some 4%positive) 2%positive [] ]} ∅ 10%positive.

Definition loop (g : gctab unit) (st0 : list tvalue) (v : luv_handle_t) : demo_state :=
  uv_loop_init_fields hrtime (LuvEnv (lua1 g st0) {[ 1%positive := v ]} ∅ 2%positive
    (System (SharkVars "shark" false None) "" "" 5000000)).

Definition after {A} (m : M demo_state lua_error A) (s : demo_state) : demo_state :=
  match m s with Ret _ s' => s' | _ => s end.

Definition timer (g : gctab unit) (st0 : list tvalue) (v : luv_handle_t) : demo_state :=
  after (assign 5 (set_data (Some 1%positive)))
    (after (uv_timer_init 5 raw_handle) (loop g st0 v)).

Definition handle (s : demo_state) : uv_handle luv_cb := default raw_handle (handles s !! 5%positive).

Lemma registry0_refs : refs_inv registry0 0 [] ∅.
Proof.
  destruct LuaProps.Demo.fresh_registry. split; try done.
  - by apply put_wf.
  - intros i Hi. unfold slot_at, registry0. rewrite tab_get_put, norm_int_key by lia.
    by rewrite decide_False.
Qed.

Lemma registry1_refs : refs_inv registry1 1 [] {[ 1 := TFunc 6 ]}.
Proof. apply (refs_alloc_fresh registry0 0 ∅ (TFunc 6) registry0_refs); done. Qed.

Lemma timer_inv g st0 v : loop_inv (timer g st0 v).
Proof.
  assert (loop_inv (loop g st0 v)) as Hi by apply loop_init_inv.
  destruct (timer_init_run (E := lua_error) (loop g st0 v) 5 raw_handle Hi) as (s' & H & Hi' & Hh & _);
    [done|done|by split|].
  unfold timer, after. rewrite H. rewrite (assign_run s' 5 _ (set_data (Some 1%positive)))
    by (rewrite Hh; apply lookup_insert_eq).
  apply loop_inv_data; [done|]. rewrite Hh. apply lookup_insert_eq.
Qed.
End Demo.

Import Demo.



Lemma close_releases_witness :
  exists s', luv_call luv_close_cb 5 (Demo.timer Demo.registry1 [] (LuvHandle 1 [LUA_NOREF; LUA_NOREF])) = Ret tt s' /\
    loop_inv s' /\ luv_data (env s') = ∅ /\ luv_call luv_timer_cb 5 s' = Fault NullDeref.
Proof.
  set (s := Demo.timer _ _ _).
  destruct (close_releases s s Demo.registry1 1 [] {[ 1 := TFunc 6 ]} 5 (Demo.handle s) 1
    (LuvHandle 1 [LUA_NOREF; LUA_NOREF]) LUA_NOREF LUA_NOREF (Demo.handle s))
    as (s' & g' & free' & H1 & H2 & _ & H3 & _ & _ & _ & H4).
  - by vm_compute.
  - by vm_compute.
  - by vm_compute.
  - apply Demo.timer_inv.
  - by vm_compute.
  - split; [by vm_compute|apply Demo.registry1_refs].
  - by vm_compute.
  - done.
  - right. by eexists.
  - by left.
  - by left.
  - exists s'. split; [exact H1|]. split; [exact H2|]. split; [rewrite H3; by vm_compute|exact H4].
Defined.
