(* ===== verification/LjStr.v ===== *)
(** * Strings ([core/luajit/src/lj_str.c])

    Strings are interned: [lj_str_new] gives the one object that holds a text,
    found in a hash table of chains that grows and shrinks.  [LjStrProps] shows
    that equal texts have equal objects, which is why Lua compares strings, and
    finds them in tables, by their address.

    The bytes of a string are followed by a NUL and up to three bytes that
    comparisons read but do not use. *)

From Stdlib Require Import ZArith Lia Ascii String.
From stdpp Require Import base option strings countable gmap list.
From S2P Require Import Prelude.

Local Open Scope Z_scope.
Local Open Scope prog_scope.

(** ** Bits *)

(** [lj_rol] on [uint32_t] *)
Definition lj_rol (x n : Z) : Z := Z.lor (u32 (Z.shiftl x n)) (Z.shiftr x (32 - n)).

(** Four bytes as a little-endian word. *)
Definition word (b0 b1 b2 b3 : Z) : Z :=
  Z.lor b0 (Z.lor (Z.shiftl b1 8) (Z.lor (Z.shiftl b2 16) (Z.shiftl b3 24))).

(** [lj_getu32(p + i)] *)
Definition lj_getu32 (bs : list Z) (i : nat) : option Z :=
  b0 ← bs !! i; b1 ← bs !! S i; b2 ← bs !! S (S i); b3 ← bs !! S (S (S i)); Some (word b0 b1 b2 b3).

(** [lj_bswap] *)
Definition lj_bswap (x : Z) : Z :=
  word (Z.land (Z.shiftr x 24) 0xff) (Z.land (Z.shiftr x 16) 0xff) (Z.land (Z.shiftr x 8) 0xff) (Z.land x 0xff).

Definition bytes_of_string (s : string) : list Z :=
  (fun c => Z.of_nat (nat_of_ascii c)) <$> list_ascii_of_string s.

(** ** The hash of a string *)

Definition hash_mix (a b h : Z) : Z :=
  let a := Z.lxor a h in let a := u32 (a - lj_rol h 11) in
  let b := Z.lxor b a in let b := u32 (b - lj_rol a 25) in
  let h := Z.lxor h b in u32 (h - lj_rol b 16).

(** The hash of [lj_str_new]: up to sixteen bytes of the string, and its length. *)
Definition hash_bytes (str : list Z) : option Z :=
  let len := length str in
  let h := Z.of_nat len in
  if decide (4 <= len)%nat then
    a ← lj_getu32 str 0;
    w ← lj_getu32 str (len - 4);
    let h := Z.lxor h w in
    b ← lj_getu32 str (len / 2 - 2);
    let h := Z.lxor h b in let h := u32 (h - lj_rol b 14) in
    w ← lj_getu32 str (len / 4 - 1);
    Some (hash_mix a (u32 (b + w)) h)
  else if decide (0 < len)%nat then
    a ← str !! 0%nat;
    w ← str !! (len - 1)%nat;
    let h := Z.lxor h w in
    b ← str !! (len / 2)%nat;
    let h := Z.lxor h b in let h := u32 (h - lj_rol b 14) in
    Some (hash_mix a b h)
  else Some 0.

Definition str_hash (s : string) : Z := default 0 (hash_bytes (bytes_of_string s)).

(** ** Comparison *)

(** [lj_str_cmp]: the strings four bytes at a time, [i] being the index.  The
    memory of a string goes on after its text. *)
Fixpoint str_cmp_loop (fuel : nat) (a b : list Z) (n i alen blen : nat) : option Z :=
  match fuel with
  | O => None
  | S fuel =>
      if decide (i < n)%nat then
        va ← lj_getu32 a i;
        vb ← lj_getu32 b i;
        if decide (va = vb) then str_cmp_loop fuel a b n (i + 4) alen blen
        else
          let va := lj_bswap va in
          let vb := lj_bswap vb in
          let d := i32 (u32 (Z.of_nat i - Z.of_nat n)) in
          if -3 <=? d then
            let va := Z.shiftr va (32 + d * 8) in
            let vb := Z.shiftr vb (32 + d * 8) in
            if va =? vb then Some (i32 (u32 (Z.of_nat alen - Z.of_nat blen)))
            else Some (if va <? vb then -1 else 1)
          else Some (if va <? vb then -1 else 1)
      else Some (i32 (u32 (Z.of_nat alen - Z.of_nat blen)))
  end.

Definition lj_str_cmp (a : list Z) (alen : nat) (b : list Z) (blen : nat) : option Z :=
  let n := if decide (blen < alen)%nat then blen else alen in
  str_cmp_loop (S n) a b n 0 alen blen.

(** [str_fastcmp]: 0 when the first [len] bytes agree. *)
Fixpoint str_fastcmp_loop (fuel : nat) (a b : list Z) (len i : nat) : option Z :=
  match fuel with
  | O => None
  | S fuel =>
      va ← lj_getu32 a i;
      vb ← lj_getu32 b i;
      let v := Z.lxor va vb in
      if v =? 0 then
        if decide (i + 4 < len)%nat then str_fastcmp_loop fuel a b len (i + 4) else Some 0
      else
        let d := i32 (u32 (Z.of_nat i - Z.of_nat len)) in
        Some (if -3 <=? d then i32 (u32 (Z.shiftl v (32 + d * 8))) else 1)
  end.

Definition str_fastcmp (a b : list Z) (len : nat) : option Z := str_fastcmp_loop len a b len 0.

(** ** Interning *)

Record gcstr := GCstr { s_data : list Z; s_hash : Z; s_next : option ptr }.

(** The parts of [global_State] that hold the strings; [sweeping] is
    [gc.state == GCSsweepstring]. *)
Record strtab := Strtab {
  strs : gmap ptr gcstr;
  strhash : list (option ptr);
  strmask : nat;
  strnum : Z;
  strempty : ptr;
  next_str : ptr;
  sweeping : bool
}.

Definition LJ_MAX_STR : Z := 0x7fffff00.
Definition LJ_MAX_STRTAB : Z := 2 ^ 26.

Definition sprog : Type -> Type := M strtab unit.

Definition set_strs v g := Strtab v (strhash g) (strmask g) (strnum g) (strempty g) (next_str g) (sweeping g).
Definition set_table h m g := Strtab (strs g) h m (strnum g) (strempty g) (next_str g) (sweeping g).
Definition set_strnum n g := Strtab (strs g) (strhash g) (strmask g) n (strempty g) (next_str g) (sweeping g).
Definition set_next_str p g := Strtab (strs g) (strhash g) (strmask g) (strnum g) (strempty g) p (sweeping g).

Definition get_str (p : ptr) : sprog gcstr := g <- get ;; orfail NullDeref (strs g !! p).
Definition put_str (p : ptr) (s : gcstr) : sprog unit := modify (fun g => set_strs (<[p := s]> (strs g)) g).

(** The chain a hash selects, and its first string. *)
Definition str_mask (h : Z) (mask : nat) : nat := Z.to_nat (Z.land h (Z.of_nat mask)).

(** One chain of the old table, each string put before its new chain. *)
Fixpoint rehash_chain (fuel : nat) (newmask : nat) (p : option ptr) (newhash : list (option ptr))
    : sprog (list (option ptr)) :=
  match p with
  | None => ret newhash
  | Some p =>
      match fuel with
      | O => fail OutOfFuel
      | S fuel =>
          s <- get_str p ;;
          let h := str_mask (s_hash s) newmask in
          first <- orfail OutOfBounds (newhash !! h) ;;
          put_str p (GCstr (s_data s) (s_hash s) first) ;;;
          rehash_chain fuel newmask (s_next s) (<[h := Some p]> newhash)
      end
  end.

(** The chains from the last one to the first. *)
Fixpoint rehash_chains (fuel : nat) (newmask : nat) (chains : list (option ptr)) (newhash : list (option ptr))
    : sprog (list (option ptr)) :=
  match chains with
  | [] => ret newhash
  | p :: chains => newhash <- rehash_chain fuel newmask p newhash ;; rehash_chains fuel newmask chains newhash
  end.

Definition lj_str_resize (newmask : nat) : sprog unit :=
  g <- get ;;
  if sweeping g || (LJ_MAX_STRTAB - 1 <=? Z.of_nat newmask) then skip
  else
    newhash <- rehash_chains (size (strs g)) newmask (reverse (strhash g)) (replicate (S newmask) None) ;;
    modify (set_table newhash newmask).

(** Searching and interning; [slack] is the memory after the text of any string
    object, its NUL and the padding. *)
Section New.
Context (slack : list Z).

(** [sx->len == len && str_fastcmp(..) == 0], or with [memcmp] where [near] is set:
    the text ends near the end of a page.  [tail] is the memory after the text. *)
Definition str_same (near : bool) (tail str data : list Z) : sprog bool :=
  if decide (length data = length str) then
    if near then ret (bool_decide (str = data))
    else r <- orfail OutOfBounds (str_fastcmp (str ++ tail) (data ++ slack) (length str)) ;; ret (r =? 0)
  else ret false.

(** The string of a chain with these bytes. *)
Fixpoint find_str (fuel : nat) (near : bool) (tail str : list Z) (o : option ptr) : sprog (option ptr) :=
  match o with
  | None => ret None
  | Some p =>
      match fuel with
      | O => fail OutOfFuel
      | S fuel =>
          s <- get_str p ;;
          same <- str_same near tail str (s_data s) ;;
          if same : bool then ret (Some p) else find_str fuel near tail str (s_next s)
      end
  end.

Definition lj_str_new (near : bool) (tail str : list Z) : sprog ptr :=
  let len := length str in
  if LJ_MAX_STR <=? Z.of_nat len then raise tt
  else
    g <- get ;;
    if decide (len = 0%nat) then ret (strempty g)
    else
      h <- orfail OutOfBounds (hash_bytes str) ;;
      first <- orfail OutOfBounds (strhash g !! str_mask h (strmask g)) ;;
      o <- find_str (S (size (strs g))) near tail str first ;;
      match o with
      | Some p => ret p
      | None =>
          let s := next_str g in
          modify (set_next_str (Pos.succ s)) ;;;
          put_str s (GCstr str h first) ;;;
          modify (set_table (<[str_mask h (strmask g) := Some s]> (strhash g)) (strmask g)) ;;;
          modify (set_strnum (strnum g + 1)) ;;;
          (when (Z.of_nat (strmask g) <? strnum g) do lj_str_resize (2 * strmask g + 1)) ;;;
          ret s
      end.
End New.
