(* ===== verification/LjStrCmp.v ===== *)
(** * Comparing strings four bytes at a time

    The bytes after the end of a string are read and do not matter: [lj_str_cmp]
    is the lexicographic order of the texts and [str_fastcmp] their equality. *)

From Stdlib Require Import ZArith Lia.
From stdpp Require Import base option list.
From S2P Require Import Prelude LjStr.

Local Open Scope Z_scope.

(** The order of the texts. *)
Fixpoint bytes_compare (a b : list Z) : comparison :=
  match a, b with
  | [], [] => Eq
  | [], _ => Lt
  | _, [] => Gt
  | x :: a, y :: b => match x ?= y with Eq => bytes_compare a b | c => c end
  end.

(** ** Words *)

Lemma word_val b0 b1 b2 b3 : is_byte b0 -> is_byte b1 -> is_byte b2 -> is_byte b3 ->
  word b0 b1 b2 b3 = b0 + b1 * 256 + b2 * 65536 + b3 * 16777216.
Proof.
  unfold is_byte. intros H0 H1 H2 H3.
  assert (word b0 b1 b2 b3 =
    Z.lor (Z.shiftl (Z.lor (Z.shiftl (Z.lor (Z.shiftl b3 8) b2) 8) b1) 8) b0) as ->.
  { unfold word. rewrite !Z.shiftl_lor, !Z.shiftl_shiftl by lia. simpl.
    rewrite (Z.lor_comm _ b0). f_equal. rewrite (Z.lor_comm _ (Z.shiftl b1 8)). f_equal. apply Z.lor_comm. }
  rewrite !lor_add by (simpl; lia). lia.
Qed.

(** The number with these big-endian digits. *)
Definition be (l : list Z) : Z := foldl (fun acc b => acc * 256 + b) 0 l.

Lemma foldl_be l : forall acc, foldl (fun acc b => acc * 256 + b) acc l = acc * 256 ^ Z.of_nat (length l) + be l.
Proof.
  unfold be. induction l as [|x l IH]; intros acc; cbn [foldl length]; [simpl; lia|].
  rewrite IH, (IH (0 * 256 + x)), Nat2Z.inj_succ, Z.pow_succ_r by lia. lia.
Qed.

Lemma be_cons x l : be (x :: l) = x * 256 ^ Z.of_nat (length l) + be l.
Proof. unfold be at 1. cbn [foldl]. by rewrite foldl_be. Qed.

Lemma be_range l : Forall is_byte l -> 0 <= be l < 256 ^ Z.of_nat (length l).
Proof.
  induction 1 as [|x l Hx _ IH]; [done|]. rewrite be_cons. cbn [length]. rewrite Nat2Z.inj_succ, Z.pow_succ_r by lia.
  unfold is_byte in Hx. nia.
Qed.

(** Numbers of equally many digits are ordered as their digits are. *)
Lemma be_compare u : forall w, Forall is_byte u -> Forall is_byte w -> length u = length w ->
  (be u ?= be w) = bytes_compare u w.
Proof.
  induction u as [|x u IH]; intros [|y w] Hu Hw Hl; try done. apply Forall_cons in Hu as [Hx Hu], Hw as [Hy Hw].
  injection Hl as Hl. cbn [bytes_compare]. rewrite !be_cons, Hl. pose proof (be_range u Hu) as Ru.
  pose proof (be_range w Hw) as Rw. rewrite Hl in Ru. set (p := 256 ^ Z.of_nat (length w)) in *.
  destruct (Z.compare_spec x y) as [->|Hlt|Hgt].
  - rewrite <- IH by done. destruct (Z.compare_spec (be u) (be w)); [apply Z.compare_eq_iff|apply Z.compare_lt_iff|apply Z.compare_gt_iff]; lia.
  - apply Z.compare_lt_iff. nia.
  - apply Z.compare_gt_iff. nia.
Qed.

Lemma bytes_compare_app u w a b : length u = length w ->
  bytes_compare (u ++ a) (w ++ b) = match bytes_compare u w with Eq => bytes_compare a b | c => c end.
Proof.
  revert w. induction u as [|x u IH]; intros [|y w] Hl; try done. cbn [app bytes_compare].
  injection Hl as Hl. destruct (x ?= y); [by apply IH|done..].
Qed.

Lemma bytes_compare_refl a : bytes_compare a a = Eq.
Proof. induction a as [|x a IH]; simpl; [done|]. by rewrite Z.compare_refl. Qed.

Lemma bytes_compare_eq a b : bytes_compare a b = Eq <-> a = b.
Proof.
  split; [|intros ->; apply bytes_compare_refl]. revert b. induction a as [|x a IH]; intros [|y b]; simpl; try done.
  destruct (Z.compare_spec x y) as [->|?|?]; try done. intros H. f_equal. by apply IH.
Qed.

(** Of a text and a text it begins, the longer is greater. *)
Lemma bytes_compare_prefix a b n : n = Nat.min (length a) (length b) -> take n a = take n b ->
  bytes_compare a b = (Z.of_nat (length a) ?= Z.of_nat (length b)).
Proof.
  intros Hn Ht. rewrite <- (take_drop n a), <- (take_drop n b), Ht at 1.
  rewrite bytes_compare_app, bytes_compare_refl by done.
  destruct (decide (length a <= length b)%nat).
  - rewrite (drop_ge a) by lia. destruct (drop n b) as [|y c] eqn:E; apply (f_equal length) in E; rewrite length_drop in E; simpl in E; symmetry;
      [apply Z.compare_eq_iff|apply Z.compare_lt_iff]; lia.
  - rewrite (drop_ge b) by lia. destruct (drop n a) as [|y c] eqn:E; apply (f_equal length) in E; rewrite length_drop in E; simpl in E; symmetry;
      [lia|apply Z.compare_gt_iff; lia].
Qed.

(** ** Four bytes of a text *)

Lemma getu32_run ma i : Forall is_byte ma -> (i + 4 <= length ma)%nat ->
  exists x0 x1 x2 x3, take 4 (drop i ma) = [x0; x1; x2; x3] /\ lj_getu32 ma i = Some (word x0 x1 x2 x3) /\
    Forall is_byte [x0; x1; x2; x3].
Proof.
  intros Hb Hl. assert (forall j, (j < length ma)%nat -> exists x, ma !! j = Some x) as Hx
    by (intros j Hj; by apply lookup_lt_is_Some_2).
  destruct (Hx i) as [x0 E0]; [lia|]. destruct (Hx (S i)) as [x1 E1]; [lia|].
  destruct (Hx (S (S i))) as [x2 E2]; [lia|]. destruct (Hx (S (S (S i)))) as [x3 E3]; [lia|].
  exists x0, x1, x2, x3. split; [|split].
  - rewrite (drop_S _ _ _ E0), (drop_S _ _ _ E1), (drop_S _ _ _ E2), (drop_S _ _ _ E3). done.
  - unfold lj_getu32. by rewrite E0, E1, E2, E3.
  - rewrite !Forall_cons. split_and!; try (by eapply Forall_lookup_1). constructor.
Qed.

Lemma word_inj x0 x1 x2 x3 y0 y1 y2 y3 : Forall is_byte [x0; x1; x2; x3] -> Forall is_byte [y0; y1; y2; y3] ->
  word x0 x1 x2 x3 = word y0 y1 y2 y3 <-> [x0; x1; x2; x3] = [y0; y1; y2; y3].
Proof.
  rewrite !Forall_cons. intros (? & ? & ? & ? & _) (? & ? & ? & ? & _). split; [|by intros [= -> -> -> ->]].
  rewrite !word_val by done. unfold is_byte in *. intros E.
  assert (x0 = y0 /\ x1 = y1 /\ x2 = y2 /\ x3 = y3) as (-> & -> & -> & ->); [|done]. lia.
Qed.

Lemma bswap_word x0 x1 x2 x3 : Forall is_byte [x0; x1; x2; x3] -> lj_bswap (word x0 x1 x2 x3) = be [x0; x1; x2; x3].
Proof.
  rewrite !Forall_cons. intros (H0 & H1 & H2 & H3 & _). rewrite word_val by done. unfold lj_bswap.
  rewrite !Z.shiftr_div_pow2 by lia. change 0xff with (Z.ones 8). rewrite !Z.land_ones by lia.
  unfold is_byte in *. change (2 ^ 24) with 16777216. change (2 ^ 16) with 65536. change (2 ^ 8) with 256.
  rewrite word_val by (unfold is_byte; lia). unfold be. cbn [foldl]. lia.
Qed.

(** The first [r] of four bytes, from the highest bits of their word. *)
Lemma be_shift x0 x1 x2 x3 r : Forall is_byte [x0; x1; x2; x3] -> (1 <= r <= 3)%nat ->
  Z.shiftr (be [x0; x1; x2; x3]) (32 + - Z.of_nat r * 8) = be (take r [x0; x1; x2; x3]).
Proof.
  rewrite !Forall_cons. intros (H0 & H1 & H2 & H3 & _) Hr. unfold is_byte in *.
  destruct r as [|[|[|[|r]]]]; try lia; rewrite Z.shiftr_div_pow2 by (simpl; lia); unfold be; cbn [foldl take].
  - change (2 ^ (32 + - Z.of_nat 1 * 8)) with 16777216. lia.
  - change (2 ^ (32 + - Z.of_nat 2 * 8)) with 65536. lia.
  - change (2 ^ (32 + - Z.of_nat 3 * 8)) with 256. lia.
Qed.

(** ** [lj_str_cmp] *)

Lemma diff_small a b : Z.abs a < 2 ^ 31 -> Z.abs b < 2 ^ 31 -> 0 <= a -> 0 <= b -> i32 (u32 (a - b)) = a - b.
Proof.
  change (2 ^ 31) with 2147483648. intros Ha Hb Ha0 Hb0.
  unfold wrap_s, wrap_u. change (2 ^ (32 - 1)) with 2147483648. change (2 ^ 32) with 4294967296. lia.
Qed.

Section Cmp.
Context (a b pa pb : list Z).
Context (Hab : Forall is_byte (a ++ pa)) (Hbb : Forall is_byte (b ++ pb)).
Context (Hpa : (3 <= length pa)%nat) (Hpb : (3 <= length pb)%nat).

(** The words at [i], an index into both texts, and the text bytes in them. *)
Lemma words_at i n : n = Nat.min (length a) (length b) -> (i < n)%nat ->
  exists x0 x1 x2 x3 y0 y1 y2 y3,
    lj_getu32 (a ++ pa) i = Some (word x0 x1 x2 x3) /\ lj_getu32 (b ++ pb) i = Some (word y0 y1 y2 y3) /\
    Forall is_byte [x0; x1; x2; x3] /\ Forall is_byte [y0; y1; y2; y3] /\
    take (Nat.min 4 (n - i)) (drop i a) = take (Nat.min 4 (n - i)) [x0; x1; x2; x3] /\
    take (Nat.min 4 (n - i)) (drop i b) = take (Nat.min 4 (n - i)) [y0; y1; y2; y3].
Proof.
  intros Hn Hi. assert (forall l p : list Z, i < length l -> take 4 (drop i (l ++ p)) = take 4 (drop i l ++ p))%nat as Hdrop
    by (intros l p ?; by rewrite drop_app_le by lia).
  destruct (getu32_run (a ++ pa) i Hab) as (x0 & x1 & x2 & x3 & Ex & Hx & Fx); [rewrite length_app; lia|].
  destruct (getu32_run (b ++ pb) i Hbb) as (y0 & y1 & y2 & y3 & Ey & Hy & Fy); [rewrite length_app; lia|].
  exists x0, x1, x2, x3, y0, y1, y2, y3. split_and!; try done; rewrite <- ?Ex, <- ?Ey, Hdrop, take_take by lia;
    rewrite take_app_le by (rewrite length_drop; lia); f_equal; lia.
Qed.

Lemma compare_from i n : n = Nat.min (length a) (length b) -> (i <= n)%nat -> take i a = take i b ->
  bytes_compare a b = bytes_compare (drop i a) (drop i b).
Proof.
  intros Hn Hi Ht. rewrite <- (take_drop i a), <- (take_drop i b), Ht at 1.
  by rewrite bytes_compare_app, bytes_compare_refl.
Qed.

Lemma take_more i j : take i a = take i b -> take j (drop i a) = take j (drop i b) -> take (i + j) a = take (i + j) b.
Proof. intros H1 H2. by rewrite <- !take_take_drop, H1, H2. Qed.

Lemma str_cmp_loop_run n fuel : n = Nat.min (length a) (length b) ->
  Z.of_nat (length a) < 2 ^ 31 -> Z.of_nat (length b) < 2 ^ 31 -> forall i,
  (n - i < fuel)%nat -> (n <= i -> take n a = take n b)%nat -> (i <= n -> take i a = take i b)%nat ->
  exists r, str_cmp_loop fuel (a ++ pa) (b ++ pb) n i (length a) (length b) = Some r /\ (r ?= 0) = bytes_compare a b.
Proof.
  intros Hn Hla Hlb. induction fuel as [|fuel IH]; intros i Hf Hend Heq; [lia|]. cbn [str_cmp_loop].
  assert (forall r, (n = i + r -> take i a = take i b -> take r (drop i a) = take r (drop i b) -> take n a = take n b)%nat) as Hjoin
    by (intros r -> ? ?; by apply take_more).
  assert (take n a = take n b -> (i32 (u32 (Z.of_nat (length a) - Z.of_nat (length b))) ?= 0) = bytes_compare a b) as Hdiff.
  { intros Ht. rewrite (bytes_compare_prefix a b n Hn Ht), diff_small by lia.
    destruct (Z.compare_spec (Z.of_nat (length a)) (Z.of_nat (length b)));
      [apply Z.compare_eq_iff|apply Z.compare_lt_iff|apply Z.compare_gt_iff]; lia. }
  destruct (decide (i < n)%nat) as [Hi|Hi]; [|eexists; split; [done|]; apply Hdiff, Hend; lia].
  destruct (words_at i n Hn Hi) as (x0 & x1 & x2 & x3 & y0 & y1 & y2 & y3 & -> & -> & Fx & Fy & Tx & Ty).
  cbn [mbind option_bind]. specialize (Heq ltac:(lia)). pose proof (word_inj _ _ _ _ _ _ _ _ Fx Fy) as Hinj.
  destruct (decide (word x0 x1 x2 x3 = word y0 y1 y2 y3)) as [E|E].
  - apply Hinj in E. rewrite E, <- Ty in Tx. apply IH; [lia|intros Hle..].
    + apply (Hjoin (Nat.min 4 (n - i))); [lia|done|done].
    + apply take_more; [done|]. by replace (Nat.min 4 (n - i)) with 4%nat in Tx by lia.
  - rewrite !bswap_word by done. rewrite diff_small by lia.
    assert (bytes_compare a b = match bytes_compare (take (Nat.min 4 (n - i)) [x0; x1; x2; x3]) (take (Nat.min 4 (n - i)) [y0; y1; y2; y3])
      with Eq => bytes_compare a b | c => c end) as Hcmp.
    { rewrite <- Tx, <- Ty. destruct (bytes_compare (take _ (drop i a)) _) eqn:Ec; [done|..];
        rewrite (compare_from i n Hn) by (lia || done);
        rewrite <- (take_drop (Nat.min 4 (n - i)) (drop i a)), <- (take_drop (Nat.min 4 (n - i)) (drop i b));
        rewrite bytes_compare_app by (rewrite !length_take, !length_drop; lia); by rewrite Ec. }
    destruct (Z.leb_spec (-3) (Z.of_nat i - Z.of_nat n)) as [Hd|Hd].
    + replace (Z.of_nat i - Z.of_nat n) with (- Z.of_nat (n - i)) by lia. rewrite !be_shift by (done || lia).
      replace (Nat.min 4 (n - i)) with (n - i)%nat in * by lia. rewrite Hcmp, <- be_compare.
      * destruct (Z.compare_spec (be (take (n - i) [x0; x1; x2; x3])) (be (take (n - i) [y0; y1; y2; y3]))) as [Eb|Hlt|Hgt].
        -- rewrite Eb, Z.eqb_refl. eexists. split; [done|]. apply Hdiff, (Hjoin (n - i)%nat); [lia|done|].
           rewrite Tx, Ty. apply bytes_compare_eq. rewrite <- be_compare; [by rewrite Eb, Z.compare_refl|..];
             [by apply Forall_take|by apply Forall_take|by rewrite !length_take].
        -- rewrite (proj2 (Z.eqb_neq _ _)) by lia. rewrite (proj2 (Z.ltb_lt _ _)) by lia. by eexists.
        -- rewrite (proj2 (Z.eqb_neq _ _)) by lia. rewrite (proj2 (Z.ltb_ge _ _)) by lia. by eexists.
      * by apply Forall_take.
      * by apply Forall_take.
      * by rewrite !length_take.
    + replace (Nat.min 4 (n - i)) with 4%nat in * by lia. cbn [take] in Hcmp. rewrite Hcmp, <- be_compare by done.
      destruct (Z.compare_spec (be [x0; x1; x2; x3]) (be [y0; y1; y2; y3])) as [Eb|Hlt|Hgt].
      * destruct E. apply Hinj, bytes_compare_eq. rewrite <- be_compare by done. by rewrite Eb, Z.compare_refl.
      * rewrite (proj2 (Z.ltb_lt _ _)) by lia. by eexists.
      * rewrite (proj2 (Z.ltb_ge _ _)) by lia. by eexists.
Qed.

Lemma lj_str_cmp_run : Z.of_nat (length a) < 2 ^ 31 -> Z.of_nat (length b) < 2 ^ 31 ->
  exists r, lj_str_cmp (a ++ pa) (length a) (b ++ pb) (length b) = Some r /\ (r ?= 0) = bytes_compare a b.
Proof.
  intros Ha Hb. unfold lj_str_cmp.
  assert ((if decide (length b < length a)%nat then length b else length a) = Nat.min (length a) (length b)) as ->
    by (case_decide; lia).
  apply str_cmp_loop_run; [done|done|done|lia| |done]. intros Hz. by replace (Nat.min (length a) (length b)) with 0%nat by lia.
Qed.

(** ** [str_fastcmp] *)

Lemma xor_mod u v k : 0 <= k -> (Z.lxor u v) mod 2 ^ k = 0 <-> u mod 2 ^ k = v mod 2 ^ k.
Proof.
  intros Hk. rewrite <- !Z.land_ones by done. rewrite <- (Z.lxor_eq_0_iff (Z.land u _) (Z.land v _)).
  assert (Z.land (Z.lxor u v) (Z.ones k) = Z.lxor (Z.land u (Z.ones k)) (Z.land v (Z.ones k))) as ->; [|done].
  apply Z.bits_inj'. intros n Hn. rewrite !Z.lxor_spec, !Z.land_spec, Z.lxor_spec.
  by destruct (Z.testbit u n), (Z.testbit v n), (Z.testbit (Z.ones k) n).
Qed.

Lemma shiftl_zero v k : 0 <= k <= 32 -> i32 (u32 (Z.shiftl v (32 + - k))) = 0 <-> v mod 2 ^ k = 0.
Proof.
  intros Hk. assert (u32 (Z.shiftl v (32 + - k)) = (v mod 2 ^ k) * 2 ^ (32 + - k)) as E.
  { unfold wrap_u. rewrite Z.shiftl_mul_pow2 by lia. replace (2 ^ 32) with (2 ^ k * 2 ^ (32 + - k))
      by (rewrite <- Z.pow_add_r by lia; f_equal; lia). rewrite Z.mul_mod_distr_r; [done|apply Z.pow_nonzero; lia..]. }
  pose proof (wrap_u_range 32 (Z.shiftl v (32 + - k)) ltac:(lia)) as Hr.
  assert (i32 (u32 (Z.shiftl v (32 + - k))) = 0 <-> u32 (Z.shiftl v (32 + - k)) = 0) as ->.
  { revert Hr. generalize (u32 (Z.shiftl v (32 + - k))). intros z. unfold wrap_s.
    change (2 ^ (32 - 1)) with 2147483648. change (2 ^ 32) with 4294967296. lia. }
  rewrite E. assert (2 ^ (32 + - k) <> 0) by (apply Z.pow_nonzero; lia). nia.
Qed.

Lemma word_mod x0 x1 x2 x3 y0 y1 y2 y3 r : Forall is_byte [x0; x1; x2; x3] -> Forall is_byte [y0; y1; y2; y3] -> (1 <= r <= 3)%nat ->
  word x0 x1 x2 x3 mod 2 ^ (Z.of_nat r * 8) = word y0 y1 y2 y3 mod 2 ^ (Z.of_nat r * 8) <->
  take r [x0; x1; x2; x3] = take r [y0; y1; y2; y3].
Proof.
  rewrite !Forall_cons. intros (? & ? & ? & ? & _) (? & ? & ? & ? & _) Hr. rewrite !word_val by done. unfold is_byte in *.
  destruct r as [|[|[|[|r]]]]; try lia; cbn [take].
  - change (2 ^ (Z.of_nat 1 * 8)) with 256. split; [intros E; f_equal; lia|intros [= ->]; lia].
  - change (2 ^ (Z.of_nat 2 * 8)) with 65536. split; [intros E; assert (x0 = y0 /\ x1 = y1) as [-> ->] by lia; done|intros [= -> ->]; lia].
  - change (2 ^ (Z.of_nat 3 * 8)) with 16777216.
    split; [intros E; assert (x0 = y0 /\ x1 = y1 /\ x2 = y2) as (-> & -> & ->) by lia; done|intros [= -> -> ->]; lia].
Qed.

Lemma str_fastcmp_loop_run fuel : length a = length b -> Z.of_nat (length a) < 2 ^ 31 -> forall i,
  (length a - i <= fuel)%nat -> (i < length a)%nat -> take i a = take i b ->
  exists r, str_fastcmp_loop fuel (a ++ pa) (b ++ pb) (length a) i = Some r /\ (r = 0 <-> a = b).
Proof.
  intros Hl Hla. assert (length a = Nat.min (length a) (length b)) as Hn by lia.
  induction fuel as [|fuel IH]; intros i Hf Hi Heq; [lia|]. cbn [str_fastcmp_loop].
  destruct (words_at i (length a) Hn Hi) as (x0 & x1 & x2 & x3 & y0 & y1 & y2 & y3 & -> & -> & Fx & Fy & Tx & Ty).
  cbn [mbind option_bind]. cbv zeta. pose proof (word_inj _ _ _ _ _ _ _ _ Fx Fy) as Hinj.
  assert (forall r, (i + r = length a)%nat -> take r (drop i a) = take r (drop i b) <-> a = b) as Hwhole.
  { intros r Hr. split; [|by intros ->]. intros E. pose proof (take_more i r Heq E) as Ht.
    by rewrite !take_ge in Ht by lia. }
  destruct (Z.eqb_spec (Z.lxor (word x0 x1 x2 x3) (word y0 y1 y2 y3)) 0) as [E|E]; rewrite Z.lxor_eq_0_iff in E.
  - apply Hinj in E. rewrite E, <- Ty in Tx. destruct (decide (i + 4 < length a)%nat).
    + apply IH; [lia|done|]. apply take_more; [done|]. by replace (Nat.min 4 (length a - i)) with 4%nat in Tx by lia.
    + exists 0. split; [done|]. split; [|done]. intros _. apply (Hwhole (Nat.min 4 (length a - i))); [lia|done].
  - rewrite diff_small by lia. eexists. split; [done|].
    destruct (Z.leb_spec (-3) (Z.of_nat i - Z.of_nat (length a))) as [Hd|Hd].
    + replace (32 + (Z.of_nat i - Z.of_nat (length a)) * 8) with (32 + - (Z.of_nat (length a - i) * 8)) by lia.
      rewrite shiftl_zero, xor_mod, word_mod by (done || lia).
      replace (Nat.min 4 (length a - i)) with (length a - i)%nat in * by lia.
      rewrite <- Tx, <- Ty. apply Hwhole. lia.
    + split; [done|]. intros Hab'. destruct E. apply Hinj.
      replace (Nat.min 4 (length a - i)) with 4%nat in * by lia. cbn [take] in *. by rewrite <- Tx, <- Ty, Hab'.
Qed.

Lemma str_fastcmp_run : length a = length b -> a <> [] -> Z.of_nat (length a) < 2 ^ 31 ->
  exists r, str_fastcmp (a ++ pa) (b ++ pb) (length a) = Some r /\ (r = 0 <-> a = b).
Proof.
  intros Hl Hne Hla. apply str_fastcmp_loop_run; [done|done|lia| |done]. destruct a; [done|simpl; lia].
Qed.
End Cmp.
