(* ===== verification/LjStrTab.v ===== *)
(** * The string table

    The chains of the table hold every string once, in the chain of its hash;
    a search ends and finds the string of a text, a resize moves the strings to
    their new chains. *)

From Stdlib Require Import ZArith Lia.
From stdpp Require Import base option strings countable gmap list.
From S2P Require Import Prelude LjStr LjStrCmp.

Local Open Scope Z_scope.
Local Open Scope prog_scope.

Implicit Types (g : strtab) (m : gmap ptr gcstr) (css : list (list ptr)).

(** ** Chains *)

(** The chain [c] of strings, from the pointer [o]. *)
Fixpoint schain m (o : option ptr) (c : list ptr) : Prop :=
  match c with
  | [] => o = None
  | p :: c => o = Some p /\ exists s, m !! p = Some s /\ schain m (s_next s) c
  end.

Lemma schain_ext m m' c : forall o, (forall p, p ∈ c -> m' !! p = m !! p) -> schain m o c -> schain m' o c.
Proof.
  induction c as [|p c IH]; intros o He; simpl; [done|]. intros [-> (s & Hp & Hc)]. split; [done|].
  exists s. rewrite He by set_solver. split; [done|]. apply IH; [|done]. intros q Hq. apply He. set_solver.
Qed.

Lemma schain_in m c : forall o p, schain m o c -> p ∈ c -> is_Some (m !! p).
Proof.
  induction c as [|q c IH]; intros o p; simpl; [set_solver|].
  intros [-> (s & Hq & Hc)] [->|Hp]%elem_of_cons; [by exists s|by eapply IH].
Qed.

(** The texts of the strings, whatever their links. *)
Definition same_texts m m' : Prop := forall p, (fun s => (s_data s, s_hash s)) <$> m' !! p = (fun s => (s_data s, s_hash s)) <$> m !! p.

Lemma same_texts_some m m' p s : same_texts m m' -> m !! p = Some s ->
  exists s', m' !! p = Some s' /\ s_data s' = s_data s /\ s_hash s' = s_hash s.
Proof.
  intros H Hp. specialize (H p). rewrite Hp in H. destruct (m' !! p) as [s'|]; [|done].
  injection H as E1 E2. by exists s'.
Qed.

Lemma same_texts_back m m' p s' : same_texts m m' -> m' !! p = Some s' ->
  exists s, m !! p = Some s /\ s_data s' = s_data s /\ s_hash s' = s_hash s.
Proof.
  intros H Hp. specialize (H p). rewrite Hp in H. destruct (m !! p) as [s|]; [|done].
  injection H as E1 E2. by exists s.
Qed.

Lemma same_texts_dom m m' p : same_texts m m' -> is_Some (m' !! p) <-> is_Some (m !! p).
Proof. intros H. by rewrite <- !(fmap_is_Some (fun s => (s_data s, s_hash s))), (H p). Qed.

Lemma same_texts_size m m' : same_texts m m' -> size m' = size m.
Proof.
  intros H. rewrite <- !size_dom. f_equal. apply set_eq. intros p. rewrite !elem_of_dom. by apply same_texts_dom.
Qed.

Lemma same_texts_trans m1 m2 m3 : same_texts m1 m2 -> same_texts m2 m3 -> same_texts m1 m3.
Proof. intros H1 H2 p. by rewrite (H2 p). Qed.

Lemma same_texts_relink m p s o : m !! p = Some s -> same_texts m (<[p := GCstr (s_data s) (s_hash s) o]> m).
Proof.
  intros Hp q. destruct (decide (p = q)) as [<-|]; [by rewrite lookup_insert_eq, Hp|by rewrite lookup_insert_ne].
Qed.

(** ** The table *)

(** The links of the table [hs] are the chains [css], of distinct strings, each
    string in the chain its hash selects. *)
Record chained m (hs : list (option ptr)) (mask : nat) css : Prop := {
  cn_length : length css = S mask;
  cn_heads : Forall2 (schain m) hs css;
  cn_nodup : NoDup (concat css);
  cn_place i c p s : css !! i = Some c -> p ∈ c -> m !! p = Some s -> str_mask (s_hash s) mask = i
}.

Record str_ok g css : Prop := {
  so_chains : chained (strs g) (strhash g) (strmask g) css;
  so_mask : exists b, strmask g = (2 ^ b - 1)%nat;
  so_all p : is_Some (strs g !! p) -> p ∈ concat css;
  so_hash p s : strs g !! p = Some s -> hash_bytes (s_data s) = Some (s_hash s) /\ s_data s <> [] /\ Forall is_byte (s_data s) /\
    Z.of_nat (length (s_data s)) < LJ_MAX_STR;
  so_uniq p q s s' : strs g !! p = Some s -> strs g !! q = Some s' -> s_data s = s_data s' -> p = q;
  so_fresh p : is_Some (strs g !! p) -> (p < next_str g)%positive;
  so_empty : strs g !! strempty g = None /\ (strempty g < next_str g)%positive;
  so_num : strnum g = Z.of_nat (size (strs g))
}.

(** The text of a string object. *)
Definition str_text g (p : ptr) : option (list Z) :=
  if decide (p = strempty g) then Some [] else s_data <$> strs g !! p.

Lemma str_mask_lt h b : (str_mask h (2 ^ b - 1) < 2 ^ b)%nat.
Proof.
  unfold str_mask. rewrite Nat2Z.inj_sub by (apply Nat.neq_0_lt_0, Nat.pow_nonzero; lia).
  rewrite Nat2Z.inj_pow. change (Z.of_nat 2) with 2. change (Z.of_nat 1) with 1.
  replace (2 ^ Z.of_nat b - 1) with (Z.ones (Z.of_nat b)) by (rewrite Z.ones_equiv; lia).
  rewrite Z.land_ones by lia. pose proof (Z.mod_pos_bound h (2 ^ Z.of_nat b) ltac:(apply Z.pow_pos_nonneg; lia)).
  rewrite Nat2Z.inj_lt, Nat2Z.inj_pow. change (Z.of_nat 2) with 2. lia.
Qed.

(** No access of the hash is outside the text. *)
Lemma hash_bytes_some str : exists h, hash_bytes str = Some h.
Proof.
  assert (forall i, (i + 4 <= length str)%nat -> exists w, lj_getu32 str i = Some w) as Hw.
  { intros i Hi. assert (forall j, (j < length str)%nat -> exists x, str !! j = Some x) as Hx
      by (intros j Hj; by apply lookup_lt_is_Some_2). unfold lj_getu32.
    destruct (Hx i) as [? ->]; [lia|]. destruct (Hx (S i)) as [? ->]; [lia|].
    destruct (Hx (S (S i))) as [? ->]; [lia|]. destruct (Hx (S (S (S i)))) as [? ->]; [lia|]. by eexists. }
  unfold hash_bytes. cbv zeta. case_decide as H4.
  - pose proof (Nat.div_mod_eq (length str) 2). pose proof (Nat.div_mod_eq (length str) 4).
    destruct (Hw 0%nat) as [? ->]; [lia|]. destruct (Hw (length str - 4)%nat) as [? ->]; [lia|].
    destruct (Hw (length str / 2 - 2)%nat) as [? ->]; [lia|]. destruct (Hw (length str / 4 - 1)%nat) as [? ->]; [lia|].
    by eexists.
  - case_decide as H0; [|by eexists].
    destruct (lookup_lt_is_Some_2 str 0 H0) as [? ->].
    destruct (lookup_lt_is_Some_2 str (length str - 1)) as [? ->]; [lia|].
    destruct (lookup_lt_is_Some_2 str (length str / 2)) as [? ->]; [lia|]. by eexists.
Qed.

(** A chain is not longer than there are strings. *)
Lemma chain_size m o c : schain m o c -> NoDup c -> (length c <= size m)%nat.
Proof.
  intros Hc Hnd. rewrite <- size_dom, <- (size_list_to_set (C := gset ptr) c Hnd). apply subseteq_size.
  intros p Hp%elem_of_list_to_set. apply elem_of_dom. by eapply schain_in.
Qed.

Lemma NoDup_concat_elem (css : list (list ptr)) c : NoDup (concat css) -> c ∈ css -> NoDup c.
Proof.
  intros Hnd (l1 & l2 & ->)%list_elem_of_split. rewrite concat_app in Hnd. simpl in Hnd.
  apply NoDup_app in Hnd as (_ & _ & Hnd). by apply NoDup_app in Hnd as (Hnd & _ & _).
Qed.

(** ** Searching *)

Section Search.
Context (slack : list Z) (Hslack : Forall is_byte slack) (Hlen : (3 <= length slack)%nat).

Lemma get_str_run g p s : strs g !! p = Some s -> get_str p g = Ret s g.
Proof. intros H. unfold get_str, bind, get. by rewrite H. Qed.

(** Both ways of comparing are the equality of the texts. *)
Lemma str_same_run near tail str data g : Forall is_byte (str ++ tail) -> Forall is_byte data ->
  (near = false -> 3 <= length tail)%nat -> str <> [] -> Z.of_nat (length str) < 2 ^ 31 ->
  str_same slack near tail str data g = Ret (bool_decide (str = data)) g.
Proof.
  intros Hs Hd Htail Hne Hl. unfold str_same. case_decide as El.
  - destruct near; [done|].
    destruct (str_fastcmp_run str data tail slack Hs) as (r & Hr & E); [by apply Forall_app|auto|done|done|done|done|].
    rewrite Hr. unfold bind, orfail, ret. f_equal.
    apply Bool.eq_iff_eq_true. by rewrite Z.eqb_eq, bool_decide_eq_true.
  - rewrite bool_decide_false; [done|]. by intros ->.
Qed.

Lemma find_str_run g near tail str c : Forall is_byte (str ++ tail) -> (near = false -> 3 <= length tail)%nat ->
  str <> [] -> Z.of_nat (length str) < 2 ^ 31 -> forall fuel o, schain (strs g) o c -> (length c < fuel)%nat ->
  (forall p s, strs g !! p = Some s -> Forall is_byte (s_data s)) ->
  exists r, find_str slack fuel near tail str o g = Ret r g /\
  match r with
  | Some p => p ∈ c /\ exists s, strs g !! p = Some s /\ s_data s = str
  | None => forall p s, p ∈ c -> strs g !! p = Some s -> s_data s <> str
  end.
Proof.
  intros Hs Htail Hne Hl. induction c as [|p c IH]; intros [|fuel] o Hc Hf Hb; try (simpl in Hf; lia); simpl in Hc.
  - subst o. exists None. split; [done|]. set_solver.
  - destruct Hc as [-> (s & Hp & Hc)]. cbn [find_str]. rewrite (bind_step _ _ _ _ _ (get_str_run g p s Hp)).
    rewrite (bind_step _ _ _ _ _ (str_same_run near tail str (s_data s) g Hs (Hb p s Hp) Htail Hne Hl)).
    case_bool_decide as E.
    + exists (Some p). split; [done|]. split; [set_solver|]. by exists s.
    + destruct (IH fuel (s_next s) Hc) as (r & Hr & Hrr); [simpl in Hf; lia|done|]. exists r. split; [done|].
      destruct r as [q|]; [destruct Hrr; split; [set_solver|done]|].
      intros q s' [->|Hq]%elem_of_cons Hq'; [|by eapply Hrr]. intros E'. congruence.
Qed.
End Search.

(** ** Adding a string to a chain *)

Lemma Forall2_schain_ext m m' hs css : (forall p, p ∈ concat css -> m' !! p = m !! p) ->
  Forall2 (schain m) hs css -> Forall2 (schain m') hs css.
Proof.
  intros He H. induction H as [|o c hs css Hc _ IH]; [done|]. simpl in He. constructor.
  - eapply schain_ext; [|exact Hc]. intros. apply He. set_solver.
  - apply IH. intros. apply He. set_solver.
Qed.

Lemma elem_concat_lookup css i c p : css !! i = Some c -> p ∈ c -> p ∈ concat css.
Proof.
  intros Hi Hp. apply list_elem_of_split_length in Hi as (l1 & l2 & -> & _).
  rewrite concat_app. simpl. set_solver.
Qed.

Lemma concat_insert css i c p : css !! i = Some c -> concat (<[i := p :: c]> css) ≡ₚ p :: concat css.
Proof.
  intros Hi. pose proof (lookup_lt_Some _ _ _ Hi) as Hlt.
  rewrite <- (take_drop_middle css i c Hi) at 2. rewrite insert_take_drop by done.
  rewrite !concat_app. simpl. by rewrite <- Permutation_middle.
Qed.

(** The string [p] is put before the chain of its hash. *)
Lemma chained_cons m hs mask css p s i : chained m hs mask css -> p ∉ concat css -> str_mask (s_hash s) mask = i ->
  (i <= mask)%nat -> exists o c, hs !! i = Some o /\ css !! i = Some c /\
    forall m', (forall q, q ∈ concat css -> m' !! q = m !! q) -> m' !! p = Some (GCstr (s_data s) (s_hash s) o) ->
    chained m' (<[i := Some p]> hs) mask (<[i := p :: c]> css).
Proof.
  intros [Hl Hh Hnd Hpl] Hp Hi Hle. destruct (lookup_lt_is_Some_2 css i) as [c Hc]; [lia|].
  destruct (Forall2_lookup_r _ _ _ _ _ Hh Hc) as (o & Ho & Hoc). exists o, c. split; [done|]. split; [done|].
  intros m' He Hm'. pose proof (concat_insert css i c p Hc) as Hcat. split.
  - by rewrite length_insert.
  - apply Forall2_insert; [by eapply Forall2_schain_ext|]. split; [done|]. eexists. split; [done|].
    eapply schain_ext; [|exact Hoc]. intros q Hq. apply He. by eapply elem_concat_lookup.
  - rewrite Hcat. by constructor.
  - intros j d q s' Hj Hq Hs'. apply list_lookup_insert_Some in Hj as [(-> & <- & _)|[Hne Hj]].
    + apply elem_of_cons in Hq as [->|Hq]; [rewrite Hm' in Hs'; by injection Hs' as <-|].
      rewrite He in Hs' by (by eapply elem_concat_lookup). by eapply Hpl.
    + rewrite He in Hs' by (by eapply elem_concat_lookup). by eapply Hpl.
Qed.

(** ** Resizing *)

Lemma put_str_run g p s : put_str p s g = Ret tt (set_strs (<[p := s]> (strs g)) g).
Proof. done. Qed.

Lemma set_strs_same g : set_strs (strs g) g = g.
Proof. by destruct g. Qed.

(** One chain is moved: its strings go to the front of their new chains. *)
Lemma rehash_chain_run mask b c : mask = (2 ^ b - 1)%nat -> forall fuel g o nh ncss,
  schain (strs g) o c -> (length c <= fuel)%nat -> NoDup c -> chained (strs g) nh mask ncss ->
  (forall p, p ∈ c -> p ∉ concat ncss) ->
  exists nh' ncss' m', rehash_chain fuel mask o nh g = Ret nh' (set_strs m' g) /\ chained m' nh' mask ncss' /\
    concat ncss' ≡ₚ c ++ concat ncss /\ same_texts (strs g) m' /\
    forall p, p ∉ c -> p ∉ concat ncss -> m' !! p = strs g !! p.
Proof.
  intros Hmask. induction c as [|p c IH]; intros fuel g o nh ncss Hc Hf Hnd Hch Hout.
  - simpl in Hc. subst o. exists nh, ncss, (strs g). rewrite set_strs_same. split_and!; try done.
    by destruct fuel.
  - destruct Hc as [-> (s & Hp & Hc)]. destruct fuel as [|fuel]; [simpl in Hf; lia|]. cbn [rehash_chain].
    apply NoDup_cons in Hnd as [Hpc Hnd]. rewrite (bind_step _ _ _ _ _ (get_str_run g p s Hp)).
    assert (2 ^ b <> 0)%nat by (by apply Nat.pow_nonzero).
    assert (str_mask (s_hash s) mask <= mask)%nat as Hle by (subst mask; pose proof (str_mask_lt (s_hash s) b); lia).
    destruct (chained_cons _ _ _ _ p s _ Hch (Hout p ltac:(by left)) eq_refl Hle) as (ho & hc & Hho & Hhc & Hcons).
    cbv zeta. rewrite (bind_step _ _ _ _ _ (orfail_run _ _ _ _ Hho)), (bind_step _ _ _ _ _ (put_str_run g p _)).
    set (s1 := GCstr (s_data s) (s_hash s) ho). set (g1 := set_strs (<[p := s1]> (strs g)) g).
    assert (forall q, q <> p -> strs g1 !! q = strs g !! q) as Hg1 by (intros q Hq; by apply lookup_insert_ne).
    destruct (IH fuel g1 (s_next s) (<[str_mask (s_hash s) mask := Some p]> nh) (<[str_mask (s_hash s) mask := p :: hc]> ncss))
      as (nh' & ncss' & m' & Hr & Hch' & Hcat & Hsame & Hrest).
    + eapply schain_ext; [|exact Hc]. intros q Hq. apply Hg1. by intros ->.
    + simpl in Hf. lia.
    + done.
    + apply Hcons; [|apply lookup_insert_eq]. intros q Hq. apply Hg1. intros ->. by apply (Hout p); [left|].
    + intros q Hq. rewrite concat_insert by done. intros [->|Hq2]%elem_of_cons; [done|]. by apply (Hout q); [right|].
    + exists nh', ncss', m'. split; [exact Hr|]. split; [done|]. split; [|split].
      * rewrite Hcat, concat_insert by done. by rewrite <- Permutation_middle.
      * eapply same_texts_trans; [|exact Hsame]. by apply same_texts_relink.
      * intros q Hq1 Hq2. rewrite Hrest; [apply Hg1; set_solver|set_solver|].
        rewrite concat_insert by done. set_solver.
Qed.

Lemma rehash_chains_run mask b fuel : mask = (2 ^ b - 1)%nat -> forall cs hs g nh ncss,
  Forall2 (schain (strs g)) hs cs -> NoDup (concat cs) -> (size (strs g) <= fuel)%nat ->
  chained (strs g) nh mask ncss -> (forall p, p ∈ concat cs -> p ∉ concat ncss) ->
  exists nh' ncss' m', rehash_chains fuel mask hs nh g = Ret nh' (set_strs m' g) /\ chained m' nh' mask ncss' /\
    concat ncss' ≡ₚ concat cs ++ concat ncss /\ same_texts (strs g) m'.
Proof.
  intros Hmask. induction cs as [|c cs IH]; intros hs g nh ncss Hhs Hnd Hf Hch Hout.
  - apply Forall2_nil_inv_r in Hhs as ->. exists nh, ncss, (strs g). by rewrite set_strs_same.
  - apply Forall2_cons_inv_r in Hhs as (o & hs' & Hc & Hhs & ->). simpl in Hnd. apply NoDup_app in Hnd as (Hnc & Hdis & Hnd).
    cbn [rehash_chains].
    destruct (rehash_chain_run mask b c Hmask fuel g o nh ncss Hc) as (nh1 & ncss1 & m1 & Hr & Hch1 & Hcat1 & Hsame1 & Hrest1).
    + pose proof (chain_size _ _ _ Hc Hnc). lia.
    + done.
    + done.
    + intros p Hp. apply Hout. simpl. set_solver.
    + rewrite (bind_step _ _ _ _ _ Hr).
      destruct (IH hs' (set_strs m1 g) nh1 ncss1) as (nh' & ncss' & m' & Hr' & Hch' & Hcat' & Hsame').
      * eapply Forall2_schain_ext; [|exact Hhs]. intros p Hp. apply Hrest1; [|apply Hout; simpl; set_solver].
        intros Hpc. by apply (Hdis p).
      * done.
      * cbn [set_strs strs]. by rewrite (same_texts_size (strs g) m1).
      * done.
      * intros p Hp. rewrite Hcat1. intros [Hpc|Hpn]%elem_of_app; [by apply (Hdis p)|].
        apply (Hout p); [simpl; set_solver|done].
      * exists nh', ncss', m'. split; [exact Hr'|]. split; [done|]. split; [|by eapply same_texts_trans].
        rewrite Hcat', Hcat1. simpl. rewrite !app_assoc. f_equiv. apply Permutation_app_comm.
Qed.

Lemma concat_empty n : concat (replicate n (@nil ptr)) = [].
Proof. by induction n. Qed.

Lemma empty_chained m mask : chained m (replicate (S mask) None) mask (replicate (S mask) []).
Proof.
  split.
  - by rewrite length_replicate.
  - induction (S mask); simpl; by constructor.
  - rewrite concat_empty. constructor.
  - intros i c p s Hi Hp. pose proof (elem_concat_lookup _ _ _ _ Hi Hp) as Hin. rewrite concat_empty in Hin. set_solver.
Qed.

(** The tables before and after an operation that moves strings only. *)
Definition same_strings g g' : Prop :=
  same_texts (strs g) (strs g') /\ strempty g' = strempty g /\ next_str g' = next_str g /\ strnum g' = strnum g.

Lemma same_strings_ok g g' css css' : str_ok g css -> same_strings g g' ->
  chained (strs g') (strhash g') (strmask g') css' -> (exists b, strmask g' = (2 ^ b - 1)%nat) ->
  concat css' ≡ₚ concat css -> str_ok g' css'.
Proof.
  intros [Hch Hmask Hall Hhash Huniq Hfresh [He1 He2] Hnum] (Hs & E1 & E2 & E3) Hch' Hmask' Hcat.
  pose proof (fun p => same_texts_dom _ _ p Hs) as Hdom. split; try done.
  - intros p Hp. rewrite Hcat. by apply Hall, Hdom.
  - intros p s' Hp. destruct (same_texts_back _ _ _ _ Hs Hp) as (s & Hp0 & -> & ->). by eapply Hhash.
  - intros p q s' s2' Hp Hq E. destruct (same_texts_back _ _ _ _ Hs Hp) as (s & Hp0 & Ep & _).
    destruct (same_texts_back _ _ _ _ Hs Hq) as (s2 & Hq0 & Eq & _). eapply Huniq; [done|done|congruence].
  - intros p Hp. rewrite E2. by apply Hfresh, Hdom.
  - rewrite E1, E2. split; [|done]. destruct (strs g' !! strempty g) as [s|] eqn:E; [|done].
    destruct (proj1 (Hdom (strempty g))); [by eexists|congruence].
  - by rewrite E3, Hnum, (same_texts_size _ _ Hs).
Qed.

Lemma lj_str_resize_run mask b g css : mask = (2 ^ b - 1)%nat -> str_ok g css ->
  exists g' css', lj_str_resize mask g = Ret tt g' /\ str_ok g' css' /\ same_strings g g'.
Proof.
  intros Hmask H. unfold lj_str_resize. change (bind get ?f g) with (f g g). cbv beta.
  destruct (sweeping g || _); [by exists g, css|].
  destruct (so_chains _ _ H) as [Hl Hh Hnd Hpl].
  assert (concat (reverse css) ≡ₚ concat css) as Hrev by (by rewrite reverse_Permutation).
  destruct (rehash_chains_run mask b (size (strs g)) Hmask (reverse css) (reverse (strhash g)) g
    (replicate (S mask) None) (replicate (S mask) [])) as (nh & ncss & m' & Hr & Hch & Hcat & Hsame).
  - by apply Forall2_reverse.
  - by rewrite Hrev.
  - done.
  - apply empty_chained.
  - intros p _. rewrite concat_empty. set_solver.
  - rewrite (bind_step _ _ _ _ _ Hr). exists (set_table nh mask (set_strs m' g)), ncss.
    rewrite concat_empty, app_nil_r, Hrev in Hcat. split; [done|]. assert (same_strings g (set_table nh mask (set_strs m' g))) as Hss by done.
    split; [|done]. eapply same_strings_ok; [done|done|exact Hch|by exists b|done].
Qed.
