(* ===== verification/LjStrProps.v ===== *)
(** * What strings do

    The comparisons of [LjStr] are the order and the equality of texts, whatever
    memory follows them, and interning gives one object for each text. *)

From Stdlib Require Import ZArith Lia.
From stdpp Require Import base option strings countable gmap list.
From S2P Require Import Prelude LjStr LjStrCmp LjStrTab.

Local Open Scope Z_scope.
Local Open Scope prog_scope.

Definition strtab_ok (g : strtab) : Prop := exists css, str_ok g css.

(** ** Adding a string *)

Lemma text_inj g css p q x : str_ok g css -> str_text g p = Some x -> str_text g q = Some x -> p = q.
Proof.
  intros H. unfold str_text.
  assert (forall r, s_data <$> strs g !! r = Some [] -> False) as Hne.
  { intros r (s & Hr & E)%fmap_Some. destruct (so_hash _ _ H r s Hr) as (_ & Hs & _). by destruct Hs. }
  repeat case_decide; [congruence|intros [= <-] Hq; by destruct (Hne q)|intros Hp [= <-]; by destruct (Hne p)|].
  intros (s & Hp & ->)%fmap_Some (s' & Hq & E)%fmap_Some. by eapply so_uniq.
Qed.

(** The table with a new string before the chain of its hash. *)
Definition with_string (p : ptr) (str : list Z) (h : Z) (o : option ptr) (g : strtab) : strtab :=
  Strtab (<[p := GCstr str h o]> (strs g)) (<[str_mask h (strmask g) := Some p]> (strhash g)) (strmask g)
    (strnum g + 1) (strempty g) (Pos.succ p) (sweeping g).

Lemma with_string_ok g css str h o : str_ok g css -> hash_bytes str = Some h -> str <> [] -> Forall is_byte str ->
  Z.of_nat (length str) < LJ_MAX_STR -> strhash g !! str_mask h (strmask g) = Some o ->
  (forall p s, strs g !! p = Some s -> s_data s <> str) ->
  exists css', str_ok (with_string (next_str g) str h o g) css'.
Proof.
  intros H Hh Hne Hb Hl Ho Habs. destruct (so_mask _ _ H) as [b Hm]. set (p := next_str g).
  assert (strs g !! p = None) as Hp.
  { destruct (strs g !! p) as [s|] eqn:E; [|done]. pose proof (so_fresh _ _ H p ltac:(by eexists)). unfold p in *. lia. }
  assert (p ∉ concat css) as Hpc.
  { intros (c & Hpc & [i Hc]%list_elem_of_lookup)%elem_of_concat.
    destruct (Forall2_lookup_r _ _ _ _ _ (cn_heads _ _ _ _ (so_chains _ _ H)) Hc) as (o' & _ & Hoc).
    destruct (schain_in _ _ _ p Hoc Hpc). congruence. }
  assert (2 ^ b <> 0)%nat by (by apply Nat.pow_nonzero).
  assert (str_mask h (strmask g) <= strmask g)%nat as Hle by (rewrite Hm; pose proof (str_mask_lt h b); lia).
  destruct (chained_cons _ _ _ _ p (GCstr str h None) _ (so_chains _ _ H) Hpc eq_refl Hle) as (o' & c & Ho' & Hc & Hcons).
  cbn [s_hash s_data] in *. rewrite Ho in Ho'. injection Ho' as <-.
  exists (<[str_mask h (strmask g) := p :: c]> css).
  assert (forall q s, <[p := GCstr str h o]> (strs g) !! q = Some s -> (q = p /\ s = GCstr str h o) \/ (q <> p /\ strs g !! q = Some s)) as Hcase.
  { intros q s [[<- <-]|[? ?]]%lookup_insert_Some; [by left|by right]. }
  split; cbn [with_string strs strhash strmask next_str strempty strnum].
  - apply Hcons; [|apply lookup_insert_eq]. intros q Hq. apply lookup_insert_ne. by intros ->.
  - by exists b.
  - intros q [s [[-> _]|[_ Hq]]%Hcase]; rewrite concat_insert by done; [by left|right]. apply (so_all _ _ H). by exists s.
  - intros q s [[-> ->]|[_ Hq]]%Hcase; [done|]. by apply (so_hash _ _ H q).
  - intros q r s s' [[-> ->]|[? Hq]]%Hcase [[-> ->]|[? Hr]]%Hcase E; cbn [s_data] in *; try done.
    + by destruct (Habs r s').
    + by destruct (Habs q s).
    + by eapply so_uniq.
  - intros q [s [[-> _]|[_ Hq]]%Hcase]; [unfold p; lia|]. pose proof (so_fresh _ _ H q ltac:(by eexists)). unfold p. lia.
  - destruct (so_empty _ _ H) as [He1 He2]. rewrite lookup_insert_ne by (unfold p; lia). split; [done|unfold p; lia].
  - rewrite map_size_insert_None by done. rewrite (so_num _ _ H). lia.
Qed.

Section New.
Context (slack : list Z) (Hslack : Forall is_byte slack) (Hlen : (3 <= length slack)%nat).

Lemma lj_str_new_run g css near tail str : str_ok g css -> Forall is_byte (str ++ tail) ->
  (near = false -> 3 <= length tail)%nat -> str <> [] -> Z.of_nat (length str) < LJ_MAX_STR ->
  (exists p s, lj_str_new slack near tail str g = Ret p g /\ strs g !! p = Some s /\ s_data s = str) \/
  exists g', lj_str_new slack near tail str g = Ret (next_str g) g' /\ (forall p s, strs g !! p = Some s -> s_data s <> str) /\
    exists h o, same_strings (with_string (next_str g) str h o g) g' /\ strtab_ok g'.
Proof.
  intros H Hb Htail Hne Hl. unfold lj_str_new. cbv zeta. destruct (Z.leb_spec LJ_MAX_STR (Z.of_nat (length str))); [lia|].
  change (bind get ?f g) with (f g g). cbv beta. rewrite decide_False by (by destruct str).
  destruct (hash_bytes_some str) as [h Hh]. rewrite (bind_step _ _ _ _ _ (orfail_run _ _ _ _ Hh)).
  destruct (so_mask _ _ H) as [b Hm]. pose proof (so_chains _ _ H) as Hch. pose proof (cn_length _ _ _ _ Hch) as Hcl.
  assert (2 ^ b <> 0)%nat by (by apply Nat.pow_nonzero).
  assert (str_mask h (strmask g) <= strmask g)%nat as Hle by (rewrite Hm; pose proof (str_mask_lt h b); lia).
  destruct (lookup_lt_is_Some_2 css (str_mask h (strmask g))) as [c Hc]; [lia|].
  destruct (Forall2_lookup_r _ _ _ _ _ (cn_heads _ _ _ _ Hch) Hc) as (o & Ho & Hoc).
  rewrite (bind_step _ _ _ _ _ (orfail_run _ _ _ _ Ho)).
  assert (Z.of_nat (length str) < 2 ^ 31) as Hl31 by (unfold LJ_MAX_STR in Hl; simpl; lia).
  assert (NoDup c) as Hnd by (apply (NoDup_concat_elem css); [apply Hch|by eapply list_elem_of_lookup_2]).
  pose proof (chain_size _ _ _ Hoc Hnd) as Hsz.
  destruct (find_str_run slack Hslack Hlen g near tail str c Hb Htail Hne Hl31 (S (size (strs g))) o Hoc)
    as ([p|] & Hr & Hc'); [lia|intros p s Hp; by apply (so_hash _ _ H p s Hp)| |];
    rewrite (bind_step _ _ _ _ _ Hr); [left|right].
  - destruct Hc' as [_ (s & Hp & E)]. by exists p, s.
  - assert (forall p s, strs g !! p = Some s -> s_data s <> str) as Habs.
    { intros p s Hp E. destruct (so_hash _ _ H p s Hp) as (Eh & _). rewrite E, Hh in Eh. injection Eh as Eh.
      pose proof (so_all _ _ H p ltac:(by eexists)) as (d & Hpd & [i Hd]%list_elem_of_lookup)%elem_of_concat.
      pose proof (cn_place _ _ _ _ Hch i d p s Hd Hpd Hp) as Hi. rewrite <- Eh in Hi. subst i.
      rewrite Hc in Hd. injection Hd as <-. by apply (Hc' p s). }
    apply Forall_app in Hb as [Hb _].
    destruct (with_string_ok g css str h o H Hh Hne Hb Hl Ho Habs) as [css1 Hg1].
    change ((modify (set_next_str (Pos.succ (next_str g))) ;;; ?k) g) with (k (set_next_str (Pos.succ (next_str g)) g)).
    cbv zeta. set (g1 := with_string (next_str g) str h o g) in *.
    match goal with |- exists g', ?run = _ /\ _ =>
      change run with (((when (Z.of_nat (strmask g) <? strnum g) do lj_str_resize (2 * strmask g + 1)) ;;; ret (next_str g)) g1) end.
    destruct (Z.of_nat (strmask g) <? strnum g).
    + destruct (lj_str_resize_run (2 * strmask g + 1) (S b) g1 css1) as (g' & css' & Hr' & H' & Hss).
      * rewrite Hm. rewrite Nat.pow_succ_r'. lia.
      * done.
      * exists g'. rewrite (bind_step _ _ _ _ _ Hr'). split; [done|]. split; [done|]. exists h, o. split; [done|by exists css'].
    + exists g1. split; [done|]. split; [done|]. exists h, o. split; [by split|by exists css1].
Qed.
End New.

(** ** The theorems *)

(** C23 [lj_str_cmp] and [str_fastcmp] read words of four bytes, past the end of
    the texts, and agree with the comparison of the texts byte by byte: the sign of
    the first is their lexicographic order, a prefix coming first, and the second,
    on texts of one length, is zero exactly when they are equal.  The bytes after
    the texts have no influence. *)
Theorem str_compare_correct a b pa pb : Forall is_byte (a ++ pa) -> Forall is_byte (b ++ pb) ->
  (3 <= length pa)%nat -> (3 <= length pb)%nat ->
  Z.of_nat (length a) < LJ_MAX_STR -> Z.of_nat (length b) < LJ_MAX_STR ->
  (exists r, lj_str_cmp (a ++ pa) (length a) (b ++ pb) (length b) = Some r /\ (r ?= 0) = bytes_compare a b) /\
  (length a = length b -> a <> [] ->
   exists r, str_fastcmp (a ++ pa) (b ++ pb) (length a) = Some r /\ (r = 0 <-> a = b)).
Proof.
  intros Ha Hb Hpa Hpb Hla Hlb. assert (LJ_MAX_STR < 2 ^ 31) as Hmax by done.
  split; [apply lj_str_cmp_run; (done || lia)|]. intros Hl Hne. apply str_fastcmp_run; (done || lia).
Qed.

(** C20 Interning: a text that is too long is refused, and any other has exactly
    one string object after [lj_str_new], which is the one it returns, found or
    new; the strings there were keep their objects and texts, also when the table
    grows, and an object that was there is returned without any change.  So two
    strings are the same object exactly when they have the same text. *)
Theorem lj_str_new_correct slack near tail str g : Forall is_byte slack -> (3 <= length slack)%nat ->
  strtab_ok g -> Forall is_byte (str ++ tail) -> (near = false -> 3 <= length tail)%nat ->
  if decide (Z.of_nat (length str) < LJ_MAX_STR) then
    exists p g', lj_str_new slack near tail str g = Ret p g' /\ strtab_ok g' /\ str_text g' p = Some str /\
      (forall q r x, str_text g' q = Some x -> str_text g' r = Some x -> q = r) /\
      (forall q x, str_text g q = Some x -> str_text g' q = Some x) /\
      (is_Some (str_text g p) -> g' = g)
  else lj_str_new slack near tail str g = Raise tt g.
Proof.
  intros Hslack Hlen [css H] Hb Htail. case_decide as Hl.
  2:{ unfold lj_str_new. cbv zeta. destruct (Z.leb_spec LJ_MAX_STR (Z.of_nat (length str))); [done|lia]. }
  assert (forall g' css', str_ok g' css' -> forall q r x, str_text g' q = Some x -> str_text g' r = Some x -> q = r) as Hinj
    by (intros; by eapply text_inj).
  destruct (decide (str = [])) as [->|Hne].
  - exists (strempty g), g. split; [done|]. split; [by exists css|]. split; [unfold str_text; by rewrite decide_True|].
    split; [by eapply Hinj|done].
  - destruct (so_empty _ _ H) as [He1 He2].
    destruct (lj_str_new_run slack Hslack Hlen g css near tail str H Hb Htail Hne Hl)
      as [(p & s & Hr & Hp & E)|(g' & Hr & Habs & h & o & Hss & [css' H'])].
    + exists p, g. split; [done|]. split; [by exists css|]. split; [|split; [by eapply Hinj|done]].
      unfold str_text. rewrite decide_False by congruence. by rewrite Hp, <- E.
    + destruct Hss as (Hs & E1 & E2 & E3). cbn [with_string strs strempty] in *.
      assert (forall q, str_text g' q = if decide (q = next_str g) then Some str else str_text g q) as Htext.
      { intros q. unfold str_text. rewrite E1. specialize (Hs q).
        destruct (decide (q = next_str g)) as [->|Hq].
        - rewrite decide_False by lia. rewrite lookup_insert_eq in Hs.
          destruct (strs g' !! next_str g); [|done]. injection Hs as E _. simpl. by rewrite E.
        - case_decide; [done|]. rewrite lookup_insert_ne in Hs by done.
          destruct (strs g' !! q), (strs g !! q); try done. injection Hs as E _. simpl. by rewrite E. }
      assert (str_text g (next_str g) = None) as Hnew.
      { unfold str_text. rewrite decide_False by lia. destruct (strs g !! next_str g) as [s|] eqn:E; [|done].
        pose proof (so_fresh _ _ H _ ltac:(by eexists)). lia. }
      exists (next_str g), g'. split; [done|]. split; [by exists css'|]. split; [by rewrite Htext, decide_True|].
      split; [by eapply Hinj|]. split.
      * intros q x Hq. rewrite Htext, decide_False; [done|]. intros ->. congruence.
      * intros [x Hx]. congruence.
Qed.

(** ** A table that grows *)

Definition demo_slack : list Z := [0; 17; 34; 51].
Definition demo_table : strtab := Strtab ∅ [None; None] 1 0 1 2 false.

Lemma demo_table_ok : strtab_ok demo_table.
Proof.
  exists [[]; []]. split; cbn [demo_table strs strhash strmask strnum strempty next_str].
  - split; [done|repeat constructor|constructor|]. intros i c p s Hi Hp Hm. by rewrite lookup_empty in Hm.
  - by exists 1%nat.
  - intros p [s Hp]. by rewrite lookup_empty in Hp.
  - intros p s Hp. by rewrite lookup_empty in Hp.
  - intros p q s s' Hp. by rewrite lookup_empty in Hp.
  - intros p [s Hp]. by rewrite lookup_empty in Hp.
  - done.
  - done.
Qed.

Lemma lj_str_new_witness : exists p g', lj_str_new demo_slack false [0; 7; 7] (bytes_of_string "shark") demo_table = Ret p g' /\
  strtab_ok g' /\ str_text g' p = Some (bytes_of_string "shark").
Proof.
  assert (Forall is_byte demo_slack) as Hs by (repeat constructor; discriminate).
  assert (Forall is_byte (bytes_of_string "shark" ++ [0; 7; 7])) as Hb by (repeat constructor; discriminate).
  assert (3 <= length demo_slack)%nat as Hl by (repeat constructor).
  assert (false = false -> (3 <= length [0; 7; 7]))%nat as Ht by (repeat constructor).
  pose proof (lj_str_new_correct demo_slack false [0; 7; 7] (bytes_of_string "shark") demo_table Hs Hl demo_table_ok Hb Ht) as H.
  rewrite decide_True in H by done. destruct H as (p & g' & Hr & Hok & Hp & _). exists p, g'.
  split; [exact Hr|]. split; [exact Hok|exact Hp].
Defined.

(** One text begins the other; the bytes after them are not alike. *)
Lemma str_compare_witness :
  exists r, lj_str_cmp (bytes_of_string "sharks" ++ [0; 9; 9]) 6 (bytes_of_string "shark" ++ [0; 1; 255]) 5 = Some r /\ (r ?= 0) = Gt.
Proof.
  assert (Forall is_byte (bytes_of_string "sharks" ++ [0; 9; 9])) as Ha by (repeat constructor; discriminate).
  assert (Forall is_byte (bytes_of_string "shark" ++ [0; 1; 255])) as Hb by (repeat constructor; discriminate).
  assert (forall x y z : Z, 3 <= length [x; y; z])%nat as Hl by (repeat constructor).
  destruct (str_compare_correct (bytes_of_string "sharks") (bytes_of_string "shark") [0; 9; 9] [0; 1; 255] Ha Hb
    (Hl _ _ _) (Hl _ _ _) eq_refl eq_refl) as [(r & Hr & E) _].
  exists r. split; [exact Hr|exact E].
Defined.
