(* ===== verification/LjTab.v ===== *)
(** * Tables ([core/luajit/src/lj_tab.c])

    A table has an array part, for the keys [0 .. asize - 1], and a hash part:
    nodes in chains, where a key is found from the node its hash selects, its
    main position.  [LuaApi] takes a table to be a finite map; this file has the
    data structure the map is made of, and [LjTabProps] shows that it is one.

    Nodes are named by their index; [&t->node[hmask + 1]], one past the end, is
    only the first value of [freetop].  A table without a hash part has the
    shared [nilnode], which no operation writes.  A getter gives the value, a
    setter the slot to write.  Memory is never refused, and where an array is
    stored (next to its table or apart) is not modelled. *)

From stdpp Require Import base option strings countable gmap list.
From Stdlib Require Import ZArith Lia SpecFloat.
From S2P Require Import Prelude Number LuaApi LjStr.

Local Open Scope Z_scope.
Local Open Scope prog_scope.

(** ** The data *)

Record node := Node { n_val : tvalue; n_key : tvalue; n_next : option nat }.

Record ltab := Ltab {
  nomm : bool;
  array : list tvalue;
  asize : nat;
  nodes : list node;
  hmask : nat;
  freetop : nat
}.

Inductive slot :=
  | ASlot (i : nat)
  | NSlot (i : nat).

(** The errors of [lj_errmsg.h] that tables raise. *)
Inductive tab_error :=
  | LJ_ERR_TABOV
  | LJ_ERR_NANIDX
  | LJ_ERR_NILIDX
  | LJ_ERR_NEXTIDX.

Definition LJ_MAX_HBITS : nat := 26.
Definition LJ_MAX_ABITS : nat := 28.
Definition LJ_MAX_ASIZE : Z := 2 ^ (Z.of_nat LJ_MAX_ABITS - 1) + 1.

Definition HASH_BIAS : Z := -0x04c11db7.
Definition HASH_ROT1 : Z := 14.
Definition HASH_ROT2 : Z := 5.
Definition HASH_ROT3 : Z := 13.

Definition free_node : node := Node TNil TNil None.
Definition nilnode : node := free_node.

Definition is_nil (v : tvalue) : bool := bool_decide (v = TNil).
Definition is_str (v : tvalue) : bool := match v with TStr _ => true | _ => false end.

Definition tprog : Type -> Type := M ltab tab_error.

Definition set_nodes ns t := Ltab (nomm t) (array t) (asize t) ns (hmask t) (freetop t).
Definition set_freetop f t := Ltab (nomm t) (array t) (asize t) (nodes t) (hmask t) f.
Definition set_array a n t := Ltab (nomm t) a n (nodes t) (hmask t) (freetop t).
Definition set_nomm b t := Ltab b (array t) (asize t) (nodes t) (hmask t) (freetop t).
Definition set_hpart ns m f t := Ltab (nomm t) (array t) (asize t) ns m f.

Definition set_n_val v n := Node v (n_key n) (n_next n).
Definition set_n_key k n := Node (n_val n) k (n_next n).
Definition set_n_next x n := Node (n_val n) (n_key n) x.

Definition get_node (i : nat) : tprog node := t <- get ;; orfail OutOfBounds (nodes t !! i).
Definition put_node (i : nat) (f : node -> node) : tprog unit :=
  n <- get_node i ;; modify (fun t => set_nodes (<[i := f n]> (nodes t)) t).

(** ** Hashing *)

(** [lj_num2int] on x86-64: a number that has no [int32_t] gives [INT_MIN]. *)
Definition INT_MIN : Z := -2147483648.
Definition lj_num2int (n : number) : Z := default INT_MIN (cast_int n).

(** The [int32_t] a number is equal to. *)
Definition num_int (n : number) : option Z :=
  let k := lj_num2int n in if num_eqb n (num_of_Z k) then Some k else None.

(** The 64 bits of a [double]. *)
Definition num_bits (n : number) : Z :=
  let sign (s : bool) := if s then 2 ^ 63 else 0 in
  match n with
  | S754_zero s => sign s
  | S754_infinity s => sign s + Z.shiftl 0x7ff 52
  | S754_nan => Z.shiftl 0xfff8 48
  | S754_finite s m e =>
      sign s + (if Zpos m <? 2 ^ 52 then Zpos m else Z.shiftl (e + 1075) 52 + (Zpos m - 2 ^ 52))
  end.

Definition hashrot (lo hi : Z) : Z :=
  let lo := Z.lxor lo hi in
  let hi := lj_rol hi HASH_ROT1 in
  let lo := u32 (lo - hi) in
  let hi := lj_rol hi HASH_ROT2 in
  let hi := Z.lxor hi lo in
  u32 (hi - lj_rol lo HASH_ROT3).

Section Tab.
(** The low 32 bits of the address of an object, or of a light userdata. *)
Context (gcrefu : tvalue -> Z).
(** The high 32 bits of a key. *)
Context (key_hi : tvalue -> Z).

Definition hashmask (t : ltab) (h : Z) : nat := Z.to_nat (Z.land h (Z.of_nat (hmask t))).
Definition hashlohi t (lo hi : Z) : nat := hashmask t (hashrot lo hi).
Definition hashstr t (s : string) : nat := hashmask t (str_hash s).
Definition hashnum t (n : number) : nat :=
  hashlohi t (u32 (num_bits n)) (u32 (Z.shiftl (Z.shiftr (num_bits n) 32) 1)).
Definition hashgcref t (k : tvalue) : nat := hashlohi t (u32 (gcrefu k)) (u32 (gcrefu k + HASH_BIAS)).

(** [hashkey]: the main position of a key. *)
Definition hashkey (t : ltab) (key : tvalue) : nat :=
  match key with
  | TStr s => hashstr t s
  | TNum n => hashnum t n
  | TBool b => hashmask t (if b then 1 else 0)
  | _ => hashgcref t key
  end.

(** ** Searching a chain *)

(** [do { if (p(&n->key)) return n; } while ((n = nextnode(n)))], where a chain has
    at most as many nodes as the hash part. *)
Fixpoint find_node (fuel : nat) (p : tvalue -> bool) (n : nat) : tprog (option nat) :=
  match fuel with
  | O => fail OutOfFuel
  | S fuel =>
      nd <- get_node n ;;
      if p (n_key nd) then ret (Some n)
      else match n_next nd with
           | Some n' => find_node fuel p n'
           | None => ret None
           end
  end.

Definition search (p : tvalue -> bool) (n : nat) : tprog (option nat) :=
  t <- get ;; find_node (S (hmask t)) p n.

(** [tvisnum(key) && key->n == n] *)
Definition key_is_num (n : number) (key : tvalue) : bool :=
  match key with TNum m => num_eqb m n | _ => false end.

(** [tvisstr(key) && strV(key) == s], of interned strings *)
Definition key_is_str (s : string) (key : tvalue) : bool := bool_decide (key = TStr s).

(** [lj_obj_equal], on tables without integer values *)
Definition lj_obj_equal (v w : tvalue) : bool :=
  match v, w with TNum m, TNum n => num_eqb m n | _, _ => bool_decide (v = w) end.

(** ** Getters *)

Definition lj_tab_getinth (key : Z) : tprog (option nat) :=
  t <- get ;; search (key_is_num (num_of_Z key)) (hashnum t (num_of_Z key)).

Definition lj_tab_getstr (s : string) : tprog (option nat) :=
  t <- get ;; search (key_is_str s) (hashstr t s).

(** [inarray]: the key as an unsigned number. *)
Definition inarray (t : ltab) (key : Z) : bool := u32 key <? Z.of_nat (asize t).

Definition val_of (n : option nat) : tprog (option tvalue) :=
  match n with
  | Some i => nd <- get_node i ;; ret (Some (n_val nd))
  | None => ret None
  end.

(** The value under an integer; [None] where [lj_tab_getint] gives [NULL]. *)
Definition lj_tab_getint (key : Z) : tprog (option tvalue) :=
  t <- get ;;
  if inarray t key then
    v <- orfail OutOfBounds (array t !! Z.to_nat (u32 key)) ;; ret (Some v)
  else n <- lj_tab_getinth key ;; val_of n.

(** [genlookup] *)
Definition genlookup (key : tvalue) : tprog (option tvalue) :=
  t <- get ;; n <- search (fun k => lj_obj_equal k key) (hashkey t key) ;; val_of n.

Definition lj_tab_get (key : tvalue) : tprog tvalue :=
  v <- match key with
       | TStr s => n <- lj_tab_getstr s ;; val_of n
       | TNum n =>
           match num_int n with
           | Some k => lj_tab_getint k
           | None => genlookup key
           end
       | TNil => ret None
       | _ => genlookup key
       end ;;
  ret (default TNil v).

(** ** Setters *)

(** The search for a free node, from [freetop] downwards. *)
Fixpoint find_free (freenode : nat) : tprog (option nat) :=
  match freenode with
  | O => ret None
  | S f => nd <- get_node f ;; if is_nil (n_key nd) then ret (Some f) else find_free f
  end.

(** The predecessor of [n] in the chain of [collide]. *)
Fixpoint find_pred (fuel : nat) (collide n : nat) : tprog nat :=
  match fuel with
  | O => fail OutOfFuel
  | S fuel =>
      nd <- get_node collide ;;
      if decide (n_next nd = Some n) then ret collide
      else c <- orfail NullDeref (n_next nd) ;; find_pred fuel c n
  end.

(** Rechaining the strings whose main position is [n]. *)
Fixpoint rechain (fuel : nat) (freenode n : nat) : tprog unit :=
  match fuel with
  | O => fail OutOfFuel
  | S fuel =>
      fd <- get_node freenode ;;
      match n_next fd with
      | None => skip
      | Some nn =>
          nd <- get_node nn ;;
          t <- get ;;
          if is_str (n_key nd) && negb (is_nil (n_val nd)) && bool_decide (hashkey t (n_key nd) = n) then
            md <- get_node n ;;
            put_node freenode (set_n_next (n_next nd)) ;;;
            put_node nn (set_n_next (n_next md)) ;;;
            put_node n (set_n_next (Some nn)) ;;;
            rechain fuel freenode n
          else rechain fuel nn n
      end
  end.

(** A free node for a key whose main position [n] is taken: the resident moves
    there if it is not in its own main position, else the new key goes there. *)
Definition make_room (n freenode : nat) : tprog nat :=
  t <- get ;;
  nd <- get_node n ;;
  let collide := hashkey t (n_key nd) in
  if decide (collide <> n) then
    p <- find_pred (S (hmask t)) collide n ;;
    put_node p (set_n_next (Some freenode)) ;;;
    put_node freenode (fun _ => Node (n_val nd) (n_key nd) (n_next nd)) ;;;
    put_node n (set_n_next None) ;;;
    put_node n (set_n_val TNil) ;;;
    rechain (S (hmask t)) freenode n ;;;
    ret n
  else
    put_node freenode (set_n_next (n_next nd)) ;;;
    put_node n (set_n_next (Some freenode)) ;;;
    ret freenode.

(** The end of [lj_tab_newkey]: [-0.0] is stored as [0.0]. *)
Definition fill_key (n : nat) (key : tvalue) : tprog slot :=
  put_node n (set_n_key (norm_key key)) ;;;
  nd <- get_node n ;;
  assertM (is_nil (n_val nd)) ;;;
  ret (NSlot n).

(** [lj_tab_newkey], where [rehash] makes a bigger table and [set] is
    [lj_tab_set] on it. *)
Definition newkey_with (rehash : tvalue -> tprog unit) (set : tvalue -> tprog slot) (key : tvalue) : tprog slot :=
  t <- get ;;
  let n := hashkey t key in
  nd <- get_node n ;;
  if negb (is_nil (n_val nd)) || bool_decide (hmask t = 0)%nat then
    free <- find_free (freetop t) ;;
    match free with
    | None => rehash key ;;; set key
    | Some f =>
        modify (set_freetop f) ;;;
        n <- make_room n f ;; fill_key n key
    end
  else fill_key n key.

Definition setinth_with (newkey : tvalue -> tprog slot) (key : Z) : tprog slot :=
  n <- lj_tab_getinth key ;;
  match n with
  | Some i => ret (NSlot i)
  | None => newkey (int_key key)
  end.

Definition setint_with (newkey : tvalue -> tprog slot) (key : Z) : tprog slot :=
  t <- get ;;
  if inarray t key then ret (ASlot (Z.to_nat (u32 key))) else setinth_with newkey key.

Definition setstr_with (newkey : tvalue -> tprog slot) (s : string) : tprog slot :=
  n <- lj_tab_getstr s ;;
  match n with
  | Some i => ret (NSlot i)
  | None => newkey (TStr s)
  end.

Definition genset_with (newkey : tvalue -> tprog slot) (key : tvalue) : tprog slot :=
  t <- get ;;
  n <- search (fun k => lj_obj_equal k key) (hashkey t key) ;;
  match n with
  | Some i => ret (NSlot i)
  | None => newkey key
  end.

Definition set_with (newkey : tvalue -> tprog slot) (key : tvalue) : tprog slot :=
  modify (set_nomm false) ;;;
  match key with
  | TStr s => setstr_with newkey s
  | TNum n =>
      match num_int n with
      | Some k => setint_with newkey k
      | None => if num_eqb n n then genset_with newkey key else raise LJ_ERR_NANIDX
      end
  | TNil => raise LJ_ERR_NILIDX
  | _ => genset_with newkey key
  end.

(** Storing a value where a setter says. *)
Definition copyTV (s : slot) (v : tvalue) : tprog unit :=
  match s with
  | ASlot i =>
      t <- get ;;
      if decide (i < length (array t))%nat
      then put (set_array (<[i := v]> (array t)) (asize t) t) else fail OutOfBounds
  | NSlot i => put_node i (set_n_val v)
  end.

(** ** Resizing *)

(** [hsize2hbits] *)
Definition hsize2hbits (s : nat) : nat :=
  (match s with
   | 0 => 0
   | 1 => 1
   | S s' => 1 + Nat.log2 s'
   end)%nat.

(** [newhpart] and [clearhpart] *)
Definition newhpart (hbits : nat) : tprog unit :=
  if decide (LJ_MAX_HBITS < hbits)%nat then raise LJ_ERR_TABOV
  else
    let hsize := (2 ^ hbits)%nat in
    modify (set_hpart (replicate hsize free_node) (hsize - 1) hsize).

(** The array values of the indices [i ..], put into the hash part. *)
Fixpoint reinsert_array (setinth : Z -> tprog slot) (i : nat) (vs : list tvalue) : tprog unit :=
  match vs with
  | [] => skip
  | v :: vs =>
      (when (negb (is_nil v)) do (s <- setinth (Z.of_nat i) ;; copyTV s v)) ;;;
      reinsert_array setinth (S i) vs
  end.

(** The pairs of the old hash part. *)
Fixpoint reinsert_nodes (set : tvalue -> tprog slot) (ns : list node) : tprog unit :=
  match ns with
  | [] => skip
  | n :: ns =>
      (when (negb (is_nil (n_val n))) do (s <- set (n_key n) ;; copyTV s (n_val n))) ;;;
      reinsert_nodes set ns
  end.

Definition resizetab_with (newkey : tvalue -> tprog slot) (asize' hbits : nat) : tprog unit :=
  t <- get ;;
  (when (bool_decide (asize t < asize')%nat) do
     (if LJ_MAX_ASIZE <? Z.of_nat asize' then raise LJ_ERR_TABOV
      else modify (set_array (take (asize t) (array t) ++ replicate (asize' - asize t) TNil) asize'))) ;;;
  (if decide (hbits = 0%nat) then modify (set_hpart [nilnode] 0 0) else newhpart hbits) ;;;
  (when (bool_decide (asize' < asize t)%nat) do
     (modify (set_array (take asize' (array t)) asize') ;;;
      reinsert_array (setinth_with newkey) asize' (drop asize' (take (asize t) (array t))))) ;;;
  (when (bool_decide (0 < hmask t)%nat) do reinsert_nodes (set_with newkey) (nodes t)).

(** *** Counting the integer keys

    [bins[b]] counts the keys above [2^b] and up to [2^(b+1)], and [bins[0]] also
    those from 0; counts stay below [2^29], so no counter wraps. *)

Definition bump (bins : list nat) (b n : nat) : tprog (list nat) :=
  x <- orfail OutOfBounds (bins !! b) ;; ret (<[b := (x + n)%nat]> bins).

(** The index of the bin of a key. *)
Definition bin_of (k : nat) : nat := if (2 <? k)%nat then Nat.log2 (k - 1) else 0%nat.

Definition countint (key : tvalue) (bins : list nat) : tprog (nat * list nat) :=
  match key with
  | TNum n =>
      let k := lj_num2int n in
      if (u32 k <? LJ_MAX_ASIZE) && num_eqb n (num_of_Z k) then
        bins <- bump bins (bin_of (Z.to_nat (u32 k))) 1 ;; ret (1%nat, bins)
      else ret (0%nat, bins)
  | _ => ret (0%nat, bins)
  end.

(** The values that are not nil. *)
Fixpoint count_vals (vs : list tvalue) : nat :=
  match vs with
  | [] => 0%nat
  | v :: vs => ((if is_nil v then 0 else 1) + count_vals vs)%nat
  end.

(** The array slots up to [2 << b], from index [i]; [fuel] is [LJ_MAX_ABITS - b]. *)
Fixpoint countarray_loop (fuel : nat) (t : ltab) (b i na : nat) (bins : list nat) : tprog (nat * list nat) :=
  match fuel with
  | O => ret (na, bins)
  | S fuel =>
      let top := (2 * 2 ^ b)%nat in
      let last := (asize t <=? top)%nat in
      let top := if last then (asize t - 1)%nat else top in
      if last && (top <? i)%nat then ret (na, bins)
      else
        let n := count_vals (take (S top - i) (drop i (array t))) in
        bins <- bump bins b n ;;
        countarray_loop fuel t (S b) (Nat.max i (S top)) (na + n) bins
  end.

Definition countarray (t : ltab) (bins : list nat) : tprog (nat * list nat) :=
  if (asize t =? 0)%nat then ret (0%nat, bins) else countarray_loop LJ_MAX_ABITS t 0 0 0 bins.

Fixpoint counthash (ns : list node) (bins : list nat) (total na : nat) : tprog (nat * nat * list nat) :=
  match ns with
  | [] => ret (total, na, bins)
  | n :: ns =>
      if is_nil (n_val n) then counthash ns bins total na
      else
        c <- countint (n_key n) bins ;;
        counthash ns c.2 (S total) (na + c.1)
  end.

(** The largest array size [2^(b+1) + 1] with keys above [2^b] in use and more
    than [2^(b-1)] keys in all, and the number of keys in it. *)
Fixpoint bestasize_loop (fuel : nat) (bins : list nat) (nn b sum na sz : nat) : tprog (nat * nat) :=
  match fuel with
  | O => fail OutOfFuel
  | S fuel =>
      if (2 ^ b <? 2 * nn)%nat && negb (sum =? nn)%nat then
        x <- orfail OutOfBounds (bins !! b) ;;
        if (0 <? x)%nat then
          let sum := (sum + x)%nat in
          if (2 ^ b <? 2 * sum)%nat
          then bestasize_loop fuel bins nn (S b) sum sum (2 * 2 ^ b + 1)
          else bestasize_loop fuel bins nn (S b) sum na sz
        else bestasize_loop fuel bins nn (S b) sum na sz
      else ret (na, sz)
  end.

Definition bestasize (bins : list nat) (narray : nat) : tprog (nat * nat) :=
  bestasize_loop 33 bins narray 0 0 0 0.

Definition rehashtab_with (newkey : tvalue -> tprog slot) (ek : tvalue) : tprog unit :=
  t <- get ;;
  let bins := replicate LJ_MAX_ABITS 0%nat in
  a <- countarray t bins ;;
  h <- counthash (nodes t) a.2 (1 + a.1) a.1 ;;
  let '(total, narray, bins) := h in
  e <- countint ek bins ;;
  r <- bestasize e.2 (narray + e.1) ;;
  resizetab_with newkey r.2 (hsize2hbits (total - r.1)).

(** ** Tying the knot

    Resizing sets keys, and setting a key may resize; a resize makes room for
    everything it sets, so it never resizes again and two levels are enough. *)

Fixpoint newkey (fuel : nat) (key : tvalue) : tprog slot :=
  match fuel with
  | O => fail OutOfFuel
  | S fuel => newkey_with (rehashtab_with (newkey fuel)) (set_with (newkey fuel)) key
  end.

Definition tab_fuel : nat := 2.
Definition lj_tab_newkey : tvalue -> tprog slot := newkey tab_fuel.
Definition lj_tab_setinth : Z -> tprog slot := setinth_with lj_tab_newkey.
Definition lj_tab_setint : Z -> tprog slot := setint_with lj_tab_newkey.
Definition lj_tab_setstr : string -> tprog slot := setstr_with lj_tab_newkey.
Definition lj_tab_set : tvalue -> tprog slot := set_with lj_tab_newkey.
Definition resizetab : nat -> nat -> tprog unit := resizetab_with lj_tab_newkey.
Definition rehashtab : tvalue -> tprog unit := rehashtab_with lj_tab_newkey.

Definition lj_tab_reasize (nasize : nat) : tprog unit :=
  t <- get ;; resizetab (nasize + 1) (if (0 <? hmask t)%nat then Nat.log2 (hmask t) + 1 else 0).

(** ** Creation *)

(** [lj_tab_new]: the slots of both parts are nil. *)
Definition lj_tab_new (asize' hbits : nat) : outcome ltab tab_error unit :=
  let t := Ltab true [] 0 [nilnode] 0 0 in
  ((if (0 <? asize')%nat then
      if LJ_MAX_ASIZE <? Z.of_nat asize' then raise LJ_ERR_TABOV
      else modify (set_array (replicate asize' TNil) asize')
    else skip) ;;;
   (if decide (hbits = 0%nat) then skip else newhpart hbits)) t.

(** ** Traversal *)

(** [keyindex]; [None] is [~0u], before the first key.  A key that is in no slot
    but has these high bits is taken for the control variable of an
    [ITERN] loop. *)
Definition keyindex (key : tvalue) : tprog (option nat) :=
  t <- get ;;
  match key with
  | TNil => ret None
  | _ =>
      let array_index :=
        match key with
        | TNum n =>
            let k := lj_num2int n in
            if inarray t k && num_eqb n (num_of_Z k) then Some (Z.to_nat (u32 k)) else None
        | _ => None
        end in
      match array_index with
      | Some i => ret (Some i)
      | None =>
          n <- search (fun k => lj_obj_equal k key) (hashkey t key) ;;
          match n with
          | Some i => ret (Some (asize t + i)%nat)
          | None =>
              if key_hi key =? 0xfffe7fff then
                let i := u32 (gcrefu key - 1) in ret (if i =? UINT_MAX then None else Some (Z.to_nat i))
              else raise LJ_ERR_NEXTIDX
          end
      end
  end.

(** The first array value that is not nil, of those from index [i]. *)
Fixpoint next_array (vs : list tvalue) (i : nat) : option (tvalue * tvalue) :=
  match vs with
  | [] => None
  | v :: vs => if is_nil v then next_array vs (S i) else Some (int_key (Z.of_nat i), v)
  end.

Fixpoint next_node (ns : list node) : option (tvalue * tvalue) :=
  match ns with
  | [] => None
  | n :: ns => if is_nil (n_val n) then next_node ns else Some (n_key n, n_val n)
  end.

(** The pair after [key]; [None] at the end of the traversal. *)
Definition lj_tab_next (key : tvalue) : tprog (option (tvalue * tvalue)) :=
  i <- keyindex key ;;
  t <- get ;;
  let i := match i with None => 0%nat | Some i => S i end in
  match next_array (drop i (take (asize t) (array t))) i with
  | Some kv => ret (Some kv)
  | None => ret (next_node (drop (Nat.max i (asize t) - asize t) (nodes t)))
  end.

(** ** Length *)

Definition getint_nonnil (i : Z) : tprog bool :=
  v <- lj_tab_getint (i32 i) ;; ret (negb (is_nil (default TNil v))).

(** The first [i] that is not present, counting up. *)
Fixpoint linear_search (fuel : nat) (i : Z) : tprog Z :=
  match fuel with
  | O => fail OutOfFuel
  | S fuel => b <- getint_nonnil i ;; if b : bool then linear_search fuel (u32 (i + 1)) else ret (u32 (i - 1))
  end.

(** Halving [i .. j], where [i] is zero or present and [j] is not. *)
Fixpoint binary_search (fuel : nat) (present : Z -> tprog bool) (i j : Z) : tprog Z :=
  match fuel with
  | O => fail OutOfFuel
  | S fuel =>
      if 1 <? j - i then
        let m := u32 (i + j) / 2 in
        b <- present m ;;
        if b : bool then binary_search fuel present m j else binary_search fuel present i m
      else ret i
  end.

(** Doubling [j] until it is not present. *)
Fixpoint unbound_loop (fuel lfuel : nat) (i j : Z) : tprog Z :=
  match fuel with
  | O => fail OutOfFuel
  | S fuel =>
      b <- getint_nonnil j ;;
      if b : bool then
        let i := j in
        let j := u32 (j * 2) in
        if INT_MAX - 2 <? j then linear_search lfuel 1 else unbound_loop fuel lfuel i j
      else binary_search 33 getint_nonnil i j
  end.

(** [lfuel] bounds the linear search: there are no more keys than slots. *)
Definition unbound_search (j : Z) : tprog Z :=
  t <- get ;; unbound_loop 33 (S (asize t + length (nodes t))) j (u32 (j + 1)).

Definition slot_nonnil (m : Z) : tprog bool :=
  t <- get ;; v <- orfail OutOfBounds (array t !! Z.to_nat (m - 1)) ;; ret (negb (is_nil v)).

Definition lj_tab_len : tprog Z :=
  t <- get ;;
  let j := Z.of_nat (asize t) in
  last <- (if 1 <? j then slot_nonnil j else ret true) ;;
  if negb last then
    i <- binary_search 33 slot_nonnil 1 j ;; ret (i - 1)
  else
    let j := if j =? 0 then j else j - 1 in
    if (hmask t =? 0)%nat then ret j else unbound_search j.
End Tab.
