(* ===== verification/LjTabKeys.v ===== *)
(** * Keys of tables

    When two keys are one key of a table, which numbers are integer keys, and
    the main position of a key. *)

From stdpp Require Import base option strings countable gmap list.
From Stdlib Require Import ZArith Lia SpecFloat.
From S2P Require Import Prelude Number LuaApi LjStr LjTab.

Local Open Scope Z_scope.
Local Open Scope prog_scope.

Lemma is_nil_true v : is_nil v = true <-> v = TNil.
Proof. apply bool_decide_eq_true. Qed.
Lemma is_nil_false v : is_nil v = false <-> v <> TNil.
Proof. apply bool_decide_eq_false. Qed.

(** ** Numbers as keys *)

(** A key that can be stored: not nil, not NaN, and zero without its sign. *)
Definition good_key (k : tvalue) : Prop := k <> TNil /\ k <> TNum S754_nan /\ norm_key k = k.

Lemma norm_key_idem k : norm_key (norm_key k) = norm_key k.
Proof. by destruct k as [| | |[]| | | | |]. Qed.

Lemma good_norm k : k <> TNil -> k <> TNum S754_nan -> good_key (norm_key k).
Proof.
  intros Hn Hnan. split; [|split; [|apply norm_key_idem]]; destruct k as [| | |[]| | | | |]; simpl; congruence.
Qed.

Lemma SFeqb_finite s m e s' m' e' :
  SFeqb (S754_finite s m e) (S754_finite s' m' e') = true <-> S754_finite s m e = S754_finite s' m' e'.
Proof.
  unfold SFeqb, SFcompare. split.
  - destruct s, s'; try done; destruct (Z.compare_spec e e') as [->|?|?]; try done;
      change (Pos.compare_cont Eq m m') with (Pos.compare m m');
      by destruct (Pos.compare_spec m m') as [->|?|?].
  - intros [= -> -> ->]. destruct s'; rewrite Z.compare_refl;
      change (Pos.compare_cont Eq m' m') with (Pos.compare m' m'); by rewrite Pos.compare_refl.
Qed.

(** Equal numbers are one key. *)
Lemma num_eqb_norm m n : num_eqb m n = true <->
  norm_key (TNum m) = norm_key (TNum n) /\ n <> S754_nan.
Proof.
  unfold num_eqb. split.
  - destruct m as [s|[]| |[] x e], n as [s'|[]| |[] x' e'];
      solve [done|intros H; split; [|done]; apply SFeqb_finite in H; by rewrite H].
  - intros [E Hn]. destruct m as [s|[]| |[] x e], n as [s'|[]| |[] x' e'];
      solve [done|apply SFeqb_finite; by injection E as -> ->].
Qed.

Lemma nonnum_norm kk k : (forall m, kk <> TNum m) -> kk = k <-> kk = norm_key k.
Proof.
  intros H. destruct k as [| | |n| | | | |]; try done. split; intros E; exfalso; [by apply (H n)|].
  destruct n; by eapply H.
Qed.

Lemma lj_obj_equal_good kk k : good_key kk -> lj_obj_equal kk k = true <-> kk = norm_key k.
Proof.
  intros (Hn & Hnan & Hk). assert ((exists m, kk = TNum m) \/ forall m, kk <> TNum m) as [[m ->]|Hm]
    by (destruct kk; eauto).
  - destruct k as [| | |n| | | | |]; try (split; [by intros E%bool_decide_eq_true|done]).
    cbn [lj_obj_equal]. rewrite num_eqb_norm, Hk. split; [by intros [? _]|]. intros E. split; [done|].
    intros ->. by rewrite E in Hnan.
  - rewrite <- (nonnum_norm kk k Hm), <- (bool_decide_eq_true (kk = k)).
    destruct kk; try done. by destruct (Hm n).
Qed.

Lemma key_is_num_good kk n : good_key kk -> n <> S754_nan -> key_is_num n kk = true <-> kk = norm_key (TNum n).
Proof.
  intros Hg Hn. rewrite <- (lj_obj_equal_good kk (TNum n) Hg). by destruct kk.
Qed.

Lemma key_is_str_iff kk s : key_is_str s kk = true <-> kk = TStr s.
Proof. apply bool_decide_eq_true. Qed.

(** ** Integers *)

Definition int32 (k : Z) : Prop := INT_MIN <= k <= INT_MAX.

Lemma num_of_Z_trunc k : int32 k -> trunc_num (num_of_Z k) = Some k.
Proof. intros [H1 H2]. unfold INT_MIN, INT_MAX in *. apply trunc_num_of_Z. lia. Qed.

Lemma num_of_Z_inj j k : int32 j -> int32 k -> num_of_Z j = num_of_Z k -> j = k.
Proof. intros Hj%num_of_Z_trunc Hk%num_of_Z_trunc E. congruence. Qed.

Lemma num_of_Z_nan k : int32 k -> num_of_Z k <> S754_nan.
Proof. intros Hk%num_of_Z_trunc E. by rewrite E in Hk. Qed.

Lemma norm_ikey k : int32 k -> norm_key (int_key k) = int_key k.
Proof.
  intros Hk. unfold int_key. cbn [norm_key]. pose proof (num_of_Z_trunc k Hk) as E.
  destruct (num_of_Z k) eqn:En; try done. simpl in E. injection E as <-. by rewrite <- En.
Qed.

Lemma good_int_key k : int32 k -> good_key (int_key k).
Proof.
  intros Hk. split; [done|]. split; [|by apply norm_ikey]. intros [= E]. by apply (num_of_Z_nan k Hk).
Qed.

Lemma ikey_inj j k : int32 j -> int32 k -> int_key j = int_key k -> j = k.
Proof. intros Hj Hk [= E]. by apply num_of_Z_inj. Qed.

Lemma cast_int_range n k : cast_int n = Some k -> int32 k.
Proof. intros H%c_cast_range. unfold int32, INT_MIN, INT_MAX. lia. Qed.

Lemma lj_num2int_range n : int32 (lj_num2int n).
Proof.
  unfold lj_num2int. destruct (cast_int n) eqn:E; [by eapply cast_int_range|].
  unfold int32, INT_MIN, INT_MAX. simpl. lia.
Qed.

Lemma lj_num2int_of_Z k : int32 k -> lj_num2int (num_of_Z k) = k.
Proof.
  intros Hk. unfold lj_num2int, cast_int, c_cast. rewrite num_of_Z_trunc by done. simpl.
  unfold int32, INT_MIN, INT_MAX in Hk.
  destruct (Z.leb_spec (-2147483648) k), (Z.leb_spec k 2147483647); simpl; (done || lia).
Qed.

Lemma num_int_of_Z k : int32 k -> num_int (num_of_Z k) = Some k.
Proof.
  intros Hk. unfold num_int. rewrite lj_num2int_of_Z by done.
  assert (num_eqb (num_of_Z k) (num_of_Z k) = true) as ->; [|done].
  apply num_eqb_norm. split; [done|by apply num_of_Z_nan].
Qed.

(** An integer number and its [int32_t] are one key. *)
Lemma num_int_Some n k : num_int n = Some k -> int32 k /\ norm_key (TNum n) = int_key k.
Proof.
  unfold num_int. pose proof (lj_num2int_range n) as Hr. destruct (num_eqb _ _) eqn:E; [|done].
  intros [= <-]. split; [done|]. apply num_eqb_norm in E as [-> _]. by apply norm_ikey.
Qed.

Lemma norm_num_int m n : norm_key (TNum m) = norm_key (TNum n) -> num_int m = num_int n.
Proof. destruct m as [s|s| |s x e], n as [s'|s'| |s' x' e']; try done; simpl; intros [= ]; subst; try done; by destruct s, s'. Qed.

Lemma num_int_None n k : num_int n = None -> int32 k -> norm_key (TNum n) <> int_key k.
Proof.
  intros Hn Hk E. rewrite <- norm_ikey in E by done. apply norm_num_int in E.
  by rewrite num_int_of_Z, Hn in E.
Qed.

Lemma num_eqb_refl n : num_eqb n n = negb (bool_decide (n = S754_nan)).
Proof.
  destruct (num_eqb n n) eqn:E.
  - apply num_eqb_norm in E as [_ H]. by rewrite bool_decide_false.
  - destruct (decide (n = S754_nan)) as [->|H]; [done|].
    assert (num_eqb n n = true); [|congruence]. by apply num_eqb_norm.
Qed.

Lemma u32_small k : 0 <= k -> int32 k -> u32 k = k.
Proof. intros ? [? ?]. unfold INT_MAX in *. apply wrap_u_small. simpl. lia. Qed.

Lemma u32_neg k : k < 0 -> int32 k -> LJ_MAX_ASIZE <= u32 k.
Proof.
  intros Hk [Hl _]. unfold INT_MIN in Hl. unfold wrap_u.
  rewrite <- (Z.mod_add k 1) by done. rewrite Z.mod_small by (simpl; lia).
  change LJ_MAX_ASIZE with 134217729. simpl. lia.
Qed.

(** ** Main positions *)

Section Main.
Context (gcrefu : tvalue -> Z).

(** The main position of a key in a hash part with this mask. *)
Definition main (hm : nat) (k : tvalue) : nat := hashkey gcrefu (Ltab false [] 0 [] hm 0) k.

Lemma hashkey_main t k : hashkey gcrefu t k = main (hmask t) k.
Proof. by destruct k. Qed.

Lemma land_mask h b : Z.to_nat (Z.land h (Z.of_nat (2 ^ b - 1))) = Z.to_nat (h mod 2 ^ Z.of_nat b).
Proof.
  rewrite Nat2Z.inj_sub by (apply Nat.neq_0_lt_0, Nat.pow_nonzero; lia).
  rewrite Nat2Z.inj_pow. change (Z.of_nat 2) with 2. rewrite <- Z.land_ones by lia.
  rewrite Z.ones_equiv. done.
Qed.

Lemma main_lt b k : (main (2 ^ b - 1) k < 2 ^ b)%nat.
Proof.
  assert (forall h, Z.to_nat (Z.land h (Z.of_nat (2 ^ b - 1))) < 2 ^ b)%nat as H.
  { intros h. rewrite land_mask. rewrite Nat2Z.inj_lt, Nat2Z.inj_pow. change (Z.of_nat 2) with 2.
    pose proof (Z.mod_pos_bound h (2 ^ Z.of_nat b) ltac:(apply Z.pow_pos_nonneg; lia)). lia. }
  destruct k; apply H.
Qed.

Lemma main_norm hm k : main hm (norm_key k) = main hm k.
Proof. by destruct k as [| | |[[]|[]| |]| | | | |]. Qed.
End Main.
