(* ===== verification/LjTabChain.v ===== *)
(** * The chains of the hash part

    The invariant of the nodes: they form chains without cycles or sharing, and
    a key is in the chain of its main position, at it or after it.  A main
    position whose keys are in use is held by one of them, so moving a node that
    sits in another's main position loses no key.  The three ways [lj_tab_newkey]
    places a key keep the invariant and the pairs of the table. *)

From stdpp Require Import base option strings countable gmap list.
From Stdlib Require Import ZArith Lia.
From S2P Require Import Prelude Number LuaApi LjStr LjTab LjTabKeys.

Local Open Scope nat_scope.
Local Open Scope prog_scope.

(** ** Chains *)

(** The segment [c] of a chain, linked by [n_next], ends with the link [e]. *)
Definition first (c : list nat) (e : option nat) : option nat := match c with [] => e | i :: _ => Some i end.

Fixpoint lseg (ns : list node) (c : list nat) (e : option nat) : Prop :=
  match c with
  | [] => True
  | i :: c => n_next <$> ns !! i = Some (first c e) /\ lseg ns c e
  end.

Lemma first_app l1 l2 e : first (l1 ++ l2) e = first l1 (first l2 e).
Proof. by destruct l1. Qed.

Lemma lseg_app ns l1 l2 e : lseg ns (l1 ++ l2) e <-> lseg ns l1 (first l2 e) /\ lseg ns l2 e.
Proof. induction l1 as [|i l1 IH]; simpl; [tauto|]. rewrite first_app, IH. tauto. Qed.

Lemma lseg_ext ns ns' c e : (forall i, i ∈ c -> ns' !! i = ns !! i) -> lseg ns c e -> lseg ns' c e.
Proof.
  induction c as [|i c IH]; simpl; [done|]. intros He [Hi Hc]. split; [by rewrite He by set_solver|].
  apply IH; [|done]. intros j Hj. apply He. set_solver.
Qed.

(** In the chain [c], the node [i] is [h] or after [h]. *)
Definition before (c : list nat) (h i : nat) : Prop := exists l1 l2, c = l1 ++ h :: l2 /\ i ∈ h :: l2.

Lemma before_app l1 l2 h i : before (l1 ++ l2) h i <-> before l1 h i \/ (h ∈ l1 /\ i ∈ l2) \/ before l2 h i.
Proof.
  split.
  - intros (k1 & k2 & E & Hi). apply app_eq_inv in E as [(m & -> & E)|(m & -> & ->)].
    + destruct m as [|x m]; simpl in E.
      * right; right. by exists [], k2.
      * injection E as <- ->. rewrite app_comm_cons, elem_of_app in Hi. destruct Hi as [Hi|Hi].
        -- left. by exists k1, m.
        -- right; left. set_solver.
    + right; right. by exists m, k2.
  - intros [(k1 & k2 & -> & Hi)|[[(k1 & k2 & ->)%list_elem_of_split Hi]|(k1 & k2 & -> & Hi)]].
    + exists k1, (k2 ++ l2). split; [by rewrite <- app_assoc|]. set_solver.
    + exists k1, (k2 ++ l2). split; [by rewrite <- app_assoc|]. set_solver.
    + exists (l1 ++ k1), k2. by rewrite <- app_assoc.
Qed.

Lemma before_head h c i : i ∈ h :: c -> before (h :: c) h i.
Proof. intros. by exists [], c. Qed.

Lemma before_one x h i : before [x] h i <-> h = x /\ i = x.
Proof.
  split; [|intros [-> ->]; by exists [], []; set_solver].
  intros ([|y k1] & k2 & E & Hi); simpl in E; injection E as ? E2; subst.
  - split; [done|set_solver].
  - by destruct k1.
Qed.

Lemma before_cons x c h i : before (x :: c) h i <-> (h = x /\ i ∈ x :: c) \/ before c h i.
Proof. rewrite (before_app [x] c), before_one. set_solver. Qed.

Lemma before_in c h i : before c h i -> h ∈ c /\ i ∈ c.
Proof. intros (l1 & l2 & -> & Hi). set_solver. Qed.

Definition used (ns : list node) (i : nat) : Prop := exists nd, ns !! i = Some nd /\ n_key nd <> TNil.

(** The pairs of the nodes. *)
Definition has (ns : list node) (k v : tvalue) : Prop :=
  exists i nd, ns !! i = Some nd /\ n_key nd = k /\ n_val nd = v /\ v <> TNil.

(** A key in no node. *)
Definition absent (ns : list node) (k : tvalue) : Prop := forall i nd, ns !! i = Some nd -> n_key nd <> k.

Section Chain.
Context (main : tvalue -> nat).

Record hp_ok (ns : list node) (cs : list (list nat)) : Prop := {
  hp_nodup : NoDup (concat cs);
  hp_used i : i ∈ concat cs <-> used ns i;
  hp_seg c : c ∈ cs -> lseg ns c None;
  hp_nil i nd : ns !! i = Some nd -> n_key nd = TNil -> nd = free_node;
  hp_reach i nd : ns !! i = Some nd -> n_key nd <> TNil ->
    exists c, c ∈ cs /\ before c (main (n_key nd)) i;
  hp_owner i nd nd' : ns !! i = Some nd -> n_key nd <> TNil -> ns !! main (n_key nd) = Some nd' ->
    main (n_key nd') = main (n_key nd);
  hp_uniq i j nd nd' : ns !! i = Some nd -> ns !! j = Some nd' -> n_key nd <> TNil ->
    n_key nd = n_key nd' -> i = j
}.

Lemma hp_ok_perm ns cs cs' : cs ≡ₚ cs' -> hp_ok ns cs -> hp_ok ns cs'.
Proof.
  intros Hp []. split; try done.
  - by rewrite <- Hp.
  - intros i. by rewrite <- Hp.
  - intros c Hc. apply hp_seg0. by rewrite Hp.
  - intros i nd Hi Hk. destruct (hp_reach0 i nd Hi Hk) as (c & Hc & Hin). exists c. by rewrite <- Hp.
Qed.

(** A chain of the part, brought to the front. *)
Lemma hp_front ns cs c : hp_ok ns cs -> c ∈ cs -> exists cs0, cs ≡ₚ c :: cs0 /\ hp_ok ns (c :: cs0).
Proof.
  intros H (cs0 & Hp)%elem_of_Permutation. exists cs0. split; [done|]. by eapply hp_ok_perm.
Qed.

(** The main position of a key in use is in use. *)
Lemma main_used ns cs i nd : hp_ok ns cs -> ns !! i = Some nd -> n_key nd <> TNil -> used ns (main (n_key nd)).
Proof.
  intros H Hi Hk. destruct (hp_reach _ _ H i nd Hi Hk) as (c & Hc & [Hm _]%before_in).
  apply (hp_used _ _ H), elem_of_concat. by exists c.
Qed.

(** No key has as its main position a node in use by a key of another. *)
Lemma foreign_main ns cs n nd : hp_ok ns cs -> ns !! n = Some nd -> main (n_key nd) <> n ->
  forall i nd', ns !! i = Some nd' -> n_key nd' <> TNil -> main (n_key nd') <> n.
Proof.
  intros H Hn Hm i nd' Hi Hk E. apply Hm. rewrite <- E in Hn |- *. by rewrite (hp_owner _ _ H i nd' nd).
Qed.

Lemma used_notin ns cs i nd : hp_ok ns cs -> ns !! i = Some nd -> n_key nd = TNil -> i ∉ concat cs.
Proof. intros H Hi Hk (nd' & Hi' & Hk')%(hp_used _ _ H). congruence. Qed.

(** Taking the node [n] out of the chains other than its own. *)
Lemma front_disjoint ns l1 n l2 cs0 i : hp_ok ns ((l1 ++ n :: l2) :: cs0) ->
  i ∈ l1 \/ i ∈ l2 \/ i ∈ concat cs0 -> i <> n.
Proof.
  intros H Hi ->. pose proof (hp_nodup _ _ H) as Hnd. simpl in Hnd.
  rewrite <- app_assoc in Hnd. apply NoDup_app in Hnd as (_ & Hd1 & Hnd). simpl in Hnd.
  apply NoDup_cons in Hnd as [Hd2 _]. rewrite elem_of_app in Hd2.
  destruct Hi as [Hi|Hi]; [apply (Hd1 n Hi); set_solver|tauto].
Qed.

Lemma free_node_out ns l1 n l2 cs0 f i : hp_ok ns ((l1 ++ n :: l2) :: cs0) -> ns !! f = Some free_node ->
  i = n \/ i ∈ l1 \/ i ∈ l2 \/ i ∈ concat cs0 -> i <> f.
Proof.
  intros H Hf Hi ->. pose proof (used_notin _ _ _ _ H Hf eq_refl) as Hn. apply Hn. simpl.
  rewrite !elem_of_app, elem_of_cons. tauto.
Qed.

(** ** Placing a key *)

(** The new node table of each case, for a key that is in no node. *)
Section Place.
Context (ns : list node) (cs : list (list nat)) (key : tvalue).
Hypothesis Hok : hp_ok ns cs.
Hypothesis Hkey : key <> TNil.
Hypothesis Habs : absent ns key.

Definition placed (ns' : list node) (i : nat) : Prop :=
  (exists cs', hp_ok ns' cs' /\ length (concat cs') <= S (length (concat cs))) /\
  (exists nd, ns' !! i = Some nd /\ n_key nd = key /\ n_val nd = TNil) /\
  (forall k v, has ns' k v <-> has ns k v) /\ length ns' = length ns /\
  (forall j nd, ns !! j = Some nd -> n_key nd <> TNil -> exists nd', ns' !! j = Some nd' /\ n_key nd' <> TNil) /\
  (forall j nd, ns' !! j = Some nd -> n_key nd <> TNil -> n_key nd = key \/ exists j' nd', ns !! j' = Some nd' /\ n_key nd' = n_key nd).

(** The pairs that stay: the node [j] of [ns'] holds what [rho j] of [ns] held.
    What is left to show of a placement is about chains. *)
Record kept (ns' : list node) (cs' : list (list nat)) (i : nat) (rho : nat -> nat) : Prop := {
  kp_at j nd' : ns' !! j = Some nd' -> j <> i -> n_key nd' <> TNil ->
    exists nd, ns !! rho j = Some nd /\ n_key nd = n_key nd' /\ n_val nd = n_val nd';
  kp_inj j j' : j <> i -> j' <> i -> rho j = rho j' -> j = j';
  kp_main j nd : ns !! j = Some nd -> n_key nd <> TNil ->
    if decide (main (n_key nd) = i) then main key = i else rho (main (n_key nd)) = main (n_key nd);
  kp_before c j nd : c ∈ cs -> j <> i -> ns !! rho j = Some nd -> n_key nd <> TNil ->
    before c (main (n_key nd)) (rho j) -> exists c', c' ∈ cs' /\ before c' (main (n_key nd)) j;
  kp_old j nd : ns !! j = Some nd -> n_key nd <> TNil -> used ns' j /\
    (n_val nd <> TNil -> exists j' nd', ns' !! j' = Some nd' /\ n_key nd' = n_key nd /\ n_val nd' = n_val nd)
}.

Record shape (ns' : list node) (cs' : list (list nat)) (i : nat) : Prop := {
  sh_length : length ns' = length ns;
  sh_nodup : NoDup (concat cs');
  sh_count : length (concat cs') <= S (length (concat cs));
  sh_used j : j ∈ concat cs' <-> used ns' j;
  sh_seg c : c ∈ cs' -> lseg ns' c None;
  sh_nil j nd : ns' !! j = Some nd -> n_key nd = TNil -> nd = free_node;
  sh_new : exists x, ns' !! i = Some (Node TNil key x);
  sh_reach : exists c, c ∈ cs' /\ before c (main key) i;
  sh_own : exists nd, ns' !! main key = Some nd /\ main (n_key nd) = main key
}.

Lemma kept_owner ns' cs' i rho : shape ns' cs' i -> kept ns' cs' i rho ->
  forall j nd nd2, ns' !! j = Some nd -> n_key nd <> TNil -> ns' !! main (n_key nd) = Some nd2 ->
  main (n_key nd2) = main (n_key nd).
Proof.
  intros [] [] j nd nd2 Hj Hk Hm. destruct sh_new0 as [x Hi], sh_own0 as (nd3 & Hm3 & E3).
  destruct (decide (j = i)) as [->|Hji].
  { rewrite Hi in Hj. injection Hj as <-. cbn [n_key] in *. rewrite Hm3 in Hm. by injection Hm as <-. }
  destruct (kp_at0 j nd Hj Hji Hk) as (nd0 & Hj0 & Ek & _). rewrite <- Ek in Hk, Hm |- *.
  pose proof (kp_main0 _ _ Hj0 Hk) as Hmain. case_decide as Hmi.
  { rewrite Hmi in Hm |- *. rewrite Hi in Hm. by injection Hm as <-. }
  assert (n_key nd2 <> TNil) as Hk2.
  { destruct (main_used _ _ _ _ Hok Hj0 Hk) as (ndm & Em & Hkm). destruct (kp_old0 _ _ Em Hkm) as [(nd4 & E4 & ?) _].
    congruence. }
  destruct (kp_at0 _ nd2 Hm Hmi Hk2) as (nd5 & E5 & <- & _). rewrite Hmain in E5.
  by eapply (hp_owner _ _ Hok).
Qed.

Lemma place_from ns' cs' i rho : shape ns' cs' i -> kept ns' cs' i rho -> placed ns' i.
Proof.
  intros Hs Hr. pose proof (kept_owner _ _ _ _ Hs Hr) as Howner. destruct Hs, Hr, sh_new0 as [x Hi].
  assert (Hik : forall nd, ns' !! i = Some nd -> n_key nd = key /\ n_val nd = TNil).
  { intros nd E. rewrite Hi in E. by injection E as <-. }
  assert (Hnk : forall j nd, ns' !! j = Some nd -> j <> i -> n_key nd <> TNil -> n_key nd <> key).
  { intros j nd Hj Hji Hk E. destruct (kp_at0 j nd Hj Hji Hk) as (nd0 & Hj0 & Ek & _).
    by destruct (Habs _ nd0 Hj0); rewrite Ek. }
  unfold placed. split_and!.
  - exists cs'. split; [split|done]; try done.
    + intros j nd Hj Hk. destruct (decide (j = i)) as [->|Hji]; [by destruct (Hik nd Hj) as [-> _]|].
      destruct (kp_at0 j nd Hj Hji Hk) as (nd0 & Hj0 & Ek & _). rewrite <- Ek in Hk |- *.
      destruct (hp_reach _ _ Hok _ nd0 Hj0 Hk) as (c & Hc & Hb). by eapply kp_before0.
    + intros j j2 nd nd2 Hj Hj2 Hk E.
      destruct (decide (j = i)) as [->|Hji], (decide (j2 = i)) as [->|Hj2i]; try done.
      * destruct (Hnk j2 nd2 Hj2 Hj2i); [by rewrite <- E|]. rewrite <- E. by apply Hik.
      * destruct (Hnk j nd Hj Hji Hk). rewrite E. by apply Hik.
      * destruct (kp_at0 j nd Hj Hji Hk) as (nd0 & H1 & E1 & _).
        destruct (kp_at0 j2 nd2 Hj2 Hj2i) as (nd3 & H2 & E2 & _); [by rewrite <- E|].
        apply kp_inj0; [done..|]. eapply (hp_uniq _ _ Hok); [done|done|congruence..].
  - by eexists.
  - intros k v. split; intros (j & nd & Hj & <- & <- & Hv).
    + destruct (decide (j = i)) as [->|Hji]; [by destruct (Hik nd Hj)|].
      assert (n_key nd <> TNil) as Hk by (intros E; by rewrite (sh_nil0 j nd Hj E) in Hv).
      destruct (kp_at0 j nd Hj Hji Hk) as (nd0 & Hj0 & Ek & Ev). exists (rho j), nd0. split_and!; congruence.
    + assert (n_key nd <> TNil) as Hk by (intros E; by rewrite (hp_nil _ _ Hok j nd Hj E) in Hv).
      destruct (kp_old0 j nd Hj Hk) as [_ H]. destruct (H Hv) as (j' & nd' & ? & ? & ?). exists j', nd'. split_and!; congruence.
  - done.
  - intros j nd Hj Hk. by apply (kp_old0 j nd).
  - intros j nd Hj Hk. destruct (decide (j = i)) as [->|Hji]; [left; by apply Hik|right].
    destruct (kp_at0 j nd Hj Hji Hk) as (nd0 & Hj0 & Ek & _). by exists (rho j), nd0.
Qed.

(** The main position holds no value: the key goes there. *)
Lemma place_main nd : ns !! main key = Some nd -> n_val nd = TNil ->
  placed (<[main key := Node TNil key (n_next nd)]> ns) (main key).
Proof.
  intros Hn Hv. set (n := main key) in *. set (ns' := <[n := _]> ns).
  assert (Hlt : n < length ns) by by eapply lookup_lt_Some.
  assert (Hn' : ns' !! n = Some (Node TNil key (n_next nd))) by by apply list_lookup_insert_eq.
  assert (Ho : forall i, i <> n -> ns' !! i = ns !! i) by (intros; by apply list_lookup_insert_ne).
  set (cs' := if decide (n_key nd = TNil) then [n] :: cs else cs).
  assert (Hin : forall c, c ∈ cs -> c ∈ cs') by (intros; unfold cs'; case_decide; set_solver).
  apply (place_from ns' cs' n id); split.
  - by apply length_insert.
  - unfold cs'. case_decide; [|apply Hok]. simpl. constructor; [by eapply used_notin|apply Hok].
  - unfold cs'. case_decide; simpl; lia.
  - intros i. assert (i ∈ concat cs' <-> i = n \/ i ∈ concat cs) as ->.
    { unfold cs'. case_decide as Hk; simpl; [set_solver|]. split; [by right|]. intros [->|?]; [|done].
      apply (hp_used _ _ Hok). by exists nd. }
    rewrite (hp_used _ _ Hok). unfold used.
    destruct (decide (i = n)) as [->|]; [naive_solver|rewrite Ho by done; naive_solver].
  - assert (forall c, c ∈ cs -> lseg ns' c None) as Hs.
    { intros c Hc. pose proof (hp_seg _ _ Hok c Hc) as Hs. clear Hc. induction c as [|i c IH]; [done|].
      destruct Hs as [Hi Hc]. split; [|by apply IH].
      destruct (decide (i = n)) as [->|]; [by rewrite Hn in Hi; rewrite Hn'|by rewrite Ho]. }
    intros c. unfold cs'. case_decide as Hk; [|apply Hs]. intros [->|?]%elem_of_cons; [|by apply Hs].
    simpl. rewrite Hn'. by rewrite (hp_nil _ _ Hok n nd Hn Hk).
  - intros i nd0 Hi Hk. destruct (decide (i = n)) as [->|]; [by rewrite Hn' in Hi; simplify_eq|].
    rewrite Ho in Hi by done. by eapply hp_nil.
  - by eexists.
  - fold n. destruct (decide (n_key nd = TNil)) as [E|E].
    { exists [n]. split; [apply elem_of_cons; by left|apply before_head; set_solver]. }
    assert (n ∈ concat cs) as (c & Hc & Hcc)%elem_of_concat by (apply (hp_used _ _ Hok); by exists nd).
    apply list_elem_of_split in Hc as (l1 & l2 & ->). exists (l1 ++ n :: l2).
    split; [by apply Hin|]. exists l1, l2. set_solver.
  - fold n. by eexists.
  - intros j nd' Hj Hjn Hk. rewrite Ho in Hj by done. by exists nd'.
  - done.
  - intros j nd0 _ _. by case_decide.
  - intros c j nd0 Hc _ _ _ Hb. exists c. by auto.
  - intros j nd0 Hj Hk. destruct (decide (j = n)) as [->|Hjn].
    + split; [by eexists|]. rewrite Hn in Hj. by injection Hj as <-.
    + split; [exists nd0; by rewrite Ho|]. intros _. exists j, nd0. by rewrite Ho.
Qed.

(** The main position holds a key of its own: the key goes into a free node,
    linked in after it. *)
Lemma place_after nd f : ns !! main key = Some nd -> n_key nd <> TNil -> main (n_key nd) = main key ->
  ns !! f = Some free_node ->
  placed (<[f := Node TNil key (n_next nd)]> (<[main key := Node (n_val nd) (n_key nd) (Some f)]> ns)) f.
Proof.
  intros Hn Hk Hm Hf. set (n := main key) in *. set (ns' := <[f := _]> _).
  assert (Hfn : f <> n) by (intros ->; rewrite Hn in Hf; by simplify_eq).
  assert (Hlf : f < length ns) by by eapply lookup_lt_Some.
  assert (Hln : n < length ns) by by eapply lookup_lt_Some.
  assert (Hf' : ns' !! f = Some (Node TNil key (n_next nd)))
    by (apply list_lookup_insert_eq; by rewrite length_insert).
  assert (Hn' : ns' !! n = Some (Node (n_val nd) (n_key nd) (Some f)))
    by (unfold ns'; rewrite list_lookup_insert_ne by done; by apply list_lookup_insert_eq).
  assert (Ho : forall i, i <> f -> i <> n -> ns' !! i = ns !! i)
    by (intros; unfold ns'; by rewrite !list_lookup_insert_ne).
  assert (n ∈ concat cs) as (c & Hc & Hcc)%elem_of_concat by (apply (hp_used _ _ Hok); by exists nd).
  destruct (hp_front _ _ _ Hok Hcc) as (cs0 & Hperm & Hok').
  apply list_elem_of_split in Hc as (l1 & l2 & ->). set (cs' := (l1 ++ n :: f :: l2) :: cs0).
  assert (Hcat : concat cs' ≡ₚ f :: concat cs).
  { rewrite Hperm. simpl. rewrite <- !app_assoc. simpl. by rewrite <- !Permutation_middle, Permutation_swap. }
  apply (place_from ns' cs' f id); split.
  - unfold ns'. by rewrite !length_insert.
  - rewrite Hcat. constructor; [by eapply used_notin|apply Hok].
  - by rewrite Hcat.
  - intros i. rewrite Hcat, elem_of_cons, (hp_used _ _ Hok). unfold used.
    destruct (decide (i = f)) as [->|]; [naive_solver|].
    destruct (decide (i = n)) as [->|]; [rewrite Hn, Hn'; naive_solver|]. rewrite Ho by done. naive_solver.
  - assert (Hext : forall l e, (forall i, i ∈ l -> i ∈ l1 \/ i ∈ l2 \/ i ∈ concat cs0) -> lseg ns l e -> lseg ns' l e).
    { intros l e Hl. apply lseg_ext. intros i Hi. apply Ho; [eapply free_node_out|eapply front_disjoint]; eauto. }
    pose proof (hp_seg _ _ Hok' _ ltac:(by left)) as Hs. apply lseg_app in Hs as [Hs1 [Hsn Hs2]].
    intros c [->|Hc]%elem_of_cons.
    + apply lseg_app. split; [apply Hext; [auto|done]|].
      simpl. rewrite Hn', Hf'. split; [done|]. split; [rewrite Hn in Hsn; by injection Hsn as ->|apply Hext; auto].
    + apply Hext; [|apply (hp_seg _ _ Hok'); by right]. intros i Hi. rewrite elem_of_concat. eauto.
  - intros i nd0 Hi Hk0. destruct (decide (i = f)) as [->|]; [rewrite Hf' in Hi; by simplify_eq|].
    destruct (decide (i = n)) as [->|]; [rewrite Hn' in Hi; by simplify_eq|].
    rewrite Ho in Hi by done. by eapply hp_nil.
  - by eexists.
  - exists (l1 ++ n :: f :: l2). split; [by left|]. fold n. exists l1, (f :: l2). set_solver.
  - fold n. by eexists.
  - intros j nd' Hj Hjf _. destruct (decide (j = n)) as [->|]; [rewrite Hn' in Hj; injection Hj as <-; by exists nd|].
    rewrite Ho in Hj by done. by exists nd'.
  - done.
  - intros j nd0 Hj Hk0. case_decide as E; [|done].
    destruct (main_used _ _ _ _ Hok Hj Hk0) as (ndf & E2 & Hkf). rewrite E, Hf in E2. by injection E2 as <-.
  - intros c j nd0 Hc _ _ _ Hb. rewrite Hperm in Hc. apply elem_of_cons in Hc as [->|Hc]; [|exists c; set_solver].
    exists (l1 ++ n :: f :: l2). split; [by left|]. rewrite before_app, !before_cons in *. set_solver.
  - intros j nd0 Hj Hk0. destruct (decide (j = n)) as [->|Hjn].
    + rewrite Hn in Hj. injection Hj as <-. split; [by eexists|]. intros _. exists n. by eexists.
    + assert (j <> f) by (intros ->; rewrite Hf in Hj; by injection Hj as <-).
      split; [exists nd0; by rewrite Ho|]. intros _. exists j, nd0. by rewrite Ho.
Qed.

(** The main position holds a key of another one: that key moves to the free
    node, and the node [p] before it in its chain is linked to it there. *)
Lemma place_moving nd f p ndp l1 l2 : ns !! main key = Some nd -> n_val nd <> TNil -> main (n_key nd) <> main key ->
  ns !! f = Some free_node -> l1 ++ p :: main key :: l2 ∈ cs -> ns !! p = Some ndp ->
  placed (<[main key := Node TNil key None]> (<[f := nd]> (<[p := Node (n_val ndp) (n_key ndp) (Some f)]> ns))) (main key).
Proof.
  intros Hn Hv Hm Hf Hc Hp. set (n := main key) in *. set (ns' := <[n := _]> _).
  assert (Hk : n_key nd <> TNil) by (intros E; by rewrite (hp_nil _ _ Hok n nd Hn E) in Hv).
  destruct (hp_front _ _ _ Hok Hc) as (cs0 & Hperm & Hok').
  assert (Hpu : p ∈ concat cs) by (rewrite Hperm; simpl; set_solver).
  pose proof (used_notin _ _ f _ Hok Hf eq_refl) as Hfu.
  assert (Hnu : n ∈ concat cs) by (rewrite Hperm; simpl; set_solver).
  assert (Hpn : p <> n) by (apply (front_disjoint ns (l1 ++ [p]) n l2 cs0 p);
    [by rewrite <- app_assoc|set_solver]).
  assert (Hpf : p <> f) by (by intros ->). assert (Hfn : f <> n) by (by intros ->).
  assert (Hlf : f < length ns) by by eapply lookup_lt_Some.
  assert (Hln : n < length ns) by by eapply lookup_lt_Some.
  assert (Hlp : p < length ns) by by eapply lookup_lt_Some.
  assert (Hn' : ns' !! n = Some (Node TNil key None)) by (apply list_lookup_insert_eq; by rewrite !length_insert).
  assert (Hf' : ns' !! f = Some nd)
    by (unfold ns'; rewrite list_lookup_insert_ne by done; apply list_lookup_insert_eq; by rewrite length_insert).
  assert (Hp' : ns' !! p = Some (Node (n_val ndp) (n_key ndp) (Some f)))
    by (unfold ns'; rewrite !list_lookup_insert_ne by done; by apply list_lookup_insert_eq).
  assert (Ho : forall i, i <> f -> i <> n -> i <> p -> ns' !! i = ns !! i)
    by (intros; unfold ns'; by rewrite !list_lookup_insert_ne).
  set (cs' := [n] :: (l1 ++ p :: f :: l2) :: cs0).
  assert (Hcat : concat cs' ≡ₚ f :: concat cs).
  { rewrite Hperm. simpl. rewrite <- !app_assoc. simpl. rewrite <- !Permutation_middle. solve_Permutation. }
  assert (Hdis : forall i, i ∈ l1 \/ i ∈ l2 \/ i ∈ concat cs0 -> i <> f /\ i <> n /\ i <> p).
  { intros i Hi. split_and!.
    - intros ->. apply Hfu. rewrite Hperm. simpl. rewrite <- app_assoc. set_solver.
    - apply (front_disjoint ns (l1 ++ [p]) n l2 cs0); [by rewrite <- app_assoc|]. set_solver.
    - apply (front_disjoint ns l1 p (n :: l2) cs0); [done|]. set_solver. }
  apply (place_from ns' cs' n (fun j => if decide (j = f) then n else j)); split.
  - unfold ns'. by rewrite !length_insert.
  - rewrite Hcat. constructor; [done|apply Hok].
  - by rewrite Hcat.
  - intros i. rewrite Hcat, elem_of_cons, (hp_used _ _ Hok). unfold used.
    destruct (decide (i = f)) as [->|]; [naive_solver|].
    destruct (decide (i = n)) as [->|]; [rewrite Hn, Hn'; naive_solver|].
    destruct (decide (i = p)) as [->|]; [rewrite Hp, Hp'; naive_solver|]. rewrite Ho by done. naive_solver.
  - assert (Hext : forall l e, (forall i, i ∈ l -> i ∈ l1 \/ i ∈ l2 \/ i ∈ concat cs0) -> lseg ns l e -> lseg ns' l e).
    { intros l e Hl. apply lseg_ext. intros i Hi. destruct (Hdis i) as (? & ? & ?); auto. }
    pose proof (hp_seg _ _ Hok' _ ltac:(by left)) as Hs. apply lseg_app in Hs as [Hs1 [_ [Hsn Hs2]]].
    intros c [->|[->|Hcc]%elem_of_cons]%elem_of_cons.
    + simpl. by rewrite Hn'.
    + apply lseg_app. split; [apply Hext; [auto|done]|].
      simpl. rewrite Hp', Hf'. split; [done|]. split; [by rewrite Hn in Hsn|apply Hext; auto].
    + apply Hext; [|apply (hp_seg _ _ Hok'); by right]. intros i Hi. rewrite elem_of_concat. eauto.
  - intros i nd0 Hi Hk0. destruct (decide (i = f)) as [->|]; [rewrite Hf' in Hi; by simplify_eq|].
    destruct (decide (i = n)) as [->|]; [rewrite Hn' in Hi; by simplify_eq|].
    destruct (decide (i = p)) as [->|]; [|rewrite Ho in Hi by done; by eapply hp_nil].
    rewrite Hp' in Hi. injection Hi as <-. cbn [n_key] in Hk0.
    by destruct (used_notin _ _ _ _ Hok Hp Hk0).
  - by eexists.
  - exists [n]. split; [by left|]. apply before_head. set_solver.
  - fold n. by eexists.
  - intros j nd' Hj Hjn _. case_decide as Hjf; [subst j; rewrite Hf' in Hj; injection Hj as <-; by exists nd|].
    destruct (decide (j = p)) as [->|]; [rewrite Hp' in Hj; injection Hj as <-; by exists ndp|].
    rewrite Ho in Hj by done. by exists nd'.
  - intros j j' Hj Hj'. repeat case_decide; congruence.
  - intros j nd0 Hj Hk0. case_decide; [done|]. case_decide as E; [|done].
    destruct (main_used _ _ _ _ Hok Hj Hk0) as (ndf & E2 & Hkf). rewrite E, Hf in E2. by injection E2 as <-.
  - intros c j nd0 Hcc Hjn Hj Hk0 Hb. pose proof (foreign_main _ _ _ _ Hok Hn Hm _ _ Hj Hk0) as Hmn.
    set (h := main (n_key nd0)) in *. rewrite Hperm in Hcc. apply elem_of_cons in Hcc as [->|Hcc].
    + exists (l1 ++ p :: f :: l2). split; [right; by left|].
      pose proof (Hdis n) as Hdn. rewrite before_app, !before_cons in Hb |- *. case_decide as Hjf.
      * subst j. destruct Hb as [[_ Hb]%before_in|[[Hh _]|[[Hh _]|[[Hh _]|[_ Hb]%before_in]]]];
          [destruct Hdn as (_ & ? & _); auto; done|right; left|right; right; left|done|
           destruct Hdn as (_ & ? & _); auto; done]; (split; [done|]); rewrite !elem_of_cons; tauto.
      * rewrite !elem_of_cons in *. tauto.
    + exists c. split; [right; by right|]. case_decide as Hjf; [|done]. apply before_in in Hb as [_ Hb].
      destruct (Hdis n) as (_ & ? & _); [|done]. right; right. rewrite elem_of_concat. eauto.
  - intros j nd0 Hj Hk0. destruct (decide (j = n)) as [->|Hjn].
    + rewrite Hn in Hj. injection Hj as <-. split; [by eexists|]. intros _. by exists f, nd.
    + assert (j <> f) by (intros ->; rewrite Hf in Hj; by injection Hj as <-).
      destruct (decide (j = p)) as [->|].
      * rewrite Hp in Hj. injection Hj as <-. split; [by eexists|]. intros _. exists p. by eexists.
      * split; [exists nd0; by rewrite Ho|]. intros _. exists j, nd0. by rewrite Ho.
Qed.
End Place.
End Chain.
