(* ===== verification/LjTabFind.v ===== *)
(** * Runs of the searches and of placing a key

    The loops of [LjTab] over the nodes, under the invariant of [LjTabChain]:
    they end, find what is there, and [lj_tab_newkey] without a resize places a
    key as [place_main], [place_after] or [place_moving]. *)

From stdpp Require Import base option strings countable gmap list.
From Stdlib Require Import ZArith Lia.
From S2P Require Import Prelude Number LuaApi LjStr LjTab LjTabKeys LjTabChain.

Local Open Scope nat_scope.
Local Open Scope prog_scope.

(** ** Nodes *)

Lemma get_node_run t i nd : nodes t !! i = Some nd -> get_node i t = Ret nd t.
Proof. intros H. unfold get_node, bind, get. by rewrite H. Qed.

Lemma put_node_run t i nd f : nodes t !! i = Some nd ->
  put_node i f t = Ret tt (set_nodes (<[i := f nd]> (nodes t)) t).
Proof. intros H. unfold put_node. by rewrite (bind_step _ _ _ _ _ (get_node_run t i nd H)). Qed.

Section Find.
Context (gcrefu : tvalue -> Z).
Implicit Types (t : ltab) (cs : list (list nat)).

(** The hash part is well formed, with the chains [cs]. *)
Record hash_ok t cs : Prop := {
  hk_hp : hp_ok (main gcrefu (hmask t)) (nodes t) cs;
  hk_length : length (nodes t) = S (hmask t);
  hk_mask : exists b, b <= LJ_MAX_HBITS /\ hmask t = 2 ^ b - 1;
  hk_good i nd : nodes t !! i = Some nd -> n_key nd <> TNil -> good_key (n_key nd);
  hk_top : freetop t <= length (nodes t);
  hk_free i nd : hmask t <> 0 -> freetop t <= i -> nodes t !! i = Some nd -> n_key nd <> TNil;
  hk_none : hmask t = 0 -> nodes t = [nilnode] /\ freetop t = 0
}.

Lemma main_in t cs k : hash_ok t cs -> main gcrefu (hmask t) k < length (nodes t).
Proof.
  intros H. destruct (hk_mask _ _ H) as (b & _ & E). rewrite (hk_length _ _ H), E.
  pose proof (main_lt gcrefu b k). lia.
Qed.

(** There are no more used nodes than nodes. *)
Lemma used_bound t cs : hash_ok t cs -> length (concat cs) <= length (nodes t).
Proof.
  intros H. rewrite <- (length_seq (length (nodes t)) 0). apply submseteq_length, NoDup_submseteq.
  - apply (hk_hp _ _ H).
  - intros i (nd & Hi & _)%(hp_used _ _ _ (hk_hp _ _ H)). apply elem_of_seq. apply lookup_lt_Some in Hi. lia.
Qed.

Lemma all_used t cs : hash_ok t cs -> (forall i nd, nodes t !! i = Some nd -> n_key nd <> TNil) ->
  length (concat cs) = length (nodes t).
Proof.
  intros H Hall. apply Nat.le_antisymm; [by apply used_bound|].
  rewrite <- (length_seq (length (nodes t)) 0) at 1. apply submseteq_length, NoDup_submseteq; [apply NoDup_seq|].
  intros i Hi. apply elem_of_seq in Hi. apply (hp_used _ _ _ (hk_hp _ _ H)).
  destruct (lookup_lt_is_Some_2 (nodes t) i) as [nd Hn]; [lia|]. exists nd. eauto.
Qed.

Lemma chain_length t cs c : hash_ok t cs -> c ∈ cs -> length c <= length (nodes t).
Proof.
  intros H Hc. etransitivity; [|by apply used_bound]. apply elem_of_Permutation in Hc as [cs' ->].
  simpl. rewrite length_app. lia.
Qed.

(** ** Searching *)

Lemma find_node_run t p l : forall n fuel, lseg (nodes t) (n :: l) None -> length l < fuel ->
  exists r, find_node fuel p n t = Ret r t /\
  match r with
  | Some i => i ∈ n :: l /\ exists nd, nodes t !! i = Some nd /\ p (n_key nd) = true
  | None => forall i nd, i ∈ n :: l -> nodes t !! i = Some nd -> p (n_key nd) = false
  end.
Proof.
  induction l as [|m l IH]; intros n [|fuel] [Hn Hl] Hf; try (simpl in Hf; lia);
    destruct (nodes t !! n) as [nd|] eqn:E; try done; injection Hn as Hn; simpl in Hn;
    cbn [find_node]; rewrite (bind_step _ _ _ _ _ (get_node_run t n nd E)), Hn;
    destruct (p (n_key nd)) eqn:Hp.
  - exists (Some n). split; [done|]. split; [set_solver|by exists nd].
  - exists None. split; [done|]. intros i nd' ->%list_elem_of_singleton Hi. congruence.
  - exists (Some n). split; [done|]. split; [set_solver|by exists nd].
  - destruct (IH m fuel Hl) as (r & -> & Hr); [simpl in Hf; lia|]. exists r. split; [done|].
    destruct r as [i|].
    + destruct Hr as [? ?]. split; [set_solver|done].
    + intros i nd' [->|Hi]%elem_of_cons Hnd; [congruence|by eapply Hr].
Qed.

Lemma absent_dec (ns : list node) k : (exists i nd, ns !! i = Some nd /\ n_key nd = k) \/ absent ns k.
Proof.
  destruct (decide (Exists (fun nd => n_key nd = k) ns)) as [H|H].
  - left. apply Exists_exists in H as (nd & (i & Hi)%list_elem_of_lookup & Hk). by exists i, nd.
  - right. intros i nd Hi Hk. apply H. apply Exists_exists. exists nd. split; [by eapply list_elem_of_lookup_2|done].
Qed.

(** A search from any node ends, having seen the rest of its chain. *)
Lemma search_total t cs p n : hash_ok t cs -> n < length (nodes t) -> p TNil = false ->
  exists r, search p n t = Ret r t /\
  match r with
  | Some i => exists nd, nodes t !! i = Some nd /\ p (n_key nd) = true
  | None => forall c i nd, c ∈ cs -> before c n i -> nodes t !! i = Some nd -> p (n_key nd) = false
  end.
Proof.
  intros H Hlt Hnil. unfold search. change (bind get ?f t) with (f t t). cbv beta. rewrite <- (hk_length _ _ H).
  assert (forall l1 l2, l1 ++ n :: l2 ∈ cs -> lseg (nodes t) (n :: l2) None /\ length l2 < length (nodes t)) as Hchain.
  { intros l1 l2 Hc. split; [by apply (hp_seg _ _ _ (hk_hp _ _ H)), lseg_app in Hc as [_ ?]|].
    apply (chain_length _ _ _ H) in Hc. rewrite length_app in Hc. simpl in Hc. lia. }
  destruct (lookup_lt_is_Some_2 (nodes t) n Hlt) as [nd Hn]. destruct (decide (n_key nd = TNil)) as [E|E].
  - pose proof Hn as Hn0. rewrite (hp_nil _ _ _ (hk_hp _ _ H) n nd Hn E) in Hn0. exists None. split.
    + rewrite (hk_length _ _ H). cbn [find_node]. rewrite (bind_step _ _ _ _ _ (get_node_run t n _ Hn0)).
      cbn [free_node n_key n_next]. by rewrite Hnil.
    + intros c i nd' Hc [Hb _]%before_in. destruct (used_notin _ _ _ _ _ (hk_hp _ _ H) Hn E).
      apply elem_of_concat. by exists c.
  - assert (n ∈ concat cs) as (c & Hc & Hcc)%elem_of_concat by (apply (hp_used _ _ _ (hk_hp _ _ H)); by exists nd).
    apply list_elem_of_split in Hc as (l1 & l2 & ->). destruct (Hchain l1 l2 Hcc) as [Hs Hl].
    destruct (find_node_run t p l2 n _ Hs Hl) as (r & Hrun & Hr). exists r. split; [done|]. destruct r as [i|].
    + by destruct Hr as [_ Hr].
    + intros c i nd' Hc (k1 & k2 & -> & Hi). destruct (Hchain k1 k2 Hc) as [Hs2 Hl2].
      destruct (find_node_run t p k2 n _ Hs2 Hl2) as (r & Hrun2 & Hr2). rewrite Hrun in Hrun2.
      injection Hrun2 as <-. by apply Hr2.
Qed.

(** A search from the main position of a key finds its node, if it has one. *)
Lemma search_run t cs k p : hash_ok t cs -> good_key k ->
  (forall kk, good_key kk -> p kk = true <-> kk = k) -> p TNil = false ->
  exists r, search p (main gcrefu (hmask t) k) t = Ret r t /\
  match r with
  | Some i => exists nd, nodes t !! i = Some nd /\ n_key nd = k
  | None => absent (nodes t) k
  end.
Proof.
  intros H Hk Hp Hnil. destruct (search_total t cs p _ H (main_in _ _ k H) Hnil) as (r & Hrun & Hr).
  exists r. split; [done|]. destruct r as [i|].
  - destruct Hr as (nd & Hi & Hpi). exists nd. split; [done|].
    destruct (decide (n_key nd = TNil)) as [E|E]; [rewrite E in Hpi; congruence|].
    apply Hp; [by eapply hk_good|done].
  - intros i nd Hi <-. destruct (hp_reach _ _ _ (hk_hp _ _ H) i nd Hi (proj1 Hk)) as (c & Hc & Hb).
    specialize (Hr c i nd Hc Hb Hi). by rewrite (proj2 (Hp _ Hk) eq_refl) in Hr.
Qed.

(** ** Free nodes *)

Lemma find_free_run t fr : fr <= length (nodes t) ->
  exists r, find_free fr t = Ret r t /\
  match r with
  | Some f => f < fr /\ (exists nd, nodes t !! f = Some nd /\ n_key nd = TNil) /\
      forall i nd, f < i < fr -> nodes t !! i = Some nd -> n_key nd <> TNil
  | None => forall i nd, i < fr -> nodes t !! i = Some nd -> n_key nd <> TNil
  end.
Proof.
  induction fr as [|f IH]; intros Hf; [exists None; split; [done|lia]|]. cbn [find_free].
  destruct (lookup_lt_is_Some_2 (nodes t) f) as [nd Hn]; [lia|].
  rewrite (bind_step _ _ _ _ _ (get_node_run t f nd Hn)). destruct (is_nil (n_key nd)) eqn:E.
  - apply is_nil_true in E. exists (Some f). split; [done|]. split; [lia|]. split; [by exists nd|lia].
  - apply is_nil_false in E. destruct IH as (r & -> & Hr); [lia|]. exists r. split; [done|].
    assert (forall i nd0, i = f -> nodes t !! i = Some nd0 -> n_key nd0 <> TNil) as Hff by (intros i nd0 -> ?; congruence).
    destruct r as [g|].
    + destruct Hr as (? & ? & Hg). split; [lia|]. split; [done|]. intros i nd0 Hi Hi0.
      destruct (decide (i = f)); [by eapply Hff|]. apply (Hg i); [lia|done].
    + intros i nd0 Hi Hi0. destruct (decide (i = f)); [by eapply Hff|]. apply (Hr i); [lia|done].
Qed.

(** ** Moving a node *)

(** The node before [n] in a chain. *)
Lemma find_pred_run t n l : forall m fuel, lseg (nodes t) (m :: l) None -> n ∈ l -> length l <= fuel ->
  exists p k1 k2, find_pred fuel m n t = Ret p t /\ m :: l = k1 ++ p :: n :: k2.
Proof.
  induction l as [|x l IH]; intros m [|fuel] [Hm Hl] Hn Hf; try (simpl in Hf; lia); try set_solver.
  destruct (nodes t !! m) as [nd|] eqn:E; [|done]. injection Hm as Hm. simpl in Hm. cbn [find_pred].
  rewrite (bind_step _ _ _ _ _ (get_node_run t m nd E)), Hm.
  destruct (decide (Some x = Some n)) as [[= ->]|Hx]; [by exists m, [], l|]. cbn [orfail].
  destruct (IH x fuel Hl) as (p & k1 & k2 & Hrun & ->); [set_solver|simpl in Hf; lia|].
  exists p, (m :: k1), k2. done.
Qed.

(** No string is rechained when no key has the main position [n]. *)
Lemma rechain_run t n l : forall f fuel, lseg (nodes t) (f :: l) None -> length l < fuel ->
  (forall i nd, nodes t !! i = Some nd -> n_key nd <> TNil -> main gcrefu (hmask t) (n_key nd) <> n) ->
  rechain gcrefu fuel f n t = Ret tt t.
Proof.
  induction l as [|x l IH]; intros f [|fuel] [Hf Hl] Hfu Hn; try (simpl in Hfu; lia);
    (destruct (nodes t !! f) as [nd|] eqn:E; [|done]); injection Hf as Hf; simpl in Hf;
    cbn [rechain]; rewrite (bind_step _ _ _ _ _ (get_node_run t f nd E)), Hf; [done|].
  destruct Hl as [Hx Hl]. destruct (nodes t !! x) as [ndx|] eqn:Ex; [|done].
  rewrite (bind_step _ _ _ _ _ (get_node_run t x ndx Ex)). change (bind get ?k t) with (k t t). cbv beta.
  rewrite hashkey_main.
  assert (is_str (n_key ndx) && negb (is_nil (n_val ndx)) &&
    bool_decide (main gcrefu (hmask t) (n_key ndx) = n) = false) as ->.
  { destruct (is_str (n_key ndx)) eqn:Es; [|done]. rewrite (bool_decide_false (main _ _ _ = n)), andb_false_r; [done|].
    apply (Hn x ndx Ex). intros Ek. by rewrite Ek in Es. }
  apply IH; [|simpl in Hfu; lia|done]. split; [by rewrite Ex|done].
Qed.

(** ** A new key, without a resize *)

Record added t cs (key : tvalue) (i : nat) t' cs' : Prop := {
  ad_ok : hash_ok t' cs';
  ad_count : length (concat cs') <= S (length (concat cs));
  ad_node : exists nd, nodes t' !! i = Some nd /\ n_key nd = key /\ n_val nd = TNil;
  ad_has k v : has (nodes t') k v <-> has (nodes t) k v;
  ad_keys j nd : nodes t' !! j = Some nd -> n_key nd <> TNil ->
    n_key nd = key \/ exists j' nd', nodes t !! j' = Some nd' /\ n_key nd' = n_key nd;
  ad_rest : array t' = array t /\ asize t' = asize t /\ hmask t' = hmask t /\ nomm t' = nomm t
}.

(** A placement, with the free nodes at [fr] and above taken, adds the key. *)
Lemma placed_added t cs key i ns' fr : hash_ok t cs -> good_key key -> hmask t <> 0 ->
  placed (main gcrefu (hmask t)) (nodes t) cs key ns' i -> fr <= length (nodes t) ->
  (forall j nd, fr <= j -> nodes t !! j = Some nd ->
    n_key nd <> TNil \/ exists nd', ns' !! j = Some nd' /\ n_key nd' <> TNil) ->
  exists cs', added t cs key i (set_nodes ns' (set_freetop fr t)) cs'.
Proof.
  intros H Hk Hm ((cs' & Hok' & Hc) & Hnode & Hhas & Hlen & Hold & Hfrom) Hfr Hfree. exists cs'.
  split; try done. split; cbn [set_nodes set_freetop nodes hmask freetop].
  - done.
  - by rewrite Hlen, (hk_length _ _ H).
  - apply H.
  - intros j nd Hj Hn. destruct (Hfrom j nd Hj Hn) as [->|(j' & nd' & Hj' & E)]; [done|].
    rewrite <- E. eapply hk_good; [done|done|congruence].
  - by rewrite Hlen.
  - intros j nd _ Hj Hnd. destruct (lookup_lt_is_Some_2 (nodes t) j) as [nd0 Hj0].
    { rewrite <- Hlen. by eapply lookup_lt_Some. }
    destruct (Hfree j nd0 Hj Hj0) as [Hn0|(nd1 & E & ?)]; [|congruence].
    destruct (Hold j nd0 Hj0 Hn0) as (nd1 & E & ?). congruence.
  - done.
Qed.

Lemma fill_key_run t i nd key : nodes t !! i = Some nd -> n_val nd = TNil -> good_key key ->
  fill_key i key t = Ret (NSlot i) (set_nodes (<[i := Node TNil key (n_next nd)]> (nodes t)) t).
Proof.
  intros Hi Hv (_ & _ & Hk). unfold fill_key. rewrite (bind_step _ _ _ _ _ (put_node_run t i nd _ Hi)).
  assert (set_n_key (norm_key key) nd = Node TNil key (n_next nd)) as -> by (unfold set_n_key; by rewrite Hk, Hv).
  rewrite (bind_step _ _ _ _ _ (get_node_run (set_nodes (<[i := Node TNil key (n_next nd)]> (nodes t)) t) i
    (Node TNil key (n_next nd)) ltac:(apply list_lookup_insert_eq; by eapply lookup_lt_Some))).
  done.
Qed.

(** The main position is free. *)
Lemma newkey_main t cs key rehash set nd : hash_ok t cs -> good_key key -> absent (nodes t) key -> hmask t <> 0 ->
  nodes t !! main gcrefu (hmask t) key = Some nd -> n_val nd = TNil ->
  exists t' cs', newkey_with gcrefu rehash set key t = Ret (NSlot (main gcrefu (hmask t) key)) t' /\
    added t cs key (main gcrefu (hmask t) key) t' cs'.
Proof.
  intros H Hk Habs Hm Hn Hv. unfold newkey_with. change (bind get ?k t) with (k t t). cbv beta zeta.
  rewrite hashkey_main, (bind_step _ _ _ _ _ (get_node_run t _ nd Hn)), Hv.
  rewrite (bool_decide_false (hmask t = 0)) by done. cbn [is_nil negb orb].
  change (is_nil TNil) with true. cbn [negb orb]. rewrite (fill_key_run t _ nd) by done.
  destruct (placed_added t cs key (main gcrefu (hmask t) key)
    (<[main gcrefu (hmask t) key := Node TNil key (n_next nd)]> (nodes t)) (freetop t) H Hk Hm) as (cs' & Ha).
  - apply place_main; [apply H|apply Hk|done|done|done].
  - apply H.
  - intros j nd0 Hj Hj0. left. by eapply hk_free.
  - exists (set_nodes (<[main gcrefu (hmask t) key := Node TNil key (n_next nd)]> (nodes t)) t), cs'.
    split; [done|]. by destruct t.
Qed.

(** The resident is in its own main position. *)
Lemma make_room_after t cs n f nd : hash_ok t cs -> nodes t !! n = Some nd ->
  main gcrefu (hmask t) (n_key nd) = n -> nodes t !! f = Some free_node -> f <> n ->
  make_room gcrefu n f (set_freetop f t) = Ret f (set_nodes (<[n := Node (n_val nd) (n_key nd) (Some f)]>
    (<[f := Node TNil TNil (n_next nd)]> (nodes t))) (set_freetop f t)).
Proof.
  intros H Hn Hm Hf Hfn. set (t0 := set_freetop f t). unfold make_room. change (bind get ?k t0) with (k t0 t0). cbv beta.
  rewrite (bind_step _ _ _ _ _ (get_node_run t0 n nd Hn)), hashkey_main; change (hmask t0) with (hmask t).
  rewrite Hm, decide_False by tauto.
  rewrite (bind_step _ _ _ _ _ (put_node_run t0 f _ _ Hf)).
  erewrite bind_step; [|apply put_node_run; cbn [set_nodes nodes]; rewrite list_lookup_insert_ne by done; exact Hn].
  done.
Qed.

(** The resident is in the chain of another main position. *)
Lemma make_room_moving t cs n f nd : hash_ok t cs -> nodes t !! n = Some nd -> n_val nd <> TNil ->
  main gcrefu (hmask t) (n_key nd) <> n -> nodes t !! f = Some free_node -> f <> n ->
  exists p ndp l1 l2, l1 ++ p :: n :: l2 ∈ cs /\ nodes t !! p = Some ndp /\
    make_room gcrefu n f (set_freetop f t) = Ret n (set_nodes (<[n := Node TNil (n_key nd) None]> (<[f := nd]>
      (<[p := Node (n_val ndp) (n_key ndp) (Some f)]> (nodes t)))) (set_freetop f t)).
Proof.
  intros H Hn Hv Hm Hf Hfn. pose proof (hk_hp _ _ H) as Hp.
  assert (n_key nd <> TNil) as Hk by (intros E; by rewrite (hp_nil _ _ _ Hp n nd Hn E) in Hv).
  destruct (hp_reach _ _ _ Hp n nd Hn Hk) as (c & Hc & k1 & k2 & -> & Hin).
  pose proof (chain_length _ _ _ H Hc) as Hlc. rewrite (hk_length _ _ H), length_app in Hlc. simpl in Hlc.
  set (m := main gcrefu (hmask t) (n_key nd)) in *.
  apply elem_of_cons in Hin as [?|Hin]; [done|].
  pose proof (hp_seg _ _ _ Hp _ Hc) as Hseg. apply lseg_app in Hseg as [_ Hseg].
  destruct (find_pred_run (set_freetop f t) n k2 m (S (hmask t)) Hseg Hin ltac:(lia)) as (p & q1 & q2 & Hrun & Eq).
  assert ((k1 ++ q1) ++ p :: n :: q2 ∈ cs) as Hc' by (by rewrite <- app_assoc, <- Eq).
  destruct (hp_front _ _ _ _ Hp Hc') as (cs0 & Hperm & Hok').
  assert (f ∉ concat cs) as Hfu by by eapply used_notin.
  assert (p ∈ concat cs) as Hpu by (rewrite Hperm; simpl; set_solver).
  assert (p <> f) as Hpf by (by intros ->).
  assert (p <> n) as Hpn.
  { apply (front_disjoint (main gcrefu (hmask t)) (nodes t) ((k1 ++ q1) ++ [p]) n q2 cs0 p); [by rewrite <- (app_assoc _ [p])|set_solver]. }
  destruct (proj1 (hp_used _ _ _ Hp p) Hpu) as (ndp & Hnp & _).
  exists p, ndp, (k1 ++ q1), q2. split; [done|split; [done|]].
  set (t0 := set_freetop f t). unfold make_room. change (bind get ?k t0) with (k t0 t0). cbv beta.
  rewrite (bind_step _ _ _ _ _ (get_node_run t0 n nd Hn)), hashkey_main. change (hmask t0) with (hmask t). fold m. rewrite decide_True by done.
  rewrite (bind_step _ _ _ _ _ Hrun), (bind_step _ _ _ _ _ (put_node_run t0 p _ _ Hnp)).
  assert (f < length (nodes t) /\ n < length (nodes t) /\ p < length (nodes t)) as (Hlf & Hln & Hlp)
    by (split_and!; by eapply lookup_lt_Some).
  erewrite bind_step; [|apply put_node_run; cbn [set_nodes nodes]; rewrite list_lookup_insert_ne by done; exact Hf].
  erewrite bind_step; [|apply put_node_run; cbn [set_nodes nodes]; rewrite !list_lookup_insert_ne by done; exact Hn].
  erewrite bind_step;
    [|apply put_node_run; cbn [set_nodes nodes]; apply list_lookup_insert_eq; by rewrite !length_insert].
  cbn [set_nodes nodes hmask asize array nomm freetop set_n_next set_n_val n_val n_key n_next].
  rewrite list_insert_insert_eq. assert (Node (n_val nd) (n_key nd) (n_next nd) = nd) as -> by by destruct nd.
  match goal with |- _ = Ret _ ?t0 => set (t1 := t0) end.
  change ((rechain gcrefu (S (hmask t)) f n ;;; ret n) t1 = Ret n t1).
  assert (rechain gcrefu (S (hmask t)) f n t1 = Ret tt t1) as Hre; [|by rewrite (bind_step _ _ _ _ _ Hre)].
  pose proof (hp_seg _ _ _ Hok' _ ltac:(by left)) as Hs. apply lseg_app in Hs as [_ [_ [Hsn Hs2]]].
  rewrite Hn in Hsn. injection Hsn as Hsn.
  assert (forall i, i ∈ q2 -> i <> n /\ i <> f /\ i <> p) as Hout.
  { intros i Hi. split_and!.
    - apply (front_disjoint (main gcrefu (hmask t)) (nodes t) ((k1 ++ q1) ++ [p]) n q2 cs0 i);
        [by rewrite <- (app_assoc _ [p])|set_solver].
    - intros ->. apply Hfu. rewrite Hperm. simpl. set_solver.
    - apply (front_disjoint (main gcrefu (hmask t)) (nodes t) (k1 ++ q1) p (n :: q2) cs0 i); [done|set_solver]. }
  apply (rechain_run t1 n q2).
  - split.
    + cbn [t1 nodes set_nodes]. rewrite list_lookup_insert_ne by done. rewrite list_lookup_insert_eq by (by rewrite length_insert).
      simpl. by rewrite Hsn.
    + eapply lseg_ext; [|exact Hs2]. intros i Hi. destruct (Hout i Hi) as (? & ? & ?). cbn [t1 nodes set_nodes].
      by rewrite !list_lookup_insert_ne.
  - apply (chain_length _ _ _ H) in Hc'. rewrite (hk_length _ _ H), length_app in Hc'. simpl in Hc'. cbn [t1 hmask set_nodes]. lia.
  - intros i ndi Hi Hki. cbn [t1 hmask nodes set_nodes] in *. apply list_lookup_insert_Some in Hi as [(-> & <- & _)|[_ Hi]]; [done|].
    apply list_lookup_insert_Some in Hi as [(-> & <- & _)|[_ Hi]]; [done|].
    apply list_lookup_insert_Some in Hi as [(-> & <- & _)|[_ Hi]];
      [cbn [n_key] in *; by apply (foreign_main _ _ _ _ _ Hp Hn Hm i ndp)|by apply (foreign_main _ _ _ _ _ Hp Hn Hm i ndi)].
Qed.

(** The main position is taken and there is a free node: it is used. *)
Lemma newkey_room t cs key rehash set nd f : hash_ok t cs -> good_key key -> absent (nodes t) key -> hmask t <> 0 ->
  nodes t !! main gcrefu (hmask t) key = Some nd -> n_val nd <> TNil -> find_free (freetop t) t = Ret (Some f) t ->
  exists i t' cs', newkey_with gcrefu rehash set key t = Ret (NSlot i) t' /\ added t cs key i t' cs'.
Proof.
  intros H Hk Habs Hm Hn Hv Hfind. pose proof (hk_hp _ _ H) as Hp. set (n := main gcrefu (hmask t) key) in *.
  assert (n_key nd <> TNil) as Hkn by (intros E; by rewrite (hp_nil _ _ _ Hp n nd Hn E) in Hv).
  destruct (find_free_run t (freetop t) (hk_top _ _ H)) as (r & E & Hr). rewrite Hfind in E. injection E as <-.
  destruct Hr as (Hft & (ndf & Hf & Hkf) & Habove). rewrite (hp_nil _ _ _ Hp f ndf Hf Hkf) in Hf.
  assert (f <> n) as Hfn by (intros ->; rewrite Hn in Hf; by injection Hf as ->).
  set (t0 := set_freetop f t). assert (freetop t <= length (nodes t)) as Htop by apply H.
  assert (forall j nd0, f <= j -> nodes t !! j = Some nd0 -> j <> f -> n_key nd0 <> TNil) as Hall.
  { intros j nd0 Hj Hj0 Hjf. destruct (decide (freetop t <= j)); [by eapply hk_free|]. apply (Habove j); [lia|done]. }
  unfold newkey_with. change (bind get ?k t) with (k t t). cbv beta zeta.
  rewrite hashkey_main. fold n. rewrite (bind_step _ _ _ _ _ (get_node_run t n nd Hn)).
  rewrite (proj2 (is_nil_false _) Hv). cbn [negb orb]. rewrite (bind_step _ _ _ _ _ Hfind).
  change (bind (modify (set_freetop f)) ?k t) with (k tt t0). cbv beta.
  destruct (decide (main gcrefu (hmask t) (n_key nd) = n)) as [Hmn|Hmn].
  - rewrite (bind_step _ _ _ _ _ (make_room_after t cs n f nd H Hn Hmn Hf Hfn)). fold t0.
    rewrite (fill_key_run _ f (Node TNil TNil (n_next nd))); cbn [set_nodes nodes];
      [|rewrite list_lookup_insert_ne by done; apply list_lookup_insert_eq; by eapply lookup_lt_Some|done..].
    destruct (placed_added t cs key f _ f H Hk Hm (place_after _ _ _ _ Hp (proj1 Hk) Habs nd f Hn Hkn Hmn Hf))
      as (cs' & Ha); [lia| |].
    { intros j nd0 Hj Hj0. destruct (decide (j = f)) as [->|]; [|left; eauto]. right. exists (Node TNil key (n_next nd)). split; [|apply Hk].
      apply list_lookup_insert_eq. rewrite length_insert. by eapply lookup_lt_Some. }
    eexists _, _, _. split; [done|].
    erewrite list_insert_insert_ne in Ha |- *; [|done..]. rewrite list_insert_insert_eq. exact Ha.
  - destruct (make_room_moving t cs n f nd H Hn Hv Hmn Hf Hfn) as (p & ndp & l1 & l2 & Hc & Hnp & Hrun).
    rewrite (bind_step _ _ _ _ _ Hrun). fold t0.
    rewrite (fill_key_run _ n (Node TNil (n_key nd) None)); cbn [set_nodes nodes];
      [|apply list_lookup_insert_eq; rewrite !length_insert; by eapply lookup_lt_Some|done..].
    rewrite list_insert_insert_eq.
    destruct (placed_added t cs key n _ f H Hk Hm (place_moving _ _ _ _ Hp (proj1 Hk) Habs nd f p ndp l1 l2 Hn Hv Hmn Hf Hc Hnp))
      as (cs' & Ha); [lia| |by eexists _, _, _].
    intros j nd0 Hj Hj0. destruct (decide (j = f)) as [->|]; [|left; eauto]. right. exists nd. split; [|done].
    rewrite list_lookup_insert_ne by done. apply list_lookup_insert_eq. rewrite length_insert. by eapply lookup_lt_Some.
Qed.

(** How many keys the hash part can hold. *)
Definition cap t : nat := if decide (hmask t = 0) then 0 else S (hmask t).

(** A new key: it is added, or the hash part is full and the table is resized. *)
Lemma newkey_with_run t cs key rehash set : hash_ok t cs -> good_key key -> absent (nodes t) key ->
  (exists i t' cs', newkey_with gcrefu rehash set key t = Ret (NSlot i) t' /\ added t cs key i t' cs') \/
  (cap t <= length (concat cs) /\ newkey_with gcrefu rehash set key t = (rehash key ;;; set key) t).
Proof.
  intros H Hk Habs. destruct (lookup_lt_is_Some_2 (nodes t) _ (main_in _ _ key H)) as [nd Hn].
  destruct (find_free_run t (freetop t) (hk_top _ _ H)) as (r & Hfind & Hr).
  assert ((hmask t = 0 \/ n_val nd <> TNil) \/ (hmask t <> 0 /\ n_val nd = TNil)) as [Hcase|[Hm Hv]]
    by (destruct (decide (hmask t = 0)), (decide (n_val nd = TNil)); tauto).
  2:{ left. destruct (newkey_main t cs key rehash set nd) as (t' & cs' & ? & ?); try done.
      by eexists _, t', cs'. }
  destruct r as [f|].
  - left. assert (hmask t <> 0) as Hm.
    { intros Hm. destruct (hk_none _ _ H Hm) as [_ E]. rewrite E in Hr. lia. }
    eapply newkey_room; try done. tauto.
  - right. split.
    + unfold cap. case_decide as Hm; [lia|]. rewrite (all_used t cs H); [by rewrite (hk_length _ _ H)|]. intros i nd' Hi.
      destruct (decide (freetop t <= i)); [by eapply hk_free|]. apply (Hr i); [lia|done].
    + unfold newkey_with at 1. change (bind get ?k t) with (k t t). cbv beta zeta.
      rewrite hashkey_main, (bind_step _ _ _ _ _ (get_node_run t _ nd Hn)).
      assert (negb (is_nil (n_val nd)) || bool_decide (hmask t = 0) = true) as ->.
      { destruct Hcase as [->|Hv]; [by rewrite orb_true_r|]. by rewrite (proj2 (is_nil_false _) Hv). }
      by rewrite (bind_step _ _ _ _ _ Hfind).
Qed.
End Find.
