(* ===== verification/LjTabOk.v ===== *)
(** * Well-formed tables and what they hold

    The invariant of a table and the slots its keys are in; getters find the
    slot of a key, storing in it changes that key only, and a setter gives the
    slot of a key, adding the key where the hash part has room. *)

From stdpp Require Import base option strings countable gmap list.
From Stdlib Require Import ZArith Lia SpecFloat.
From S2P Require Import Prelude Number LuaApi LjStr LjTab LjTabKeys LjTabChain LjTabFind.

Local Open Scope nat_scope.
Local Open Scope prog_scope.

(** ** Keys of the array part *)

(** The index of a key in an array of [n] slots. *)
Definition arr_ix (n : nat) (k : tvalue) : option nat :=
  match k with
  | TNum x =>
      match num_int x with
      | Some z => if (u32 z <? Z.of_nat n)%Z then Some (Z.to_nat (u32 z)) else None
      | None => None
      end
  | _ => None
  end.

Definition small (n : nat) : Prop := (Z.of_nat n <= LJ_MAX_ASIZE)%Z.

Lemma small_int32 n i : small n -> i < n -> int32 (Z.of_nat i).
Proof.
  unfold small, int32, INT_MIN, INT_MAX. change LJ_MAX_ASIZE with 134217729%Z. intros ? ?. lia.
Qed.

Lemma arr_ix_Some n k i : small n -> arr_ix n k = Some i <-> i < n /\ norm_key k = int_key (Z.of_nat i).
Proof.
  intros Hn. split.
  - destruct k as [| | |x| | | | |]; try done. cbn [arr_ix]. destruct (num_int x) as [z|] eqn:E; [|done].
    destruct (num_int_Some _ _ E) as [Hz Hk]. destruct (Z.ltb_spec (u32 z) (Z.of_nat n)) as [Hlt|]; [|done].
    intros [= <-]. rewrite Hk. destruct (decide (z < 0)%Z) as [Hneg|].
    { pose proof (u32_neg z Hneg Hz). unfold small in Hn. lia. }
    rewrite u32_small in * by (done || lia). split; [lia|]. by rewrite Z2Nat.id by lia.
  - intros [Hi Hk]. pose proof (small_int32 n i Hn Hi) as Hz.
    destruct k as [| | |x| | | | |]; try done. rewrite <- norm_ikey in Hk by done. apply norm_num_int in Hk.
    cbn [arr_ix]. rewrite Hk, num_int_of_Z by done. rewrite u32_small by (done || lia).
    destruct (Z.ltb_spec (Z.of_nat i) (Z.of_nat n)); [|lia]. by rewrite Nat2Z.id.
Qed.

Lemma arr_ix_norm n k : arr_ix n (norm_key k) = arr_ix n k.
Proof.
  by destruct k as [| | |[]| | | | |].
Qed.

Lemma arr_ix_int n i : small n -> i < n -> arr_ix n (int_key (Z.of_nat i)) = Some i.
Proof.
  intros Hn Hi. apply arr_ix_Some; [done|]. split; [done|]. by eapply norm_ikey, small_int32.
Qed.

Section Ok.
Context (gcrefu : tvalue -> Z).
Implicit Types (t : ltab) (cs : list (list nat)) (m : gmap tvalue tvalue).

(** ** The invariant *)

Record tab_ok t cs : Prop := {
  tk_array : length (array t) = asize t;
  tk_max : small (asize t);
  tk_hash : hash_ok gcrefu t cs;
  tk_part i nd : nodes t !! i = Some nd -> arr_ix (asize t) (n_key nd) = None
}.

(** The slot [s] is for the key [k] and holds [v]. *)
Definition slot_at t (s : slot) (k v : tvalue) : Prop :=
  match s with
  | ASlot i => k = int_key (Z.of_nat i) /\ array t !! i = Some v
  | NSlot i => exists nd, nodes t !! i = Some nd /\ n_key nd = k /\ n_val nd = v /\ k <> TNil
  end.

Definition tab_has t k v : Prop := v <> TNil /\ exists s, slot_at t s k v.

(** The pairs of the table are those of [m]. *)
Definition holds t m : Prop := forall k v, tab_has t k v <-> m !! k = Some v.

(** A key that has no slot. *)
Definition key_out t k : Prop := arr_ix (asize t) k = None /\ absent (nodes t) k.

Definition mput (k v : tvalue) m : gmap tvalue tvalue := if decide (v = TNil) then delete k m else <[k := v]> m.

Lemma array_lt t cs i v : tab_ok t cs -> array t !! i = Some v -> i < asize t.
Proof. intros H Hi%lookup_lt_Some. by rewrite (tk_array _ _ H) in Hi. Qed.

Lemma array_int32 t cs i v : tab_ok t cs -> array t !! i = Some v -> int32 (Z.of_nat i).
Proof. intros H Hi. eapply small_int32; [apply (tk_max _ _ H)|by eapply array_lt]. Qed.

Lemma slot_good t cs s k v : tab_ok t cs -> slot_at t s k v -> good_key k.
Proof.
  intros H. destruct s as [i|i]; simpl.
  - intros [-> Hi]. by eapply good_int_key, array_int32.
  - intros (nd & Hi & <- & _ & Hk). by apply (hk_good _ _ _ (tk_hash _ _ H) i nd).
Qed.

(** A key has one slot. *)
Lemma slot_uniq t cs s s' k v v' : tab_ok t cs -> slot_at t s k v -> slot_at t s' k v' -> s = s' /\ v = v'.
Proof.
  intros H. assert (forall i j v v', slot_at t (ASlot i) k v -> slot_at t (NSlot j) k v' -> False) as Hcross.
  { intros i j w w' [-> Hi] (nd & Hj & Hk & _). pose proof (tk_part _ _ H j nd Hj) as Hp. rewrite Hk in Hp.
    rewrite arr_ix_int in Hp; [done|apply (tk_max _ _ H)|by eapply array_lt]. }
  destruct s as [i|i], s' as [j|j]; intros H1 H2; try by exfalso; eauto.
  - destruct H1 as [-> H1], H2 as [E H2]. apply ikey_inj in E; [|by eapply array_int32..].
    apply Nat2Z.inj in E as ->. split; congruence.
  - destruct H1 as (nd & H1 & E1 & <- & Hk), H2 as (nd' & H2 & E2 & <- & _).
    assert (i = j) as ->; [|split; congruence].
    apply (hp_uniq _ _ _ (hk_hp _ _ _ (tk_hash _ _ H)) i j nd nd'); congruence.
Qed.

Lemma slot_none t cs s k v : tab_ok t cs -> key_out t k -> ~ slot_at t s k v.
Proof.
  intros H [Ha Hn]. destruct s as [i|i]; simpl.
  - intros [-> Hi]. rewrite arr_ix_int in Ha; [done|apply (tk_max _ _ H)|by eapply array_lt].
  - intros (nd & Hi & Hk & _). by apply (Hn i nd).
Qed.

(** What a slot holds is what the map has under its key. *)
Lemma slot_lookup t cs m s k v : tab_ok t cs -> holds t m -> slot_at t s k v -> default TNil (m !! k) = v.
Proof.
  intros H Hm Hs. destruct (m !! k) as [v'|] eqn:E; simpl.
  - apply Hm in E as [_ [s' Hs']]. by eapply slot_uniq.
  - destruct (decide (v = TNil)) as [->|Hv]; [done|].
    assert (m !! k = Some v) by (apply Hm; split; [done|by exists s]). congruence.
Qed.

Lemma out_lookup t cs m k : tab_ok t cs -> holds t m -> key_out t k -> m !! k = None.
Proof.
  intros H Hm Hk. destruct (m !! k) as [v|] eqn:E; [|done]. apply Hm in E as [_ [s Hs]]. by eapply slot_none in Hs.
Qed.

Lemma holds_good t cs m k v : tab_ok t cs -> holds t m -> m !! k = Some v -> good_key k /\ v <> TNil.
Proof. intros H Hm [Hv [s Hs]]%Hm. split; [by eapply slot_good|done]. Qed.

Lemma nomm_ok t cs b : tab_ok t cs -> tab_ok (set_nomm b t) cs.
Proof. intros [? ? [] ?]. split; [done|done|by split|done]. Qed.

(** ** Getters *)

Lemma getinth_run t cs k : tab_ok t cs -> int32 k ->
  exists r, lj_tab_getinth k t = Ret r t /\
  match r with
  | Some i => exists v, slot_at t (NSlot i) (int_key k) v
  | None => absent (nodes t) (int_key k)
  end.
Proof.
  intros H Hk. unfold lj_tab_getinth. change (bind get ?f t) with (f t t). cbv beta.
  change (hashnum t (num_of_Z k)) with (hashkey gcrefu t (int_key k)). rewrite hashkey_main.
  destruct (search_run gcrefu t cs (int_key k) (key_is_num (num_of_Z k)) (tk_hash _ _ H)) as (r & Hr & Hc).
  - by apply good_int_key.
  - intros kk Hkk. rewrite (key_is_num_good kk _ Hkk) by by apply num_of_Z_nan. fold (int_key k).
    by rewrite norm_ikey.
  - done.
  - exists r. split; [done|]. destruct r as [i|]; [|done]. destruct Hc as (nd & ? & ?).
    exists (n_val nd), nd. done.
Qed.

Lemma getstr_run t cs s : tab_ok t cs ->
  exists r, lj_tab_getstr s t = Ret r t /\
  match r with
  | Some i => exists v, slot_at t (NSlot i) (TStr s) v
  | None => absent (nodes t) (TStr s)
  end.
Proof.
  intros H. unfold lj_tab_getstr. change (bind get ?f t) with (f t t). cbv beta.
  change (hashstr t s) with (hashkey gcrefu t (TStr s)). rewrite hashkey_main.
  destruct (search_run gcrefu t cs (TStr s) (key_is_str s) (tk_hash _ _ H)) as (r & Hr & Hc);
    [done|intros kk _; apply key_is_str_iff|done|].
  exists r. split; [done|]. destruct r as [i|]; [|done]. destruct Hc as (nd & ? & ?). by exists (n_val nd), nd.
Qed.

Lemma gensearch_run t cs k : tab_ok t cs -> k <> TNil -> k <> TNum S754_nan ->
  exists r, search (fun kk => lj_obj_equal kk k) (hashkey gcrefu t k) t = Ret r t /\
  match r with
  | Some i => exists v, slot_at t (NSlot i) (norm_key k) v
  | None => absent (nodes t) (norm_key k)
  end.
Proof.
  intros H Hn Hnan. pose proof (good_norm k Hn Hnan) as Hg. rewrite hashkey_main, <- main_norm.
  destruct (search_run gcrefu t cs (norm_key k) (fun kk => lj_obj_equal kk k) (tk_hash _ _ H) Hg) as (r & Hr & Hc);
    [intros kk; apply lj_obj_equal_good|by destruct k|].
  exists r. split; [done|]. destruct r as [i|]; [|done]. destruct Hc as (nd & ? & ?). exists (n_val nd), nd.
  split_and!; try done. apply Hg.
Qed.

(** NaN is found in no table. *)
Lemma nansearch_run t cs : tab_ok t cs ->
  search (fun kk => lj_obj_equal kk (TNum S754_nan)) (hashkey gcrefu t (TNum S754_nan)) t = Ret None t.
Proof.
  intros H. rewrite hashkey_main.
  assert (forall kk, lj_obj_equal kk (TNum S754_nan) = false) as Hne.
  { intros [| | |n| | | | |]; try done. cbn [lj_obj_equal]. apply not_true_is_false. by intros [_ ?]%num_eqb_norm. }
  destruct (search_total gcrefu t cs (fun kk => lj_obj_equal kk (TNum S754_nan)) _ (tk_hash _ _ H)
    (main_in gcrefu _ _ (TNum S754_nan) (tk_hash _ _ H)) (Hne TNil)) as ([i|] & -> & Hr); [|done].
  destruct Hr as (nd & _ & Hr). by rewrite Hne in Hr.
Qed.

Lemma inarray_run t cs k : tab_ok t cs -> int32 k ->
  if inarray t k then exists i v, k = Z.of_nat i /\ Z.to_nat (u32 k) = i /\ array t !! i = Some v
  else arr_ix (asize t) (int_key k) = None.
Proof.
  intros H Hk. unfold inarray. pose proof (arr_ix_Some (asize t) (int_key k)) as Hi. revert Hi.
  unfold arr_ix at 1 2. cbn [int_key]. rewrite num_int_of_Z by done.
  destruct (Z.ltb_spec (u32 k) (Z.of_nat (asize t))) as [Hlt|]; [|done]. intros _.
  destruct (decide (k < 0)%Z) as [Hneg|].
  { pose proof (u32_neg k Hneg Hk). pose proof (tk_max _ _ H) as Hm. unfold small in Hm. lia. }
  rewrite u32_small in * by (done || lia).
  destruct (lookup_lt_is_Some_2 (array t) (Z.to_nat k)) as [v Hv]; [rewrite (tk_array _ _ H); lia|].
  exists (Z.to_nat k), v. split_and!; [lia|done|done].
Qed.

(** ** Storing a value *)

(** Another value of a node leaves its key and its place in its chain. *)
Lemma set_val_keys (ns : list node) i nd v j nd' : ns !! i = Some nd -> n_key nd <> TNil ->
  <[i := set_n_val v nd]> ns !! j = Some nd' -> exists nd0, ns !! j = Some nd0 /\
    n_key nd' = n_key nd0 /\ n_next nd' = n_next nd0 /\ (n_key nd0 = TNil -> nd' = nd0).
Proof.
  intros Hi Hk [(-> & <- & _)|[_ ?]]%list_lookup_insert_Some; [|by exists nd']. exists nd. split_and!; try done; by intros; congruence.
Qed.

Lemma set_val_node (ns : list node) i nd v j nd0 : ns !! i = Some nd -> ns !! j = Some nd0 ->
  exists nd', <[i := set_n_val v nd]> ns !! j = Some nd' /\ n_key nd' = n_key nd0 /\ n_next nd' = n_next nd0.
Proof.
  intros Hi Hj. destruct (decide (i = j)) as [->|]; [|exists nd0; by rewrite list_lookup_insert_ne].
  exists (set_n_val v nd). rewrite list_lookup_insert_eq by by eapply lookup_lt_Some.
  rewrite Hi in Hj. by injection Hj as <-.
Qed.

Lemma set_val_hp mn ns cs i nd v : hp_ok mn ns cs -> ns !! i = Some nd -> n_key nd <> TNil ->
  hp_ok mn (<[i := set_n_val v nd]> ns) cs.
Proof.
  intros [Hnd Hu Hseg Hnil Hr Ho Hq] Hi Hk.
  pose proof (fun j nd' => set_val_keys ns i nd v j nd' Hi Hk) as Hold.
  pose proof (fun j nd0 => set_val_node ns i nd v j nd0 Hi) as Hnew. split; try done.
  - intros j. rewrite Hu. unfold used. split; intros (nd0 & Hj & Hk0).
    + destruct (Hnew j nd0 Hj) as (nd' & ? & E & _). exists nd'. by rewrite E.
    + destruct (Hold j nd0 Hj) as (nd' & ? & E & _). exists nd'. by rewrite <- E.
  - intros c Hc. specialize (Hseg c Hc). clear Hc Hr Hu. induction c as [|j c IH]; [done|].
    destruct Hseg as [Hj Hseg]. split; [|by apply IH].
    destruct (ns !! j) as [nd0|] eqn:Ej; [|done]. destruct (Hnew j nd0 Ej) as (nd' & -> & _ & E).
    simpl in *. by rewrite E.
  - intros j nd' Hj Hk0. destruct (Hold j nd' Hj) as (nd0 & ? & E & _ & Hn). rewrite Hn by congruence.
    apply (Hnil j nd0); congruence.
  - intros j nd' Hj Hk0. destruct (Hold j nd' Hj) as (nd0 & ? & E & _). rewrite E in *. by apply (Hr j nd0).
  - intros j nd1 nd2 Hj Hk0 Hmj. destruct (Hold j nd1 Hj) as (nd0 & H1 & E & _).
    destruct (Hold _ nd2 Hmj) as (nd3 & H2 & E2 & _). rewrite E, E2 in *. by eapply Ho.
  - intros j1 j2 nd1 nd2 H1 H2 Hk0 E. destruct (Hold _ _ H1) as (nd3 & H3 & E3 & _).
    destruct (Hold _ _ H2) as (nd4 & H4 & E4 & _). apply (Hq j1 j2 nd3 nd4); congruence.
Qed.

Lemma set_val_ok t cs i nd v : tab_ok t cs -> nodes t !! i = Some nd -> n_key nd <> TNil ->
  tab_ok (set_nodes (<[i := set_n_val v nd]> (nodes t)) t) cs.
Proof.
  intros [Ha Hmx [Hhp Hl Hmk Hg Ht Hf Hno] Hp] Hi Hk.
  pose proof (fun j nd' => set_val_keys (nodes t) i nd v j nd' Hi Hk) as Hold.
  split; [done|done| |].
  - split; cbn [set_nodes nodes hmask freetop]; rewrite ?length_insert; try done.
    + by apply set_val_hp.
    + intros j nd' Hj Hk0. destruct (Hold _ _ Hj) as (nd0 & ? & E & _). rewrite E in *. by eapply Hg.
    + intros j nd' Hm Hj Hnd'. destruct (Hold _ _ Hnd') as (nd0 & ? & E & _). rewrite E. by eapply Hf.
    + intros Hm. destruct (Hno Hm) as [E ->]. split; [|done]. rewrite E in Hi.
      destruct i; [|done]. by injection Hi as <-.
  - intros j nd' Hj. destruct (Hold _ _ Hj) as (nd0 & ? & E & _). rewrite E. by eapply Hp.
Qed.

(** The other slots and the chains stay. *)
Lemma copyTV_run t cs s k v0 v : tab_ok t cs -> slot_at t s k v0 ->
  exists t', copyTV s v t = Ret tt t' /\ tab_ok t' cs /\
    (forall s' k' v', slot_at t' s' k' v' <-> (s' = s /\ k' = k /\ v' = v) \/ (s' <> s /\ slot_at t s' k' v')) /\
    asize t' = asize t /\ hmask t' = hmask t /\ length (nodes t') = length (nodes t).
Proof.
  intros H Hs. destruct s as [i|i].
  - destruct Hs as [-> Hi]. pose proof (lookup_lt_Some _ _ _ Hi) as Hlt.
    exists (set_array (<[i := v]> (array t)) (asize t) t). split; [|split; [|split; [|done]]].
    + cbn [copyTV]. change (bind get ?f t) with (f t t). cbv beta. by rewrite decide_True.
    + destruct H as [? ? [] ?]. split; [by rewrite <- tk_array0; apply length_insert|done|by split|done].
    + intros [j|j] k' v'; cbn [slot_at set_array array]; [|naive_solver].
      rewrite list_lookup_insert_Some. naive_solver.
  - destruct Hs as (nd & Hi & Ek & Ev & Hk). pose proof (lookup_lt_Some _ _ _ Hi) as Hlt.
    exists (set_nodes (<[i := set_n_val v nd]> (nodes t)) t). split; [by apply put_node_run|].
    split; [apply set_val_ok; [done..|congruence]|]. split; [|split_and!; [done..|apply length_insert]].
    intros [j|j] k' v'; cbn [slot_at set_nodes array nodes]; [naive_solver|]. split.
    + intros (nd' & Hj & E1 & E2 & ?). apply list_lookup_insert_Some in Hj as [(-> & <- & _)|[? ?]].
      * left. by simplify_eq/=.
      * right. split; [congruence|by exists nd'].
    + intros [([= ->] & -> & ->)|[Hne (nd' & Hj & ?)]].
      * exists (set_n_val v nd). by rewrite list_lookup_insert_eq.
      * exists nd'. rewrite list_lookup_insert_ne by congruence. done.
Qed.

(** ... so the map changes under the key of the slot. *)
Lemma copyTV_holds t cs m s k v0 v : tab_ok t cs -> holds t m -> slot_at t s k v0 ->
  exists t', copyTV s v t = Ret tt t' /\ tab_ok t' cs /\ holds t' (mput k v m) /\
    asize t' = asize t /\ hmask t' = hmask t /\ length (nodes t') = length (nodes t).
Proof.
  intros H Hm Hs. destruct (copyTV_run t cs s k v0 v H Hs) as (t' & Hr & Hok & Hsl & Hrest).
  exists t'. split; [done|]. split; [done|]. split; [|done]. intros k' v'.
  assert (tab_has t' k' v' <-> v' <> TNil /\ ((k' = k /\ v' = v) \/ (k' <> k /\ tab_has t k' v'))) as ->.
  { unfold tab_has. split.
    - intros [Hv [s' Hs']]. split; [done|]. apply Hsl in Hs' as [(_ & -> & ->)|[Hne Hs']]; [by left|]. right.
      split; [|split; [done|by exists s']]. intros ->. by destruct (slot_uniq t cs s s' k v0 v' H Hs Hs').
    - intros [Hv [[-> ->]|[Hk [_ [s' Hs']]]]]; (split; [done|]); [exists s; apply Hsl; tauto|].
      exists s'. apply Hsl. right. split; [|done]. intros ->. apply Hk. destruct s.
      + destruct Hs as [-> _], Hs' as [-> _]. done.
      + destruct Hs as (n1 & E1 & <- & _), Hs' as (n2 & E2 & <- & _). congruence. }
  rewrite (Hm k' v'). unfold mput. case_decide as Hv.
  - rewrite lookup_delete_Some. split; [intros (Hv' & [[-> ->]|[? ?]]); [done|auto]|].
    intros [? E]. split; [|by right]. by destruct (holds_good t cs m _ _ H Hm E).
  - rewrite lookup_insert_Some. split; [intros (_ & [[-> ->]|[? ?]]); auto|].
    intros [[-> <-]|[? E]]; [auto|]. split; [by destruct (holds_good t cs m _ _ H Hm E)|right; auto].
Qed.

(** ** Setters *)

(** A setter finds the slot of the key, or the key is new. *)
Lemma set_with_lookup nk t cs k : tab_ok t cs -> k <> TNil -> k <> TNum S754_nan ->
  (exists s v, slot_at t s (norm_key k) v /\ set_with gcrefu nk k t = Ret s (set_nomm false t)) \/
  (key_out t (norm_key k) /\ set_with gcrefu nk k t = nk (norm_key k) (set_nomm false t)).
Proof.
  intros H Hn Hnan. unfold set_with. set (t0 := set_nomm false t).
  change (bind (modify (set_nomm false)) ?f t) with (f tt t0). cbv beta.
  pose proof (nomm_ok t cs false H) as H0. fold t0 in H0.
  assert (Hgen : arr_ix (asize t) (norm_key k) = None -> (norm_key k = k) ->
    (exists s v, slot_at t s (norm_key k) v /\ genset_with gcrefu nk k t0 = Ret s t0) \/
    (key_out t (norm_key k) /\ genset_with gcrefu nk k t0 = nk (norm_key k) t0)).
  { intros Ha Hk. destruct (gensearch_run t0 cs k H0 Hn Hnan) as (r & Hr & Hc). unfold genset_with.
    change (bind get ?f t0) with (f t0 t0). cbv beta. rewrite (bind_step _ _ _ _ _ Hr). destruct r as [i|].
    - left. destruct Hc as [v Hc]. by exists (NSlot i), v.
    - right. by rewrite Hk at 2. }
  destruct k as [| | |x| | | | |]; try done; try (by apply Hgen).
  - destruct (num_int x) as [z|] eqn:E.
    + destruct (num_int_Some _ _ E) as [Hz ->]. unfold setint_with. change (bind get ?f t0) with (f t0 t0). cbv beta.
      pose proof (inarray_run t0 cs z H0 Hz) as Hin. destruct (inarray t0 z).
      * left. destruct Hin as (i & v & -> & -> & Hi). by exists (ASlot i), v.
      * unfold setinth_with. destruct (getinth_run t0 cs z H0 Hz) as (r & Hr & Hc).
        rewrite (bind_step _ _ _ _ _ Hr). destruct r as [i|]; [left|by right].
        destruct Hc as [v Hc]. by exists (NSlot i), v.
    + rewrite num_eqb_refl, bool_decide_false by congruence. apply Hgen.
      * rewrite arr_ix_norm. cbn [arr_ix]. by rewrite E.
      * by destruct x as [[]| | |].
  - unfold setstr_with. destruct (getstr_run t0 cs s H0) as (r & Hr & Hc). rewrite (bind_step _ _ _ _ _ Hr).
    destruct r as [i|]; [left|by right]. destruct Hc as [v Hc]. by exists (NSlot i), v.
Qed.
End Ok.
