(* ===== verification/LjTabPairs.v ===== *)
(** * The pairs of a table, in the order of a traversal *)

From stdpp Require Import base option strings countable gmap list.
From Stdlib Require Import ZArith Lia.
From S2P Require Import Prelude Number LuaApi LjStr LjTab LjTabKeys LjTabChain LjTabFind LjTabOk.

Local Open Scope nat_scope.
Local Open Scope prog_scope.

Abbreviation pair := (tvalue * tvalue)%type.

(** The values of an array that are not nil, with their keys, from index [i]. *)
Fixpoint arr_pairs (i : nat) (vs : list tvalue) : list pair :=
  match vs with
  | [] => []
  | v :: vs => if is_nil v then arr_pairs (S i) vs else (int_key (Z.of_nat i), v) :: arr_pairs (S i) vs
  end.

Fixpoint node_pairs (ns : list node) : list pair :=
  match ns with
  | [] => []
  | n :: ns => if is_nil (n_val n) then node_pairs ns else (n_key n, n_val n) :: node_pairs ns
  end.

Definition pairs (t : ltab) : list pair := arr_pairs 0 (array t) ++ node_pairs (nodes t).

Lemma arr_pairs_app i vs ws : arr_pairs i (vs ++ ws) = arr_pairs i vs ++ arr_pairs (i + length vs) ws.
Proof.
  revert i. induction vs as [|v vs IH]; intros i; simpl; [by rewrite Nat.add_0_r|].
  rewrite IH. replace (S i + length vs) with (i + S (length vs)) by lia. by destruct (is_nil v).
Qed.

Lemma arr_pairs_nil i n : arr_pairs i (replicate n TNil) = [].
Proof. revert i. induction n; intros i; simpl; [done|by rewrite IHn]. Qed.

Lemma arr_pairs_count i vs : length (arr_pairs i vs) = count_vals vs.
Proof. revert i. induction vs as [|v vs IH]; intros i; simpl; [done|]. destruct (is_nil v); simpl; by rewrite IH. Qed.

Lemma arr_pairs_elem i vs k v : (k, v) ∈ arr_pairs i vs <->
  v <> TNil /\ exists j, vs !! j = Some v /\ k = int_key (Z.of_nat (i + j)).
Proof.
  revert i. induction vs as [|w vs IH]; intros i; simpl; [split; [set_solver|by intros (_ & j & ? & _)]|].
  assert ((k, v) ∈ arr_pairs (S i) vs <-> v <> TNil /\ exists j, (w :: vs) !! S j = Some v /\ k = int_key (Z.of_nat (i + S j))) as E.
  { rewrite IH. simpl. setoid_rewrite <- Nat.add_succ_comm. done. }
  destruct (is_nil w) eqn:Ew.
  - apply is_nil_true in Ew as ->. rewrite E. split; intros (Hv & j & Hj & ->); (split; [done|]); [by exists (S j)|].
    destruct j; [by injection Hj as <-|]. by exists j.
  - apply is_nil_false in Ew. rewrite elem_of_cons, E. split.
    + intros [[= -> ->]|(Hv & j & ? & ->)]; (split; [done|]); [|by exists (S j)]. exists 0. by rewrite Nat.add_0_r.
    + intros (Hv & [|j] & Hj & ->); [left|right; split; [done|by exists j]]. injection Hj as <-. by rewrite Nat.add_0_r.
Qed.

Lemma node_pairs_elem ns k v : (k, v) ∈ node_pairs ns <->
  v <> TNil /\ exists j nd, ns !! j = Some nd /\ n_key nd = k /\ n_val nd = v.
Proof.
  induction ns as [|n ns IH]; simpl; [split; [set_solver|by intros (_ & j & nd & ? & _)]|].
  destruct (is_nil (n_val n)) eqn:E.
  - apply is_nil_true in E. rewrite IH. split; intros (Hv & j & nd & Hj & Hk & Hw); (split; [done|]).
    + by exists (S j), nd.
    + destruct j; [|by exists j, nd]. injection Hj as <-. congruence.
  - apply is_nil_false in E. rewrite elem_of_cons, IH. split.
    + intros [[= -> ->]|(Hv & j & nd & ? & ?)]; (split; [done|]); [by exists 0, n|by exists (S j), nd].
    + intros (Hv & [|j] & nd & Hj & Hk & Hw); [left; injection Hj as <-; congruence|right; split; [done|by exists j, nd]].
Qed.

Lemma count_vals_le vs : count_vals vs <= length vs.
Proof. induction vs as [|v vs IH]; simpl; [done|]. destruct (is_nil v); lia. Qed.

Lemma node_pairs_le ns : length (node_pairs ns) <= length ns.
Proof. induction ns as [|n ns IH]; simpl; [done|]. destruct (is_nil (n_val n)); simpl; lia. Qed.

Section Pairs.
Context (gcrefu : tvalue -> Z).
Implicit Types (t : ltab) (cs : list (list nat)) (m : gmap tvalue tvalue).

Lemma pairs_has t cs k v : tab_ok gcrefu t cs -> (k, v) ∈ pairs t <-> tab_has t k v.
Proof.
  intros H. unfold pairs, tab_has. rewrite elem_of_app, arr_pairs_elem, node_pairs_elem. simpl. split.
  - intros [(Hv & j & ? & ->)|(Hv & j & nd & Hj & Hk & Hw)]; (split; [done|]); [by exists (ASlot j)|].
    exists (NSlot j), nd. split_and!; try done. intros ->.
    apply Hv. by rewrite <- Hw, (hp_nil _ _ _ (hk_hp _ _ _ (tk_hash _ _ _ H)) j nd Hj Hk).
  - intros (Hv & [j|j] & Hs); [left|right]; (split; [done|]).
    + destruct Hs as [-> ?]. by exists j.
    + destruct Hs as (nd & ? & ? & ? & _). by exists j, nd.
Qed.

Lemma arr_pairs_nodup vs : forall i, small (i + length vs) -> NoDup (arr_pairs i vs).*1.
Proof.
  induction vs as [|v vs IH]; intros i Hs; simpl; [constructor|]. simpl in Hs.
  rewrite <- Nat.add_succ_comm in Hs. specialize (IH (S i) Hs). destruct (is_nil v); [done|].
  simpl. constructor; [|done]. rewrite list_elem_of_fmap. intros ([k w] & Hk & Hin).
  apply arr_pairs_elem in Hin as (_ & j & Hj%lookup_lt_Some & ->). simpl in Hk.
  apply ikey_inj in Hk; [lia|..]; (eapply small_int32; [exact Hs|lia]).
Qed.

Lemma node_pairs_nodup ns : (forall i j nd nd', ns !! i = Some nd -> ns !! j = Some nd' -> n_val nd <> TNil ->
  n_key nd = n_key nd' -> i = j) -> NoDup (node_pairs ns).*1.
Proof.
  induction ns as [|n ns IH]; intros Hu; simpl; [constructor|].
  assert (NoDup (node_pairs ns).*1) as Hn.
  { apply IH. intros i j nd nd' Hi Hj Hv E. specialize (Hu (S i) (S j) nd nd' Hi Hj Hv E). lia. }
  destruct (is_nil (n_val n)) eqn:E; [done|]. apply is_nil_false in E. simpl. constructor; [|done].
  rewrite list_elem_of_fmap. intros ([k w] & Hk & Hin). apply node_pairs_elem in Hin as (_ & j & nd & Hj & Hk' & _).
  simpl in Hk. discriminate (Hu 0 (S j) n nd eq_refl Hj E). congruence.
Qed.

Lemma pairs_nodup t cs : tab_ok gcrefu t cs -> NoDup (pairs t).*1.
Proof.
  intros H. unfold pairs. rewrite fmap_app. apply NoDup_app. split_and!.
  - apply arr_pairs_nodup. rewrite Nat.add_0_l, (tk_array _ _ _ H). apply H.
  - intros k ([k1 v1] & -> & H1)%list_elem_of_fmap ([k2 v2] & E & H2)%list_elem_of_fmap. simpl in E. subst k2.
    apply arr_pairs_elem in H1 as (_ & j & Hj & ->). apply node_pairs_elem in H2 as (_ & i & nd & Hi & Hk & _).
    pose proof (tk_part _ _ _ H i nd Hi) as Hp. rewrite Hk, Nat.add_0_l in Hp.
    rewrite arr_ix_int in Hp; [done|apply (tk_max _ _ _ H)|by eapply array_lt].
  - apply node_pairs_nodup. intros i j nd nd' Hi Hj Hv. apply (hp_uniq _ _ _ (hk_hp _ _ _ (tk_hash _ _ _ H)) i j nd nd'); try done.
    intros Hk. apply Hv. by rewrite (hp_nil _ _ _ (hk_hp _ _ _ (tk_hash _ _ _ H)) i nd Hi Hk).
Qed.

Lemma holds_pairs t cs m : tab_ok gcrefu t cs -> holds t m <-> m = list_to_map (pairs t).
Proof.
  intros H. pose proof (pairs_nodup t cs H) as Hnd. split.
  - intros Hm. apply map_eq. intros k. apply option_eq. intros v.
    by rewrite <- (Hm k v), <- (pairs_has t cs k v H), elem_of_list_to_map.
  - intros -> k v. by rewrite <- (pairs_has t cs k v H), elem_of_list_to_map.
Qed.

Lemma holds_size t cs m : tab_ok gcrefu t cs -> holds t m -> size m = length (pairs t).
Proof.
  intros H Hm. rewrite (proj1 (holds_pairs t cs m H) Hm). 
  rewrite <- length_map_to_list, map_to_list_to_map by by eapply pairs_nodup. done.
Qed.

(** ** Storing a list of pairs *)

Definition puts (l : list pair) m : gmap tvalue tvalue := foldl (fun m kv => <[kv.1 := kv.2]> m) m l.

Lemma puts_lookup l : forall m k v, NoDup (l.*1) ->
  puts l m !! k = Some v <-> (k, v) ∈ l \/ (~ k ∈ l.*1 /\ m !! k = Some v).
Proof.
  induction l as [|[k0 v0] l IH]; intros m k v Hnd; simpl; [set_solver|].
  apply NoDup_cons in Hnd as [Hk0 Hnd]. change (puts ((k0, v0) :: l) m) with (puts l (<[k0 := v0]> m)).
  rewrite IH, lookup_insert_Some, !elem_of_cons by done.
  assert ((k, v) ∈ l -> k ∈ l.*1) as Hin by (intros ?; by apply (list_elem_of_fmap_2 fst l (k, v))).
  split.
  - intros [?|[? [[-> ->]|[? ?]]]]; [tauto|tauto|]. right. split; [naive_solver|done].
  - intros [[[= -> ->]|?]|[Hk Hm]]; [right; tauto|tauto|]. right. split; [tauto|]. right. naive_solver.
Qed.
End Pairs.
