(* ===== verification/LjTabCount.v ===== *)
(** * Counting integer keys

    The bins of [rehashtab] count the integer keys of the table by their size,
    so [bestasize] knows how many keys an array of each size would take. *)

From stdpp Require Import base option strings countable gmap list.
From Stdlib Require Import ZArith Lia.
From S2P Require Import Prelude Number LuaApi LjStr LjTab LjTabKeys LjTabChain LjTabFind LjTabOk LjTabPairs.

Local Open Scope nat_scope.
Local Open Scope prog_scope.

(** ** Bins *)

Lemma bin_of_le k b : bin_of k <= b <-> k <= 2 * 2 ^ b.
Proof.
  unfold bin_of. destruct (Nat.ltb_spec 2 k) as [Hk|Hk].
  - change (2 * 2 ^ b) with (2 ^ S b). rewrite <- Nat.lt_succ_r.
    rewrite <- Nat.log2_lt_pow2 by lia. lia.
  - assert (2 ^ b <> 0) by (by apply Nat.pow_nonzero). lia.
Qed.

(** The first key of a bin. *)
Definition bin_start (b : nat) : nat := match b with 0 => 0 | _ => S (2 ^ b) end.

Lemma bin_of_eq k b : bin_start b <= k -> k <= 2 * 2 ^ b -> bin_of k = b.
Proof.
  intros Hs Hk. apply Nat.le_antisymm; [by apply bin_of_le|]. destruct b as [|b]; [lia|].
  apply Nat.le_succ_l, Nat.nle_gt. rewrite bin_of_le. simpl in *. lia.
Qed.

(** ** Counters of a list of keys

    [N] is [LJ_MAX_ASIZE] as a size. *)

Section Count.
Context (N : nat) (HN : Z.of_nat N = LJ_MAX_ASIZE).

Lemma HN_small : small N.
Proof. unfold small. by rewrite HN. Qed.

Lemma HN_pow : exists K, K = 26 /\ N = S (2 * 2 ^ K).
Proof.
  exists 26. split; [done|]. apply Nat2Z.inj. rewrite HN, Nat2Z.inj_succ, Nat2Z.inj_mul, Nat2Z.inj_pow. done.
Qed.

Definition key_bin (k : tvalue) : option nat := bin_of <$> arr_ix N k.

Definition in_bin (b : nat) (k : tvalue) : Prop := key_bin k = Some b.
Definition in_array (n : nat) (k : tvalue) : Prop := is_Some (arr_ix n k).

Definition count (P : tvalue -> Prop) `{Hd : forall k, Decision (P k)} (ks : list tvalue) : nat := length (filter P ks).

Lemma count_app P `{Hd : forall k, Decision (P k)} ks ls : count P (ks ++ ls) = count P ks + count P ls.
Proof. unfold count. by rewrite filter_app, length_app. Qed.

Lemma count_cons P `{Hd : forall k, Decision (P k)} k ks : count P (k :: ks) = (if decide (P k) then 1 else 0) + count P ks.
Proof. unfold count. rewrite filter_cons. by case_decide. Qed.

Lemma count_all (P : tvalue -> Prop) `{Hd : forall k, Decision (P k)} ks : (forall k, k ∈ ks -> P k) -> count P ks = length ks.
Proof.
  intros H. induction ks as [|k ks IH]; [done|]. rewrite count_cons, decide_True by (apply H; by left).
  simpl. f_equal. apply IH. intros; apply H. by right.
Qed.

Lemma count_none (P : tvalue -> Prop) `{Hd : forall k, Decision (P k)} ks : (forall k, k ∈ ks -> ~ P k) -> count P ks = 0.
Proof.
  intros H. induction ks as [|k ks IH]; [done|]. rewrite count_cons, decide_False by (apply H; by left).
  simpl. apply IH. intros; apply H. by right.
Qed.

#[export] Instance in_bin_dec b k : Decision (in_bin b k) := decide (key_bin k = Some b).
#[export] Instance in_array_dec n k : Decision (in_array n k) := _.

Record counted (ks : list tvalue) (na : nat) (bins : list nat) : Prop := {
  ct_length : length bins = LJ_MAX_ABITS;
  ct_bins b : b < LJ_MAX_ABITS -> bins !! b = Some (count (in_bin b) ks);
  ct_all : na = count (in_array N) ks
}.

Lemma counted_nil : counted [] 0 (replicate LJ_MAX_ABITS 0).
Proof. split; [done| |done]. intros b Hb. by apply lookup_replicate_2. Qed.

Lemma key_bin_lt k b : key_bin k = Some b -> b < 27.
Proof.
  intros (i & Hi & ->)%fmap_Some. apply arr_ix_Some in Hi as [Hi _]; [|apply HN_small].
  destruct HN_pow as (K & HK & HNp). change 27 with (S 26). rewrite <- HK.
  apply Nat.lt_succ_r, bin_of_le. lia.
Qed.

(** Keys of one bin are added. *)
Lemma counted_add ks na bins b ls t : counted ks na bins -> b < LJ_MAX_ABITS -> (forall k, k ∈ ls -> in_bin b k) ->
  exists bins', bump bins b (length ls) t = Ret bins' t /\ counted (ls ++ ks) (na + length ls) bins'.
Proof.
  intros [Hl Hb Ha] Hlt Hls. exists (<[b := count (in_bin b) ks + length ls]> bins). split.
  { unfold bump. by rewrite Hb. }
  split.
  - by rewrite length_insert.
  - intros b' Hb'. rewrite count_app. destruct (decide (b' = b)) as [->|Hne].
    + rewrite list_lookup_insert_eq by (by rewrite Hl). rewrite (count_all (in_bin b) ls) by done. f_equal. lia.
    + rewrite list_lookup_insert_ne by done. rewrite (count_none (in_bin b') ls); [by rewrite Hb|].
      intros k Hk E. specialize (Hls k Hk). unfold in_bin in *. congruence.
  - rewrite count_app, (count_all (in_array N) ls); [lia|]. intros k Hk. specialize (Hls k Hk).
    apply fmap_Some in Hls as (i & Hi & _). by exists i.
Qed.

Lemma counted_skip ks na bins k : counted ks na bins -> key_bin k = None -> counted (k :: ks) na bins.
Proof.
  intros [Hl Hb Ha] Hk. split; [done| |].
  - intros b Hlt. rewrite count_cons, decide_False; [by apply Hb|]. unfold in_bin. congruence.
  - rewrite count_cons, decide_False; [done|]. intros [i Hi]. unfold key_bin in Hk. by rewrite Hi in Hk.
Qed.

#[export] Instance counted_perm : Proper ((≡ₚ) ==> eq ==> eq ==> iff) counted.
Proof.
  intros ks ls Hp na ? <- bins ? <-.
  assert (forall (P : tvalue -> Prop) (Hd : forall k, Decision (P k)), count P ks = count P ls) as E
    by (intros P Hd; unfold count; by rewrite Hp).
  split; intros [Hl Hb ->]; split; try done; intros; rewrite ?Hb by done; by rewrite E.
Qed.

Lemma countint_counted ks na bins k t : counted ks na bins ->
  exists c bins', countint k bins t = Ret (c, bins') t /\ counted (k :: ks) (na + c) bins'.
Proof.
  intros H. assert (key_bin k = None -> countint k bins t = Ret (0, bins) t -> exists c bins',
    countint k bins t = Ret (c, bins') t /\ counted (k :: ks) (na + c) bins') as Hskip.
  { intros Hk ->. exists 0, bins. split; [done|]. rewrite Nat.add_0_r. by apply counted_skip. }
  destruct k as [| | |x| | | | |]; try (by apply Hskip). cbn [countint].
  assert (arr_ix N (TNum x) = if (u32 (lj_num2int x) <? LJ_MAX_ASIZE)%Z && num_eqb x (num_of_Z (lj_num2int x))
    then Some (Z.to_nat (u32 (lj_num2int x))) else None) as Ha.
  { cbn [arr_ix]. unfold num_int. rewrite HN. destruct (num_eqb _ _); by rewrite ?andb_true_r, ?andb_false_r. }
  cbn [countint] in Hskip. unfold key_bin in Hskip. rewrite Ha in Hskip.
  destruct ((u32 (lj_num2int x) <? LJ_MAX_ASIZE)%Z && num_eqb x (num_of_Z (lj_num2int x))) eqn:E; [|by apply Hskip].
  destruct (counted_add ks na bins (bin_of (Z.to_nat (u32 (lj_num2int x)))) [TNum x] t H) as (bins' & Hr & Hc).
  - assert (key_bin (TNum x) = Some (bin_of (Z.to_nat (u32 (lj_num2int x))))) as Hk%key_bin_lt
      by (unfold key_bin; by rewrite Ha). unfold LJ_MAX_ABITS. lia.
  - intros k ->%list_elem_of_singleton. unfold in_bin, key_bin. by rewrite Ha.
  - exists 1, bins'. by rewrite (bind_step _ _ _ _ _ Hr).
Qed.

(** ** The keys of the hash part *)

Lemma counthash_counted ns t : forall ks total na bins, counted ks na bins ->
  exists na' bins', counthash ns bins total na t = Ret (total + length (node_pairs ns), na', bins') t /\
    counted ((node_pairs ns).*1 ++ ks) na' bins'.
Proof.
  induction ns as [|n ns IH]; intros ks total na bins H; cbn [counthash node_pairs].
  - exists na, bins. by rewrite Nat.add_0_r.
  - destruct (is_nil (n_val n)); [by apply IH|].
    destruct (countint_counted ks na bins (n_key n) t H) as (c & bins1 & Hr & Hc). rewrite (bind_step _ _ _ _ _ Hr).
    destruct (IH _ (S total) (na + c) bins1 Hc) as (na' & bins' & Hr' & Hc'). exists na', bins'. split.
    + cbn [snd fst length]. rewrite Hr'. by rewrite Nat.add_succ_r.
    + cbn [fmap list_fmap fst app]. by rewrite Permutation_middle.
Qed.

(** ** The array part *)

Lemma array_segment vs i n : arr_pairs 0 (take (i + n) vs) = arr_pairs 0 (take i vs) ++ arr_pairs (length (take i vs)) (take n (drop i vs)).
Proof. rewrite <- take_take_drop. apply arr_pairs_app. Qed.

Lemma countarray_loop_counted t : length (array t) = asize t -> small (asize t) -> 0 < asize t ->
  forall fuel b i na bins, fuel + b = LJ_MAX_ABITS -> i <= asize t ->
  (i = asize t /\ asize t <= 2 * 2 ^ b \/ i = bin_start b) ->
  counted ((arr_pairs 0 (take i (array t))).*1) na bins ->
  exists na' bins', countarray_loop fuel t b i na bins t = Ret (na', bins') t /\
    counted ((arr_pairs 0 (array t)).*1) na' bins'.
Proof.
  intros Hl Hs Hpos. assert (asize t <= N) as HsN by (unfold small in Hs; lia). destruct HN_pow as (K & HK & HNp).
  assert (forall na bins, counted ((arr_pairs 0 (take (asize t) (array t))).*1) na bins ->
    counted ((arr_pairs 0 (array t)).*1) na bins) as Hend by (intros ? ?; rewrite take_ge by lia; done).
  induction fuel as [|fuel IH]; intros b i na bins Hfuel Hi Hib Hc; cbn [countarray_loop].
  - exists na, bins. split; [done|]. apply Hend. assert (asize t = i) as ->; [|done].
    destruct Hib as [[? _]| ->]; [done|]. simpl in Hfuel. unfold LJ_MAX_ABITS in Hfuel.
    assert (S (2 ^ b) <= asize t) by (by destruct b).
    pose proof (Nat.pow_succ_r' 2 K). pose proof (Nat.pow_lt_mono_r 2 (S K) b ltac:(lia) ltac:(lia)). lia.
  - set (last := asize t <=? 2 * 2 ^ b). set (top := if last then asize t - 1 else 2 * 2 ^ b).
    destruct (last && (top <? i)) eqn:E.
    + apply andb_true_iff in E as [El Et]. unfold top in Et. rewrite El in Et. apply Nat.ltb_lt in Et.
      exists na, bins. split; [done|]. apply Hend. assert (asize t = i) as ->; [lia|done].
    + assert (i = bin_start b) as ->.
      { destruct Hib as [[-> Hb]|]; [|done]. unfold top, last in E.
        rewrite (proj2 (Nat.leb_le _ _) Hb) in E. simpl in E. apply Nat.ltb_ge in E. lia. }
      assert (top < asize t /\ top <= 2 * 2 ^ b /\ bin_start b <= top) as (Ht1 & Ht2 & Ht3).
      { unfold top, last in *. destruct (Nat.leb_spec (asize t) (2 * 2 ^ b)); simpl in E.
        - apply Nat.ltb_ge in E. lia.
        - split_and!; [lia..|]. destruct b; simpl; lia. }
      set (i := bin_start b) in *. set (seg := take (S top - i) (drop i (array t))).
      assert (length (take i (array t)) = i) as Hti by (rewrite length_take; lia).
      destruct (counted_add _ na bins b (arr_pairs i seg).*1 t Hc) as (bins1 & Hr & Hc1).
      * lia.
      * intros k ([k' v] & -> & (_ & j & Hj & ->)%arr_pairs_elem)%list_elem_of_fmap. simpl.
        apply lookup_lt_Some in Hj. unfold seg in Hj. rewrite length_take, length_drop in Hj.
        unfold in_bin, key_bin. rewrite arr_ix_int by (apply HN_small || lia). simpl. f_equal.
        apply bin_of_eq; [subst i|]; lia.
      * rewrite length_fmap, arr_pairs_count in Hr, Hc1. fold seg. rewrite (bind_step _ _ _ _ _ Hr).
        apply IH; [lia|lia| |].
        -- unfold top, last in *. destruct (Nat.leb_spec (asize t) (2 * 2 ^ b)); [left; simpl; lia|right; simpl; lia].
        -- replace (Nat.max i (S top)) with (i + (S top - i)) by lia. rewrite array_segment, Hti, fmap_app.
           by rewrite Permutation_app_comm.
Qed.

Lemma countarray_counted t : length (array t) = asize t -> small (asize t) ->
  exists na bins, countarray t (replicate LJ_MAX_ABITS 0) t = Ret (na, bins) t /\
    counted ((arr_pairs 0 (array t)).*1) na bins.
Proof.
  intros Hl Hs. unfold countarray. destruct (Nat.eqb_spec (asize t) 0) as [E|E].
  - exists 0, (replicate LJ_MAX_ABITS 0). split; [done|]. rewrite E in Hl. apply nil_length_inv in Hl as ->.
    apply counted_nil.
  - apply countarray_loop_counted; try done; try lia; [by right|apply counted_nil].
Qed.

(** ** The best array size *)

Lemma in_array_bins k b : b < 27 -> in_array (S (2 * 2 ^ b)) k <-> exists c, key_bin k = Some c /\ c <= b.
Proof.
  intros Hb. destruct HN_pow as (K & HK & HNp).
  assert (2 ^ b <= 2 ^ K) by (clear HNp; apply Nat.pow_le_mono_r; lia). clear HK.
  pose proof HN_small as HNs. assert (small (S (2 * 2 ^ b))) as Hsm by (unfold small in *; lia).
  unfold in_array, key_bin. split.
  - intros [i Hi]. apply arr_ix_Some in Hi as [Hi Hk]; [|done].
    assert (arr_ix N k = Some i) as -> by (apply arr_ix_Some; [done|split; [lia|done]]).
    exists (bin_of i). split; [done|]. apply bin_of_le. lia.
  - intros (c & (i & Hi & ->)%fmap_Some & Hc%bin_of_le). apply arr_ix_Some in Hi as [_ Hk]; [|done].
    exists i. apply arr_ix_Some; [done|]. split; [lia|done].
Qed.

(** The keys in the bins below [b]. *)
Definition below (b : nat) (k : tvalue) : Prop := from_option (fun c => c < b) False (key_bin k).
#[export] Instance below_dec b k : Decision (below b k).
Proof. unfold below. destruct (key_bin k); simpl; apply _. Defined.

Lemma count_ext (P Q : tvalue -> Prop) `{HP : forall k, Decision (P k)} `{HQ : forall k, Decision (Q k)} ks :
  (forall k, P k <-> Q k) -> count P ks = count Q ks.
Proof. intros H. unfold count. f_equal. by apply list_filter_iff. Qed.

Lemma below_0 ks : count (below 0) ks = 0.
Proof. apply count_none. intros k _. unfold below. destruct (key_bin k); simpl; lia. Qed.

Lemma below_S b ks : count (below (S b)) ks = count (below b) ks + count (in_bin b) ks.
Proof.
  induction ks as [|k ks IH]; [done|]. rewrite !count_cons, IH.
  assert (below (S b) k <-> below b k \/ in_bin b k) as E.
  { unfold below, in_bin. destruct (key_bin k) as [c|]; simpl; [|naive_solver].
    split; [|intros [?|[= ->]]; lia]. intros. destruct (decide (c = b)) as [->|]; [by right|left; lia]. }
  assert (below b k -> in_bin b k -> False) as Hx.
  { unfold below, in_bin. destruct (key_bin k) as [c|]; simpl; [|done]. intros ? [= ->]. lia. }
  repeat case_decide; try tauto; lia.
Qed.

Lemma below_top ks : count (below 27) ks = count (in_array N) ks.
Proof.
  apply count_ext. intros k. destruct HN_pow as (K & HK & HNp). rewrite HNp, (in_array_bins k K) by lia. clear HNp. unfold below.
  destruct (key_bin k) as [c|]; simpl; [|naive_solver]. split; [exists c; split; [done|lia]|]. intros (? & [= ->] & ?). lia.
Qed.

Lemma below_array b ks : b < 27 -> count (below (S b)) ks = count (in_array (S (2 * 2 ^ b))) ks.
Proof.
  intros Hb. apply count_ext. intros k. rewrite in_array_bins by done. unfold below.
  destruct (key_bin k) as [c|]; simpl; [|naive_solver]. split; [exists c; split; [done|lia]|]. intros (? & [= ->] & ?). lia.
Qed.

(** An array of [sz] slots would take [na] of the keys. *)
Definition takes (ks : list tvalue) (na sz : nat) : Prop := small sz /\ na = count (in_array sz) ks.

Lemma takes_pow ks b : b < 27 -> takes ks (count (below (S b)) ks) (S (2 * 2 ^ b)).
Proof.
  intros Hb. split; [|by apply below_array]. pose proof HN_small as HNs. destruct HN_pow as (K & HK & HNp).
  assert (2 ^ b <= 2 ^ K) by (clear HNp; apply Nat.pow_le_mono_r; lia). clear HK. unfold small in *. lia.
Qed.

Lemma bestasize_loop_takes t ks nn bins : counted ks nn bins -> forall fuel b na sz,
  27 < fuel + b -> b <= 27 -> takes ks na sz ->
  exists na' sz', bestasize_loop fuel bins nn b (count (below b) ks) na sz t = Ret (na', sz') t /\ takes ks na' sz'.
Proof.
  intros [Hl Hbins Hnn]. induction fuel as [|fuel IH]; intros b na sz Hf Hb Ht; [lia|]. cbn [bestasize_loop].
  destruct ((2 ^ b <? 2 * nn) && negb (count (below b) ks =? nn)) eqn:E; [|by exists na, sz].
  apply andb_true_iff in E as [_ E%negb_true_iff%Nat.eqb_neq].
  assert (b <> 27) by (intros ->; by rewrite below_top in E).
  rewrite (Hbins b) by (unfold LJ_MAX_ABITS; lia). cbn [orfail]. rewrite bind_ret.
  pose proof (below_S b ks) as HS. destruct (Nat.ltb_spec 0 (count (in_bin b) ks)) as [Hx|Hx].
  - rewrite <- HS. destruct (_ <? _); [|apply IH; (lia || done)]. rewrite Nat.add_1_r.
    apply IH; [lia..|]. apply takes_pow. lia.
  - assert (count (below b) ks = count (below (S b)) ks) as -> by lia. apply IH; (lia || done).
Qed.

Lemma bestasize_takes t ks nn bins : counted ks nn bins ->
  exists na sz, bestasize bins nn t = Ret (na, sz) t /\ takes ks na sz.
Proof.
  intros H. pose proof (bestasize_loop_takes t ks nn bins H 33 0 0 0) as Hl. rewrite below_0 in Hl.
  apply Hl; [lia..|]. split; [by unfold small|]. symmetry. apply count_none. intros k _ [i Hi].
  apply arr_ix_Some in Hi as [? _]; [lia|by unfold small].
Qed.
End Count.
