(* ===== verification/LjTabResize.v ===== *)
(** * Resizing a table

    A resize makes an empty hash part and stores the old pairs again; the counts
    of [LjTabCount] give it room for all of them and the new key, so it does not
    resize again and the table holds what it did. *)

From stdpp Require Import base option strings countable gmap list.
From Stdlib Require Import ZArith Lia SpecFloat.
From S2P Require Import Prelude Number LuaApi LjStr LjTab LjTabKeys LjTabChain LjTabFind LjTabOk LjTabPairs LjTabCount.

Local Open Scope nat_scope.
Local Open Scope prog_scope.

(** ** Sizes of the hash part *)

Definition hcap (hbits : nat) : nat := if decide (hbits = 0) then 0 else 2 ^ hbits.

Lemma hsize2hbits_cap s : s <= hcap (hsize2hbits s).
Proof.
  destruct s as [|[|s]]; [by apply Nat.leb_le..|]. unfold hcap. rewrite decide_False by done.
  cbn [hsize2hbits]. pose proof (Nat.log2_spec (S s) ltac:(lia)) as [_ H]. simpl in H |- *. lia.
Qed.

Lemma hsize2hbits_le s : s <= 2 ^ LJ_MAX_HBITS -> hsize2hbits s <= LJ_MAX_HBITS.
Proof.
  intros H. destruct s as [|[|s]]; [unfold LJ_MAX_HBITS; simpl; lia..|]. cbn [hsize2hbits].
  apply Nat.le_succ_l, Nat.log2_lt_pow2; lia.
Qed.

(** A key needs a node unless it is in the array. *)
Definition need (n : nat) (k : tvalue) : nat := if arr_ix n k is Some _ then 0 else 1.
Definition needs (n : nat) (ks : list tvalue) : nat := foldr (fun k s => need n k + s) 0 ks.

Lemma needs_app n ks ls : needs n (ks ++ ls) = needs n ks + needs n ls.
Proof. induction ks as [|k ks IH]; simpl; [done|]. fold (needs n (ks ++ ls)) (needs n ks). lia. Qed.

Lemma needs_count n ks : count (in_array n) ks + needs n ks = length ks.
Proof.
  induction ks as [|k ks IH]; [done|]. rewrite count_cons. simpl. fold (needs n ks). unfold need.
  destruct (arr_ix n k) eqn:E.
  - rewrite decide_True by (by eexists). lia.
  - rewrite decide_False; [lia|]. intros [i Hi]. congruence.
Qed.

Section Resize.
Context (gcrefu : tvalue -> Z).
Implicit Types (t : ltab) (cs : list (list nat)) (m : gmap tvalue tvalue).

Abbreviation tab_ok := (tab_ok gcrefu).
Abbreviation newkey := (newkey gcrefu).
Abbreviation set_with := (set_with gcrefu).

(** ** Storing with room *)

(** [t'] is [t] with the map [m], of the same sizes, with at most [c] nodes used. *)
Definition stored t t' m c : Prop :=
  exists cs', tab_ok t' cs' /\ holds t' m /\ asize t' = asize t /\ hmask t' = hmask t /\ length (concat cs') <= c.

(** A key added to the nodes. *)
Lemma added_ok t cs m k i t' cs' : tab_ok t cs -> holds t m -> good_key k -> key_out t k ->
  added gcrefu t cs k i t' cs' -> tab_ok t' cs' /\ holds t' m /\ slot_at t' (NSlot i) k TNil.
Proof.
  intros H Hm Hk [Ha Hn] [Hok Hc Hnode Hhas Hkeys (E1 & E2 & E3 & E4)].
  assert (tab_ok t' cs') as Hok'.
  { split; [by rewrite E1, E2; apply H|rewrite E2; apply H|done|]. intros j nd Hj. rewrite E2.
    destruct (decide (n_key nd = TNil)) as [->|Hnd]; [done|].
    destruct (Hkeys j nd Hj Hnd) as [->|(j' & nd' & Hj' & <-)]; [done|]. by eapply tk_part. }
  split; [done|]. split.
  - intros k' v. rewrite <- (Hm k' v), <- (pairs_has gcrefu t' cs'), <- (pairs_has gcrefu t cs) by done.
    unfold pairs. rewrite E1, !elem_of_app, !node_pairs_elem. specialize (Hhas k' v). unfold has in Hhas. naive_solver.
  - destruct Hnode as (nd & ? & ? & ?). exists nd. split_and!; try done. apply Hk.
Qed.

Lemma newkey_room_run n t cs m k : tab_ok t cs -> holds t m -> good_key k -> key_out t k -> length (concat cs) < cap t ->
  exists i t' cs', newkey (S n) k t = Ret (NSlot i) t' /\ slot_at t' (NSlot i) k TNil /\ tab_ok t' cs' /\
    holds t' m /\ asize t' = asize t /\ hmask t' = hmask t /\ length (concat cs') <= S (length (concat cs)).
Proof.
  intros H Hm Hk Hout Hroom. cbn [LjTab.newkey].
  destruct (newkey_with_run gcrefu t cs k (rehashtab_with gcrefu (newkey n)) (set_with (newkey n)) (tk_hash _ _ _ H) Hk
    (proj2 Hout)) as [(i & t' & cs' & Hr & Ha)|[? _]]; [|lia].
  destruct (added_ok t cs m k i t' cs' H Hm Hk Hout Ha) as (H' & Hm' & Hs).
  destruct Ha as [_ Hc _ _ _ (E1 & E2 & E3 & E4)]. exists i, t', cs'. split_and!; done.
Qed.

(** The slot a setter gives, for a key that is there or has room, is stored to. *)
Lemma store_run n t cs m k v (run : tprog slot) t1 : tab_ok t cs -> holds t m -> good_key k ->
  ((exists s v0, slot_at t s k v0 /\ run t1 = Ret s t) \/ (key_out t k /\ run t1 = newkey (S n) k t)) ->
  length (concat cs) + need (asize t) k <= cap t \/ (exists s v0, slot_at t s k v0) ->
  exists t', (s <- run ;; copyTV s v) t1 = Ret tt t' /\
    stored t t' (mput k v m) (length (concat cs) + need (asize t) k).
Proof.
  intros H Hm Hk [(s & v0 & Hs & Hrun)|[Hout Hrun]] Hroom.
  - destruct (copyTV_holds gcrefu t cs m s k v0 v H Hm Hs) as (t' & Hr & Hok & Hm' & Ea & Eh & _).
    exists t'. rewrite (bind_step _ _ _ _ _ Hrun). split; [done|]. exists cs. split_and!; try done. lia.
  - destruct Hroom as [Hroom|(s & v0 & Hs)]; [|by eapply slot_none in Hs].
    assert (need (asize t) k = 1) as Hneed by (unfold need; by rewrite (proj1 Hout)). rewrite Hneed in *.
    destruct (newkey_room_run n t cs m k H Hm Hk Hout) as (i & t2 & cs2 & Hr & Hs & Hok & Hm2 & Ea & Eh & Hc); [lia|].
    destruct (copyTV_holds gcrefu t2 cs2 m _ k TNil v Hok Hm2 Hs) as (t' & Hr' & Hok' & Hm' & Ea' & Eh' & _).
    exists t'. rewrite (bind_step _ _ _ _ _ (eq_trans Hrun Hr)). split; [done|]. exists cs2.
    split_and!; [done|done|congruence|congruence|lia].
Qed.

Lemma set_store_run n t cs m k v : tab_ok t cs -> holds t m -> k <> TNil -> k <> TNum S754_nan ->
  length (concat cs) + need (asize t) k <= cap t ->
  exists t', (s <- set_with (newkey (S n)) k ;; copyTV s v) t = Ret tt t' /\
    stored t t' (mput (norm_key k) v m) (length (concat cs) + need (asize t) k).
Proof.
  intros H Hm Hn Hnan Hroom. assert (need (asize t) k = need (asize t) (norm_key k)) as E
    by (unfold need; by rewrite arr_ix_norm). rewrite E in *.
  apply (store_run n (set_nomm false t) cs); [by apply nomm_ok|done|by apply good_norm| |by left].
  apply (set_with_lookup gcrefu (newkey (S n)) t cs); done.
Qed.

Lemma setinth_store_run n t cs m i v : tab_ok t cs -> holds t m -> int32 (Z.of_nat i) ->
  arr_ix (asize t) (int_key (Z.of_nat i)) = None -> length (concat cs) < cap t ->
  exists t', (s <- setinth_with (newkey (S n)) (Z.of_nat i) ;; copyTV s v) t = Ret tt t' /\
    stored t t' (mput (int_key (Z.of_nat i)) v m) (length (concat cs) + need (asize t) (int_key (Z.of_nat i))).
Proof.
  intros H Hm Hi Ha Hroom. apply (store_run n t cs); [done..|by apply good_int_key| |left; unfold need; rewrite Ha; lia].
  unfold setinth_with. destruct (getinth_run gcrefu t cs _ H Hi) as (r & Hr & Hc).
  rewrite (bind_step _ _ _ _ _ Hr). destruct r as [j|]; [left|by right].
  destruct Hc as [v0 Hc]. by exists (NSlot j), v0.
Qed.

(** ** The old pairs are stored again *)

Lemma mput_some k v m : v <> TNil -> mput k v m = <[k := v]> m.
Proof. intros. unfold mput. by rewrite decide_False. Qed.

Lemma cap_eq t t' : hmask t' = hmask t -> cap t' = cap t.
Proof. unfold cap. by intros ->. Qed.

Lemma reinsert_array_run n vs : forall i t cs m, tab_ok t cs -> holds t m -> small (i + length vs) -> asize t <= i ->
  length (concat cs) + needs (asize t) (arr_pairs i vs).*1 <= cap t ->
  exists t', reinsert_array (setinth_with (newkey (S n))) i vs t = Ret tt t' /\
    stored t t' (puts (arr_pairs i vs) m) (length (concat cs) + needs (asize t) (arr_pairs i vs).*1).
Proof.
  induction vs as [|v vs IH]; intros i t cs m H Hm Hs Hi Hroom; cbn [reinsert_array arr_pairs] in *.
  - exists t. split; [done|]. exists cs. split_and!; try done. lia.
  - simpl in Hs. destruct (is_nil v) eqn:Ev; cbn [negb].
    + change ((skip ;;; ?r) t) with (r t). apply IH; [done|done|by rewrite Nat.add_succ_comm|lia|done].
    + apply is_nil_false in Ev. cbn [fmap list_fmap needs foldr fst] in *.
      fold (needs (asize t) (arr_pairs (S i) vs).*1) in *.
      assert (arr_ix (asize t) (int_key (Z.of_nat i)) = None) as Ha.
      { destruct (arr_ix _ _) as [j|] eqn:E; [|done]. apply arr_ix_Some in E as [Hj E]; [|apply H].
        rewrite norm_ikey in E by (eapply small_int32; [exact Hs|lia]).
        apply ikey_inj in E; [lia|..]; (eapply small_int32; [exact Hs|lia]). }
      assert (need (asize t) (int_key (Z.of_nat i)) = 1) as Hneed by (unfold need; by rewrite Ha).
      destruct (setinth_store_run n t cs m i v H Hm) as (t1 & Hr & cs1 & Hok1 & Hm1 & Ea & Eh & Hc1);
        [eapply small_int32; [exact Hs|lia]|done|lia|]. rewrite (bind_step _ _ _ _ _ Hr). rewrite mput_some in Hm1 by done.
      destruct (IH (S i) t1 cs1 _ Hok1 Hm1) as (t' & Hr' & Hst); [by rewrite Nat.add_succ_comm|lia|rewrite Ea, (cap_eq _ _ Eh); lia|].
      exists t'. split; [done|]. destruct Hst as (cs' & ? & ? & ? & ? & ?). exists cs'.
      split_and!; [done|done|congruence|congruence|rewrite Ea in *; lia].
Qed.

Lemma reinsert_nodes_run n ns : forall t cs m, tab_ok t cs -> holds t m ->
  (forall j nd, ns !! j = Some nd -> n_val nd <> TNil -> good_key (n_key nd)) ->
  length (concat cs) + needs (asize t) (node_pairs ns).*1 <= cap t ->
  exists t', reinsert_nodes (set_with (newkey (S n))) ns t = Ret tt t' /\
    stored t t' (puts (node_pairs ns) m) (length (concat cs) + needs (asize t) (node_pairs ns).*1).
Proof.
  induction ns as [|nd ns IH]; intros t cs m H Hm Hg Hroom; cbn [reinsert_nodes node_pairs] in *.
  - exists t. split; [done|]. exists cs. split_and!; try done. lia.
  - assert (forall j nd, ns !! j = Some nd -> n_val nd <> TNil -> good_key (n_key nd)) as Hg'
      by (intros j nd' Hj; apply (Hg (S j) nd' Hj)).
    destruct (is_nil (n_val nd)) eqn:Ev; cbn [negb].
    + change ((skip ;;; ?r) t) with (r t). by apply IH.
    + apply is_nil_false in Ev. cbn [fmap list_fmap needs foldr fst] in *.
      fold (needs (asize t) (node_pairs ns).*1) in *. destruct (Hg 0 nd eq_refl Ev) as (Hk1 & Hk2 & Hk3).
      destruct (set_store_run n t cs m (n_key nd) (n_val nd) H Hm Hk1 Hk2) as (t1 & Hr & cs1 & Hok1 & Hm1 & Ea & Eh & Hc1); [lia|].
      rewrite (bind_step _ _ _ _ _ Hr). rewrite mput_some, Hk3 in Hm1 by done.
      destruct (IH t1 cs1 _ Hok1 Hm1 Hg') as (t' & Hr' & Hst); [rewrite Ea, (cap_eq _ _ Eh); lia|].
      exists t'. split; [done|]. destruct Hst as (cs' & ? & ? & ? & ? & ?). exists cs'.
      split_and!; [done|done|congruence|congruence|rewrite Ea in *; lia].
Qed.

(** ** An empty hash part *)

Definition fresh_nodes (hbits : nat) : list node := replicate (2 ^ hbits) free_node.

Lemma fresh_part_ok b arr n hbits ft : length arr = n -> small n -> hbits <= LJ_MAX_HBITS ->
  ft <= 2 ^ hbits -> (hbits <> 0 -> ft = 2 ^ hbits) -> (hbits = 0 -> ft = 0) ->
  tab_ok (Ltab b arr n (fresh_nodes hbits) (2 ^ hbits - 1) ft) [].
Proof.
  intros Ha Hn Hb Hft1 Hft2 Hft3. assert (2 ^ hbits <> 0) as Hp by (by apply Nat.pow_nonzero).
  assert (forall i nd, fresh_nodes hbits !! i = Some nd -> nd = free_node) as Hfree
    by (intros i nd [-> _]%lookup_replicate; done).
  assert (hbits <> 0 -> 1 < 2 ^ hbits) as Hp2.
  { intros. change 1 with (2 ^ 0). apply Nat.pow_lt_mono_r; lia. }
  split; cbn [array asize nodes]; [done|done| |by intros i nd ->%Hfree]. split; cbn [nodes hmask freetop].
  - split; try (by intros i nd ->%Hfree).
    + constructor.
    + intros i. split; [by intros ?%elem_of_nil|]. by intros (nd & ->%Hfree & ?).
    + by intros c ?%elem_of_nil.
    + by intros i nd nd' ->%Hfree.
    + by intros i j nd nd' ->%Hfree.
  - unfold fresh_nodes. rewrite length_replicate. lia.
  - by exists hbits.
  - by intros i nd ->%Hfree.
  - unfold fresh_nodes. by rewrite length_replicate.
  - intros i nd Hm Hi Hl%lookup_lt_Some. unfold fresh_nodes in Hl. rewrite length_replicate in Hl.
    destruct (decide (hbits = 0)) as [->|]; [simpl in Hm; lia|]. rewrite Hft2 in Hi by done. lia.
  - intros Hm. destruct (decide (hbits = 0)) as [->|Hz]; [by rewrite Hft3|]. specialize (Hp2 Hz). lia.
Qed.

Lemma fresh_pairs hbits : node_pairs (fresh_nodes hbits) = [].
Proof. unfold fresh_nodes. by induction (2 ^ hbits). Qed.

Lemma hcap_cap t hbits : hmask t = 2 ^ hbits - 1 -> cap t = hcap hbits.
Proof.
  intros Hm. unfold cap, hcap. rewrite Hm. assert (2 ^ hbits <> 0) as Hp by (by apply Nat.pow_nonzero).
  destruct (decide (hbits = 0)) as [->|Hz]; [done|]. assert (1 < 2 ^ hbits).
  { change 1 with (2 ^ 0) at 1. apply Nat.pow_lt_mono_r; lia. }
  rewrite decide_False by lia. lia.
Qed.

(** ** Resizing *)

Lemma puts_app l l' m : puts (l ++ l') m = puts l' (puts l m).
Proof. apply foldl_app. Qed.

Lemma puts_list l l' : NoDup (l ++ l').*1 -> puts l' (list_to_map l) = list_to_map (l ++ l').
Proof.
  intros Hnd. pose proof Hnd as Hnd2. rewrite fmap_app in Hnd2. apply NoDup_app in Hnd2 as (Hl & Hd & Hl').
  apply map_eq. intros k. apply option_eq. intros v.
  rewrite puts_lookup, <- !elem_of_list_to_map, elem_of_app by done. split; [tauto|].
  intros [Hin|?]; [|by left]. right. split; [|done]. apply Hd. by apply (list_elem_of_fmap_2 fst l (k, v)).
Qed.

Definition hpart_top (hbits : nat) : nat := if decide (hbits = 0) then 0 else 2 ^ hbits.

Lemma hpart_run hbits t : hbits <= LJ_MAX_HBITS ->
  (if decide (hbits = 0) then modify (set_hpart [nilnode] 0 0) else newhpart hbits) t =
  Ret tt (set_hpart (fresh_nodes hbits) (2 ^ hbits - 1) (hpart_top hbits) t).
Proof.
  intros Hb. unfold hpart_top. destruct (decide (hbits = 0)) as [->|]; [done|].
  unfold newhpart. by rewrite decide_False by lia.
Qed.

(** The array part of the new size. *)
Definition array_of (a : nat) (vs : list tvalue) : list tvalue := take a vs ++ replicate (a - length vs) TNil.

Lemma array_of_pairs a vs : arr_pairs 0 vs = arr_pairs 0 (array_of a vs) ++ arr_pairs a (drop a vs).
Proof.
  unfold array_of. rewrite arr_pairs_app, arr_pairs_nil, app_nil_r.
  destruct (decide (a <= length vs)).
  - rewrite <- (take_drop a vs) at 1. rewrite arr_pairs_app, length_take, Nat.min_l by done. done.
  - rewrite take_ge, drop_ge by lia. by rewrite app_nil_r.
Qed.

Lemma array_of_length a vs : length (array_of a vs) = a.
Proof. unfold array_of. rewrite length_app, length_take, length_replicate. lia. Qed.

(** The table as it is when the old pairs are stored. *)
Definition emptied (a hbits : nat) t : ltab :=
  Ltab (nomm t) (array_of a (array t)) a (fresh_nodes hbits) (2 ^ hbits - 1) (hpart_top hbits).

Lemma emptied_ok a hbits t : small a -> hbits <= LJ_MAX_HBITS -> tab_ok (emptied a hbits t) [] /\
  holds (emptied a hbits t) (list_to_map (arr_pairs 0 (array_of a (array t)))).
Proof.
  intros Ha Hb. assert (tab_ok (emptied a hbits t) []) as H.
  { apply fresh_part_ok; try done; [apply array_of_length|..]; unfold hpart_top; case_decide; (lia || done). }
  split; [done|]. apply (holds_pairs gcrefu _ [] _ H). unfold pairs, emptied. cbn [array nodes].
  by rewrite fresh_pairs, app_nil_r.
Qed.

Lemma resizetab_steps nk t cs a hbits : tab_ok t cs -> small a -> hbits <= LJ_MAX_HBITS ->
  resizetab_with gcrefu nk a hbits t =
  (reinsert_array (setinth_with nk) a (drop a (array t)) ;;; reinsert_nodes (set_with nk) (nodes t)) (emptied a hbits t).
Proof.
  intros H Ha Hb. assert (forall t1, (when (bool_decide (0 < hmask t)) do reinsert_nodes (set_with nk) (nodes t)) t1 =
    reinsert_nodes (set_with nk) (nodes t) t1) as Hwhen.
  { intros t1. case_bool_decide as Hm; [done|]. destruct (hk_none _ _ _ (tk_hash _ _ _ H)) as [-> _]; [lia|done]. }
  pose proof (tk_array _ _ _ H) as Hl. unfold resizetab_with. change (bind get ?f t) with (f t t). cbv beta.
  destruct (decide (asize t < a)) as [Hlt|Hge].
  - rewrite (bool_decide_true (asize t < a)), (bool_decide_false (a < asize t)) by lia.
    unfold small in Ha. destruct (Z.ltb_spec LJ_MAX_ASIZE (Z.of_nat a)); [lia|].
    erewrite bind_step by done. rewrite (bind_step _ _ _ _ _ (hpart_run hbits _ Hb)).
    rewrite drop_ge by lia. change ((skip ;;; ?r) ?t) with (r t). cbn [reinsert_array].
    rewrite Hwhen. change ((skip ;;; ?r) ?t) with (r t). unfold emptied, array_of. by rewrite !take_ge, Hl by lia.
  - rewrite (bool_decide_false (asize t < a)) by lia. change ((skip ;;; ?r) t) with (r t).
    rewrite (bind_step _ _ _ _ _ (hpart_run hbits _ Hb)).
    destruct (decide (a < asize t)) as [Hlt|Hge'];
      [rewrite (bool_decide_true (a < asize t)) by done|rewrite (bool_decide_false (a < asize t)) by done].
    + rewrite bind_assoc. erewrite bind_step by done. rewrite take_ge by lia.
      unfold emptied, array_of. replace (a - length (array t)) with 0 by lia. rewrite app_nil_r.
      unfold bind at 1 2. destruct (reinsert_array _ _ _ _); [apply Hwhen|done..].
    + assert (asize t = a) as Ea by lia. rewrite drop_ge by lia. change ((skip ;;; ?r) ?t) with (r t). cbn [reinsert_array].
      rewrite Hwhen. change ((skip ;;; ?r) ?t) with (r t). unfold emptied, array_of.
      rewrite take_ge by lia. replace (a - length (array t)) with 0 by lia. rewrite app_nil_r. by rewrite <- Ea.
Qed.

Lemma resizetab_run n t cs m a hbits : tab_ok t cs -> holds t m -> small a -> hbits <= LJ_MAX_HBITS ->
  needs a (pairs t).*1 <= hcap hbits ->
  exists t' cs', resizetab_with gcrefu (newkey (S n)) a hbits t = Ret tt t' /\ tab_ok t' cs' /\ holds t' m /\
    asize t' = a /\ hmask t' = 2 ^ hbits - 1 /\ length (concat cs') <= needs a (pairs t).*1.
Proof.
  intros H Hm Ha Hb Hneed. rewrite (resizetab_steps _ t cs) by done.
  destruct (emptied_ok a hbits t Ha Hb) as [H0 Hm0]. pose proof (pairs_nodup gcrefu t cs H) as Hnd.
  pose proof (array_of_pairs a (array t)) as Epairs. unfold pairs in Hneed, Hnd |- *. rewrite Epairs in Hneed, Hnd |- *.
  rewrite !fmap_app, !needs_app in Hneed. rewrite <- (hcap_cap (emptied a hbits t)) in Hneed by done.
  destruct (reinsert_array_run n (drop a (array t)) a (emptied a hbits t) [] _ H0 Hm0)
    as (t1 & Hr1 & cs1 & H1 & Hm1 & Ea1 & Eh1 & Hc1).
  { pose proof (tk_max _ _ _ H) as Hs. rewrite length_drop, (tk_array _ _ _ H). unfold small in *. lia. }
  { done. }
  { cbn [emptied asize concat length] in *. lia. }
  rewrite (bind_step _ _ _ _ _ Hr1). cbn [emptied asize hmask concat length] in *.
  destruct (reinsert_nodes_run n (nodes t) t1 cs1 _ H1 Hm1) as (t' & Hr' & cs' & H' & Hm' & Ea' & Eh' & Hc').
  { intros j nd Hj Hv. apply (hk_good _ _ _ (tk_hash _ _ _ H) j nd Hj). intros E. apply Hv.
    by rewrite (hp_nil _ _ _ (hk_hp _ _ _ (tk_hash _ _ _ H)) j nd Hj E). }
  { rewrite Ea1, (cap_eq (emptied a hbits t) t1) by done. lia. }
  exists t', cs'. split; [done|]. split; [done|]. split; [|split_and!; [congruence|congruence|]].
  - rewrite <- puts_app, puts_list in Hm' by (by rewrite app_assoc). rewrite app_assoc, <- Epairs in Hm'.
    fold (pairs t) in Hm'. by rewrite <- (proj1 (holds_pairs gcrefu t cs m H) Hm) in Hm'.
  - rewrite !fmap_app, !needs_app. rewrite Ea1 in Hc'. lia.
Qed.

(** ** Growing for a new key *)

Lemma max_asize_nat : exists N, Z.of_nat N = LJ_MAX_ASIZE.
Proof. exists (Z.to_nat LJ_MAX_ASIZE). by apply Z2Nat.id. Qed.

Lemma array_keys_counted N t : Z.of_nat N = LJ_MAX_ASIZE -> length (array t) = asize t -> small (asize t) ->
  count (in_array N) (arr_pairs 0 (array t)).*1 = length (arr_pairs 0 (array t)).
Proof.
  intros HN Hl Hs. rewrite count_all, length_fmap; [done|].
  intros k ([k' v] & -> & (_ & j & Hj & ->)%arr_pairs_elem)%list_elem_of_fmap. simpl.
  exists j. apply lookup_lt_Some in Hj. apply arr_ix_int; [by apply HN_small|]. unfold small in Hs. lia.
Qed.

(** The table has room for the key it is rehashed for. *)
Lemma rehashtab_run n t cs m ek : tab_ok t cs -> holds t m -> size m < 2 ^ LJ_MAX_HBITS ->
  exists t' cs', rehashtab_with gcrefu (newkey (S n)) ek t = Ret tt t' /\ tab_ok t' cs' /\ holds t' m /\
    length (concat cs') + need (asize t') ek <= cap t'.
Proof.
  intros H Hm Hsize. destruct max_asize_nat as [N HN]. rewrite (holds_size gcrefu t cs m H Hm) in Hsize.
  unfold rehashtab_with. change (bind get ?f t) with (f t t). cbv beta zeta.
  destruct (countarray_counted N HN t (tk_array _ _ _ H) (tk_max _ _ _ H)) as (na0 & bins0 & Hr0 & Hc0).
  assert (na0 = length (arr_pairs 0 (array t))) as ->.
  { rewrite (ct_all _ _ _ _ Hc0). apply array_keys_counted; [done|apply H|apply H]. }
  rewrite (bind_step _ _ _ _ _ Hr0). cbn [fst snd].
  destruct (counthash_counted N HN (nodes t) t _ (1 + length (arr_pairs 0 (array t))) _ _ Hc0) as (na1 & bins1 & Hr1 & Hc1).
  rewrite (bind_step _ _ _ _ _ Hr1). cbv iota.
  destruct (countint_counted N HN _ _ _ ek t Hc1) as (c & bins2 & Hr2 & Hc2).
  rewrite (bind_step _ _ _ _ _ Hr2). cbn [fst snd].
  destruct (bestasize_takes N HN t _ _ _ Hc2) as (na & sz & Hr3 & Hsz & Hna).
  rewrite (bind_step _ _ _ _ _ Hr3). cbn [fst snd]. set (total := 1 + _ + _).
  set (keys := ek :: (node_pairs (nodes t)).*1 ++ (arr_pairs 0 (array t)).*1) in *.
  assert (length keys = total) as Hlen by (unfold keys, total; simpl; rewrite length_app, !length_fmap; lia).
  pose proof (needs_count sz keys) as Hcount. rewrite <- Hna in Hcount.
  assert (needs sz keys = need sz ek + needs sz (pairs t).*1) as Hkeys.
  { unfold keys, pairs. simpl. fold (needs sz ((node_pairs (nodes t)).*1 ++ (arr_pairs 0 (array t)).*1)).
    rewrite fmap_app, !needs_app. lia. }
  assert (total = S (length (pairs t))) as Htotal by (unfold total, pairs; rewrite length_app; lia).
  assert (total - na = needs sz keys) as -> by lia.
  assert (hsize2hbits (needs sz keys) <= LJ_MAX_HBITS) as Hb by (apply hsize2hbits_le; lia).
  pose proof (hsize2hbits_cap (needs sz keys)) as Hcap.
  destruct (resizetab_run n t cs m sz _ H Hm Hsz Hb) as (t' & cs' & Hr & H' & Hm' & Ea & Eh & Hc); [lia|].
  exists t', cs'. split; [done|]. split; [done|]. split; [done|]. rewrite Ea, (hcap_cap t' _ Eh). lia.
Qed.

(** ** Setting a key *)

(** The slot of a key, with the key added to the table if it is new. *)
Lemma lj_tab_set_run t cs m k : tab_ok t cs -> holds t m -> k <> TNil -> k <> TNum S754_nan ->
  size m < 2 ^ LJ_MAX_HBITS ->
  exists s v t' cs', lj_tab_set gcrefu k t = Ret s t' /\ tab_ok t' cs' /\ holds t' m /\ slot_at t' s (norm_key k) v.
Proof.
  intros H Hm Hn Hnan Hsize. pose proof (nomm_ok gcrefu t cs false H) as H0. unfold lj_tab_set.
  destruct (set_with_lookup gcrefu (lj_tab_newkey gcrefu) t cs k H Hn Hnan) as [(s & v & Hs & ->)|[Hout ->]].
  { by exists s, v, (set_nomm false t), cs. }
  set (t0 := set_nomm false t) in *. pose proof (good_norm k Hn Hnan) as Hg.
  unfold lj_tab_newkey, tab_fuel. change (LjTab.newkey gcrefu 2 ?k) with
    (newkey_with gcrefu (rehashtab_with gcrefu (newkey 1)) (set_with (newkey 1)) k).
  destruct (decide (length (concat cs) < cap t0)) as [Hroom|Hfull].
  { destruct (newkey_room_run 1 t0 cs m (norm_key k) H0 Hm Hg Hout Hroom) as (i & t' & cs' & Hr & Hs & H' & Hm' & _).
    by exists (NSlot i), TNil, t', cs'. }
  destruct (newkey_with_run gcrefu t0 cs (norm_key k) (rehashtab_with gcrefu (newkey 1)) (set_with (newkey 1))
    (tk_hash _ _ _ H0) Hg (proj2 Hout)) as [(i & t' & cs' & Hr & Ha)|[_ ->]].
  { destruct (added_ok t0 cs m (norm_key k) i t' cs' H0 Hm Hg Hout Ha) as (H' & Hm' & Hs).
    by exists (NSlot i), TNil, t', cs'. }
  destruct (rehashtab_run 0 t0 cs m (norm_key k) H0 Hm Hsize) as (t1 & cs1 & Hr1 & H1 & Hm1 & Hroom).
  rewrite (bind_step _ _ _ _ _ Hr1). destruct Hg as (Hg1 & Hg2 & Hg3).
  destruct (set_with_lookup gcrefu (newkey 1) t1 cs1 (norm_key k) H1 Hg1 Hg2) as [(s & v & Hs & ->)|[Hout1 ->]];
    rewrite Hg3 in *; pose proof (nomm_ok gcrefu t1 cs1 false H1) as H1'.
  { by exists s, v, (set_nomm false t1), cs1. }
  destruct (newkey_room_run 0 (set_nomm false t1) cs1 m (norm_key k) H1' Hm1) as (i & t' & cs' & Hr & Hs & H' & Hm' & _);
    [done|done| |by exists (NSlot i), TNil, t', cs'].
  unfold need in Hroom. rewrite (proj1 Hout1) in Hroom. change (cap (set_nomm false t1)) with (cap t1). lia.
Qed.
End Resize.
