(* ===== verification/LjTabWalk.v ===== *)
(** * Traversal and length *)

From stdpp Require Import base option strings countable gmap list.
From Stdlib Require Import ZArith Lia SpecFloat.
From S2P Require Import Prelude Number LuaApi LjStr LjTab LjTabKeys LjTabChain LjTabFind LjTabOk LjTabPairs.

Local Open Scope nat_scope.
Local Open Scope prog_scope.

(** ** The pairs after a slot *)

Lemma next_array_pairs vs : forall i, next_array vs i = head (arr_pairs i vs).
Proof. induction vs as [|v vs IH]; intros i; simpl; [done|]. destruct (is_nil v); [apply IH|done]. Qed.

Lemma next_node_pairs ns : next_node ns = head (node_pairs ns).
Proof. induction ns as [|n ns IH]; simpl; [done|]. by destruct (is_nil (n_val n)). Qed.

Lemma node_pairs_app ns ms : node_pairs (ns ++ ms) = node_pairs ns ++ node_pairs ms.
Proof. induction ns as [|n ns IH]; simpl; [done|]. destruct (is_nil (n_val n)); simpl; by rewrite IH. Qed.

Lemma head_app {A} (l l' : list A) : head (l ++ l') = match head l with Some x => Some x | None => head l' end.
Proof. by destruct l. Qed.

(** The pairs of the slots after [s]. *)
Definition after (t : ltab) (s : slot) : list pair :=
  match s with
  | ASlot i => arr_pairs (S i) (drop (S i) (array t)) ++ node_pairs (nodes t)
  | NSlot i => node_pairs (drop (S i) (nodes t))
  end.

Definition upto (t : ltab) (s : slot) : list pair :=
  match s with
  | ASlot i => arr_pairs 0 (take i (array t))
  | NSlot i => arr_pairs 0 (array t) ++ node_pairs (take i (nodes t))
  end.

Definition one_pair (k v : tvalue) : list pair := if is_nil v then [] else [(k, v)].

Lemma pairs_at t s k v : slot_at t s k v -> pairs t = upto t s ++ one_pair k v ++ after t s.
Proof.
  unfold pairs, one_pair. destruct s as [i|i]; simpl.
  - intros [-> Hi]. pose proof (lookup_lt_Some _ _ _ Hi). rewrite <- (take_drop i (array t)) at 1.
    rewrite arr_pairs_app, length_take, Nat.min_l by lia. rewrite (drop_S _ _ _ Hi). simpl.
    destruct (is_nil v); simpl; by rewrite <- !app_assoc.
  - intros (nd & Hi & <- & <- & _). rewrite <- (take_drop i (nodes t)) at 1.
    rewrite node_pairs_app, (drop_S _ _ _ Hi). simpl. destruct (is_nil (n_val nd)); by rewrite <- !app_assoc.
Qed.

(** A key is in one place of a list without repetition. *)
Lemma split_uniq (l1 l2 l1' l2' : list pair) k v v' : NoDup (l1 ++ (k, v) :: l2).*1 ->
  l1 ++ (k, v) :: l2 = l1' ++ (k, v') :: l2' -> l1 = l1' /\ v = v' /\ l2 = l2'.
Proof.
  revert l1'. induction l1 as [|x l1 IH]; intros [|y l1'] Hnd E; simpl in *; injection E as E1 E2.
  - done.
  - apply NoDup_cons in Hnd as [Hk _]. destruct Hk. subst y l2. rewrite fmap_app. simpl. set_solver.
  - apply NoDup_cons in Hnd as [Hk _]. destruct Hk. subst x. rewrite fmap_app. simpl. set_solver.
  - subst y. apply NoDup_cons in Hnd as [_ Hnd]. destruct (IH l1' Hnd E2) as (-> & -> & ->). done.
Qed.

(** Another value, or nil, leaves the other pairs where they are. *)
Lemma copyTV_pairs t t' s k v w : slot_at t s k v -> copyTV s w t = Ret tt t' ->
  pairs t' = upto t s ++ one_pair k w ++ after t s /\ after t' s = after t s /\ slot_at t' s k w.
Proof.
  intros Hs Hr. assert (slot_at t' s k w /\ upto t' s = upto t s /\ after t' s = after t s) as (Hs' & E1 & E2).
  { destruct s as [i|i].
    - destruct Hs as [-> Hi]. pose proof (lookup_lt_Some _ _ _ Hi) as Hlt. cbn [copyTV] in Hr.
      change (bind get ?f t) with (f t t) in Hr. cbv beta in Hr. rewrite decide_True in Hr by done.
      injection Hr as <-. split_and!; simpl.
      + split; [done|by apply list_lookup_insert_eq].
      + by rewrite take_insert_ge.
      + by rewrite drop_insert_lt by lia.
    - destruct Hs as (nd & Hi & <- & <- & Hk). pose proof (lookup_lt_Some _ _ _ Hi) as Hlt.
      cbn [copyTV] in Hr. rewrite (put_node_run t i nd _ Hi) in Hr. injection Hr as <-. split_and!; simpl.
      + eexists. split; [by apply list_lookup_insert_eq|done].
      + by rewrite take_insert_ge.
      + by rewrite drop_insert_lt by lia. }
  split; [|done]. rewrite (pairs_at t' s k w Hs'). by rewrite E1, E2.
Qed.
Section Walk.
Context (gcrefu key_hi : tvalue -> Z).
Implicit Types (t : ltab) (cs : list (list nat)) (m : gmap tvalue tvalue).

Abbreviation tab_ok := (tab_ok gcrefu).

(** ** The index of a key *)

Definition slot_index t (s : slot) : nat := match s with ASlot i => i | NSlot i => asize t + i end.

Definition array_key t (k : tvalue) : option nat :=
  match k with
  | TNum n =>
      let z := lj_num2int n in
      if inarray t z && num_eqb n (num_of_Z z) then Some (Z.to_nat (u32 z)) else None
  | _ => None
  end.

Lemma array_key_ix t k : array_key t k = arr_ix (asize t) k.
Proof.
  destruct k as [| | |n| | | | |]; try done. cbn [array_key arr_ix]. unfold num_int, inarray.
  destruct (num_eqb _ _); [by rewrite andb_true_r|by rewrite andb_false_r].
Qed.

Lemma keyindex_unfold t k : k <> TNil -> keyindex gcrefu key_hi k t =
  match array_key t k with
  | Some i => Ret (Some i) t
  | None => (n <- search (fun kk => lj_obj_equal kk k) (hashkey gcrefu t k) ;;
      match n with
      | Some i => ret (Some (asize t + i))
      | None => if (key_hi k =? 0xfffe7fff)%Z then
          let i := u32 (gcrefu k - 1) in ret (if (i =? UINT_MAX)%Z then None else Some (Z.to_nat i))
        else raise LJ_ERR_NEXTIDX
      end) t
  end.
Proof. intros Hk. unfold keyindex. change (bind get ?f t) with (f t t). cbv beta zeta. destruct k; try done. by destruct (array_key t (TNum n)) eqn:E; unfold array_key in E; rewrite E. Qed.

Lemma keyindex_slot t cs k s v : tab_ok t cs -> k <> TNil -> k <> TNum S754_nan -> slot_at t s (norm_key k) v ->
  keyindex gcrefu key_hi k t = Ret (Some (slot_index t s)) t.
Proof.
  intros H Hn Hnan Hs. rewrite keyindex_unfold, array_key_ix by done. destruct (arr_ix (asize t) k) as [i|] eqn:E.
  - apply arr_ix_Some in E as [Hi Ek]; [|apply H]. rewrite Ek in Hs.
    destruct (lookup_lt_is_Some_2 (array t) i) as [w Hw]; [by rewrite (tk_array _ _ _ H)|].
    by destruct (slot_uniq gcrefu t cs s (ASlot i) _ v w H Hs (conj eq_refl Hw)) as [-> _].
  - destruct (gensearch_run gcrefu t cs k H Hn Hnan) as (r & Hr & Hc). rewrite (bind_step _ _ _ _ _ Hr).
    destruct r as [i|].
    + destruct Hc as [w Hc]. by destruct (slot_uniq gcrefu t cs s (NSlot i) _ v w H Hs Hc) as [-> _].
    + destruct (slot_none gcrefu t cs s (norm_key k) v H); [|done]. split; [by rewrite arr_ix_norm|done].
Qed.

Lemma keyindex_none t cs k : tab_ok t cs -> k <> TNil -> key_hi k <> 0xfffe7fff%Z ->
  (k = TNum S754_nan \/ key_out t (norm_key k)) -> keyindex gcrefu key_hi k t = Raise LJ_ERR_NEXTIDX t.
Proof.
  intros H Hn Hhi Hout. rewrite keyindex_unfold, array_key_ix by done.
  assert (arr_ix (asize t) k = None) as -> by (destruct Hout as [->|[Ha _]]; [done|by rewrite arr_ix_norm in Ha]).
  assert (search (fun kk => lj_obj_equal kk k) (hashkey gcrefu t k) t = Ret None t) as Hr.
  { destruct (decide (k = TNum S754_nan)) as [->|Hnan]; [by apply (nansearch_run gcrefu t cs)|].
    destruct (gensearch_run gcrefu t cs k H Hn Hnan) as ([i|] & Hr & Hc); [|done].
    destruct Hout as [?|Hout]; [done|]. destruct Hc as [w Hc]. by destruct (slot_none gcrefu t cs _ _ _ H Hout Hc). }
  rewrite (bind_step _ _ _ _ _ Hr). apply Z.eqb_neq in Hhi. by rewrite Hhi.
Qed.

(** The traversal goes on after the slot of the key. *)
Lemma lj_tab_next_slot t cs k s v : tab_ok t cs -> k <> TNil -> k <> TNum S754_nan -> slot_at t s (norm_key k) v ->
  lj_tab_next gcrefu key_hi k t = Ret (head (after t s)) t.
Proof.
  intros H Hn Hnan Hs. unfold lj_tab_next. rewrite (bind_step _ _ _ _ _ (keyindex_slot t cs k s v H Hn Hnan Hs)).
  change (bind get ?f t) with (f t t). cbv beta zeta. pose proof (tk_array _ _ _ H) as Hl.
  rewrite take_ge by lia. rewrite next_array_pairs, next_node_pairs. destruct s as [i|i]; cbn [slot_index after].
  - destruct Hs as [_ Hi%lookup_lt_Some]. rewrite head_app.
    replace (Nat.max (S i) (asize t) - asize t) with 0 by lia. by destruct (head _).
  - rewrite (drop_ge (array t)) by lia. cbn [arr_pairs head]. by replace (Nat.max (S (asize t + i)) (asize t) - asize t) with (S i) by lia.
Qed.

Lemma lj_tab_next_start t cs : tab_ok t cs -> lj_tab_next gcrefu key_hi TNil t = Ret (head (pairs t)) t.
Proof.
  intros H. unfold lj_tab_next. erewrite bind_step by done. change (bind get ?f t) with (f t t). cbv beta zeta.
  rewrite drop_0, take_ge by (by rewrite (tk_array _ _ _ H)). rewrite next_array_pairs, next_node_pairs, Nat.max_0_l, Nat.sub_diag.
  unfold pairs. rewrite head_app. by destruct (head _).
Qed.

Lemma lj_tab_next_pair t cs l1 k v l2 : tab_ok t cs -> pairs t = l1 ++ (k, v) :: l2 ->
  lj_tab_next gcrefu key_hi k t = Ret (head l2) t.
Proof.
  intros H E. assert (tab_has t k v) as [Hv [s Hs]].
  { apply (pairs_has gcrefu t cs k v H). rewrite E. set_solver. }
  pose proof (slot_good gcrefu t cs s k v H Hs) as (Hk1 & Hk2 & Hk3). rewrite <- Hk3 in Hs.
  rewrite (lj_tab_next_slot t cs k s v H Hk1 Hk2 Hs). rewrite Hk3 in Hs.
  pose proof (pairs_at t s k v Hs) as E2. unfold one_pair in E2. rewrite (proj2 (is_nil_false v) Hv) in E2.
  pose proof (pairs_nodup gcrefu t cs H) as Hnd. rewrite E in Hnd, E2.
  by destruct (split_uniq _ _ _ _ _ _ _ Hnd E2) as (_ & _ & ->).
Qed.
End Walk.
