(* ===== verification/LjTabLen.v ===== *)
(** * The length of a table

    The searches of [lj_tab_len] end at a border: an index that is zero or in
    use, with the one after it free. *)

From stdpp Require Import base option strings countable gmap list.
From Stdlib Require Import ZArith Lia SpecFloat.
From S2P Require Import Prelude Number LuaApi LjStr LjTab LjTabKeys LjTabChain LjTabFind LjTabOk LjTabPairs.

Local Open Scope Z_scope.
Local Open Scope prog_scope.

Implicit Types (t : ltab) (m : gmap tvalue tvalue).

(** The index [i] is in use. *)
Definition present m (i : Z) : bool := bool_decide (is_Some (m !! int_key i)).

Definition border m (n : Z) : Prop := 0 <= n /\ (n = 0 \/ present m n = true) /\ present m (n + 1) = false.

Lemma binary_search_run (q : Z -> tprog bool) (p : Z -> bool) (base : Z) t : forall fuel i j,
  0 <= i < j -> j <= 2 ^ 31 -> j - i <= 2 ^ Z.of_nat fuel ->
  (forall x, i < x < j -> q x t = Ret (p x) t) -> (i = base \/ p i = true) -> p j = false ->
  exists r, binary_search (S fuel) q i j t = Ret r t /\ i <= r < j /\ (r = base \/ p r = true) /\ p (r + 1) = false.
Proof.
  induction fuel as [|fuel IH]; intros i j Hij Hmax Hd Hq Hi Hj; cbn [binary_search]; destruct (Z.ltb_spec 1 (j - i)) as [Hlt|Hge].
  - simpl in Hd. lia.
  - exists i. split_and!; try done; [lia|]. by replace (i + 1) with j by lia.
  - assert (u32 (i + j) / 2 = (i + j) / 2) as -> by (rewrite wrap_u_small; [done|change (2 ^ 32) with (2 * 2 ^ 31); lia]). set (x := (i + j) / 2).
    assert (i < x < j) as Hx by (unfold x; lia). rewrite Nat2Z.inj_succ, Z.pow_succ_r in Hd by lia.
    assert (x - i <= 2 ^ Z.of_nat fuel /\ j - x <= 2 ^ Z.of_nat fuel) as [H1 H2].
    { unfold x. generalize dependent (2 ^ Z.of_nat fuel). intros. lia. }
    rewrite (bind_step _ _ _ _ _ (Hq x Hx)). destruct (p x) eqn:E.
    + destruct (IH x j) as (r & ? & ? & ? & ?); [lia|lia|done|intros; apply Hq; lia|by right|done|]. exists r. split_and!; try done; lia.
    + destruct (IH i x) as (r & ? & ? & ? & ?); [lia|lia|done|intros; apply Hq; lia|done|done|]. exists r. split_and!; try done; lia.
  - exists i. split_and!; try done; [lia|]. by replace (i + 1) with j by lia.
Qed.

(** Indices in use are at most as many as the pairs. *)
Lemma present_bound m (n : nat) : Z.of_nat n <= INT_MAX ->
  (forall i, 1 <= i <= Z.of_nat n -> present m i = true) -> (n <= size m)%nat.
Proof.
  intros Hn Hp. set (l := (fun i => int_key (Z.of_nat i)) <$> seq 1 n).
  assert (NoDup l) as Hnd.
  { apply NoDup_fmap_2_strong; [|apply NoDup_seq]. intros i j Hi%elem_of_seq Hj%elem_of_seq E.
    apply ikey_inj in E; unfold int32, INT_MIN, INT_MAX in *; lia. }
  rewrite <- size_dom, <- (length_seq n 1). rewrite <- (length_fmap (fun i => int_key (Z.of_nat i))). fold l.
  rewrite <- (size_list_to_set (C := gset tvalue) l Hnd). apply subseteq_size. intros k Hk%elem_of_list_to_set.
  apply list_elem_of_fmap in Hk as (i & -> & Hi%elem_of_seq). apply elem_of_dom.
  apply (bool_decide_eq_true _), (Hp (Z.of_nat i)). lia.
Qed.

Section Len.
Context (gcrefu : tvalue -> Z).
Abbreviation tab_ok := (tab_ok gcrefu).

Lemma int_key_lookup m k : int32 k -> i32 k = k.
Proof. intros [H1 H2]. apply wrap_s_small; [lia|]. unfold INT_MIN, INT_MAX in *. simpl. lia. Qed.

Lemma lj_tab_getint_run t cs m k : tab_ok t cs -> holds t m -> int32 k ->
  exists r, lj_tab_getint k t = Ret r t /\ default TNil r = default TNil (m !! int_key k).
Proof.
  intros H Hm Hk. unfold lj_tab_getint. change (bind get ?f t) with (f t t). cbv beta.
  pose proof (inarray_run gcrefu t cs k H Hk) as Hin. destruct (inarray t k) eqn:E.
  - destruct Hin as (i & v & -> & -> & Hi). exists (Some v). rewrite Hi. split; [done|]. symmetry.
    by eapply (slot_lookup gcrefu t cs m (ASlot i)).
  - destruct (getinth_run gcrefu t cs k H Hk) as (r & Hr & Hc). rewrite (bind_step _ _ _ _ _ Hr). destruct r as [i|].
    + destruct Hc as [v Hc]. pose proof (slot_lookup gcrefu t cs m _ _ _ H Hm Hc) as Hv.
      destruct Hc as (nd & Hi & _ & Ev & _). exists (Some v). unfold val_of.
      rewrite (bind_step _ _ _ _ _ (get_node_run t i nd Hi)). by rewrite Ev.
    + exists None. split; [done|]. by rewrite (out_lookup gcrefu t cs m (int_key k) H Hm (conj Hin Hc)).
Qed.

Lemma getint_nonnil_run t cs m k : tab_ok t cs -> holds t m -> int32 k -> getint_nonnil k t = Ret (present m k) t.
Proof.
  intros H Hm Hk. unfold getint_nonnil. rewrite (int_key_lookup m k Hk).
  destruct (lj_tab_getint_run t cs m k H Hm Hk) as (r & Hr & E). rewrite (bind_step _ _ _ _ _ Hr), E.
  unfold ret, present. f_equal. destruct (m !! int_key k) as [v|] eqn:El; cbn [from_option id].
  - rewrite bool_decide_true by done. destruct (holds_good gcrefu t cs m _ v H Hm El) as [_ Hv].
    by rewrite (proj2 (is_nil_false v) Hv).
  - by rewrite bool_decide_false by by intros [? ?].
Qed.

Lemma linear_search_run t cs m : tab_ok t cs -> holds t m -> forall fuel i,
  1 <= i -> i + Z.of_nat fuel <= INT_MAX -> (forall x, 1 <= x < i -> present m x = true) ->
  Z.of_nat (size m) + 1 < i + Z.of_nat fuel ->
  exists r, linear_search fuel i t = Ret r t /\ border m r.
Proof.
  intros H Hm. induction fuel as [|fuel IH]; intros i Hi Hmax Hp Hf; cbn [linear_search].
  - pose proof (present_bound m (Z.to_nat (i - 1))) as Hb. unfold INT_MAX in *.
    rewrite Z2Nat.id in Hb by lia. specialize (Hb ltac:(lia) ltac:(intros; apply Hp; lia)). lia.
  - unfold INT_MAX in *. assert (int32 i) as Hi32 by (unfold int32, INT_MIN, INT_MAX; lia).
    rewrite (bind_step _ _ _ _ _ (getint_nonnil_run t cs m i H Hm Hi32)). destruct (present m i) eqn:E.
    + rewrite wrap_u_small by (simpl; lia). apply IH; [lia|lia| |lia].
      intros x Hx. destruct (decide (x = i)) as [->|]; [done|]. apply Hp. lia.
    + exists (i - 1). rewrite wrap_u_small by (simpl; lia). split; [done|]. split; [lia|]. split.
      * destruct (decide (i = 1)) as [->|]; [by left|right; apply Hp; lia].
      * by replace (i - 1 + 1) with i by lia.
Qed.

Lemma unbound_loop_run t cs m lfuel : tab_ok t cs -> holds t m ->
  1 + Z.of_nat lfuel <= INT_MAX -> (size m < lfuel)%nat -> forall fuel i j,
  0 <= i < j -> j <= INT_MAX - 2 -> INT_MAX < j * 2 ^ Z.of_nat fuel -> (i = 0 \/ present m i = true) ->
  exists r, unbound_loop fuel lfuel i j t = Ret r t /\ border m r.
Proof.
  intros H Hm Hl Hs. unfold INT_MAX in *. induction fuel as [|fuel IH]; intros i j Hij Hj Hf Hi; [simpl in Hf; lia|].
  cbn [unbound_loop].
  assert (int32 j) as Hj32 by (unfold int32, INT_MIN, INT_MAX; lia).
  rewrite (bind_step _ _ _ _ _ (getint_nonnil_run t cs m j H Hm Hj32)). destruct (present m j) eqn:E.
  - cbv zeta. rewrite wrap_u_small by (simpl; lia). rewrite Nat2Z.inj_succ, Z.pow_succ_r in Hf by lia.
    destruct (Z.ltb_spec (INT_MAX - 2) (j * 2)) as [Hbig|Hsmall]; unfold INT_MAX in *.
    + apply (linear_search_run t cs m H Hm); unfold INT_MAX; lia.
    + apply IH; [lia|lia|lia|by right].
  - destruct (binary_search_run getint_nonnil (present m) 0 t 32 i j) as (r & Hr & ? & ? & ?).
    + done.
    + change (2 ^ 31) with 2147483648. lia.
    + change (2 ^ Z.of_nat 32) with 4294967296. lia.
    + intros x Hx. apply (getint_nonnil_run t cs m x H Hm). unfold int32, INT_MIN, INT_MAX. lia.
    + done.
    + done.
    + exists r. split; [done|]. split; [lia|done].
Qed.

Lemma slot_nonnil_run t cs m x : tab_ok t cs -> holds t m -> 1 <= x <= Z.of_nat (asize t) ->
  slot_nonnil x t = Ret (present m (x - 1)) t.
Proof.
  intros H Hm Hx. unfold slot_nonnil. change (bind get ?f t) with (f t t). cbv beta.
  destruct (lookup_lt_is_Some_2 (array t) (Z.to_nat (x - 1))) as [v Hv]; [rewrite (tk_array _ _ _ H); lia|].
  rewrite Hv. cbn [orfail]. rewrite bind_ret. unfold ret, present. f_equal.
  pose proof (slot_lookup gcrefu t cs m (ASlot (Z.to_nat (x - 1))) _ v H Hm (conj eq_refl Hv)) as E.
  rewrite Z2Nat.id in E by lia. destruct (m !! int_key (x - 1)) as [w|] eqn:El; cbn [from_option id] in E; subst.
  - rewrite bool_decide_true by done. by rewrite (proj2 (is_nil_false v) (proj2 (holds_good gcrefu t cs m _ v H Hm El))).
  - by rewrite bool_decide_false by by intros [? ?].
Qed.

Lemma lj_tab_len_run t cs m : tab_ok t cs -> holds t m ->
  exists n, lj_tab_len t = Ret n t /\ border m n.
Proof.
  intros H Hm. unfold lj_tab_len. change (bind get ?f t) with (f t t). cbv beta zeta.
  pose proof (tk_max _ _ _ H) as Hmax. unfold small in Hmax. change LJ_MAX_ASIZE with 134217729 in Hmax.
  assert ((if 1 <? Z.of_nat (asize t) then slot_nonnil (Z.of_nat (asize t)) else ret true) t =
    Ret (if 1 <? Z.of_nat (asize t) then present m (Z.of_nat (asize t) - 1) else true) t) as Hlast.
  { destruct (Z.ltb_spec 1 (Z.of_nat (asize t))); [|done]. apply (slot_nonnil_run t cs m); [done|done|lia]. }
  rewrite (bind_step _ _ _ _ _ Hlast). set (last := if 1 <? Z.of_nat (asize t) then present m (Z.of_nat (asize t) - 1) else true). destruct last eqn:El; cbn [negb].
  - set (j := if Z.of_nat (asize t) =? 0 then Z.of_nat (asize t) else Z.of_nat (asize t) - 1).
    assert (0 <= j /\ j <= Z.of_nat (asize t) /\ Z.of_nat (asize t) <= j + 1 /\ (j = 0 \/ present m j = true)) as (Hj1 & Hj2 & Hj3 & Hj).
    { unfold j, last in *. destruct (Z.ltb_spec 1 (Z.of_nat (asize t))), (Z.eqb_spec (Z.of_nat (asize t)) 0); split_and!; (lia || (by right) || (left; lia)). }
    destruct (Nat.eqb_spec (hmask t) 0) as [Hmask|Hmask].
    + exists j. split; [done|]. split; [done|]. split; [done|]. apply bool_decide_eq_false.
      destruct (hk_none _ _ _ (tk_hash _ _ _ H) Hmask) as [En _].
      rewrite (out_lookup gcrefu t cs m (int_key (j + 1)) H Hm); [by intros [? ?]|]. split.
      * destruct (arr_ix _ _) as [i|] eqn:Ei; [|done]. apply arr_ix_Some in Ei as [Hi Ek]; [|apply H].
        rewrite norm_ikey in Ek by (unfold int32, INT_MIN, INT_MAX; lia).
        apply ikey_inj in Ek; unfold int32, INT_MIN, INT_MAX; lia.
      * rewrite En. intros [|i] nd; [|done]. by intros [= <-].
    + unfold unbound_search. change (bind get ?f t) with (f t t). cbv beta. rewrite wrap_u_small by (simpl; lia).
      destruct (hk_mask _ _ _ (tk_hash _ _ _ H)) as (b & Hb & Eb).
      assert (Z.of_nat (length (nodes t)) <= 2 ^ 26) as Hnodes.
      { rewrite (hk_length _ _ _ (tk_hash _ _ _ H)), Eb. assert (2 ^ b <> 0)%nat by (by apply Nat.pow_nonzero).
        assert (2 ^ b <= 2 ^ LJ_MAX_HBITS)%nat as Hp by (apply Nat.pow_le_mono_r; lia).
        apply Nat2Z.inj_le in Hp. rewrite (Nat2Z.inj_pow 2 LJ_MAX_HBITS) in Hp. change (Z.of_nat LJ_MAX_HBITS) with 26 in Hp.
        change (Z.of_nat 2) with 2 in Hp. lia. }
      change (2 ^ 26) with 67108864 in Hnodes.
      apply (unbound_loop_run t cs m); try done; unfold INT_MAX; try lia.
      * rewrite (holds_size gcrefu t cs m H Hm). unfold pairs. rewrite length_app, arr_pairs_count.
        rewrite <- (tk_array _ _ _ H). pose proof (count_vals_le (array t)). pose proof (node_pairs_le (nodes t)). lia.
  - unfold last in El. destruct (Z.ltb_spec 1 (Z.of_nat (asize t))) as [Hlt|]; [|done].
    destruct (binary_search_run slot_nonnil (fun x => present m (x - 1)) 1 t 32 1 (Z.of_nat (asize t))) as (r & Hr & Hr1 & Hr2 & Hr3).
    + lia.
    + change (2 ^ 31) with 2147483648. lia.
    + change (2 ^ Z.of_nat 32) with 4294967296. lia.
    + intros x Hx. apply (slot_nonnil_run t cs m); [done|done|lia].
    + by left.
    + done.
    + rewrite (bind_step _ _ _ _ _ Hr). exists (r - 1). split; [done|]. split; [lia|]. split.
      * destruct Hr2 as [->|]; [by left|by right].
      * by replace (r - 1 + 1) with (r + 1 - 1) by lia.
Qed.
End Len.
