(* ===== verification/LjTabProps.v ===== *)
(** * What tables do

    A table of [LjTab] is the finite map that [LuaApi] takes it to be: getting
    and setting are lookup and update, whatever resizes happen on the way; a
    traversal visits every pair once, also when pairs are removed as it goes; the
    length is a border.  Every table the operations can reach is well formed. *)

From stdpp Require Import base option strings countable gmap list.
From Stdlib Require Import ZArith Lia SpecFloat.
From S2P Require Import Prelude Number LuaApi LjStr LjTab LjTabKeys LjTabChain LjTabFind LjTabOk LjTabPairs.
From S2P Require Import LjTabCount LjTabResize LjTabWalk LjTabLen.

Local Open Scope nat_scope.
Local Open Scope prog_scope.

Implicit Types (t : ltab) (m : gmap tvalue tvalue).

(** The table [t] is well formed and its pairs are those of [m]. *)
Definition tab_repr (gcrefu : tvalue -> Z) t m : Prop := (exists cs, tab_ok gcrefu t cs) /\ holds t m.

(** Fewer pairs than the largest hash part has nodes. *)
Definition fits m : Prop := (Z.of_nat (size m) < 2 ^ Z.of_nat LJ_MAX_HBITS)%Z.

(** What setting a key and storing a value under it does. *)
Definition tab_store (gcrefu : tvalue -> Z) (k v : tvalue) : tprog unit := s <- lj_tab_set gcrefu k ;; copyTV s v.

(** The tables the operations lead to, and the map each stands for. *)
Inductive tab_reach (gcrefu : tvalue -> Z) : ltab -> gmap tvalue tvalue -> Prop :=
  | reach_new a hbits t : lj_tab_new a hbits = Ret tt t -> tab_reach gcrefu t ∅
  | reach_store t m k v t' : tab_reach gcrefu t m -> fits m ->
      tab_store gcrefu k v t = Ret tt t' -> tab_reach gcrefu t' (mput (norm_key k) v m)
  | reach_raise t m k v e t' : tab_reach gcrefu t m -> fits m ->
      tab_store gcrefu k v t = Raise e t' -> tab_reach gcrefu t' m
  | reach_reasize t m n t' : tab_reach gcrefu t m -> asize t <= n + 1 ->
      lj_tab_reasize gcrefu n t = Ret tt t' -> tab_reach gcrefu t' m.

Section Props.
Context (gcrefu : tvalue -> Z).

(** ** Lemmas on whole tables *)

Lemma fits_nat m : fits m -> size m < 2 ^ LJ_MAX_HBITS.
Proof. unfold fits. intros H. apply Nat2Z.inj_lt. by rewrite Nat2Z.inj_pow. Qed.

Lemma get_run t m k : tab_repr gcrefu t m -> lj_tab_get gcrefu k t = Ret (default TNil (m !! norm_key k)) t.
Proof.
  intros [[cs H] Hm].
  assert (forall r, match r with
    | Some i => exists v, slot_at t (NSlot i) (norm_key k) v
    | None => absent (nodes t) (norm_key k) end -> arr_ix (asize t) (norm_key k) = None ->
    exists o, val_of r t = Ret o t /\ default TNil o = default TNil (m !! norm_key k)) as Hval.
  { intros [i|] Hr Ha; unfold val_of.
    - destruct Hr as [v Hr]. pose proof (slot_lookup gcrefu t cs m _ _ _ H Hm Hr) as E.
      destruct Hr as (nd & Hi & _ & Ev & _). exists (Some (n_val nd)). split; [|by rewrite E].
      by rewrite (bind_step _ _ _ _ _ (get_node_run t i nd Hi)).
    - exists None. split; [done|]. by rewrite (out_lookup gcrefu t cs m (norm_key k) H Hm (conj Ha Hr)). }
  assert (k <> TNil -> k <> TNum S754_nan -> arr_ix (asize t) (norm_key k) = None ->
    exists o, genlookup gcrefu k t = Ret o t /\ default TNil o = default TNil (m !! norm_key k)) as Hgen.
  { intros Hn Hnan Ha. destruct (gensearch_run gcrefu t cs k H Hn Hnan) as (r & Hr & Hc).
    unfold genlookup. change (bind get ?f t) with (f t t). cbv beta. rewrite (bind_step _ _ _ _ _ Hr). by apply Hval. }
  assert (exists o, match k with
       | TStr s => n <- lj_tab_getstr s ;; val_of n
       | TNum n => match num_int n with Some k => lj_tab_getint k | None => genlookup gcrefu k end
       | TNil => ret None
       | _ => genlookup gcrefu k
       end t = Ret o t /\ default TNil o = default TNil (m !! norm_key k)) as (o & Ho & E).
  2:{ unfold lj_tab_get. erewrite bind_step; [|exact Ho]. by rewrite <- E. }
  destruct k as [| | |n| | | | |]; try by apply Hgen.
  - exists None. split; [done|]. destruct (m !! norm_key TNil) eqn:E; [|done].
    by destruct (holds_good gcrefu t cs m _ _ H Hm E) as [[? _] _].
  - destruct (num_int n) as [z|] eqn:En.
    + destruct (num_int_Some _ _ En) as [Hz ->]. by apply (lj_tab_getint_run gcrefu t cs).
    + destruct (decide (n = S754_nan)) as [->|Hnan].
      * exists None. split.
        -- unfold genlookup. change (bind get ?f t) with (f t t). cbv beta.
           by rewrite (bind_step _ _ _ _ _ (nansearch_run gcrefu t cs H)).
        -- destruct (m !! norm_key (TNum S754_nan)) eqn:E; [|done].
           by destruct (holds_good gcrefu t cs m _ _ H Hm E) as [(_ & ? & _) _].
      * apply Hgen; [done|congruence|]. rewrite arr_ix_norm. cbn [arr_ix]. by rewrite En.
  - destruct (getstr_run gcrefu t cs s H) as (r & Hr & Hc). rewrite (bind_step _ _ _ _ _ Hr). by apply Hval.
Qed.

Lemma store_run_repr t m k v : tab_repr gcrefu t m -> fits m -> k <> TNil -> k <> TNum S754_nan ->
  exists t', tab_store gcrefu k v t = Ret tt t' /\ tab_repr gcrefu t' (mput (norm_key k) v m).
Proof.
  intros [[cs H] Hm] Hs%fits_nat Hn Hnan.
  destruct (lj_tab_set_run gcrefu t cs m k H Hm Hn Hnan Hs) as (s & v0 & t1 & cs1 & Hr & H1 & Hm1 & Hs1).
  destruct (copyTV_holds gcrefu t1 cs1 m s _ v0 v H1 Hm1 Hs1) as (t' & Hr' & H' & Hm' & _).
  exists t'. unfold tab_store. rewrite (bind_step _ _ _ _ _ Hr). split; [done|]. split; [by exists cs1|done].
Qed.

Lemma store_nil t v : tab_store gcrefu TNil v t = Raise LJ_ERR_NILIDX (set_nomm false t).
Proof. done. Qed.

Lemma store_nan t v : tab_store gcrefu (TNum S754_nan) v t = Raise LJ_ERR_NANIDX (set_nomm false t).
Proof. done. Qed.

Lemma nomm_repr t m b : tab_repr gcrefu t m -> tab_repr gcrefu (set_nomm b t) m.
Proof. intros [[cs H] Hm]. split; [exists cs; by apply nomm_ok|done]. Qed.

Lemma new_run a hbits : small a -> hbits <= LJ_MAX_HBITS ->
  lj_tab_new a hbits = Ret tt (emptied a hbits (Ltab true [] 0 [] 0 0)).
Proof.
  intros Ha Hb. unfold lj_tab_new. set (t := Ltab true [] 0 [nilnode] 0 0).
  assert ((if 0 <? a then if (LJ_MAX_ASIZE <? Z.of_nat a)%Z then raise LJ_ERR_TABOV
    else modify (set_array (replicate a TNil) a) else skip) t = Ret tt (set_array (replicate a TNil) a t)) as Hr.
  { destruct (Nat.ltb_spec 0 a); [|by replace a with 0 by lia]. unfold small in Ha.
    by destruct (Z.ltb_spec LJ_MAX_ASIZE (Z.of_nat a)); [lia|]. }
  erewrite bind_step; [|exact Hr]. unfold emptied, array_of. cbn [array length]. rewrite take_nil, Nat.sub_0_r.
  pose proof (hpart_run hbits (set_array (replicate a TNil) a t) Hb) as Hh.
  destruct (decide (hbits = 0)) as [->|]; [done|exact Hh].
Qed.

Lemma new_too_big a hbits : ~ (small a /\ hbits <= LJ_MAX_HBITS) -> exists t, lj_tab_new a hbits = Raise LJ_ERR_TABOV t.
Proof.
  intros Hd. assert (forall t, small a -> exists t', (if decide (hbits = 0) then skip else newhpart hbits) t = Raise LJ_ERR_TABOV t') as Hh.
  { intros t Ha. destruct (decide (hbits = 0)) as [->|]; [destruct Hd; split; [done|apply Nat.le_0_l]|].
    unfold newhpart. case_decide; [by eexists|]. destruct Hd. split; [done|lia]. }
  unfold lj_tab_new. unfold small in *. destruct (Nat.ltb_spec 0 a) as [Hpos|Hpos].
  - destruct (Z.ltb_spec LJ_MAX_ASIZE (Z.of_nat a)) as [|Ha]; [by eexists|]. erewrite bind_step by done. by apply Hh.
  - erewrite bind_step by done. apply Hh. by replace a with 0 by lia.
Qed.

Lemma new_repr a hbits : small a -> hbits <= LJ_MAX_HBITS ->
  tab_repr gcrefu (emptied a hbits (Ltab true [] 0 [] 0 0)) ∅.
Proof.
  intros Ha Hb. destruct (emptied_ok gcrefu a hbits (Ltab true [] 0 [] 0 0) Ha Hb) as [H Hm].
  split; [by exists []|]. cbn [array] in Hm. unfold array_of in Hm. rewrite take_nil, arr_pairs_app, arr_pairs_nil in Hm. exact Hm.
Qed.

Lemma reasize_bits t cs : tab_ok gcrefu t cs -> exists b, b <= LJ_MAX_HBITS /\ hmask t = 2 ^ b - 1 /\
  (if 0 <? hmask t then Nat.log2 (hmask t) + 1 else 0) = b.
Proof.
  intros H. destruct (hk_mask _ _ _ (tk_hash _ _ _ H)) as (b & Hb & E). exists b. split; [done|]. split; [done|].
  destruct b as [|b]; [by rewrite E|]. assert (2 ^ b <> 0) by (by apply Nat.pow_nonzero).
  assert (hmask t = Nat.pred (2 ^ S b)) as -> by (simpl in *; lia). rewrite Nat.log2_pred_pow2 by lia.
  destruct (Nat.ltb_spec 0 (Nat.pred (2 ^ S b))) as [|Hle]; [simpl; lia|]. simpl in Hle. lia.
Qed.

Lemma reasize_run t m n : tab_repr gcrefu t m -> asize t <= n + 1 -> small (n + 1) ->
  exists t', lj_tab_reasize gcrefu n t = Ret tt t' /\ tab_repr gcrefu t' m /\ asize t' = n + 1 /\ hmask t' = hmask t.
Proof.
  intros [[cs H] Hm] Hge Hs. unfold lj_tab_reasize. change (bind get ?f t) with (f t t). cbv beta.
  destruct (reasize_bits t cs H) as (b & Hb & Eb & ->).
  destruct (resizetab_run gcrefu 1 t cs m (n + 1) b H Hm Hs Hb) as (t' & cs' & Hr & H' & Hm' & Ea & Eh & _).
  - rewrite <- (hcap_cap t b Eb). unfold pairs. rewrite fmap_app, needs_app.
    assert (needs (n + 1) (arr_pairs 0 (array t)).*1 = 0) as ->.
    { pose proof (needs_count (n + 1) (arr_pairs 0 (array t)).*1) as Hc. rewrite count_all in Hc; [lia|].
      intros k ([k' v] & -> & (_ & j & Hj & ->)%arr_pairs_elem)%list_elem_of_fmap. simpl. exists j.
      apply lookup_lt_Some in Hj. rewrite (tk_array _ _ _ H) in Hj. apply arr_ix_int; [done|lia]. }
    pose proof (needs_count (n + 1) (node_pairs (nodes t)).*1) as Hc. rewrite length_fmap in Hc.
    pose proof (node_pairs_le (nodes t)) as Hle. rewrite (hk_length _ _ _ (tk_hash _ _ _ H)) in Hle.
    unfold cap. case_decide as Hz; [|lia]. destruct (hk_none _ _ _ (tk_hash _ _ _ H) Hz) as [E _].
    by rewrite E.
  - exists t'. split; [done|]. split; [split; [by exists cs'|done]|]. by rewrite Ea, Eh, Eb.
Qed.

Lemma reasize_too_big t n : (LJ_MAX_ASIZE < Z.of_nat (n + 1))%Z -> asize t <= n ->
  lj_tab_reasize gcrefu n t = Raise LJ_ERR_TABOV t.
Proof.
  intros Hbig Hlt. unfold lj_tab_reasize, resizetab, resizetab_with. repeat (change (bind get ?f t) with (f t t); cbv beta).
  rewrite bool_decide_true by lia. destruct (Z.ltb_spec LJ_MAX_ASIZE (Z.of_nat (n + 1))); [done|lia].
Qed.

(** Storing under a key that has a pair. *)
Lemma restore_run key_hi t cs l1 k v l2 w : tab_ok gcrefu t cs -> pairs t = l1 ++ (k, v) :: l2 ->
  exists t', tab_store gcrefu k w t = Ret tt t' /\ pairs t' = l1 ++ one_pair k w ++ l2 /\
    lj_tab_next gcrefu key_hi k t' = Ret (head l2) t'.
Proof.
  intros H E. assert (tab_has t k v) as [Hv [s Hs]] by (apply (pairs_has gcrefu t cs k v H); rewrite E; set_solver).
  destruct (slot_good gcrefu t cs s k v H Hs) as (Hk1 & Hk2 & Hk3).
  assert (l1 = upto t s /\ l2 = after t s) as [-> ->].
  { pose proof (pairs_at t s k v Hs) as E2. unfold one_pair in E2. rewrite (proj2 (is_nil_false v) Hv) in E2.
    pose proof (pairs_nodup gcrefu t cs H) as Hnd. rewrite E in Hnd, E2.
    by destruct (split_uniq _ _ _ _ _ _ _ Hnd E2) as (-> & _ & ->). }
  destruct (set_with_lookup gcrefu (lj_tab_newkey gcrefu) t cs k H Hk1 Hk2) as [(s' & v' & Hs' & Hr)|[Hout _]]; rewrite Hk3 in *;
    [|by destruct (slot_none gcrefu t cs s k v H Hout Hs)].
  destruct (slot_uniq gcrefu t cs s' s k v' v H Hs' Hs) as [-> ->]. set (t0 := set_nomm false t) in *.
  destruct (copyTV_run gcrefu t0 cs s k v w (nomm_ok gcrefu t cs false H) Hs) as (t' & Hr' & H' & _).
  destruct (copyTV_pairs t0 t' s k v w Hs Hr') as (E1 & E2 & Hs2). exists t'. split; [|split; [exact E1|]].
  - unfold tab_store, lj_tab_set. by rewrite (bind_step _ _ _ _ _ Hr).
  - rewrite <- Hk3 in Hs2. rewrite (lj_tab_next_slot gcrefu key_hi t' cs k s w H' Hk1 Hk2 Hs2). by rewrite E2.
Qed.

End Props.

Lemma border_unique m n len : border m n -> (0 <= len)%Z ->
  (forall i, (1 <= i)%Z -> present m i = true <-> (i <= len)%Z) -> n = len.
Proof.
  intros (Hn & Hb & Hf) Hlen Hp.
  assert (~ (n + 1 <= len)%Z) by (intros Hle%Hp; [congruence|lia]).
  destruct Hb as [->|Hb]; [lia|]. destruct (decide (n = 0)%Z) as [->|]; [lia|]. apply Hp in Hb; lia.
Qed.


(** ** The theorems *)

(** C18 A table is read as the map it stands for: for every key, also nil and NaN,
    [lj_tab_get] ends, finds what [tab_get] finds, and leaves the table as it was. *)
Theorem lj_tab_get_correct gcrefu V (g : gctab V) t k : tab_repr gcrefu t (hash g) ->
  lj_tab_get gcrefu k t = Ret (tab_get g k) t.
Proof. intros H. by rewrite (get_run gcrefu t (hash g) k H). Qed.

(** C17 Storing a value under a key ends, and gives a well-formed table that
    stands for the updated map, whether the key is there, is added where there is
    room, moves another key out of its main position, or makes the table resize.
    Nil and NaN are refused, and the table keeps its pairs. *)
Theorem lj_tab_set_correct gcrefu V (g : gctab V) t k v : tab_repr gcrefu t (hash g) -> fits (hash g) ->
  match k with
  | TNil => tab_store gcrefu k v t = Raise LJ_ERR_NILIDX (set_nomm false t)
  | TNum S754_nan => tab_store gcrefu k v t = Raise LJ_ERR_NANIDX (set_nomm false t)
  | _ => exists t', tab_store gcrefu k v t = Ret tt t' /\ tab_repr gcrefu t' (hash (tab_put k v g))
  end.
Proof.
  intros H Hs. assert (hash (tab_put k v g) = mput (norm_key k) v (hash g)) as E
    by (unfold tab_put, mput; by case_decide).
  pose proof (store_run_repr gcrefu t (hash g) k v H Hs) as Hst. rewrite E.
  destruct k as [| | |[]| | | | |]; try (by apply Hst); done.
Qed.

(** C19 Every table that creation, stores (also refused ones) and growing the
    array lead to is well formed: its chains are acyclic and disjoint, each key is
    stored once, where its hash or its index says, and is not nil, NaN or [-0.0];
    and it stands for the map these operations make. *)
Theorem tab_reach_ok gcrefu t m : tab_reach gcrefu t m -> tab_repr gcrefu t m.
Proof.
  induction 1 as [a hbits t Hr|t m k v t' _ IH Hs Hr|t m k v e t' _ IH Hs Hr|t m n t' _ IH Hge Hr].
  - assert (small a /\ hbits <= LJ_MAX_HBITS) as [Ha Hb].
    { unfold lj_tab_new in Hr. apply bind_Ret_inv in Hr as ([] & t1 & Hr1 & Hr2). split.
      - unfold small. destruct (Nat.ltb_spec 0 a); [|by replace a with 0 by lia].
        destruct (Z.ltb_spec LJ_MAX_ASIZE (Z.of_nat a)); [done|lia].
      - case_decide as Hz; [subst; apply Nat.le_0_l|]. unfold newhpart in Hr2. case_decide; [done|lia]. }
    rewrite (new_run a hbits Ha Hb) in Hr. injection Hr as <-. by apply new_repr.
  - destruct (decide (k = TNil)) as [->|Hn]; [done|]. destruct (decide (k = TNum S754_nan)) as [->|Hnan]; [done|].
    destruct (store_run_repr gcrefu t m k v IH Hs Hn Hnan) as (t2 & Hr2 & Hrep). rewrite Hr in Hr2. by injection Hr2 as ->.
  - destruct (decide (k = TNil)) as [->|Hn]; [injection Hr as <- <-; by apply nomm_repr|].
    destruct (decide (k = TNum S754_nan)) as [->|Hnan]; [injection Hr as <- <-; by apply nomm_repr|].
    destruct (store_run_repr gcrefu t m k v IH Hs Hn Hnan) as (t2 & Hr2 & _). congruence.
  - assert (small (n + 1)) as Hsm.
    { unfold small. destruct (decide (Z.of_nat (n + 1) <= LJ_MAX_ASIZE)%Z) as [|Hbig]; [done|].
      pose proof IH as [[cs H] _]. pose proof (tk_max _ _ _ H) as Hmax. unfold small in Hmax.
      rewrite (reasize_too_big gcrefu t n) in Hr by lia. done. }
    destruct (reasize_run gcrefu t m n IH Hge Hsm) as (t2 & Hr2 & Hrep & _). rewrite Hr in Hr2. by injection Hr2 as ->.
Qed.

(** C21 A traversal with [lj_tab_next] visits each pair of the table once: the
    pairs have an order in which nil gives the first one, the key of a pair gives
    the pair after it, and the last key ends the traversal.  A key that has no slot
    is an error. *)
Theorem lj_tab_next_correct gcrefu key_hi t m : tab_repr gcrefu t m ->
  (exists l, l ≡ₚ map_to_list m /\ lj_tab_next gcrefu key_hi TNil t = Ret (head l) t /\
    forall l1 k v l2, l = l1 ++ (k, v) :: l2 -> lj_tab_next gcrefu key_hi k t = Ret (head l2) t) /\
  forall k, k <> TNil -> key_hi k <> 0xfffe7fff%Z -> k = TNum S754_nan \/ key_out t (norm_key k) ->
    lj_tab_next gcrefu key_hi k t = Raise LJ_ERR_NEXTIDX t.
Proof.
  intros [[cs H] Hm]. split.
  - exists (pairs t). split_and!.
    + rewrite (proj1 (holds_pairs gcrefu t cs m H) Hm). rewrite map_to_list_to_map; [done|]. by apply (pairs_nodup gcrefu t cs).
    + by apply (lj_tab_next_start gcrefu key_hi t cs H).
    + intros l1 k v l2 E. by apply (lj_tab_next_pair gcrefu key_hi t cs l1 k v l2).
  - intros k Hn Hhi Hout. unfold lj_tab_next, bind. by rewrite (keyindex_none gcrefu key_hi t cs k H).
Qed.

(** C24 The pair a traversal is at may be changed or removed: the other pairs keep
    their places, and the traversal goes on with the pair that was after it. *)
Theorem lj_tab_next_remove gcrefu key_hi t m l1 k v l2 w : tab_repr gcrefu t m -> pairs t = l1 ++ (k, v) :: l2 ->
  exists t', tab_store gcrefu k w t = Ret tt t' /\ pairs t' = l1 ++ one_pair k w ++ l2 /\
    lj_tab_next gcrefu key_hi k t' = Ret (head l2) t'.
Proof. intros [[cs H] Hm]. by apply (restore_run gcrefu key_hi t cs l1 k v l2 w H). Qed.

(** C22 The length of a table is a border, found by searches that end: it is zero
    or an index in use, and the index after it is not; when the indices in use are
    those up to some length, it is that length. *)
Theorem lj_tab_len_border gcrefu t m : tab_repr gcrefu t m ->
  exists n, lj_tab_len t = Ret n t /\ border m n /\
    forall len, (0 <= len)%Z -> (forall i, (1 <= i)%Z -> present m i = true <-> (i <= len)%Z) -> n = len.
Proof.
  intros [[cs H] Hm]. destruct (lj_tab_len_run gcrefu t cs m H Hm) as (n & Hr & Hb). exists n.
  split_and!; [done..|]. intros len. by apply border_unique.
Qed.

(** A new table is empty and has parts of the sizes asked for, and growing the
    array of a table keeps its pairs; a size above the limits is refused, a growth
    before the table changes. *)
Theorem tab_sizes_correct gcrefu :
  (forall a hbits, if decide (small a /\ hbits <= LJ_MAX_HBITS)
    then exists t, lj_tab_new a hbits = Ret tt t /\ tab_repr gcrefu t ∅ /\ asize t = a /\ hmask t = 2 ^ hbits - 1
    else exists t, lj_tab_new a hbits = Raise LJ_ERR_TABOV t) /\
  forall t m n, tab_repr gcrefu t m -> asize t <= n + 1 ->
    if decide (small (n + 1))
    then exists t', lj_tab_reasize gcrefu n t = Ret tt t' /\ tab_repr gcrefu t' m /\ asize t' = n + 1 /\ hmask t' = hmask t
    else lj_tab_reasize gcrefu n t = Raise LJ_ERR_TABOV t.
Proof.
  split.
  - intros a hbits. case_decide as Hd.
    + destruct Hd as [Ha Hb]. rewrite new_run by done. eexists. split; [done|]. split; [by apply new_repr|done].
    + by apply new_too_big.
  - intros t m n H Hge. case_decide as Hs; [by apply reasize_run|]. pose proof H as [[cs Hok] _].
    pose proof (tk_max _ _ _ Hok). unfold small in *. apply reasize_too_big; lia.
Qed.

(** C25 A resize that grows the array and is then refused its hash part leaves the
    array grown and the old hash part in place: the error is raised, and the integer
    keys of the hash part that the array now covers can no longer be found. *)
Theorem resize_refused_hides gcrefu t m a hbits i v : tab_repr gcrefu t m -> m !! int_key (Z.of_nat i) = Some v ->
  asize t <= i -> i < a -> small a -> LJ_MAX_HBITS < hbits ->
  exists t', resizetab gcrefu a hbits t = Raise LJ_ERR_TABOV t' /\ nodes t' = nodes t /\
    lj_tab_get gcrefu (int_key (Z.of_nat i)) t' = Ret TNil t'.
Proof.
  intros [[cs H] _] _ Hi Hlt Hs Hb. set (t' := set_array (array t ++ replicate (a - asize t) TNil) a t).
  pose proof (small_int32 a i Hs Hlt) as Hz. pose proof (tk_array _ _ _ H) as Hl. exists t'. split; [|split; [done|]].
  - unfold resizetab, resizetab_with. change (bind get ?f t) with (f t t). cbv beta.
    rewrite bool_decide_true by lia. unfold small in Hs. destruct (Z.ltb_spec LJ_MAX_ASIZE (Z.of_nat a)); [lia|].
    erewrite bind_step by done. rewrite take_ge by lia. fold t'. unfold bind at 1, newhpart.
    rewrite decide_False by lia. rewrite decide_True by done. unfold t'. by rewrite <- Hl, firstn_all.
  - unfold lj_tab_get, int_key. rewrite num_int_of_Z by done. unfold lj_tab_getint. rewrite bind_assoc.
    change (bind get ?f t') with (f t' t'). cbv beta. unfold inarray. rewrite u32_small by (done || lia).
    cbn [t' set_array asize array]. destruct (Z.ltb_spec (Z.of_nat i) (Z.of_nat a)); [|lia]. rewrite Nat2Z.id.
    rewrite lookup_app_r, lookup_replicate_2 by lia. done.
Qed.

(** ** A table of each shape *)

Definition demo_refu (v : tvalue) : Z := 4096.
Definition demo_hi (v : tvalue) : Z := 0.

(** Stores that fill the hash part, collide, and make the table resize. *)
Definition demo_stores : list pair :=
  [(TStr "name", TNum (num_of_Z 7)); (int_key 1, TStr "a"); (int_key 2, TStr "b"); (TBool true, TStr "yes");
   (TNum (S754_zero true), TStr "zero"); (int_key 3, TStr "c"); (TStr "nine", TBool false);
   (TTab 5, int_key 50); (TTab 6, int_key 60); (TTab 7, int_key 70)].

Fixpoint demo_run (l : list pair) : tprog unit :=
  match l with
  | [] => skip
  | (k, v) :: l => tab_store demo_refu k v ;;; demo_run l
  end.

Definition demo_tab : ltab := match demo_run demo_stores (Ltab true [] 0 [nilnode] 0 0) with Ret _ t => t | _ => Ltab true [] 0 [nilnode] 0 0 end.
Definition demo_map : gmap tvalue tvalue := foldl (fun m kv => mput (norm_key kv.1) kv.2 m) ∅ demo_stores.
Definition demo_gctab : gctab unit := GCtab demo_map None None None None None None.

Lemma demo_run_repr l : forall t m t', tab_repr demo_refu t m -> (Z.of_nat (size m + length l) < 2 ^ 26)%Z ->
  demo_run l t = Ret tt t' -> tab_repr demo_refu t' (foldl (fun m kv => mput (norm_key kv.1) kv.2 m) m l).
Proof.
  induction l as [|[k v] l IH]; intros t m t' H Hs Hr; [by injection Hr as <-|]. simpl in Hr, Hs.
  apply bind_Ret_inv in Hr as ([] & t1 & Hr1 & Hr).
  assert (tab_repr demo_refu t1 (mput (norm_key k) v m)) as H1.
  { destruct (decide (k = TNil)) as [->|Hn]; [done|]. destruct (decide (k = TNum S754_nan)) as [->|Hnan]; [done|].
    destruct (store_run_repr demo_refu t m k v H) as (t2 & Hr2 & Hrep); [|done|done|].
    - unfold fits. change (Z.of_nat LJ_MAX_HBITS) with 26%Z. lia.
    - rewrite Hr1 in Hr2. by injection Hr2 as ->. }
  apply (IH t1 _ t' H1); [|done]. assert (size (mput (norm_key k) v m) <= S (size m)) as Hsz.
  { unfold mput. case_decide; [rewrite map_size_delete|rewrite map_size_insert]; destruct (m !! norm_key k); simpl; lia. }
  lia.
Qed.

Lemma demo_repr : tab_repr demo_refu demo_tab demo_map.
Proof.
  apply (demo_run_repr demo_stores (Ltab true [] 0 [nilnode] 0 0) ∅).
  - apply (new_repr demo_refu 0 0); [unfold small; vm_compute; congruence|apply Nat.le_0_l].
  - vm_compute. congruence.
  - vm_compute. reflexivity.
Qed.

Lemma lj_tab_get_witness :
  lj_tab_get demo_refu (TTab 6) demo_tab = Ret (int_key 60) demo_tab /\
  lj_tab_get demo_refu (TNum (S754_zero true)) demo_tab = Ret (TStr "zero") demo_tab /\
  lj_tab_get demo_refu (TNum S754_nan) demo_tab = Ret TNil demo_tab.
Proof.
  split_and!.
  - rewrite (lj_tab_get_correct demo_refu unit demo_gctab demo_tab (TTab 6) demo_repr). by vm_compute.
  - rewrite (lj_tab_get_correct demo_refu unit demo_gctab demo_tab (TNum (S754_zero true)) demo_repr). by vm_compute.
  - rewrite (lj_tab_get_correct demo_refu unit demo_gctab demo_tab (TNum S754_nan) demo_repr). by vm_compute.
Defined.

Lemma demo_fits : fits demo_map.
Proof. by vm_compute. Qed.

Lemma lj_tab_set_witness :
  (exists t', tab_store demo_refu (TStr "new") (TBool true) demo_tab = Ret tt t' /\
    tab_repr demo_refu t' (<[TStr "new" := TBool true]> demo_map)) /\
  tab_store demo_refu (TNum S754_nan) (TBool true) demo_tab = Raise LJ_ERR_NANIDX (set_nomm false demo_tab).
Proof.
  split.
  - apply (lj_tab_set_correct demo_refu unit demo_gctab demo_tab (TStr "new") (TBool true) demo_repr demo_fits).
  - apply (lj_tab_set_correct demo_refu unit demo_gctab demo_tab (TNum S754_nan) (TBool true) demo_repr demo_fits).
Defined.

Lemma tab_reach_witness : exists t, tab_reach demo_refu t (mput (TBool true) (TStr "v") ∅) /\
  tab_repr demo_refu t (mput (TBool true) (TStr "v") ∅).
Proof.
  set (t0 := Ltab true [] 0 [nilnode] 0 0).
  destruct (tab_store demo_refu (TBool true) (TStr "v") t0) as [[] t| | |] eqn:Hr; try (by vm_compute in Hr).
  assert (tab_reach demo_refu t (mput (norm_key (TBool true)) (TStr "v") ∅)) as H.
  { apply (reach_store demo_refu t0 ∅); [by apply (reach_new demo_refu 0 0)|by vm_compute|done]. }
  exists t. split; [exact H|apply (tab_reach_ok demo_refu t _ H)].
Defined.

Lemma lj_tab_next_witness :
  (exists l, l ≡ₚ map_to_list demo_map /\ lj_tab_next demo_refu demo_hi TNil demo_tab = Ret (head l) demo_tab) /\
  lj_tab_next demo_refu demo_hi (TStr "absent") demo_tab = Raise LJ_ERR_NEXTIDX demo_tab.
Proof.
  pose proof (lj_tab_next_correct demo_refu demo_hi demo_tab demo_map demo_repr) as [(l & Hp & Hl & _) Hout].
  split; [exists l; split; [exact Hp|exact Hl]|]. apply Hout; [discriminate|discriminate|]. right. split; [by vm_compute|].
  intros i nd Hi. assert (Forall (fun nd => n_key nd <> TStr "absent") (nodes demo_tab)) as Hall.
  { apply (bool_decide_unpack _). by vm_compute. }
  by apply (Forall_lookup_1 _ _ _ _ Hall Hi).
Defined.

(** The pair of the key 2 is removed in the middle of a traversal. *)
Lemma lj_tab_next_remove_witness : exists t' l1 l2,
  pairs demo_tab = l1 ++ (int_key 2, TStr "b") :: l2 /\ tab_store demo_refu (int_key 2) TNil demo_tab = Ret tt t' /\
  pairs t' = l1 ++ l2 /\ lj_tab_next demo_refu demo_hi (int_key 2) t' = Ret (Some (int_key 3, TStr "c")) t'.
Proof.
  assert (pairs demo_tab = take 2 (pairs demo_tab) ++ (int_key 2, TStr "b") :: drop 3 (pairs demo_tab)) as E by by vm_compute.
  pose proof (lj_tab_next_remove demo_refu demo_hi demo_tab demo_map _ _ _ _ TNil demo_repr E) as (t' & Hr & Hp & Hn).
  exists t', (take 2 (pairs demo_tab)), (drop 3 (pairs demo_tab)). split; [exact E|]. split; [exact Hr|]. split; [exact Hp|].
  rewrite Hn. by vm_compute.
Defined.

Lemma lj_tab_len_witness : exists n, lj_tab_len demo_tab = Ret n demo_tab /\ border demo_map n.
Proof.
  pose proof (lj_tab_len_border demo_refu demo_tab demo_map demo_repr) as (n & Hr & Hb & _). exists n. split; [exact Hr|exact Hb].
Defined.

Lemma tab_sizes_witness : exists t', lj_tab_reasize demo_refu 9 demo_tab = Ret tt t' /\
  tab_repr demo_refu t' demo_map /\ asize t' = 10.
Proof.
  pose proof (tab_sizes_correct demo_refu) as [_ H]. specialize (H demo_tab demo_map 9 demo_repr ltac:(by apply Nat.leb_le)).
  rewrite decide_True in H by (unfold small; vm_compute; congruence). destruct H as (t' & Hr & Hrep & Ha & _).
  exists t'. split; [exact Hr|]. split; [exact Hrep|exact Ha].
Defined.

(** A hash part of more than [2^26] nodes is refused to a table with a key in its
    hash part that the new array has a slot for. *)
Definition hidden_tab : ltab :=
  match tab_store demo_refu (int_key 7) (TStr "hidden") (Ltab true [] 0 [nilnode] 0 0) with Ret _ t => t | _ => demo_tab end.

Lemma resize_refused_witness : exists t', resizetab demo_refu 9 27 hidden_tab = Raise LJ_ERR_TABOV t' /\
  lj_tab_get demo_refu (int_key 7) hidden_tab = Ret (TStr "hidden") hidden_tab /\
  lj_tab_get demo_refu (int_key 7) t' = Ret TNil t'.
Proof.
  assert (tab_repr demo_refu hidden_tab (mput (int_key 7) (TStr "hidden") ∅)) as H.
  { apply (demo_run_repr [(int_key 7, TStr "hidden")] (Ltab true [] 0 [nilnode] 0 0) ∅).
    - apply (new_repr demo_refu 0 0); [unfold small; vm_compute; congruence|apply Nat.le_0_l].
    - by vm_compute.
    - vm_compute. reflexivity. }
  assert (forall a b, (a <=? b) = true -> a <= b) as Hle by (intros a b; apply Nat.leb_le).
  assert (mput (int_key 7) (TStr "hidden") ∅ !! int_key (Z.of_nat 7) = Some (TStr "hidden")) as Hm by by vm_compute.
  assert (small 9) as Hs by (unfold small; vm_compute; congruence).
  pose proof (resize_refused_hides demo_refu hidden_tab _ 9 27 7 (TStr "hidden") H Hm
    (Hle (asize hidden_tab) 7 eq_refl) (Hle 8 9 eq_refl) Hs (Hle 27 27 eq_refl)) as (t' & Hr & _ & Hg).
  exists t'. split; [exact Hr|]. split; [by vm_compute|exact Hg].
Defined.
