(* ===== verification/LjPat.v ===== *)
(** * Pattern matching ([core/luajit/src/lib_string.c])

    The matcher behind [string.find], [match], [gmatch] and [gsub]: it walks a
    pattern and a subject by position, calls itself for what follows a repetition
    or a capture, and keeps the captures in a table it changes and changes back.
    [LjPatSem] has what patterns mean, [LjPatProps] that the matcher finds it.

    A position is an index; subject and pattern end in a NUL, which may be read,
    and nothing after it.  A NUL in a pattern ends it. *)

From Stdlib Require Import ZArith Lia.
From stdpp Require Import base option list.
From S2P Require Import Prelude.

Local Open Scope Z_scope.
Local Open Scope prog_scope.

(** ** Classes of characters ([lj_char.h], [lj_char.c]) *)

Definition LJ_CHAR_CNTRL : Z := 0x01.
Definition LJ_CHAR_SPACE : Z := 0x02.
Definition LJ_CHAR_PUNCT : Z := 0x04.
Definition LJ_CHAR_DIGIT : Z := 0x08.
Definition LJ_CHAR_XDIGIT : Z := 0x10.
Definition LJ_CHAR_UPPER : Z := 0x20.
Definition LJ_CHAR_LOWER : Z := 0x40.
Definition LJ_CHAR_ALPHA : Z := Z.lor LJ_CHAR_LOWER LJ_CHAR_UPPER.
Definition LJ_CHAR_ALNUM : Z := Z.lor LJ_CHAR_ALPHA LJ_CHAR_DIGIT.
Definition LJ_CHAR_GRAPH : Z := Z.lor LJ_CHAR_ALNUM LJ_CHAR_PUNCT.

(** The table without its entry for -1. *)
Definition lj_char_bits : list Z := [
    1;  1;  1;  1;  1;  1;  1;  1;  1;  3;  3;  3;  3;  3;  1;  1;
    1;  1;  1;  1;  1;  1;  1;  1;  1;  1;  1;  1;  1;  1;  1;  1;
    2;  4;  4;  4;  4;  4;  4;  4;  4;  4;  4;  4;  4;  4;  4;  4;
  152;152;152;152;152;152;152;152;152;152;  4;  4;  4;  4;  4;  4;
    4;176;176;176;176;176;176;160;160;160;160;160;160;160;160;160;
  160;160;160;160;160;160;160;160;160;160;160;  4;  4;  4;  4;132;
    4;208;208;208;208;208;208;192;192;192;192;192;192;192;192;192;
  192;192;192;192;192;192;192;192;192;192;192;  4;  4;  4;  4;  1] ++ replicate 128 128.

(** [lj_char_isa] of a byte *)
Definition lj_char_isa (c t : Z) : Z := Z.land (default 0 (lj_char_bits !! Z.to_nat c)) t.
Definition lj_char_isdigit (c : Z) : bool := negb (lj_char_isa c LJ_CHAR_DIGIT =? 0).

(** ** The state of a match *)

(** The characters with a meaning of their own. *)
Definition L_ESC : Z := 37.      (* percent *)
Definition ch_lpar : Z := 40.
Definition ch_rpar : Z := 41.
Definition ch_lbrk : Z := 91.
Definition ch_rbrk : Z := 93.
Definition ch_hat : Z := 94.
Definition ch_dollar : Z := 36.
Definition ch_dot : Z := 46.
Definition ch_star : Z := 42.
Definition ch_plus : Z := 43.
Definition ch_minus : Z := 45.
Definition ch_quest : Z := 63.
Definition ch_b : Z := 98.
Definition ch_f : Z := 102.
Definition ch_z : Z := 122.
Definition ch_Z : Z := 90.
Definition ch_1 : Z := 49.

Definition CAP_UNFINISHED : Z := -1.
Definition CAP_POSITION : Z := -2.
Definition LUA_MAXCAPTURES : nat := 32.
Definition LJ_MAX_XLEVEL : nat := 200.

Record capture := Capture { c_init : nat; c_len : Z }.

(** The fields a match changes. *)
Record match_state := MatchState { level : nat; depth : nat; caps : list capture }.

Inductive pat_error :=
  | LJ_ERR_STRCAPI
  | LJ_ERR_STRPATC
  | LJ_ERR_STRPATE
  | LJ_ERR_STRPATM
  | LJ_ERR_STRPATU
  | LJ_ERR_STRPATB
  | LJ_ERR_STRPATX
  | LJ_ERR_STRCAPN
  | LJ_ERR_STRCAPU
  | LJ_ERR_STRGSRV.

Definition mprog : Type -> Type := M match_state pat_error.

Definition set_level n ms := MatchState n (depth ms) (caps ms).
Definition set_depth d ms := MatchState (level ms) d (caps ms).
Definition set_caps c ms := MatchState (level ms) (depth ms) c.

Definition get_capture (l : nat) : mprog capture := ms <- get ;; orfail OutOfBounds (caps ms !! l).
Definition put_capture (l : nat) (c : capture) : mprog unit :=
  ms <- get ;;
  if decide (l < length (caps ms))%nat then put (set_caps (<[l := c]> (caps ms)) ms) else fail OutOfBounds.

(** ** Classes in patterns *)

Definition match_class_map : list Z :=
  [0; LJ_CHAR_ALPHA; 0; LJ_CHAR_CNTRL; LJ_CHAR_DIGIT; 0; 0; LJ_CHAR_GRAPH; 0; 0; 0; 0;
   LJ_CHAR_LOWER; 0; 0; 0; LJ_CHAR_PUNCT; 0; 0; LJ_CHAR_SPACE; 0;
   LJ_CHAR_UPPER; 0; LJ_CHAR_ALNUM; LJ_CHAR_XDIGIT; 0; 0; 0; 0; 0; 0; 0].

Definition match_class (c cl : Z) : bool :=
  let t := default 0 (match_class_map !! Z.to_nat (Z.land cl 0x1f)) in
  if (Z.land cl 0xc0 =? 0x40) && negb (t =? 0) then
    let t := lj_char_isa c t in
    if Z.land cl 0x20 =? 0 then t =? 0 else negb (t =? 0)
  else if (Z.land cl 0xc0 =? 0x40) && (cl =? ch_z) then c =? 0
  else if (Z.land cl 0xc0 =? 0x40) && (cl =? ch_Z) then negb (c =? 0)
  else cl =? c.

Section Match.
(** The subject and the pattern. *)
Context (src pat : list Z).

Definition src_at (i : nat) : mprog Z := orfail OutOfBounds ((src ++ [0]) !! i).
Definition pat_at (i : nat) : mprog Z := orfail OutOfBounds ((pat ++ [0]) !! i).
Definition src_end : nat := length src.
Definition pat_fuel : nat := S (length pat).

(** The loop of [classend] *)
Fixpoint class_loop (fuel : nat) (p : nat) : mprog nat :=
  match fuel with
  | O => fail OutOfFuel
  | S fuel =>
      c <- pat_at p ;;
      if c =? 0 then raise LJ_ERR_STRPATM
      else
        let p := S p in
        c2 <- pat_at p ;;
        let p := if (c =? L_ESC) && negb (c2 =? 0) then S p else p in
        c3 <- pat_at p ;;
        if c3 =? ch_rbrk then ret (S p) else class_loop fuel p
  end.

Definition classend (p : nat) : mprog nat :=
  c <- pat_at p ;;
  let p := S p in
  if c =? L_ESC then
    c2 <- pat_at p ;;
    if c2 =? 0 then raise LJ_ERR_STRPATE else ret (S p)
  else if c =? ch_lbrk then
    c2 <- pat_at p ;;
    class_loop pat_fuel (if c2 =? ch_hat then S p else p)
  else ret p.

(** The [while (++p < ec)] of [matchbracketclass] *)
Fixpoint bracket_loop (fuel : nat) (c : Z) (p ec : nat) (sig : bool) : mprog bool :=
  match fuel with
  | O => fail OutOfFuel
  | S fuel =>
      let p := S p in
      if decide (p < ec)%nat then
        a <- pat_at p ;;
        if a =? L_ESC then
          let p := S p in
          b <- pat_at p ;;
          if match_class c b then ret sig else bracket_loop fuel c p ec sig
        else
          b <- pat_at (S p) ;;
          if (b =? ch_minus) && bool_decide (p + 2 < ec)%nat then
            let p := (p + 2)%nat in
            hi <- pat_at p ;;
            if (a <=? c) && (c <=? hi) then ret sig else bracket_loop fuel c p ec sig
          else if a =? c then ret sig else bracket_loop fuel c p ec sig
      else ret (negb sig)
  end.

Definition matchbracketclass (c : Z) (p ec : nat) : mprog bool :=
  h <- pat_at (S p) ;;
  if h =? ch_hat then bracket_loop pat_fuel c (S p) ec false else bracket_loop pat_fuel c p ec true.

Definition singlematch (c : Z) (p ep : nat) : mprog bool :=
  a <- pat_at p ;;
  if a =? ch_dot then ret true
  else if a =? L_ESC then b <- pat_at (S p) ;; ret (match_class c b)
  else if a =? ch_lbrk then matchbracketclass c p (ep - 1)
  else ret (a =? c).

(** [singlematch] of the character at [s], if [s < ms->src_end] *)
Definition single_at (s p ep : nat) : mprog bool :=
  if decide (s < src_end)%nat then c <- src_at s ;; singlematch c p ep else ret false.

(** ** Captures *)

Definition check_capture (l : Z) : mprog nat :=
  ms <- get ;;
  let l := l - ch_1 in
  if (l <? 0) || (Z.of_nat (level ms) <=? l) then raise LJ_ERR_STRCAPI
  else
    c <- get_capture (Z.to_nat l) ;;
    if c_len c =? CAP_UNFINISHED then raise LJ_ERR_STRCAPI else ret (Z.to_nat l).

Fixpoint to_close_from (n : nat) : mprog nat :=
  match n with
  | O => raise LJ_ERR_STRPATC
  | S l => c <- get_capture l ;; if c_len c =? CAP_UNFINISHED then ret l else to_close_from l
  end.

Definition capture_to_close : mprog nat := ms <- get ;; to_close_from (level ms).

Definition match_capture (s : nat) (l : Z) : mprog (option nat) :=
  l <- check_capture l ;;
  c <- get_capture l ;;
  let len := u64 (c_len c) in
  if len <=? Z.of_nat (src_end - s) then
    let n := Z.to_nat len in
    if decide (c_init c + n <= src_end)%nat then
      ret (if decide (take n (drop (c_init c) src) = take n (drop s src)) then Some (s + n)%nat else None)
    else fail OutOfBounds
  else ret None.

(** ** Balanced text *)

(** The [while (++s < ms->src_end)] of [matchbalance] *)
Fixpoint balance_loop (fuel : nat) (s : nat) (b e : Z) (cont : nat) : mprog (option nat) :=
  match fuel with
  | O => fail OutOfFuel
  | S fuel =>
      let s := S s in
      if decide (s < src_end)%nat then
        c <- src_at s ;;
        if c =? e then
          if decide (cont = 1%nat) then ret (Some (S s)) else balance_loop fuel s b e (cont - 1)
        else balance_loop fuel s b e (if c =? b then S cont else cont)
      else ret None
  end.

Definition matchbalance (s p : nat) : mprog (option nat) :=
  b <- pat_at p ;;
  if b =? 0 then raise LJ_ERR_STRPATU
  else
    e <- pat_at (S p) ;;
    if e =? 0 then raise LJ_ERR_STRPATU
    else
      c <- src_at s ;;
      if negb (c =? b) then ret None else balance_loop (S src_end) s b e 1.

(** ** Repetitions and captures, with [mt] for [match] *)

Section Parts.
Context (mt : nat -> nat -> mprog (option nat)).

(** [while ((s+i) < ms->src_end && singlematch(..)) i++;] *)
Fixpoint count_single (fuel : nat) (s p ep i : nat) : mprog nat :=
  match fuel with
  | O => fail OutOfFuel
  | S fuel =>
      m <- single_at (s + i) p ep ;;
      if m : bool then count_single fuel s p ep (S i) else ret i
  end.

(** [while (i >= 0)]; the argument is [i + 1]. *)
Fixpoint expand_down (n : nat) (s ep : nat) : mprog (option nat) :=
  match n with
  | O => ret None
  | S i =>
      res <- mt (s + i)%nat (S ep) ;;
      match res with
      | Some e => ret (Some e)
      | None => expand_down i s ep
      end
  end.

Definition max_expand (s p ep : nat) : mprog (option nat) :=
  i <- count_single (S src_end) s p ep 0 ;; expand_down (S i) s ep.

Fixpoint min_loop (fuel : nat) (s p ep : nat) : mprog (option nat) :=
  match fuel with
  | O => fail OutOfFuel
  | S fuel =>
      res <- mt s (S ep) ;;
      match res with
      | Some e => ret (Some e)
      | None => m <- single_at s p ep ;; if m : bool then min_loop fuel (S s) p ep else ret None
      end
  end.

Definition min_expand (s p ep : nat) : mprog (option nat) := min_loop (S src_end) s p ep.

Definition start_capture (s p : nat) (what : Z) : mprog (option nat) :=
  ms <- get ;;
  let l := level ms in
  if decide (LUA_MAXCAPTURES <= l)%nat then raise LJ_ERR_STRCAPN
  else
    put_capture l (Capture s what) ;;;
    modify (set_level (S l)) ;;;
    res <- mt s p ;;
    match res with
    | Some e => ret (Some e)
    | None => modify (fun ms => set_level (level ms - 1) ms) ;;; ret None
    end.

Definition end_capture (s p : nat) : mprog (option nat) :=
  l <- capture_to_close ;;
  c <- get_capture l ;;
  put_capture l (Capture (c_init c) (Z.of_nat s - Z.of_nat (c_init c))) ;;;
  res <- mt s p ;;
  match res with
  | Some e => ret (Some e)
  | None =>
      c <- get_capture l ;;
      put_capture l (Capture (c_init c) CAP_UNFINISHED) ;;; ret None
  end.
End Parts.

(** ** The matcher *)

(** [dflt] of [match]: a single character or set, and what repeats it; [mt] is a
    nested call of [match], and [init] the jump with new positions. *)
Definition match_default (mt init : nat -> nat -> mprog (option nat)) (s p : nat) : mprog (option nat) :=
  ep <- classend p ;;
  m <- single_at s p ep ;;
  q <- pat_at ep ;;
  if q =? ch_quest then
    res <- (if m : bool then mt (S s) (S ep) else ret None) ;;
    match res with
    | Some e => ret (Some e)
    | None => init s (S ep)
    end
  else if q =? ch_star then max_expand mt s p ep
  else if q =? ch_plus then (if m then max_expand mt (S s) p ep else ret None)
  else if q =? ch_minus then min_expand mt s p ep
  else if m then init (S s) ep else ret None.

(** [case L_ESC] of [match] *)
Definition match_escape (mt init : nat -> nat -> mprog (option nat)) (s p : nat) : mprog (option nat) :=
  c2 <- pat_at (S p) ;;
  if c2 =? ch_b then
    r <- matchbalance s (p + 2) ;;
    match r with
    | Some s => init s (p + 4)%nat
    | None => ret None
    end
  else if c2 =? ch_f then
    let p := (p + 2)%nat in
    c3 <- pat_at p ;;
    if negb (c3 =? ch_lbrk) then raise LJ_ERR_STRPATB
    else
      ep <- classend p ;;
      previous <- (if decide (s = 0%nat) then ret 0 else src_at (s - 1)) ;;
      m1 <- matchbracketclass previous p (ep - 1) ;;
      if m1 : bool then ret None
      else
        cur <- src_at s ;;
        m2 <- matchbracketclass cur p (ep - 1) ;;
        if m2 : bool then init s ep else ret None
  else if lj_char_isdigit c2 then
    r <- match_capture s c2 ;;
    match r with
    | Some s => init s (p + 2)%nat
    | None => ret None
    end
  else match_default mt init s p.

(** [match] after [init:] *)
Definition match_step (mt init : nat -> nat -> mprog (option nat)) (s p : nat) : mprog (option nat) :=
  c <- pat_at p ;;
  if c =? ch_lpar then
    c2 <- pat_at (S p) ;;
    if c2 =? ch_rpar then start_capture mt s (p + 2) CAP_POSITION else start_capture mt s (p + 1) CAP_UNFINISHED
  else if c =? ch_rpar then end_capture mt s (p + 1)
  else if c =? L_ESC then match_escape mt init s p
  else if c =? 0 then ret (Some s)
  else if c =? ch_dollar then
    c2 <- pat_at (S p) ;;
    if negb (c2 =? 0) then match_default mt init s p
    else ret (if decide (s = src_end) then Some s else None)
  else match_default mt init s p.

(** [if (++ms->depth > LJ_MAX_XLEVEL)], and the [ms->depth--] at the end *)
Definition nested (body : mprog (option nat)) : mprog (option nat) :=
  ms <- get ;;
  put (set_depth (S (depth ms)) ms) ;;;
  if decide (LJ_MAX_XLEVEL < S (depth ms))%nat then raise LJ_ERR_STRPATX
  else
    r <- body ;;
    modify (fun ms => set_depth (depth ms - 1) ms) ;;; ret r.

(** Each call and each jump is made with a later position in the pattern. *)
Fixpoint match_init (fuel : nat) (s p : nat) : mprog (option nat) :=
  match fuel with
  | O => fail OutOfFuel
  | S fuel => match_step (fun s p => nested (match_init fuel s p)) (match_init fuel) s p
  end.

Definition lj_match (s p : nat) : mprog (option nat) := nested (match_init (S pat_fuel) s p).

End Match.
