(* ===== verification/LjPatLib.v ===== *)
(** * The string functions with patterns ([core/luajit/src/lib_string.c])

    [string.find], [string.match], the iterator of [string.gmatch] and
    [string.gsub], with the matcher of [LjPat].  Their arguments come checked and
    with their defaults; results are the values left on the stack, and the buffer
    of [gsub] is the text it holds.  A call of a Lua function takes the state of
    the rest of the program along. *)

From Stdlib Require Import ZArith Lia.
From stdpp Require Import base option list.
From S2P Require Import Prelude LjPat.

Local Open Scope Z_scope.
Local Open Scope prog_scope.

(** A value of Lua: a number that is no position comes with its text. *)
Inductive lval :=
  | VNil
  | VFalse
  | VTrue
  | VStr (s : list Z)
  | VInt (z : Z)
  | VNum (text : list Z)
  | VOther.

(** ** Text of whole numbers, as ["%.14g"] writes them *)

Fixpoint digits_loop (fuel : nat) (z : Z) (acc : list Z) : list Z :=
  match fuel with
  | O => acc
  | S fuel =>
      let acc := (48 + z mod 10) :: acc in
      if z <? 10 then acc else digits_loop fuel (z / 10) acc
  end.

Definition int_text (z : Z) : list Z :=
  if z <? 0 then ch_minus :: digits_loop 15 (- z) [] else digits_loop 15 z [].

(** ** What a match captured *)

Section Lib.
Context (src pat : list Z).

(** [push_onecapture]: [None] is the [NULL] of [string.find]. *)
Definition push_onecapture (i : Z) (s : nat) (e : nat) : mprog lval :=
  ms <- get ;;
  if Z.of_nat (level ms) <=? i then
    if i =? 0 then ret (VStr (take (e - s) (drop s src))) else raise LJ_ERR_STRCAPI
  else
    c <- (if i <? 0 then fail OutOfBounds else get_capture (Z.to_nat i)) ;;
    if c_len c =? CAP_UNFINISHED then raise LJ_ERR_STRCAPU
    else if c_len c =? CAP_POSITION then ret (VInt (Z.of_nat (c_init c) + 1))
    else if (0 <=? c_len c) && bool_decide (c_init c + Z.to_nat (c_len c) <= length src)%nat
         then ret (VStr (take (Z.to_nat (c_len c)) (drop (c_init c) src)))
         else fail OutOfBounds.

Fixpoint push_loop (n i : nat) (s e : nat) : mprog (list lval) :=
  match n with
  | O => ret []
  | S n =>
      v <- push_onecapture (Z.of_nat i) s e ;;
      vs <- push_loop n (S i) s e ;;
      ret (v :: vs)
  end.

(** [push_captures]; [whole] when it is given the ends of the match. *)
Definition push_captures (whole : option (nat * nat)) : mprog (list lval) :=
  ms <- get ;;
  match whole with
  | Some (s, e) => push_loop (if decide (level ms = 0%nat) then 1 else level ms) 0 s e
  | None => push_loop (level ms) 0 0 0
  end.

(** [ms.level = ms.depth = 0] and [match] *)
Definition fresh_match (s p : nat) : mprog (option nat) :=
  modify (fun ms => set_depth 0 (set_level 0 ms)) ;;; lj_match src pat s p.

(** ** Plain search *)

(** [lmemfind]: [memchr] for the first character, [memcmp] for the others; the
    text searched is what is left of it. *)
Fixpoint lmemfind_loop (fuel : nat) (s1 : list Z) (off l1 : nat) (c : Z) (s2 : list Z) : option nat :=
  match fuel with
  | O => None
  | S fuel =>
      match list_find (eq c) (take l1 s1) with
      | None => None
      | Some (i, _) =>
          if decide (take (length s2) (drop (S i) s1) = s2) then Some (off + i)%nat
          else lmemfind_loop fuel (drop (S i) s1) (off + S i) (l1 - S i) c s2
      end
  end.

Definition lmemfind (s1 s2 : list Z) : option nat :=
  match s2 with
  | [] => Some 0%nat
  | c :: s2' =>
      if decide (length s1 < length s2)%nat then None
      else lmemfind_loop (S (length s1)) s1 0 (length s1 - length s2') c s2'
  end.

(** ** [string.find] and [string.match] *)

Definition posrelat (pos : Z) (len : nat) : Z :=
  let pos := if pos <? 0 then pos + (Z.of_nat len + 1) else pos in
  if 0 <=? pos then pos else 0.

(** The characters of [SPECIALS] *)
Definition SPECIALS : list Z :=
  [ch_hat; ch_dollar; ch_star; ch_plus; ch_quest; ch_dot; ch_lpar; ch_lbrk; L_ESC; ch_minus].

(** [strpbrk(p, SPECIALS) != NULL]: a NUL ends the search. *)
Fixpoint has_specials (p : list Z) : bool :=
  match p with
  | [] => false
  | c :: p => if c =? 0 then false else if decide (c ∈ SPECIALS) then true else has_specials p
  end.

(** [( *p == '^') ? (p++, 1) : 0] *)
Definition anchored : bool := match pat with c :: _ => c =? ch_hat | [] => false end.
Definition pat_start : nat := if anchored then 1 else 0.

(** The first of the positions from [s1] on with a match, and where it ends *)
Fixpoint find_loop (fuel : nat) (s1 : nat) : mprog (option (nat * nat)) :=
  match fuel with
  | O => fail OutOfFuel
  | S fuel =>
      res <- fresh_match s1 pat_start ;;
      match res with
      | Some e => ret (Some (s1, e))
      | None => if decide (s1 < length src)%nat then if anchored then ret None else find_loop fuel (S s1) else ret None
      end
  end.

Definition find_init (init : Z) : nat :=
  let init := posrelat init (length src) - 1 in
  if init <? 0 then 0%nat
  else if Z.of_nat (length src) <? init then length src
  else Z.to_nat init.

(** [init] is the third argument, [plain] the truth of the fourth. *)
Definition str_find_aux (find : bool) (init : Z) (plain : bool) : mprog (list lval) :=
  let init := find_init init in
  if find && (plain || negb (has_specials pat)) then
    match lmemfind (drop init src) pat with
    | Some i => ret [VInt (Z.of_nat (init + i) + 1); VInt (Z.of_nat (init + i + length pat))]
    | None => ret [VNil]
    end
  else
    r <- find_loop (S (length src)) init ;;
    match r with
    | Some (s1, e) =>
        if find then
          cs <- push_captures None ;;
          ret (VInt (Z.of_nat s1 + 1) :: VInt (Z.of_nat e) :: cs)
        else push_captures (Some (s1, e))
    | None => ret [VNil]
    end.

(** ** [string.gmatch] *)

(** The loop of the iterator: no anchor, and no step past the end. *)
Fixpoint gmatch_loop (fuel : nat) (s1 : nat) : mprog (option (nat * nat)) :=
  match fuel with
  | O => fail OutOfFuel
  | S fuel =>
      if decide (s1 <= length src)%nat then
        res <- fresh_match s1 0 ;;
        match res with
        | Some e => ret (Some (s1, e))
        | None => gmatch_loop fuel (S s1)
        end
      else ret None
  end.

(** [string_gmatch_aux] from the position of the upvalue: the results and the
    position stored back. *)
Definition string_gmatch_aux (pos : nat) : mprog (list lval * nat) :=
  r <- gmatch_loop (S (S (length src))) pos ;;
  match r with
  | Some (s1, e) =>
      cs <- push_captures (Some (s1, e)) ;;
      ret (cs, if decide (e = s1) then S e else e)
  | None => ret ([], pos)
  end.

(** ** [string.gsub] *)

Section Gsub.
(** What a Lua function called with values returns. *)
Context {W : Type} (call : W -> list lval -> lval * W).

(** The third argument: text, a function, or a table by its [lua_gettable] *)
Inductive replacement :=
  | RepText (news : list Z)
  | RepFunction
  | RepTable (get : lval -> lval).

(** [luaL_addvalue]: the text of a string or number *)
Definition value_text (v : lval) : option (list Z) :=
  match v with
  | VStr s => Some s
  | VInt z => Some (int_text z)
  | VNum t => Some t
  | _ => None
  end.

(** [add_s]; the character after a last ESC is the NUL that ends the text. *)
Fixpoint add_s (news : list Z) (s e : nat) (b : list Z) : mprog (list Z) :=
  match news with
  | [] => ret b
  | c :: news =>
      if negb (c =? L_ESC) then add_s news s e (b ++ [c])
      else
        match news with
        | [] => ret (b ++ [0])
        | d :: news =>
            if negb (lj_char_isdigit d) then add_s news s e (b ++ [d])
            else if d =? 48 then add_s news s e (b ++ take (e - s) (drop s src))
            else
              v <- push_onecapture (d - ch_1) s e ;;
              t <- orfail AssertFail (value_text v) ;;
              add_s news s e (b ++ t)
        end
  end.

Definition add_value (r : replacement) (s e : nat) (b : list Z) (w : W) : mprog (list Z * W) :=
  let keep (v : lval) (w : W) :=
    match v with
    | VNil | VFalse => ret (b ++ take (e - s) (drop s src), w)
    | _ =>
        match value_text v with
        | Some t => ret (b ++ t, w)
        | None => raise LJ_ERR_STRGSRV
        end
    end in
  match r with
  | RepText news => b <- add_s news s e b ;; ret (b, w)
  | RepFunction =>
      args <- push_captures (Some (s, e)) ;;
      let '(v, w) := call w args in keep v w
  | RepTable get =>
      k <- push_onecapture 0 s e ;;
      keep (get k) w
  end.

(** The [while (n < max_s)]: at the end the text is added that is left. *)
Fixpoint gsub_loop (fuel : nat) (r : replacement) (max_s n : Z) (s : nat) (b : list Z) (w : W)
  : mprog (list Z * Z * W) :=
  match fuel with
  | O => fail OutOfFuel
  | S fuel =>
      if n <? max_s then
        e <- fresh_match s pat_start ;;
        bw <- (match e with Some e => add_value r s e b w | None => ret (b, w) end) ;;
        let '(b, w) := bw in
        let n := match e with Some _ => n + 1 | None => n end in
        let next s b := if anchored then ret (b ++ drop s src, n, w) else gsub_loop fuel r max_s n s b w in
        let skip_one :=
          match src !! s with
          | Some c => next (S s) (b ++ [c])
          | None => ret (b ++ drop s src, n, w)
          end in
        match e with
        | Some e' => if decide (s < e')%nat then next e' b else skip_one
        | None => skip_one
        end
      else ret (b ++ drop s src, n, w)
  end.

(** [max_s] is the fourth argument, by default one more than the length. *)
Definition string_gsub (r : replacement) (max_s : option Z) (w : W) : mprog (list Z * Z * W) :=
  gsub_loop (S (S (length src))) r (default (Z.of_nat (length src) + 1) max_s) 0 0 [] w.
End Gsub.
End Lib.
