(* ===== verification/LjPatSem.v ===== *)
(** * What patterns mean

    A pattern is read into items, and an item at a place of the subject has a list
    of ways to match, the preferred one first; a sequence of items tries them in
    that order.  An error is one more way: it ends the search when it is reached.
    Nothing here changes a state or takes a step back. *)

From Stdlib Require Import ZArith Lia.
From stdpp Require Import base option list.
From S2P Require Import Prelude LjPat.

Local Open Scope Z_scope.

(** ** Classes of characters *)

Definition between (lo hi c : Z) : bool := (lo <=? c) && (c <=? hi).
Definition is_lower := between 97 122.
Definition is_upper := between 65 90.
Definition is_digit := between 48 57.
Definition is_alpha c := is_lower c || is_upper c.
Definition is_alnum c := is_alpha c || is_digit c.
Definition is_space c := between 9 13 c || (c =? 32).
Definition is_cntrl c := between 0 31 c || (c =? 127).
Definition is_graph := between 33 126.
Definition is_punct c := is_graph c && negb (is_alnum c).
Definition is_xdigit c := is_digit c || between 97 102 c || between 65 70 c.

(** The letters of the classes: a, c, d, g, l, p, s, u, w, x, z *)
Definition class_letters : list (Z * (Z -> bool)) :=
  [(97, is_alpha); (99, is_cntrl); (100, is_digit); (103, is_graph); (108, is_lower); (112, is_punct);
   (115, is_space); (117, is_upper); (119, is_alnum); (120, is_xdigit); (122, fun c => c =? 0)].

Definition class_named (cl : Z) : option (Z -> bool) :=
  snd <$> (snd <$> list_find (fun x => x.1 = cl) class_letters).

(** A small letter names a class, its capital what is not in it; any other
    character means itself. *)
Definition class_sem (cl c : Z) : bool :=
  match class_named cl with
  | Some f => f c
  | None => match class_named (cl + 32) with Some f => negb (f c) | None => cl =? c end
  end.

(** ** Items *)

Inductive elem := EClass (cl : Z) | ERange (lo hi : Z) | EChar (c : Z).

Inductive single := SAny | SClass (cl : Z) | SSet (neg : bool) (es : list elem) | SChar (c : Z).

Inductive item :=
  | One (x : single)
  | Opt (x : single)
  | Star (x : single)
  | Plus (x : single)
  | Minus (x : single)
  | OpenCap
  | PosCap
  | CloseCap
  | BackRef (digit : Z)
  | Balance (b e : Z)
  | Frontier (neg : bool) (es : list elem)
  | EndAnchor
  | Bad (e : pat_error).

Definition elem_sem (c : Z) (e : elem) : bool :=
  match e with
  | EClass cl => class_sem cl c
  | ERange lo hi => between lo hi c
  | EChar a => a =? c
  end.

Definition set_sem (neg : bool) (es : list elem) (c : Z) : bool := xorb neg (existsb (elem_sem c) es).

Definition single_sem (x : single) (c : Z) : bool :=
  match x with
  | SAny => true
  | SClass cl => class_sem cl c
  | SSet neg es => set_sem neg es c
  | SChar a => a =? c
  end.

(** ** Reading a pattern *)

(** The text of a set, up to the bracket that ends it, and what follows.  The
    first character of the text is no such bracket, nor is an escaped one. *)
Fixpoint set_text (p : list Z) : option (list Z * list Z) :=
  match p with
  | [] => None
  | c :: p1 =>
      if c =? 0 then None
      else match p1 with
           | [] => None
           | d :: p2 =>
               if c =? L_ESC then
                 if d =? 0 then None
                 else match p2 with
                      | [] => None
                      | e :: p3 =>
                          if e =? ch_rbrk then Some ([c; d], p3)
                          else '(t, r) ← set_text p2; Some (c :: d :: t, r)
                      end
               else if d =? ch_rbrk then Some ([c], p2)
               else '(t, r) ← set_text p1; Some (c :: t, r)
           end
  end.

(** An escape at the end of the text takes the bracket that ends the set. *)
Fixpoint elems (t : list Z) : list elem :=
  match t with
  | [] => []
  | a :: t1 =>
      if a =? L_ESC then
        match t1 with
        | [] => [EClass ch_rbrk]
        | d :: t2 => EClass d :: elems t2
        end
      else
        match t1 with
        | m :: hi :: t3 => if m =? ch_minus then ERange a hi :: elems t3 else EChar a :: elems t1
        | _ => EChar a :: elems t1
        end
  end.

(** A set, after its opening bracket *)
Definition read_set (p : list Z) : option (bool * list elem * list Z) :=
  let '(neg, p) := match p with c :: p1 => if c =? ch_hat then (true, p1) else (false, p) | [] => (false, p) end in
  '(t, r) ← set_text p; Some (neg, elems t, r).

Definition read_single (c : Z) (p : list Z) : (single * list Z) + pat_error :=
  if c =? ch_dot then inl (SAny, p)
  else if c =? L_ESC then
    match p with
    | d :: p => if d =? 0 then inr LJ_ERR_STRPATE else inl (SClass d, p)
    | [] => inr LJ_ERR_STRPATE
    end
  else if c =? ch_lbrk then
    match read_set p with
    | Some (neg, es, r) => inl (SSet neg es, r)
    | None => inr LJ_ERR_STRPATM
    end
  else inl (SChar c, p).

(** A single with the suffix that repeats it *)
Definition read_repeat (x : single) (p : list Z) : item * list Z :=
  match p with
  | q :: r =>
      if q =? ch_quest then (Opt x, r)
      else if q =? ch_star then (Star x, r)
      else if q =? ch_plus then (Plus x, r)
      else if q =? ch_minus then (Minus x, r)
      else (One x, p)
  | [] => (One x, p)
  end.

Definition read_plain (c : Z) (p : list Z) : item * list Z :=
  match read_single c p with
  | inl (x, p) => read_repeat x p
  | inr e => (Bad e, [])
  end.

(** What follows an escape *)
Definition read_escape (p : list Z) : item * list Z :=
  match p with
  | d :: p2 =>
      if d =? ch_b then
        match p2 with
        | b :: e :: r => if (b =? 0) || (e =? 0) then (Bad LJ_ERR_STRPATU, []) else (Balance b e, r)
        | _ => (Bad LJ_ERR_STRPATU, [])
        end
      else if d =? ch_f then
        match p2 with
        | o :: p3 =>
            if o =? ch_lbrk then
              match read_set p3 with
              | Some (neg, es, r) => (Frontier neg es, r)
              | None => (Bad LJ_ERR_STRPATM, [])
              end
            else (Bad LJ_ERR_STRPATB, [])
        | [] => (Bad LJ_ERR_STRPATB, [])
        end
      else if is_digit d then (BackRef d, p2)
      else read_plain L_ESC p
  | [] => read_plain L_ESC p
  end.

(** The next item of a pattern that is not at its end; [$] is an anchor at the
    end only. *)
Definition read_item (c : Z) (p : list Z) : item * list Z :=
  if c =? ch_lpar then
    match p with
    | d :: p2 => if d =? ch_rpar then (PosCap, p2) else (OpenCap, p)
    | [] => (OpenCap, p)
    end
  else if c =? ch_rpar then (CloseCap, p)
  else if c =? L_ESC then read_escape p
  else if (c =? ch_dollar) && (hd 0 p =? 0) then (EndAnchor, [])
  else read_plain c p.

(** Every item takes a character or more: the length of the pattern is enough. *)
Fixpoint read_items (fuel : nat) (p : list Z) : list item :=
  match fuel, p with
  | S fuel, c :: p => if c =? 0 then [] else let '(it, r) := read_item c p in it :: read_items fuel r
  | _, _ => []
  end.

Definition items (p : list Z) : list item := read_items (length p) p.

(** ** The ways to match *)

(** A capture: open from a place, a place, or a piece of the subject. *)
Inductive cap := COpen (i : nat) | CPos (i : nat) | CSpan (i n : nat).

(** A match: where it ends and what it captured. *)
Definition way : Type := (nat * list cap) + pat_error.

Section Ways.
Context (src : list Z).

(** Closes the last open capture. *)
Fixpoint close_last (s : nat) (cs : list cap) : option (list cap) :=
  match cs with
  | [] => None
  | c :: cs =>
      match close_last s cs with
      | Some cs => Some (c :: cs)
      | None => match c with COpen i => Some (CSpan i (s - i) :: cs) | _ => None end
      end
  end.

(** How many characters from [s] on are matched by [x]. *)
Fixpoint run_length (x : single) (t : list Z) : nat :=
  match t with
  | [] => 0
  | c :: t => if single_sem x c then S (run_length x t) else 0
  end.

Definition reps (x : single) (s : nat) : nat := run_length x (drop s src).

Definition occ (c : Z) (t : list Z) : Z := Z.of_nat (length (filter (eq c) t)).

(** How many opening characters are not closed after a first one and [t] *)
Definition unclosed (b e : Z) (t : list Z) : Z := 1 + (if decide (b = e) then 0 else occ b t) - occ e t.

(** The shortest balanced text at the front of [t] *)
Definition balanced (b e : Z) (t : list Z) : option nat :=
  match t with
  | c :: t =>
      if c =? b then (fun x => S x.2) <$> list_find (fun n => unclosed b e (take n t) = 0) (seq 1 (length t))
      else None
  | [] => None
  end.

(** The ways of an item: whether what follows needs a level of its own, where it
    goes on, and with which captures. *)
Definition next : Type := (bool * nat * list cap) + pat_error.

Definition go (s : nat) (cs : list cap) : next := inl (false, s, cs).
Definition deeper (s : nat) (cs : list cap) : next := inl (true, s, cs).

Definition steps (it : item) (s : nat) (cs : list cap) : list next :=
  match it with
  | One x => if decide (0 < reps x s)%nat then [go (S s) cs] else []
  | Opt x => (if decide (0 < reps x s)%nat then [deeper (S s) cs] else []) ++ [go s cs]
  | Star x => (fun i => deeper (s + i) cs) <$> reverse (seq 0 (S (reps x s)))
  | Plus x => (fun i => deeper (s + i) cs) <$> reverse (seq 1 (reps x s))
  | Minus x => (fun i => deeper (s + i) cs) <$> seq 0 (S (reps x s))
  | OpenCap => if decide (length cs < LUA_MAXCAPTURES)%nat then [deeper s (cs ++ [COpen s])] else [inr LJ_ERR_STRCAPN]
  | PosCap => if decide (length cs < LUA_MAXCAPTURES)%nat then [deeper s (cs ++ [CPos s])] else [inr LJ_ERR_STRCAPN]
  | CloseCap => match close_last s cs with Some cs => [deeper s cs] | None => [inr LJ_ERR_STRPATC] end
  | BackRef d =>
      if d =? 48 then [inr LJ_ERR_STRCAPI]
      else match cs !! Z.to_nat (d - 49) with
           | None | Some (COpen _) => [inr LJ_ERR_STRCAPI]
           | Some (CPos _) => []
           | Some (CSpan i n) => if decide (take n (drop i src) `prefix_of` drop s src) then [go (s + n) cs] else []
           end
  | Balance b e => match balanced b e (drop s src) with Some n => [go (s + n) cs] | None => [] end
  | Frontier neg es =>
      let before := match s with O => 0 | S s => default 0 (src !! s) end in
      if negb (set_sem neg es before) && set_sem neg es (default 0 (src !! s)) then [go s cs] else []
  | EndAnchor => if decide (s = length src) then [go s cs] else []
  | Bad e => [inr e]
  end.

(** The ways of a sequence, with [d] levels left *)
Fixpoint ways (its : list item) (d s : nat) (cs : list cap) : list way :=
  match its with
  | [] => [inl (s, cs)]
  | it :: its =>
      steps it s cs ≫= fun x =>
        match x with
        | inl (false, s, cs) => ways its d s cs
        | inl (true, s, cs) => match d with O => [inr LJ_ERR_STRPATX] | S d => ways its d s cs end
        | inr e => [inr e]
        end
  end.
End Ways.

(** The match of a pattern at [s]: the first way *)
Definition pattern_ways (src pat : list Z) (s : nat) : list way :=
  ways src (items pat) (LJ_MAX_XLEVEL - 1) s [].
