(* ===== verification/LjPatRead.v ===== *)
(** * Reading a pattern by position and by item

    [classend] and the two matchers of a single character, of [LjPat], against the
    items of [LjPatSem]. *)

From Stdlib Require Import ZArith Lia ssreflect.
From stdpp Require Import base option list.
From S2P Require Import Prelude LjPat LjPatSem.

Local Open Scope Z_scope.
Local Open Scope prog_scope.

(** A program that gives [v] and changes nothing. *)
Definition reads {A} (m : mprog A) (v : A) : Prop := forall ms, m ms = Ret v ms.

Lemma reads_bind {A B} (m : mprog A) (k : A -> mprog B) v w : reads m v -> reads (k v) w -> reads (bind m k) w.
Proof. intros Hm Hk ms. unfold bind. rw Hm. apply Hk. Qed.

Lemma run_reads {A B} (m : mprog A) (k : A -> mprog B) v ms : reads m v -> bind m k ms = k v ms.
Proof. intros Hm. by apply bind_step. Qed.

(** ** Classes *)

Definition byte_list : list Z := seqZ 0 256.

Lemma elem_of_byte_list c : c ∈ byte_list <-> is_byte c.
Proof. unfold byte_list, is_byte. rw elem_of_seqZ. lia. Qed.

Lemma match_class_table :
  forallb (fun cl => forallb (fun c => Bool.eqb (match_class c cl) (class_sem cl c)) byte_list) byte_list = true.
Proof. vm_compute. reflexivity. Qed.

Lemma match_class_sem c cl : is_byte c -> is_byte cl -> match_class c cl = class_sem cl c.
Proof.
  intros Hc Hcl. apply elem_of_byte_list in Hc, Hcl.
  pose proof match_class_table as H. rw forallb_forall in H.
  specialize (H cl). rw -list_elem_of_In in H. specialize (H Hcl).
  rw forallb_forall in H. specialize (H c). rw -list_elem_of_In in H.
  apply Bool.eqb_prop, H, Hc.
Qed.

Lemma isdigit_sem c : is_byte c -> lj_char_isdigit c = is_digit c.
Proof.
  intros Hc. apply elem_of_byte_list in Hc.
  assert (H : forallb (fun c => Bool.eqb (lj_char_isdigit c) (is_digit c)) byte_list = true) by (vm_compute; reflexivity).
  rw forallb_forall in H. specialize (H c). rw -list_elem_of_In in H. apply Bool.eqb_prop, H, Hc.
Qed.

Section Read.
Context (pat : list Z).
Hypothesis Hpat : Forall is_byte pat.

(** What is left of the pattern at [p]. *)
Definition At (p : nat) (l : list Z) : Prop := (p <= length pat)%nat /\ drop p pat = l.

Lemma At_cons p c l : At p (c :: l) -> At (S p) l /\ pat !! p = Some c.
Proof.
  intros [Hp Hd]. assert (Hc : pat !! p = Some c).
  { rw -(Nat.add_0_r p) -lookup_drop Hd. done. }
  repeat split; [apply lookup_lt_Some in Hc; lia | | done].
  rw -Nat.add_1_r -drop_drop Hd. done.
Qed.

Lemma At_app p l1 l2 : At p (l1 ++ l2) -> At (p + length l1) l2.
Proof.
  intros [Hp Hd]. split.
  - apply (f_equal length) in Hd. rw length_drop length_app in Hd. lia.
  - rw -drop_drop Hd drop_app_length. done.
Qed.

Lemma At_byte p c l : At p (c :: l) -> is_byte c.
Proof. intros [_ H]%At_cons. exact (proj1 (Forall_lookup _ _) Hpat _ _ H). Qed.

Lemma pat_at_cons p c l : At p (c :: l) -> reads (pat_at pat p) c.
Proof.
  intros [_ H]%At_cons ms. unfold pat_at. apply orfail_run.
  rw lookup_app_l; [by eapply lookup_lt_Some | done].
Qed.

Lemma pat_at_hd p l : At p l -> reads (pat_at pat p) (hd 0 l).
Proof.
  destruct l as [|c l]; [|apply pat_at_cons]. intros [Hp Hd] ms. unfold pat_at. apply orfail_run.
  apply (f_equal length) in Hd. rw length_drop in Hd. simpl in Hd.
  replace p with (length pat) by lia. by rw lookup_app_r // Nat.sub_diag.
Qed.

(** ** The end of a set *)

Lemma length_ind (P : list Z -> Prop) :
  (forall l, (forall l', (length l' < length l)%nat -> P l') -> P l) -> forall l, P l.
Proof. intros H l. remember (length l) as n eqn:Hn. revert l Hn. induction n using lt_wf_ind. naive_solver. Qed.

(** One character of the text, or an escape and the character after it *)
Definition set_char (c : Z) (l : list Z) : list Z * list Z :=
  if (c =? L_ESC) && negb (hd 0 l =? 0) then ([c; hd 0 l], tl l) else ([c], l).

Lemma set_text_cons c l :
  set_text (c :: l) =
    if c =? 0 then None
    else let '(u, l') := set_char c l in
         match l' with
         | e :: r => if e =? ch_rbrk then Some (u, r) else '(t, r) ← set_text l'; Some (u ++ t, r)
         | [] => None
         end.
Proof.
  unfold set_char. cbn [set_text]. case (Z.eqb_spec c 0) => [//|Hc]. destruct l as [|d p2].
  { simpl. by rw andb_false_r. }
  case (Z.eqb_spec c L_ESC) => [->|He] //=.
  case (Z.eqb_spec d 0) => [->|Hd] //=.
Qed.

Lemma set_char_app c l u l' :
  set_char c l = (u, l') -> c :: l = u ++ l' /\ (length l' <= length l)%nat /\ (0 < length u)%nat.
Proof.
  unfold set_char. case_match; intros [= <- <-]; [|simpl; auto with lia]. destruct l as [|d l]; [|simpl; auto with lia].
  simpl in *. by rw andb_false_r in H.
Qed.

Lemma set_text_shape p t r : set_text p = Some (t, r) -> p = t ++ ch_rbrk :: r.
Proof.
  revert t r. induction p as [p IH] using length_ind. intros t r.
  destruct p as [|c l]; [done|]. rw set_text_cons.
  case_match; [done|]. destruct (set_char c l) as [u l'] eqn:Hu. apply set_char_app in Hu as (-> & Hl & Hu).
  destruct l' as [|e l']; [done|]. case (Z.eqb_spec e ch_rbrk) => [->|He]; [naive_solver|].
  intros ([t' r'] & E & [= <- <-])%bind_Some. apply IH in E; [by rw E app_assoc | simpl in *; lia].
Qed.

(** Reads the next character of the pattern. *)
Ltac read_char H :=
  first [rw (run_reads _ _ _ _ (pat_at_cons _ _ _ H)) | rw (run_reads _ _ _ _ (pat_at_hd _ _ H))].

Lemma class_loop_step fuel p c l u l' ms :
  At p (c :: l) -> c <> 0 -> set_char c l = (u, l') ->
  At (p + length u) l' /\
  class_loop pat (S fuel) p ms =
    (if hd 0 l' =? ch_rbrk then ret (S (p + length u)) else class_loop pat fuel (p + length u)) ms.
Proof.
  intros HA Hc Hu. pose proof Hu as (Hl & _)%set_char_app.
  pose proof (At_cons _ _ _ HA) as [HA1 _].
  assert (HA' : At (p + length u) l') by (apply At_app; by rw -Hl).
  split; [done|]. cbn [class_loop]. read_char HA. rw (proj2 (Z.eqb_neq _ _) Hc).
  read_char HA1.
  replace (if (c =? L_ESC) && negb (hd 0 l =? 0) then S (S p) else S p) with (p + length u)%nat.
  - by read_char HA'.
  - revert Hu. unfold set_char. case_match; intros [= <- <-]; simpl; lia.
Qed.

Lemma class_loop_reads fuel p l ms :
  At p l -> (length l < fuel)%nat ->
  class_loop pat fuel p ms =
    match set_text l with
    | Some (t, _) => Ret (S (p + length t)) ms
    | None => Raise LJ_ERR_STRPATM ms
    end.
Proof.
  revert p l. induction fuel as [|fuel IH]; intros p l HA Hf; [lia|].
  destruct l as [|c l].
  { cbn [class_loop]. by read_char HA. }
  rw set_text_cons. case (Z.eqb_spec c 0) => [H0|Hc].
  { cbn [class_loop]. read_char HA. by rw H0. }
  destruct (set_char c l) as [u l'] eqn:Hu.
  destruct (class_loop_step fuel p c l u l' ms HA Hc Hu) as [HA' ->].
  apply set_char_app in Hu as (_ & Hlen & _).
  destruct l' as [|e r].
  { apply (IH _ _ HA'). simpl in *; lia. }
  change (hd 0 (e :: r)) with e. case_match; [done|]. rw (IH _ _ HA'); [simpl in *; lia|].
  destruct (set_text (e :: r)) as [[t r']|]; simpl; [|done].
  by rw length_app Nat.add_assoc.
Qed.

(** ** A set *)

Lemma bracket_loop_done fuel c p ec sig ms :
  (ec <= S p)%nat -> bracket_loop pat (S fuel) c p ec sig ms = Ret (negb sig) ms.
Proof. intros H. cbn [bracket_loop]. by case_decide; [lia|]. Qed.

Lemma bracket_loop_reads fuel c p t r sig ms :
  is_byte c -> At (S p) (t ++ ch_rbrk :: r) -> (length t < fuel)%nat ->
  bracket_loop pat fuel c p (S p + length t) sig ms = Ret (if existsb (elem_sem c) (elems t) then sig else negb sig) ms.
Proof.
  intros Hc. revert p fuel. induction t as [t IH] using length_ind. intros p fuel HA Hf.
  destruct fuel as [|fuel]; [lia|]. destruct t as [|a t].
  { rw bracket_loop_done //. simpl. lia. }
  cbn [bracket_loop]. case_decide as Hd; [|simpl in Hd; lia]. clear Hd.
  read_char HA. pose proof (At_cons _ _ _ HA) as [HA1 _]. cbn [elems].
  case (Z.eqb_spec a L_ESC) => [Ha|Ha].
  - read_char HA1. destruct t as [|d t].
    + simpl. rw match_class_sem //.
      case_match; [done|]. destruct fuel as [|fuel]; [simpl in *; lia|]. apply bracket_loop_done. lia.
    + simpl. rw match_class_sem //. { by eapply At_byte. }
      case_match; [done|]. pose proof (At_cons _ _ _ HA1) as [HA2 _].
      replace (S (p + S (S (length t))))%nat with (S (S (S p)) + length t)%nat by lia.
      apply IH; [simpl; lia | done | simpl in *; lia].
  - assert (HA1' : At (S (S p)) (t ++ ch_rbrk :: r)) by done. clear HA1. rename HA1' into HA1.
    assert (Hchar : (if a =? c then ret sig else bracket_loop pat fuel c (S p) (S p + length (a :: t)) sig) ms =
      Ret (if existsb (elem_sem c) (EChar a :: elems t) then sig else negb sig) ms).
    { simpl. case_match; [done|]. replace (S (p + S (length t)))%nat with (S (S p) + length t)%nat by lia.
      apply IH; [simpl; lia | done | simpl in *; lia]. }
    read_char HA1. destruct t as [|m [|hi t]]; [by rw bool_decide_false ?andb_false_r; [simpl; lia|].. |].
    cbn [app hd]. case (Z.eqb_spec m ch_minus) => [Hm|Hm]; [|done].
    rw bool_decide_true; [simpl; lia|]. cbn [andb].
    pose proof (At_cons _ _ _ HA1) as [HA2 _]. pose proof (At_cons _ _ _ HA2) as [HA3 _].
    replace (S p + 2)%nat with (S (S (S p))) by lia. read_char HA2. cbn [existsb elem_sem]. unfold between.
    destruct ((a <=? c) && (c <=? hi)); [done|]. cbn [length orb].
    replace (S p + S (S (S (length t))))%nat with (S (S (S (S p))) + length t)%nat by lia.
    apply IH; [simpl; lia | done | simpl in *; lia].
Qed.

(** A set at [p], with its last bracket at [ec] *)
Lemma set_reads p l ms :
  At p (ch_lbrk :: l) ->
  match read_set l with
  | Some (neg, es, r) =>
      exists ec, (p < ec)%nat /\ At (S ec) r /\ classend pat p ms = Ret (S ec) ms /\
        (forall c, is_byte c -> reads (matchbracketclass pat c p ec) (set_sem neg es c))
  | None => classend pat p ms = Raise LJ_ERR_STRPATM ms
  end.
Proof.
  intros HA. pose proof (At_cons _ _ _ HA) as [HA1 _].
  assert (HS : exists q neg l', At (S q) l' /\ (p <= q)%nat /\
    (read_set l = '(t, r) ← set_text l'; Some (neg, elems t, r)) /\
    classend pat p ms = class_loop pat (pat_fuel pat) (S q) ms /\
    (forall c ec ms, matchbracketclass pat c p ec ms = bracket_loop pat (pat_fuel pat) c q ec (negb neg) ms)).
  { assert (HR : classend pat p ms = class_loop pat (pat_fuel pat) (if hd 0 l =? ch_hat then S (S p) else S p) ms).
    { unfold classend. read_char HA. cbn. by rw (run_reads _ _ _ _ (pat_at_hd _ _ HA1)). }
    assert (HM : forall c ec ms, matchbracketclass pat c p ec ms =
      (if hd 0 l =? ch_hat then bracket_loop pat (pat_fuel pat) c (S p) ec false
       else bracket_loop pat (pat_fuel pat) c p ec true) ms).
    { intros. unfold matchbracketclass. by rw (run_reads _ _ _ _ (pat_at_hd _ _ HA1)). }
    rw HR. destruct l as [|c l]; [by exists p, false, []|]. cbn [hd] in *. unfold read_set.
    destruct (c =? ch_hat).
    - exists (S p), true, l. split_and!; [by apply (At_cons _ _ _ HA1) | lia | done..].
    - by exists p, false, (c :: l). }
  destruct HS as (q & neg & l' & HA' & Hq & -> & -> & HM).
  assert (Hlen : (length l' < pat_fuel pat)%nat).
  { destruct HA' as [_ <-]. rw length_drop. unfold pat_fuel. lia. }
  rw (class_loop_reads _ _ _ _ HA' Hlen).
  destruct (set_text l') as [[t r]|] eqn:Ht; [|done]. apply set_text_shape in Ht as ->. cbn.
  exists (S q + length t)%nat. split_and!; [lia | | done |].
  - by apply (At_cons _ ch_rbrk), At_app.
  - intros c Hc ms'. rw HM (bracket_loop_reads _ _ _ _ r) //.
    + rw length_app in Hlen. lia.
    + unfold set_sem. by destruct neg, (existsb _ _).
Qed.

(** ** A single character or set *)

(** What [classend] and [singlematch] do at [p], for a single that is read. *)
Lemma single_reads p c l ms :
  At p (c :: l) -> c <> 0 ->
  match read_single c l with
  | inl (x, r) =>
      exists ep, (p < ep)%nat /\ At ep r /\ classend pat p ms = Ret ep ms /\
        (forall ch, is_byte ch -> reads (singlematch pat ch p ep) (single_sem x ch))
  | inr e => classend pat p ms = Raise e ms
  end.
Proof.
  intros HA Hc. pose proof (At_cons _ _ _ HA) as [HA1 _]. unfold read_single.
  assert (HE : forall d, c = d -> d <> L_ESC -> d <> ch_lbrk -> classend pat p ms = Ret (S p) ms).
  { intros d <- H1 H2. unfold classend. read_char HA. by rw !(proj2 (Z.eqb_neq _ _)). }
  case (Z.eqb_spec c ch_dot) => [Hd|Hd].
  { exists (S p). split_and!; [lia | done | by apply (HE ch_dot) |].
    intros ch _ ms'. unfold singlematch. read_char HA. by rw Hd. }
  case (Z.eqb_spec c L_ESC) => [He|He].
  { assert (HR : classend pat p ms = (if hd 0 l =? 0 then raise LJ_ERR_STRPATE else ret (S (S p))) ms).
    { unfold classend. read_char HA. rw He. cbn. by rw (run_reads _ _ _ _ (pat_at_hd _ _ HA1)). }
    rw HR. destruct l as [|d l]; [done|]. cbn [hd]. destruct (d =? 0); [done|].
    pose proof (At_cons _ _ _ HA1) as [HA2 _]. exists (S (S p)). split_and!; [lia | done..|].
    intros ch Hch ms'. unfold singlematch. read_char HA. rw He. cbn. read_char HA1.
    rw match_class_sem //. by eapply At_byte. }
  case (Z.eqb_spec c ch_lbrk) => [Hb|Hb].
  { rw Hb in HA. pose proof (set_reads _ _ ms HA) as HS. destruct (read_set l) as [[[neg es] r]|]; [|done].
    destruct HS as (ec & Hec & HAr & HC & HM). exists (S ec). split_and!; [lia | done..|].
    intros ch Hch ms'. unfold singlematch. read_char HA. cbn. rw Nat.sub_0_r. by apply HM. }
  exists (S p). split_and!; [lia | done | by apply (HE c) |].
  intros ch Hch ms'. unfold singlematch. read_char HA.
  by rw (proj2 (Z.eqb_neq _ _) Hd) (proj2 (Z.eqb_neq _ _) He) (proj2 (Z.eqb_neq _ _) Hb).
Qed.
End Read.
