(* ===== verification/LjPatCap.v ===== *)
(** * A match against its ways: captures and levels

    The table of captures and the depth of a match hold what [LjPatSem] passes
    along, and are changed back when an alternative fails. *)

From Stdlib Require Import ZArith Lia.
From stdpp Require Import base option list.
From S2P Require Import Prelude LjPat LjPatSem LjPatRead.

Local Open Scope Z_scope.
Local Open Scope prog_scope.

(** ** The state *)

Definition cap_of (c : cap) : capture :=
  match c with
  | COpen i => Capture i CAP_UNFINISHED
  | CPos i => Capture i CAP_POSITION
  | CSpan i n => Capture i (Z.of_nat n)
  end.

(** Captures that begin, and pieces that end, no later than [s] *)
Definition cap_ok (s : nat) (c : cap) : Prop :=
  match c with
  | COpen i | CPos i => (i <= s)%nat
  | CSpan i n => (i + n <= s)%nat
  end.

Lemma cap_ok_le s s' cs : (s <= s')%nat -> Forall (cap_ok s) cs -> Forall (cap_ok s') cs.
Proof. intros Hs H. eapply Forall_impl; [done|]. intros []; simpl; lia. Qed.

(** The state holds the captures [cs], and [d] more levels are allowed. *)
Definition rep (d : nat) (cs : list cap) (ms : match_state) : Prop :=
  (depth ms + d = LJ_MAX_XLEVEL)%nat /\ level ms = length cs /\
  take (level ms) (caps ms) = cap_of <$> cs /\ length (caps ms) = LUA_MAXCAPTURES.

(** The program finds the first of the ways, and leaves the state as it was when
    there is none. *)
Definition agrees (d : nat) (cs : list cap) (l : list way) (m : mprog (option nat)) : Prop :=
  forall ms, rep d cs ms ->
    match head l with
    | Some (inl (e, cs')) => exists ms', m ms = Ret (Some e) ms' /\ rep d cs' ms'
    | Some (inr err) => exists ms', m ms = Raise err ms'
    | None => exists ms', m ms = Ret None ms' /\ rep d cs ms'
    end.

Lemma rep_lookup d cs ms l : rep d cs ms -> (l < length cs)%nat -> caps ms !! l = cap_of <$> (cs !! l).
Proof. intros (_ & Hl & Ht & _) H. rewrite <- list_lookup_fmap, <- Ht, lookup_take_lt; [done | lia]. Qed.

Lemma rep_level d cs ms : rep d cs ms -> (length cs <= LUA_MAXCAPTURES)%nat.
Proof.
  intros (_ & Hl & Ht & Hc). apply (f_equal length) in Ht. rewrite length_take, length_fmap in Ht. lia.
Qed.

Lemma rep_insert d cs ms l c :
  rep d cs ms -> (l < length cs)%nat -> rep d (<[l := c]> cs) (set_caps (<[l := cap_of c]> (caps ms)) ms).
Proof.
  intros (Hd & Hl & Ht & Hc) H. split_and!; simpl; [done | by rewrite length_insert | | by rewrite length_insert].
  rewrite take_insert_lt, Ht, list_fmap_insert; [done | lia].
Qed.

Lemma rep_push d cs ms c :
  rep d cs ms -> (length cs < LUA_MAXCAPTURES)%nat ->
  rep d (cs ++ [c]) (set_level (S (level ms)) (set_caps (<[level ms := cap_of c]> (caps ms)) ms)).
Proof.
  intros (Hd & Hl & Ht & Hc) H.
  split_and!; simpl; [done | rewrite length_app; simpl; lia | | by rewrite length_insert].
  erewrite take_S_r by (apply list_lookup_insert_eq; lia).
  rewrite take_insert_ge by lia. by rewrite Ht, fmap_app.
Qed.

Lemma rep_pop d cs ms c : rep d (cs ++ [c]) ms -> rep d cs (set_level (level ms - 1) ms).
Proof.
  intros (Hd & Hl & Ht & Hc). rewrite length_app in Hl. simpl in Hl.
  split_and!; simpl; [done | lia | | done].
  apply (f_equal (take (length cs))) in Ht. rewrite take_take, fmap_app in Ht.
  rewrite take_app_length' in Ht by (by rewrite length_fmap). rewrite <- Ht. f_equal. lia.
Qed.

Lemma rep_deeper d cs ms : rep (S d) cs ms -> rep d cs (set_depth (S (depth ms)) ms).
Proof. intros (Hd & ?). split; simpl; [lia | done]. Qed.

Lemma rep_back d cs ms : (d < LJ_MAX_XLEVEL)%nat -> rep d cs ms -> rep (S d) cs (set_depth (depth ms - 1) ms).
Proof. intros H (Hd & ?). split; simpl; [lia | done]. Qed.

(** ** Programs and ways *)

Lemma agrees_none d cs : agrees d cs [] (ret None).
Proof. intros ms H. by exists ms. Qed.

Lemma agrees_some d cs s : agrees d cs [inl (s, cs)] (ret (Some s)).
Proof. intros ms H. by exists ms. Qed.

Lemma agrees_raise d cs l e : agrees d cs (inr e :: l) (raise e).
Proof. intros ms H. by exists ms. Qed.

Lemma agrees_reads {A} d cs l (m : mprog A) v k : reads m v -> agrees d cs l (k v) -> agrees d cs l (bind m k).
Proof. intros Hm Hk ms H. rewrite (run_reads _ _ _ _ Hm). by apply Hk. Qed.

Lemma agrees_run d cs l m1 m2 : (forall ms, rep d cs ms -> m1 ms = m2 ms) -> agrees d cs l m2 -> agrees d cs l m1.
Proof. intros He Hm ms H. rewrite (He _ H). by apply Hm. Qed.

(** One alternative, and the others when it fails *)
Lemma agrees_or d cs l1 l2 m1 m2 :
  agrees d cs l1 m1 -> agrees d cs l2 m2 ->
  agrees d cs (l1 ++ l2) (r <- m1 ;; match r with Some e => ret (Some e) | None => m2 end).
Proof.
  intros H1 H2 ms H. specialize (H1 ms H). destruct l1 as [|[[e cs']|err] l1]; simpl in *.
  - destruct H1 as (ms' & E & H'). pose proof (H2 ms' H') as H2'.
    unfold bind. by rewrite E.
  - destruct H1 as (ms' & E & H'). exists ms'. unfold bind. by rewrite E.
  - destruct H1 as (ms' & E). exists ms'. unfold bind. by rewrite E.
Qed.

Lemma agrees_nested d cs l m : agrees d cs l m -> agrees (S d) cs l (nested m).
Proof.
  intros Hm ms H. pose proof (rep_deeper _ _ _ H) as Hd. specialize (Hm _ Hd).
  assert (Hn : nested m ms = (r <- m ;; modify (fun ms => set_depth (depth ms - 1) ms) ;;; ret r)
    (set_depth (S (depth ms)) ms)).
  { unfold nested, bind at 1, get. unfold bind at 1, put. destruct H as [H _]. case_decide; [lia | done]. }
  destruct H as [H _]. rewrite Hn. unfold bind.
  destruct (head l) as [[[e cs']|err]|]; destruct Hm as [ms' Hm];
    [destruct Hm as [-> Hr] | rewrite Hm | destruct Hm as [-> Hr]]; eexists; try split; try reflexivity; simpl; apply rep_back; [lia | done | lia | done].
Qed.

Lemma agrees_too_deep cs l m : agrees 0 cs (inr LJ_ERR_STRPATX :: l) (nested m).
Proof.
  intros ms [H _]. simpl. eexists. unfold nested, bind at 1, get. unfold bind, put.
  case_decide; [reflexivity | lia].
Qed.

(** ** Beginning and ending a capture *)

(** A match with other captures, which are changed back when it fails *)
Lemma tried_run d cs cs1 l m undo ms :
  agrees d cs1 l m -> rep d cs1 ms ->
  (forall ms, rep d cs1 ms -> exists ms', undo ms = Ret None ms' /\ rep d cs ms') ->
  let r := (res <- m ;; match res with Some e => ret (Some e) | None => undo end) ms in
  match head l with
  | Some (inl (e, cs')) => exists ms', r = Ret (Some e) ms' /\ rep d cs' ms'
  | Some (inr err) => exists ms', r = Raise err ms'
  | None => exists ms', r = Ret None ms' /\ rep d cs ms'
  end.
Proof.
  intros Hm H Hundo. specialize (Hm ms H). cbv zeta. unfold bind.
  destruct (head l) as [[[e cs']|err]|]; destruct Hm as [ms' Hm]; [| rewrite Hm; eauto |];
    destruct Hm as [-> Hr]; eauto.
Qed.

Lemma start_capture_agrees d cs l mt s p c :
  c_init (cap_of c) = s -> agrees d (cs ++ [c]) l (mt s p) ->
  agrees d cs (if decide (length cs < LUA_MAXCAPTURES)%nat then l else [inr LJ_ERR_STRCAPN])
    (start_capture mt s p (c_len (cap_of c))).
Proof.
  intros Hs Hm ms H. pose proof H as (_ & Hl & _ & Hc). case_decide as Hlt.
  - pose proof (rep_push _ _ _ c H Hlt) as H1.
    assert (Hn : start_capture mt s p (c_len (cap_of c)) ms =
      (res <- mt s p ;; match res with
        | Some e => ret (Some e)
        | None => modify (fun ms => set_level (level ms - 1) ms) ;;; ret None
        end) (set_level (S (level ms)) (set_caps (<[level ms := cap_of c]> (caps ms)) ms))).
    { unfold start_capture, bind at 1, get. case_decide; [lia|].
      unfold put_capture. unfold bind at 1, bind at 1, get. case_decide; [|lia].
      subst s. destruct (cap_of c). done. }
    rewrite Hn. apply (tried_run _ _ _ _ _ _ _ Hm H1). intros ms' Hr.
    eexists. split; [reflexivity|]. by eapply rep_pop.
  - eexists. unfold start_capture, bind at 1, get. case_decide; [reflexivity | lia].
Qed.

Lemma close_last_spec s cs :
  match close_last s cs with
  | Some cs' => exists l i, cs !! l = Some (COpen i) /\ (forall j i', (l < j)%nat -> cs !! j <> Some (COpen i')) /\
      cs' = <[l := CSpan i (s - i)]> cs
  | None => forall j i, cs !! j <> Some (COpen i)
  end.
Proof.
  induction cs as [|c cs IH]; simpl; [done|]. destruct (close_last s cs) as [cs'|].
  - destruct IH as (l & i & Hl & Hj & ->). exists (S l), i. split_and!; [done | | done].
    intros [|j] i' H; [lia|]. simpl. apply Hj. lia.
  - destruct c as [i|i|i n]; [|by intros [|j]; [|apply IH]..].
    exists 0%nat, i. split_and!; [done | | done]. intros [|j] i' H; [lia | apply IH].
Qed.

Lemma close_last_ok s cs :
  Forall (cap_ok s) cs -> match close_last s cs with Some cs' => Forall (cap_ok s) cs' | None => True end.
Proof.
  induction 1 as [|c cs Hc Hcs IH]; simpl; [done|]. destruct (close_last s cs); [by constructor|].
  destruct c; simpl in *; [|done..]. constructor; [simpl; lia | done].
Qed.

Lemma get_capture_run d cs ms l c : rep d cs ms -> cs !! l = Some c -> get_capture l ms = Ret (cap_of c) ms.
Proof.
  intros H Hc. unfold get_capture, bind, get. apply orfail_run.
  rewrite (rep_lookup _ _ _ _ H); [by rewrite Hc | by eapply lookup_lt_Some].
Qed.

Lemma put_capture_run d cs ms l c :
  rep d cs ms -> (l < length cs)%nat -> put_capture l c ms = Ret tt (set_caps (<[l := c]> (caps ms)) ms).
Proof.
  intros H Hl. pose proof (rep_level _ _ _ H). destruct H as (_ & _ & _ & Hc).
  unfold put_capture, bind, get. case_decide; [done | lia].
Qed.

Lemma cap_unfinished c : (c_len (cap_of c) =? CAP_UNFINISHED) = match c with COpen _ => true | _ => false end.
Proof. destruct c; [done..|]. apply Z.eqb_neq. cbn [cap_of c_len]. unfold CAP_UNFINISHED. lia. Qed.

Lemma to_close_run d cs ms n :
  rep d cs ms -> (n <= length cs)%nat ->
  (forall l i, (l < n)%nat -> cs !! l = Some (COpen i) -> (forall j i', (l < j)%nat -> cs !! j <> Some (COpen i')) ->
     to_close_from n ms = Ret l ms) /\
  ((forall j i, cs !! j <> Some (COpen i)) -> to_close_from n ms = Raise LJ_ERR_STRPATC ms).
Proof.
  intros H. induction n as [|n IH]; intros Hn; [split; [intros l i Hl; inversion Hl | done]|].
  destruct (lookup_lt_is_Some_2 cs n) as [c Hc]; [lia|]. cbn [to_close_from].
  rewrite (bind_step _ _ _ _ _ (get_capture_run _ _ _ _ _ H Hc)). split.
  - intros l i Hl Hi Hj. destruct (decide (l = n)) as [->|].
    + simplify_eq. done.
    + rewrite cap_unfinished. destruct c; [exfalso; eapply (Hj n); [lia | done] | |];
        (apply (proj1 (IH ltac:(lia)) l i); [lia | done..]).
  - intros Hj. rewrite cap_unfinished. destruct c; [by edestruct Hj | |]; (apply IH; [lia | done]).
Qed.

Lemma end_capture_agrees d cs mt s p (l : list cap -> list way) :
  Forall (cap_ok s) cs ->
  (forall cs', close_last s cs = Some cs' -> agrees d cs' (l cs') (mt s p)) ->
  agrees d cs (match close_last s cs with Some cs' => l cs' | None => [inr LJ_ERR_STRPATC] end) (end_capture mt s p).
Proof.
  intros Hok Hm ms H. pose proof (close_last_spec s cs) as HC. pose proof H as (_ & Hlv & _).
  destruct (close_last s cs) as [cs'|].
  - destruct HC as (k & i & Hk & Hj & Hcs'). specialize (Hm cs' eq_refl).
    pose proof (lookup_lt_Some _ _ _ Hk) as Hlt.
    pose proof (rep_insert _ _ _ k (CSpan i (s - i)) H Hlt) as H1. rewrite <- Hcs' in H1.
    assert (Hi : (i <= s)%nat) by exact (proj1 (Forall_lookup _ _) Hok _ _ Hk).
    assert (Hn : end_capture mt s p ms =
      (res <- mt s p ;; match res with
        | Some e => ret (Some e)
        | None => c <- get_capture k ;; put_capture k (Capture (c_init c) CAP_UNFINISHED) ;;; ret None
        end) (set_caps (<[k := cap_of (CSpan i (s - i))]> (caps ms)) ms)).
    { unfold end_capture. erewrite bind_step.
      2: { unfold capture_to_close, bind at 1, get. rewrite Hlv. by eapply (to_close_run _ _ _ _ H). }
      rewrite (bind_step _ _ _ _ _ (get_capture_run _ _ _ _ _ H Hk)).
      erewrite bind_step by (eapply put_capture_run; [apply H | done]).
      simpl. by rewrite Nat2Z.inj_sub by done. }
    rewrite Hn. apply (tried_run _ _ _ _ _ _ _ Hm H1). intros ms' Hr.
    assert (Hk' : cs' !! k = Some (CSpan i (s - i))) by (subst cs'; by apply list_lookup_insert_eq).
    assert (Hlt' : (k < length cs')%nat) by (by eapply lookup_lt_Some).
    rewrite (bind_step _ _ _ _ _ (get_capture_run _ _ _ _ _ Hr Hk')).
    erewrite bind_step by (eapply put_capture_run; [apply Hr | done]).
    eexists. split; [reflexivity|]. pose proof (rep_insert _ _ _ k (COpen i) Hr Hlt') as Hb.
    subst cs'. rewrite list_insert_insert_eq, list_insert_id in Hb by done. done.
  - eexists. unfold end_capture. simpl. unfold bind at 1. unfold capture_to_close, bind at 1, get. rewrite Hlv.
    by rewrite (proj2 (to_close_run _ _ _ (length cs) H ltac:(lia)) HC).
Qed.
