(* ===== verification/LjPatItem.v ===== *)
(** * A match against its ways: items of a pattern

    Each kind of item, as [match_step] of [LjPat] does it, against its steps in
    [LjPatSem]. *)

From Stdlib Require Import ZArith Lia.
From stdpp Require Import base option list.
From S2P Require Import Prelude LjPat LjPatSem LjPatRead LjPatCap.

Local Open Scope Z_scope.
Local Open Scope prog_scope.

Lemma list_find_shift (P Q : nat -> Prop) `{forall n, Decision (P n)} `{forall n, Decision (Q n)} k n :
  (forall i, P i <-> Q (S i)) -> S <$> (snd <$> list_find P (seq k n)) = snd <$> list_find Q (seq (S k) n).
Proof.
  intros HPQ. revert k. induction n as [|n IH]; intros k; [done|]. cbn [seq list_find].
  specialize (HPQ k). do 2 case_decide; [done | tauto | tauto |]. specialize (IH (S k)).
  by destruct (list_find P _) as [[]|], (list_find Q _) as [[]|].
Qed.

Lemma balanced_bound b e t : match balanced b e t with Some n => (n <= length t)%nat | None => True end.
Proof.
  destruct t as [|c t]; [done|]. simpl. destruct (c =? b); [|done].
  destruct (list_find _ _) as [[i n]|] eqn:E; [|done]. apply list_find_Some in E as (E & _ & _).
  apply lookup_seq in E. simpl. lia.
Qed.

(** ** How often a single matches *)

Lemma run_length_le x t : (run_length x t <= length t)%nat.
Proof. induction t as [|c t IH]; simpl; [lia | case_match; lia]. Qed.

Section Reps.
Context (src : list Z).

Lemma reps_lookup x s c :
  src !! s = Some c -> reps src x s = if single_sem x c then S (reps src x (S s)) else 0%nat.
Proof. intros H. unfold reps. by rewrite (drop_S _ _ _ H). Qed.

Lemma reps_none x s : (length src <= s)%nat -> reps src x s = 0%nat.
Proof. intros H. unfold reps. by rewrite drop_ge. Qed.

Lemma reps_bound x s : (s <= length src)%nat -> (s + reps src x s <= length src)%nat.
Proof. intros Hs. pose proof (run_length_le x (drop s src)) as H. rewrite length_drop in H. unfold reps. lia. Qed.

Lemma reps_S x s : (0 < reps src x s)%nat -> (s < length src)%nat /\ reps src x s = S (reps src x (S s)).
Proof.
  intros H. destruct (src !! s) as [c|] eqn:Hc.
  - split; [by eapply lookup_lt_Some|]. rewrite (reps_lookup _ _ _ Hc) in *. case_match; lia.
  - apply lookup_ge_None in Hc. rewrite reps_none in H; lia.
Qed.

End Reps.

Section Items.
Context (src pat : list Z).
Hypothesis Hsrc : Forall is_byte src.
Hypothesis Hpat : Forall is_byte pat.
Hypothesis Hlen : Z.of_nat (length src) < 2 ^ 31.

Local Abbreviation At := (At pat).

(** ** The subject *)

Lemma src_at_lookup i c : src !! i = Some c -> reads (src_at src i) c.
Proof. intros H ms. unfold src_at. apply orfail_run. rewrite lookup_app_l; [done | by eapply lookup_lt_Some]. Qed.

Lemma src_at_default i : (i <= length src)%nat -> reads (src_at src i) (default 0 (src !! i)).
Proof.
  intros Hi. destruct (src !! i) as [c|] eqn:Hc; [by apply src_at_lookup|].
  intros ms. unfold src_at. apply orfail_run. apply lookup_ge_None in Hc.
  replace i with (length src) by lia. by rewrite lookup_app_r, Nat.sub_diag.
Qed.

Lemma src_byte i c : src !! i = Some c -> is_byte c.
Proof. intros H. exact (proj1 (Forall_lookup _ _) Hsrc _ _ H). Qed.

Lemma src_default_byte i : is_byte (default 0 (src !! i)).
Proof. destruct (src !! i) eqn:H; simpl; [by eapply src_byte | unfold is_byte; lia]. Qed.

(** ** Repetitions *)

Section Single.
(** A single [x], as the matcher of the pattern at [p] decides it. *)
Context (x : single) (p ep : nat).
Hypothesis Hx : forall ch, is_byte ch -> reads (singlematch pat ch p ep) (single_sem x ch).

Lemma single_at_reads s : reads (single_at src pat s p ep) (bool_decide (0 < reps src x s)%nat).
Proof.
  unfold single_at. unfold src_end. case_decide as Hs.
  - destruct (lookup_lt_is_Some_2 src s Hs) as [c Hc]. eapply reads_bind; [by apply src_at_lookup|].
    rewrite (reps_lookup _ _ _ _ Hc). replace (bool_decide _) with (single_sem x c).
    + by apply Hx, (src_byte s).
    + by destruct (single_sem x c).
  - by rewrite reps_none by lia.
Qed.

Lemma count_single_reads fuel s i :
  (s + i <= length src)%nat -> (length src - (s + i) < fuel)%nat ->
  reads (count_single src pat fuel s p ep i) (i + reps src x (s + i))%nat.
Proof.
  revert i. induction fuel as [|fuel IH]; intros i Hi Hf; [lia|]. cbn [count_single].
  eapply reads_bind; [apply single_at_reads|]. case_bool_decide as Hr.
  - apply reps_S in Hr as [Hs ->].
    replace (i + S (reps src x (S (s + i))))%nat with (S i + reps src x (s + S i))%nat
      by (rewrite Nat.add_succ_r; lia).
    apply IH; lia.
  - replace (reps src x (s + i)) with 0%nat by lia. by rewrite Nat.add_0_r.
Qed.

(** What follows the repetition *)
Context (d : nat) (cs : list cap) (k : next -> list way) (mt : nat -> nat -> mprog (option nat)) (s0 : nat).
Hypothesis Hmt : forall s, (s0 <= s <= length src)%nat -> agrees d cs (k (deeper s cs)) (mt s (S ep)).

Lemma expand_down_agrees n s :
  (s0 <= s)%nat -> (s + n <= S (length src))%nat ->
  agrees d cs (((fun i => deeper (s + i) cs) <$> reverse (seq 0 n)) ≫= k) (expand_down mt n s ep).
Proof.
  intros Hs0. induction n as [|n IH]; intros Hs; [apply agrees_none|].
  rewrite seq_S, reverse_snoc. simpl. apply agrees_or; [apply Hmt; lia | apply IH; lia].
Qed.

Lemma max_expand_agrees s :
  (s0 <= s <= length src)%nat ->
  agrees d cs (((fun i => deeper (s + i) cs) <$> reverse (seq 0 (S (reps src x s)))) ≫= k) (max_expand src pat mt s p ep).
Proof.
  intros Hs. unfold max_expand. eapply agrees_reads.
  - apply count_single_reads; unfold src_end; lia.
  - rewrite Nat.add_0_l, Nat.add_0_r. apply expand_down_agrees; [lia|]. pose proof (reps_bound src x s). lia.
Qed.

Lemma min_loop_agrees fuel s :
  (s0 <= s <= length src)%nat -> (length src - s < fuel)%nat ->
  agrees d cs (((fun i => deeper (s + i) cs) <$> seq 0 (S (reps src x s))) ≫= k) (min_loop src pat mt fuel s p ep).
Proof.
  revert s. induction fuel as [|fuel IH]; intros s Hs Hf; [lia|]. cbn [min_loop].
  rewrite <- cons_seq. rewrite fmap_cons, bind_cons. apply agrees_or.
  { rewrite Nat.add_0_r. by apply Hmt. }
  eapply agrees_reads; [apply single_at_reads|]. case_bool_decide as Hr.
  - apply reps_S in Hr as [Hs' ->]. rewrite <- fmap_S_seq, <- list_fmap_compose.
    eapply eq_ind_r with (P := fun l => agrees d cs (l ≫= k) _); [apply (IH (S s)); lia|].
    apply list_fmap_ext. intros i j _. simpl. f_equal. lia.
  - replace (reps src x s) with 0%nat by lia. apply agrees_none.
Qed.
End Single.

(** ** Balanced text *)

Fixpoint balance_scan (b e : Z) (cont : nat) (t : list Z) : option nat :=
  match t with
  | [] => None
  | c :: t =>
      if c =? e then if decide (cont = 1%nat) then Some 1%nat else S <$> balance_scan b e (cont - 1) t
      else S <$> balance_scan b e (if c =? b then S cont else cont) t
  end.

Lemma balance_loop_reads fuel s b e cont :
  (s < length src)%nat -> (length src - s <= fuel)%nat ->
  reads (balance_loop src fuel s b e cont) ((fun n => s + 1 + n)%nat <$> balance_scan b e cont (drop (S s) src)).
Proof.
  revert s cont. induction fuel as [|fuel IH]; intros s cont Hs Hf; [lia|].
  cbn [balance_loop]. unfold src_end. case_decide as Hd.
  - destruct (lookup_lt_is_Some_2 src (S s) Hd) as [c Hc]. eapply reads_bind; [by apply src_at_lookup|].
    rewrite (drop_S _ _ _ Hc). cbn [balance_scan].
    assert (HI : forall cont', reads (balance_loop src fuel (S s) b e cont')
      ((fun n => s + 1 + n)%nat <$> (S <$> balance_scan b e cont' (drop (S (S s)) src)))).
    { intros cont' ms. rewrite (IH (S s) cont') by lia. f_equal.
      destruct (balance_scan b e cont' _); simpl; [|done]. f_equal. lia. }
    case_match; [case_decide|]; [|apply HI..]. simpl. intros ms. unfold ret. do 2 f_equal. lia.
  - by rewrite drop_ge by lia.
Qed.

Lemma occ_cons c x t : occ c (x :: t) = (if x =? c then 1 else 0) + occ c t.
Proof.
  unfold occ. rewrite filter_cons. case_decide as H; subst.
  - rewrite Z.eqb_refl. simpl. lia.
  - case_match; lia.
Qed.

Lemma balance_scan_first b e cont t :
  (0 < cont)%nat ->
  balance_scan b e cont t =
    snd <$> list_find (fun n => Z.of_nat cont - 1 + unclosed b e (take n t) = 0) (seq 1 (length t)).
Proof.
  revert cont. induction t as [|c t IH]; intros cont Hcont; [done|].
  assert (HU : forall n, unclosed b e (take (S n) (c :: t)) =
    unclosed b e (take n t) + (if c =? e then -1 else if c =? b then 1 else 0)).
  { intros n. unfold unclosed. simpl take. rewrite !occ_cons. case_decide; repeat case_match; lia. }
  assert (HR : forall cont', (0 < cont')%nat ->
    Z.of_nat cont' = Z.of_nat cont + (if c =? e then -1 else if c =? b then 1 else 0) ->
    S <$> balance_scan b e cont' t =
    snd <$> list_find (fun n => Z.of_nat cont - 1 + unclosed b e (take n (c :: t)) = 0) (seq 2 (length t))).
  { intros cont' Hc' E. rewrite (IH cont') by done. apply list_find_shift. intros i. rewrite HU. split; lia. }
  cbn [balance_scan length seq list_find].
  assert (H1 : unclosed b e (take 1 (c :: t)) = 1 + (if c =? e then -1 else if c =? b then 1 else 0)).
  { rewrite HU. unfold unclosed. simpl. case_decide; unfold occ; simpl; lia. }
  assert (HS : forall o : option (nat * nat), snd <$> (prod_map S id <$> o) = snd <$> o) by (by intros [[]|]).
  rewrite H1. destruct (c =? e) eqn:He; [case_decide|].
  - by rewrite decide_True by lia.
  - rewrite decide_False, HS by lia. apply HR; [|rewrite ?He]; lia.
  - rewrite decide_False, HS by (case_match; lia). apply HR; [|rewrite ?He]; case_match; lia.
Qed.

Lemma matchbalance_run s p l ms :
  (s <= length src)%nat -> At p l ->
  matchbalance src pat s p ms =
    match l with
    | b :: e :: _ =>
        if (b =? 0) || (e =? 0) then Raise LJ_ERR_STRPATU ms
        else Ret ((fun n => s + n)%nat <$> balanced b e (drop s src)) ms
    | _ => Raise LJ_ERR_STRPATU ms
    end.
Proof.
  intros Hs HA. unfold matchbalance. rewrite (run_reads _ _ _ _ (pat_at_hd _ _ _ HA)).
  destruct l as [|b l]; [done|]. cbn [hd]. pose proof (At_cons _ _ _ _ HA) as [HA1 _].
  destruct (b =? 0) eqn:Hb; [by destruct l|]. rewrite (run_reads _ _ _ _ (pat_at_hd _ _ _ HA1)).
  destruct l as [|e l]; [done|]. cbn [hd]. destruct (e =? 0); [done|]. cbn [orb].
  rewrite (run_reads _ _ _ _ (src_at_default s Hs)). destruct (src !! s) as [c|] eqn:Hc.
  - rewrite (drop_S _ _ _ Hc). cbn [from_option id balanced]. destruct (c =? b); [|done]. cbn [negb].
    rewrite balance_loop_reads; [|by eapply lookup_lt_Some | unfold src_end; lia].
    rewrite balance_scan_first by lia. f_equal.
    rewrite (list_find_ext (fun n => Z.of_nat 1 - 1 + unclosed b e (take n (drop (S s) src)) = 0)
      (fun n => unclosed b e (take n (drop (S s) src)) = 0)) by (intros; lia).
    destruct (list_find _ _) as [[i n]|]; simpl; [|done]. f_equal. lia.
  - apply lookup_ge_None in Hc. rewrite drop_ge by lia. cbn [from_option id].
    by replace (0 =? b) with false by lia.
Qed.

(** ** Captures as text *)

Lemma match_capture_agrees d cs s c (k : next -> list way) (f : nat -> mprog (option nat)) :
  is_byte c -> is_digit c = true -> (s <= length src)%nat -> Forall (cap_ok s) cs ->
  (forall s', (s <= s' <= length src)%nat -> agrees d cs (k (go s' cs)) (f s')) ->
  (forall e, k (inr e) = [inr e]) ->
  agrees d cs (steps src (BackRef c) s cs ≫= k)
    (r <- match_capture src s c ;; match r with Some s => f s | None => ret None end).
Proof.
  intros Hc Hd Hs Hok Hf Hk. unfold is_digit, between in Hd. simpl steps.
  assert (HE : forall e, [inr e] ≫= k = [inr e]) by (intros e; simpl; by rewrite Hk).
  assert (HC : forall ms, rep d cs ms -> check_capture c ms =
    match (if c =? 48 then None else cs !! Z.to_nat (c - 49)) with
    | None | Some (COpen _) => Raise LJ_ERR_STRCAPI ms
    | Some _ => Ret (Z.to_nat (c - 49)) ms
    end).
  { intros ms Hrep. pose proof Hrep as (_ & Hl & _). unfold check_capture, bind at 1, get, ch_1. rewrite Hl.
    case (Z.eqb_spec c 48); intros H48; [replace (c - 49 <? 0) with true by lia; done|].
    replace (c - 49 <? 0) with false by lia. cbn [orb].
    destruct (cs !! Z.to_nat (c - 49)) as [x|] eqn:Hx.
    - pose proof (lookup_lt_Some _ _ _ Hx). replace (Z.of_nat (length cs) <=? c - 49) with false by lia.
      rewrite (bind_step _ _ _ _ _ (get_capture_run _ _ _ _ _ Hrep Hx)), cap_unfinished. by destruct x.
    - apply lookup_ge_None in Hx. by replace (Z.of_nat (length cs) <=? c - 49) with true by lia. }
  apply agrees_run with (m2 :=
    match (if c =? 48 then None else cs !! Z.to_nat (c - 49)) with
    | None | Some (COpen _) => raise LJ_ERR_STRCAPI
    | Some (CPos _) => ret None
    | Some (CSpan i n) => if decide (take n (drop i src) `prefix_of` drop s src) then f (s + n)%nat else ret None
    end).
  - intros ms Hrep. unfold match_capture, bind at 1, bind at 1. rewrite (HC ms Hrep).
    destruct (c =? 48); [done|]. destruct (cs !! Z.to_nat (c - 49)) as [[i|i|i n]|] eqn:Hx; [done | | | done].
    + rewrite (bind_step _ _ _ _ _ (get_capture_run _ _ _ _ _ Hrep Hx)). cbn [cap_of c_len].
      replace (u64 CAP_POSITION <=? _) with false; [done|]. symmetry. apply Z.leb_gt.
      change (u64 CAP_POSITION) with 18446744073709551614. unfold src_end. lia.
    + rewrite (bind_step _ _ _ _ _ (get_capture_run _ _ _ _ _ Hrep Hx)). cbn [cap_of c_len c_init].
      assert (Hin : (i + n <= s)%nat) by exact (proj1 (Forall_lookup _ _) Hok _ _ Hx).
      assert (Hu : u64 (Z.of_nat n) = Z.of_nat n) by (apply wrap_u_small; lia).
      rewrite Hu, Nat2Z.id. unfold src_end. pose proof (length_take_le (drop i src) n) as Ht.
      rewrite length_drop in Ht. specialize (Ht ltac:(lia)).
      destruct (Z.of_nat n <=? Z.of_nat (length src - s)) eqn:Hn; [rewrite decide_True by lia|].
      * case_decide as He; case_decide as Hp; [done | | | done].
        -- exfalso. apply Hp. rewrite He. apply prefix_take.
        -- exfalso. apply He. destruct Hp as [k' Hp]. rewrite Hp, take_app_length'; [done|]. by rewrite Ht.
      * case_decide as Hp; [|done]. exfalso. apply prefix_length in Hp. rewrite Ht, length_drop in Hp.
        apply Z.leb_gt in Hn. clear - Hn Hp. lia.
  - destruct (c =? 48); [rewrite HE; apply agrees_raise|].
    destruct (cs !! Z.to_nat (c - 49)) as [[i|i|i n]|] eqn:Hx; [rewrite HE; apply agrees_raise | apply agrees_none | |
      rewrite HE; apply agrees_raise].
    case_decide as Hp; [|apply agrees_none]. simpl. rewrite app_nil_r. apply Hf.
    assert (Hin : (i + n <= s)%nat) by exact (proj1 (Forall_lookup _ _) Hok _ _ Hx).
    apply prefix_length in Hp. rewrite length_take, !length_drop in Hp. lia.
Qed.

(** ** The borders of a set *)

Lemma frontier_agrees d cs s p l (k : next -> list way) (f : nat -> mprog (option nat)) :
  (s <= length src)%nat -> At p (ch_lbrk :: l) ->
  (forall r ep, At ep r -> (p < ep)%nat -> snd <$> read_set l = Some r -> agrees d cs (k (go s cs)) (f ep)) ->
  k (inr LJ_ERR_STRPATM) = [inr LJ_ERR_STRPATM] ->
  agrees d cs
    (match read_set l with Some (neg, es, _) => steps src (Frontier neg es) s cs | None => [inr LJ_ERR_STRPATM] end ≫= k)
    (ep <- classend pat p ;;
     previous <- (if decide (s = 0%nat) then ret 0 else src_at src (s - 1)) ;;
     m1 <- matchbracketclass pat previous p (ep - 1) ;;
     if m1 : bool then ret None
     else
       cur <- src_at src s ;;
       m2 <- matchbracketclass pat cur p (ep - 1) ;;
       if m2 : bool then f ep else ret None).
Proof.
  intros Hs HA Hf Hk ms Hrep. pose proof (set_reads pat Hpat _ _ ms HA) as HS.
  destruct (read_set l) as [[[neg es] r]|]; [|simpl; rewrite Hk; unfold bind; rewrite HS; by eexists].
  destruct HS as (ec & Hec & HAr & HC & HM). rewrite (bind_step _ _ _ _ _ HC).
  assert (HP : reads (if decide (s = 0%nat) then ret 0 else src_at src (s - 1))
    (match s with O => 0 | S s => default 0 (src !! s) end)).
  { destruct s as [|s]; [done|]. rewrite decide_False by done. rewrite Nat.sub_succ, Nat.sub_0_r.
    apply src_at_default. lia. }
  rewrite (run_reads _ _ _ _ HP). rewrite Nat.sub_succ, Nat.sub_0_r.
  assert (HB : is_byte (match s with O => 0 | S s => default 0 (src !! s) end)).
  { destruct s; [unfold is_byte; lia | apply src_default_byte]. }
  rewrite (run_reads _ _ _ _ (HM _ HB)).
  simpl steps. set (m1 := set_sem neg es _). destruct m1; [by apply agrees_none|]. simpl negb.
  rewrite (run_reads _ _ _ _ (src_at_default s Hs)), (run_reads _ _ _ _ (HM _ (src_default_byte s))).
  destruct (set_sem neg es (default 0 (src !! s))); [|by apply agrees_none]. simpl. rewrite app_nil_r.
  apply (Hf r); [done | lia | done | done].
Qed.
End Items.
