(* ===== verification/LjPatProps.v ===== *)
(** * What the matcher finds

    The match of a pattern at a place of the subject is the first of the ways that
    [LjPatSem] gives: the same end, the same captures, the same error. *)

From Stdlib Require Import ZArith Lia.
From stdpp Require Import base option list.
From S2P Require Import Prelude LjPat LjPatSem LjPatRead LjPatCap LjPatItem.

Local Open Scope Z_scope.
Local Open Scope prog_scope.

(** ** Items take a character or more *)

Lemma set_text_length p t r : set_text p = Some (t, r) -> (length r < length p)%nat.
Proof. intros ->%set_text_shape. rewrite length_app. simpl. lia. Qed.

Lemma read_set_length p neg es r : read_set p = Some (neg, es, r) -> (length r < length p)%nat.
Proof.
  unfold read_set. destruct p as [|c p]; [|destruct (c =? ch_hat)];
    intros ([t r'] & E & [= _ _ <-])%bind_Some; apply set_text_length in E; simpl in *; lia.
Qed.

Lemma read_single_length c p x r : read_single c p = inl (x, r) -> (length r <= length p)%nat.
Proof.
  unfold read_single. destruct (c =? ch_dot); [naive_solver|]. destruct (c =? L_ESC).
  { destruct p as [|d p]; [done|]. destruct (d =? 0); [done|]. intros [= _ <-]. simpl. lia. }
  destruct (c =? ch_lbrk); [|naive_solver].
  destruct (read_set p) as [[[neg es] r']|] eqn:E; [|done]. intros [= _ <-]. apply read_set_length in E. lia.
Qed.

Lemma read_repeat_length x p : (length (read_repeat x p).2 <= length p)%nat.
Proof. unfold read_repeat. destruct p as [|q r]; [done|]. repeat case_match; simpl; lia. Qed.

Lemma read_plain_length c p : (length (read_plain c p).2 <= length p)%nat.
Proof.
  unfold read_plain. destruct (read_single c p) as [[x r]|e] eqn:E; [|simpl; lia].
  apply read_single_length in E. pose proof (read_repeat_length x r). lia.
Qed.

Lemma read_escape_length p : (length (read_escape p).2 <= length p)%nat.
Proof.
  unfold read_escape. destruct p as [|d p]; [apply read_plain_length|].
  destruct (d =? ch_b).
  { destruct p as [|b [|e p]]; simpl; [lia..|]. case_match; simpl; lia. }
  destruct (d =? ch_f).
  { destruct p as [|o p]; [simpl; lia|]. destruct (o =? ch_lbrk); [|simpl; lia].
    destruct (read_set p) as [[[neg es] r]|] eqn:E; [apply read_set_length in E|]; simpl; lia. }
  destruct (is_digit d); [simpl; lia | apply read_plain_length].
Qed.

Lemma read_item_length c p : (length (read_item c p).2 <= length p)%nat.
Proof.
  unfold read_item. destruct (c =? ch_lpar).
  { destruct p as [|d p]; [done|]. destruct (d =? ch_rpar); simpl; lia. }
  destruct (c =? ch_rpar); [done|]. destruct (c =? L_ESC); [apply read_escape_length|].
  destruct (_ && _); [simpl; lia | apply read_plain_length].
Qed.

Lemma read_items_enough n p : (length p <= n)%nat -> read_items n p = items p.
Proof.
  intros Hn. unfold items. remember (length p) as m eqn:Hm. assert (Hp : (length p <= m)%nat) by lia. clear Hm.
  revert m p Hn Hp. induction n as [|n IH]; intros m p Hn Hp.
  { destruct p; [by destruct m | simpl in Hp; lia]. }
  destruct p as [|c p]; [by destruct m|]. destruct m as [|m]; [simpl in Hp; lia|]. simpl in Hp. cbn [read_items].
  destruct (c =? 0); [done|]. pose proof (read_item_length c p) as Hr. destruct (read_item c p) as [it r].
  simpl in Hr. f_equal. apply IH; lia.
Qed.

Lemma items_cons c p : c <> 0 -> items (c :: p) = (read_item c p).1 :: items (read_item c p).2.
Proof.
  intros Hc. unfold items at 1. cbn [length read_items]. rewrite (proj2 (Z.eqb_neq _ _) Hc).
  pose proof (read_item_length c p) as Hr. destruct (read_item c p) as [it r]. by rewrite read_items_enough.
Qed.

(** ** One item *)

(** What is left to match after a step *)
Definition kont (src : list Z) (its : list item) (d : nat) (x : next) : list way :=
  match x with
  | inl (false, s, cs) => ways src its d s cs
  | inl (true, s, cs) => match d with O => [inr LJ_ERR_STRPATX] | S d => ways src its d s cs end
  | inr e => [inr e]
  end.

Lemma ways_cons src it its d s cs : ways src (it :: its) d s cs = steps src it s cs ≫= kont src its d.
Proof. done. Qed.

Section Step.
Context (src pat : list Z).
Hypothesis Hsrc : Forall is_byte src.
Hypothesis Hpat : Forall is_byte pat.
Hypothesis Hlen : Z.of_nat (length src) < 2 ^ 31.

Local Abbreviation At := (At pat).

Section Nested.
Context (N : nat) (init : nat -> nat -> mprog (option nat)).
Hypothesis Hinit : forall d s p l cs,
  At p l -> (length l < N)%nat -> (s <= length src)%nat -> Forall (cap_ok s) cs ->
  agrees d cs (ways src (items l) d s cs) (init s p).

Let mt (s p : nat) : mprog (option nat) := nested (init s p).

Lemma deeper_agrees d s p l cs :
  At p l -> (length l < N)%nat -> (s <= length src)%nat -> Forall (cap_ok s) cs ->
  agrees d cs (kont src (items l) d (deeper s cs)) (mt s p).
Proof. intros. destruct d; [apply agrees_too_deep | by apply agrees_nested, Hinit]. Qed.

Lemma default_agrees d s p c l cs :
  At p (c :: l) -> c <> 0 -> (length l < N)%nat -> (s <= length src)%nat -> Forall (cap_ok s) cs ->
  agrees d cs (steps src (read_plain c l).1 s cs ≫= kont src (items (read_plain c l).2) d)
    (match_default src pat mt init s p).
Proof.
  intros HA Hc HN Hs Hok ms Hrep. pose proof (single_reads pat Hpat _ _ _ ms HA Hc) as HS.
  pose proof (read_single_length c l) as HL. unfold read_plain, match_default.
  destruct (read_single c l) as [[x r]|e].
  2: { exists ms. unfold bind at 1. by rewrite HS. }
  specialize (HL x r eq_refl). destruct HS as (ep & Hep & HAr & HC & Hx). rewrite (bind_step _ _ _ _ _ HC).
  refine ((_ : agrees d cs _ _) ms Hrep). clear ms Hrep HC.
  eapply agrees_reads; [by apply single_at_reads|]. eapply agrees_reads; [by apply pat_at_hd|].
  assert (Hok' : forall s', (s <= s')%nat -> Forall (cap_ok s') cs) by (intros; by eapply cap_ok_le).
  assert (HOne : agrees d cs (steps src (One x) s cs ≫= kont src (items r) d)
      (if bool_decide (0 < reps src x s)%nat then init (S s) ep else ret None)).
  { simpl. case_bool_decide as Hr; [rewrite decide_True by done | rewrite decide_False by done; apply agrees_none].
    simpl. rewrite app_nil_r. pose proof (reps_S _ _ _ Hr) as [? _]. apply Hinit; [done | lia | lia | apply Hok'; lia]. }
  destruct r as [|q r]; [apply HOne|]. cbn [hd read_repeat]. simpl in HL.
  pose proof (At_cons _ _ _ _ HAr) as [HA' _].
  assert (HD : forall s', (s <= s' <= length src)%nat ->
    agrees d cs (kont src (items r) d (deeper s' cs)) (mt s' (S ep))).
  { intros s' Hs'. apply deeper_agrees; [done | lia | lia | apply Hok'; lia]. }
  destruct (q =? ch_quest); [|destruct (q =? ch_star); [|destruct (q =? ch_plus); [|destruct (q =? ch_minus)]]];
    cbn [fst snd].
  - simpl steps. rewrite bind_app. apply agrees_or.
    + case_bool_decide as Hr; [rewrite decide_True by done | rewrite decide_False by done; apply agrees_none].
      simpl. rewrite app_nil_r. pose proof (reps_S _ _ _ Hr) as [? _]. apply HD. lia.
    + simpl. rewrite app_nil_r. apply Hinit; [done | lia | done | done].
  - by apply max_expand_agrees with (s0 := s).
  - simpl steps. case_bool_decide as Hr.
    + pose proof (reps_S _ _ _ Hr) as [? ->]. rewrite <- (fmap_S_seq 0), <- fmap_reverse, <- list_fmap_compose.
      eapply eq_ind_r with (P := fun l => agrees d cs (l ≫= _) _);
        [apply (max_expand_agrees src pat Hsrc x p ep Hx d cs _ mt s); [done | lia] |].
      apply list_fmap_ext. intros i j _. simpl. f_equal. lia.
    + replace (reps src x s) with 0%nat by lia. apply agrees_none.
  - apply min_loop_agrees with (s0 := s); [done.. | lia | unfold src_end; lia].
  - apply HOne.
Qed.

Lemma escape_agrees d s p l cs :
  At p (L_ESC :: l) -> (length l < N)%nat -> (s <= length src)%nat -> Forall (cap_ok s) cs ->
  agrees d cs (steps src (read_escape l).1 s cs ≫= kont src (items (read_escape l).2) d)
    (match_escape src pat mt init s p).
Proof.
  intros HA HN Hs Hok. pose proof (At_cons _ _ _ _ HA) as [HA1 _].
  assert (HD : agrees d cs (steps src (read_plain L_ESC l).1 s cs ≫= kont src (items (read_plain L_ESC l).2) d)
    (match_default src pat mt init s p)) by (by apply default_agrees).
  unfold match_escape. eapply agrees_reads; [by apply pat_at_hd|].
  destruct l as [|c2 l]; [exact HD|]. cbn [hd read_escape]. simpl in HN.
  pose proof (At_cons _ _ _ _ HA1) as [HA2 _]. replace (p + 2)%nat with (S (S p)) by lia.
  assert (Hok' : forall s', (s <= s')%nat -> Forall (cap_ok s') cs) by (intros; by eapply cap_ok_le).
  destruct (c2 =? ch_b).
  { intros ms Hrep. pose proof (matchbalance_run src pat s (S (S p)) l ms Hs HA2) as HM.
    destruct l as [|b [|e l]]; [exists ms; unfold bind at 1; by rewrite HM..|].
    destruct ((b =? 0) || (e =? 0)); [exists ms; unfold bind at 1; by rewrite HM|].
    rewrite (bind_step _ _ _ _ _ HM). refine ((_ : agrees d cs _ _) ms Hrep). clear ms Hrep HM.
    cbn [fst snd]. simpl steps. pose proof (At_app _ _ [b; e] _ HA2) as HA4.
    replace (p + 4)%nat with (S (S p) + length [b; e])%nat by (simpl; lia).
    pose proof (balanced_bound b e (drop s src)) as HB. rewrite length_drop in HB.
    destruct (balanced b e (drop s src)) as [n|]; [|apply agrees_none]. simpl. rewrite app_nil_r.
    simpl in HN. apply Hinit; [done | lia | lia | apply Hok'; lia]. }
  destruct (c2 =? ch_f).
  { eapply agrees_reads; [by apply pat_at_hd|]. destruct l as [|o l]; [intros ms Hrep; by exists ms|]. cbn [hd].
    case (Z.eqb_spec o ch_lbrk); intros Ho;
      [subst o | intros ms Hrep; exists ms; by replace (o =? ch_lbrk) with false by lia]. cbn [negb].
    pose proof (frontier_agrees src pat Hsrc Hpat d cs s (S (S p)) l) as HF.
    pose proof (read_set_length l) as HL. simpl in HN.
    destruct (read_set l) as [[[neg es] r]|]; cbn [fst snd].
    - apply HF; [done..| |done]. intros r' ep HAr Hep [= <-]. specialize (HL _ _ _ eq_refl).
      apply Hinit; [done | lia | done | done].
    - by apply (HF (kont src (items []) d)). }
  rewrite isdigit_sem by (by eapply At_byte). destruct (is_digit c2) eqn:Hd; [|exact HD].
  cbn [fst snd]. apply match_capture_agrees; [done | by eapply At_byte | done..| |done].
  intros s' Hs'. apply Hinit; [done | lia | lia | apply Hok'; lia].
Qed.

Lemma step_agrees d s p l cs :
  At p l -> (length l <= N)%nat -> (s <= length src)%nat -> Forall (cap_ok s) cs ->
  agrees d cs (ways src (items l) d s cs) (match_step src pat mt init s p).
Proof.
  intros HA HN Hs Hok. unfold match_step. eapply agrees_reads; [by apply pat_at_hd|].
  destruct l as [|c l]; [apply agrees_some|]. cbn [hd]. simpl in HN. pose proof (At_cons _ _ _ _ HA) as [HA1 _].
  case (Z.eqb_spec c 0); intros Hc; [subst c; apply agrees_some|]. rewrite items_cons, ways_cons by done.
  replace (p + 1)%nat with (S p) by lia. replace (p + 2)%nat with (S (S p)) by lia.
  assert (HD : agrees d cs (steps src (read_plain c l).1 s cs ≫= kont src (items (read_plain c l).2) d)
    (match_default src pat mt init s p)) by (by apply default_agrees).
  assert (HC : forall k p', c_init (cap_of k) = s -> cap_ok s k -> forall l', At p' l' -> (length l' < N)%nat ->
    agrees d cs ((if decide (length cs < LUA_MAXCAPTURES)%nat then [deeper s (cs ++ [k])] else [inr LJ_ERR_STRCAPN])
      ≫= kont src (items l') d) (start_capture mt s p' (c_len (cap_of k)))).
  { intros k p' Hk Hok' l' HA' Hl'.
    pose proof (start_capture_agrees d cs (kont src (items l') d (deeper s (cs ++ [k]))) mt s p' k Hk) as HS.
    case_decide; simpl mbind; rewrite ?app_nil_r; apply HS; apply deeper_agrees; try done;
      (apply Forall_app; split; [done | by apply Forall_singleton]). }
  unfold read_item. case (Z.eqb_spec c ch_lpar); intros H1.
  { eapply agrees_reads; [by apply pat_at_hd|].
    assert (HO : agrees d cs (steps src OpenCap s cs ≫= kont src (items l) d) (start_capture mt s (S p) CAP_UNFINISHED))
      by (apply (HC (COpen s)); [done | simpl; lia | done | lia]).
    destruct l as [|c2 l]; [exact HO|]. cbn [hd]. destruct (c2 =? ch_rpar); [|exact HO].
    pose proof (At_cons _ _ _ _ HA1) as [HA2 _]. apply (HC (CPos s)); [done | simpl; lia | done | simpl in *; lia]. }
  case (Z.eqb_spec c ch_rpar); intros H2.
  { pose proof (end_capture_agrees d cs mt s (S p) (fun cs' => kont src (items l) d (deeper s cs')) Hok) as HE.
    simpl steps. pose proof (close_last_ok s cs Hok) as HL.
    destruct (close_last s cs) as [cs'|]; simpl mbind; rewrite ?app_nil_r; apply HE; [|done].
    intros cs1 [= <-]. apply deeper_agrees; [done | lia | done | done]. }
  case (Z.eqb_spec c L_ESC); intros H3; [subst c; by apply escape_agrees|].
  case (Z.eqb_spec c ch_dollar); intros H4; [|exact HD]. cbn [andb].
  eapply agrees_reads; [by apply pat_at_hd|]. destruct (hd 0 l =? 0); [|exact HD].
  cbn [fst snd negb]. simpl steps. unfold src_end. clear HC. case_decide; [apply agrees_some | apply agrees_none].
Qed.
End Nested.

(** ** The whole pattern *)

Lemma match_init_agrees fuel d s p l cs :
  At p l -> (length l < fuel)%nat -> (s <= length src)%nat -> Forall (cap_ok s) cs ->
  agrees d cs (ways src (items l) d s cs) (match_init src pat fuel s p).
Proof.
  revert d s p l cs. induction fuel as [|fuel IH]; intros d s p l cs HA HN Hs Hok; [lia|].
  cbn [match_init]. apply step_agrees with (N := fuel); [exact IH | done | lia | done..].
Qed.
End Step.

(** ** Where the ways go *)

Section Bounds.
Context (src : list Z).

Lemma deeper_elem x s s' cs cs' nested (l : list nat) :
  (forall i, i ∈ l -> i <= reps src x s)%nat -> (s <= length src)%nat -> Forall (cap_ok s) cs ->
  inl (nested, s', cs') ∈ ((fun i => deeper (s + i) cs) <$> l) -> (s <= s' <= length src)%nat /\ Forall (cap_ok s') cs'.
Proof.
  intros Hl Hs Hok (i & [= -> -> ->] & Hi)%list_elem_of_fmap. specialize (Hl i Hi).
  pose proof (run_length_le x (drop s src)) as H. rewrite length_drop in H. unfold reps in Hl.
  split; [lia|]. eapply cap_ok_le; [|done]. lia.
Qed.

(** A step goes on in the subject, and its captures lie before it. *)
Lemma steps_ok it s cs nested s' cs' :
  (s <= length src)%nat -> Forall (cap_ok s) cs -> inl (nested, s', cs') ∈ steps src it s cs ->
  (s <= s' <= length src)%nat /\ Forall (cap_ok s') cs'.
Proof.
  intros Hs Hok.
  assert (HG : forall b n, (s + n <= length src)%nat -> inl (nested, s', cs') ∈ [inl (b, s + n, cs)%nat : next] ->
    (s <= s' <= length src)%nat /\ Forall (cap_ok s') cs').
  { intros b n Hn [= -> -> ->]%list_elem_of_singleton. split; [lia|]. eapply cap_ok_le; [|done]. lia. }
  assert (H1 : forall x, (0 < reps src x s)%nat -> (s + 1 <= length src)%nat).
  { intros x Hx. pose proof (reps_bound src x s Hs). lia. }
  assert (H0 : inl (nested, s', cs') ∈ [go s cs] -> (s <= s' <= length src)%nat /\ Forall (cap_ok s') cs').
  { intros H. apply (HG false 0%nat); [lia|]. by rewrite Nat.add_0_r. }
  assert (HO : forall b c, cap_ok s c -> inl (nested, s', cs') ∈ [inl (b, s, cs ++ [c]) : next] ->
    (s <= s' <= length src)%nat /\ Forall (cap_ok s') cs').
  { intros b c Hc [= -> -> ->]%list_elem_of_singleton. split; [lia|].
    apply Forall_app. split; [done | by apply Forall_singleton]. }
  destruct it; cbn [steps].
  - case_decide as Hr; [|by intros ?%not_elem_of_nil]. apply H1 in Hr. replace (S s) with (s + 1)%nat by lia. by apply HG.
  - intros [H|H]%elem_of_app; [|by apply H0]. case_decide as Hr; [|by apply not_elem_of_nil in H].
    apply H1 in Hr. replace (S s) with (s + 1)%nat in H by lia. by apply (HG true 1%nat).
  - apply (deeper_elem x); [|done..]. intros i. rewrite elem_of_reverse, elem_of_seq. lia.
  - apply (deeper_elem x); [|done..]. intros i. rewrite elem_of_reverse, elem_of_seq. lia.
  - apply (deeper_elem x); [|done..]. intros i. rewrite elem_of_seq. lia.
  - case_decide; [|by intros ?%list_elem_of_singleton]. apply (HO _ (COpen s)). simpl. lia.
  - case_decide; [|by intros ?%list_elem_of_singleton]. apply (HO _ (CPos s)). simpl. lia.
  - pose proof (close_last_ok s cs Hok) as HC. destruct (close_last s cs); [|by intros ?%list_elem_of_singleton].
    intros [= -> -> ->]%list_elem_of_singleton. split; [lia | done].
  - destruct (digit =? 48); [by intros ?%list_elem_of_singleton|].
    destruct (cs !! _) as [[i|i|i n]|] eqn:Hx;
      [by intros ?%list_elem_of_singleton | by intros ?%not_elem_of_nil | | by intros ?%list_elem_of_singleton].
    case_decide as Hp; [|by intros ?%not_elem_of_nil]. apply HG.
    pose proof (proj1 (Forall_lookup _ _) Hok _ _ Hx) as Hin. simpl in Hin.
    apply prefix_length in Hp. rewrite length_take, !length_drop in Hp. lia.
  - pose proof (balanced_bound b e (drop s src)) as HB. rewrite length_drop in HB.
    destruct (balanced b e (drop s src)); [|by intros ?%not_elem_of_nil]. apply HG. lia.
  - destruct (_ && _); [apply H0 | by intros ?%not_elem_of_nil].
  - case_decide; [apply H0 | by intros ?%not_elem_of_nil].
  - by intros ?%list_elem_of_singleton.
Qed.

Lemma ways_ok its d s cs e cs' :
  (s <= length src)%nat -> Forall (cap_ok s) cs -> inl (e, cs') ∈ ways src its d s cs ->
  (s <= e <= length src)%nat /\ Forall (cap_ok e) cs'.
Proof.
  revert d s cs. induction its as [|it its IH]; intros d s cs Hs Hok.
  { intros [= -> ->]%list_elem_of_singleton. split; [lia | done]. }
  rewrite ways_cons. intros (x & Hx & Hin)%list_elem_of_bind.
  destruct x as [[[nested s1] cs1]|err]; [|by apply list_elem_of_singleton in Hx].
  destruct (steps_ok _ _ _ _ _ _ Hs Hok Hin) as [Hs1 Hok1].
  assert (HI : exists d', inl (e, cs') ∈ ways src its d' s1 cs1).
  { destruct nested; [destruct d as [|d]; [by apply list_elem_of_singleton in Hx|]|]; eauto. }
  destruct HI as [d' HI]. destruct (IH d' s1 cs1) as [? ?]; [lia | done..|]. split; [lia | done].
Qed.
End Bounds.

(** ** The property *)

(** C12 The matcher of patterns ([match], and [max_expand], [min_expand],
    [start_capture], [end_capture], [matchbalance], ... that call it and are called
    by it) finds, for every subject, every pattern, well formed or not, and every
    place: the first of the ways the pattern has to match there, with the same end
    and the same captures; the error the search reaches first; or no match.  It
    always comes to an end, and reads nothing outside of the subject, the pattern
    and the table of captures. *)
Theorem lj_match_correct (src pat : list Z) (s : nat) (ms : match_state) :
  Forall is_byte src -> Forall is_byte pat -> Z.of_nat (length src) < 2 ^ 31 -> (s <= length src)%nat ->
  length (caps ms) = LUA_MAXCAPTURES -> level ms = 0%nat -> depth ms = 0%nat ->
  match head (pattern_ways src pat s) with
  | Some (inl (e, cs)) => exists ms', lj_match src pat s 0 ms = Ret (Some e) ms' /\
      level ms' = length cs /\ take (length cs) (caps ms') = cap_of <$> cs /\ (s <= e <= length src)%nat
  | Some (inr err) => exists ms', lj_match src pat s 0 ms = Raise err ms'
  | None => exists ms', lj_match src pat s 0 ms = Ret None ms' /\ level ms' = 0%nat
  end.
Proof.
  intros Hsrc Hpat Hlen Hs Hc Hl Hd.
  assert (Hrep : rep LJ_MAX_XLEVEL [] ms) by (unfold rep; by rewrite Hl, Hd).
  assert (HA : agrees LJ_MAX_XLEVEL [] (pattern_ways src pat s) (lj_match src pat s 0)).
  { apply agrees_nested. apply match_init_agrees; 
      [done | done | done | by split; [lia|] | unfold pat_fuel; lia | done | by constructor]. }
  specialize (HA ms Hrep). destruct (pattern_ways src pat s) as [|[[e cs]|err] ws] eqn:E; simpl head in *.
  - destruct HA as (ms' & -> & _ & H & _). by exists ms'.
  - destruct HA as (ms' & -> & _ & HL & Ht & _). exists ms'. rewrite HL in Ht. split_and!; try done.
    all: assert (Hel : inl (e, cs) ∈ pattern_ways src pat s) by (rewrite E; left).
    all: apply ways_ok in Hel as [? _]; [lia | done | by constructor].
  - done.
Qed.

(** A capture of any number of [a], a [b], and what was captured; on [aabaa] *)
Definition demo_text : list Z := [97; 97; 98; 97; 97].
Definition demo_pat : list Z := [40; 97; 42; 41; 98; 37; 49].
Definition demo_state : match_state := MatchState 0 0 (replicate 32 (Capture 0 0)).

Lemma lj_match_correct_witness :
  head (pattern_ways demo_text demo_pat 0) = Some (inl (5%nat, [CSpan 0 2])) /\
  exists ms', lj_match demo_text demo_pat 0 0 demo_state = Ret (Some 5%nat) ms' /\
    level ms' = 1%nat /\ take 1 (caps ms') = [Capture 0 2] /\ (0 <= 5 <= 5)%nat.
Proof.
  split; [reflexivity|].
  refine (lj_match_correct demo_text demo_pat 0 demo_state _ _ _ _ _ _ _).
  1, 2: apply (bool_decide_unpack _); vm_compute; exact I.
  all: vm_compute; try reflexivity. lia.
Defined.
