(* ===== verification/LjPatFind.v ===== *)
(** * What the string functions with patterns answer

    [string.find], [match], [gmatch] and [gsub] of [LjPatLib], against the ways of
    [LjPatSem]: the first place with a match, and the matches that do not overlap. *)

From Stdlib Require Import ZArith Lia.
From stdpp Require Import base option list.
From S2P Require Import Prelude LjPat LjPatLib LjPatSem LjPatRead LjPatCap LjPatItem LjPatProps.

Local Open Scope Z_scope.
Local Open Scope prog_scope.

(** ** Answers *)

(** The table of captures has its entries; what they hold does not matter. *)
Definition ready (ms : match_state) : Prop := length (caps ms) = LUA_MAXCAPTURES.

(** From any state that is ready, the program gives this value or this error. *)
Definition answers {A} (m : mprog A) (r : A + pat_error) : Prop :=
  forall ms, ready ms ->
    match r with
    | inl v => exists ms', ready ms' /\ m ms = Ret v ms'
    | inr e => exists ms', m ms = Raise e ms'
    end.

(** The first error of a list, or all its values. *)
Fixpoint all_or_error {A} (l : list (A + pat_error)) : list A + pat_error :=
  match l with
  | [] => inl []
  | inr e :: _ => inr e
  | inl v :: l => match all_or_error l with inl vs => inl (v :: vs) | inr e => inr e end
  end.

Section Answers.
Context (src : list Z).

Definition cap_value (c : cap) : lval + pat_error :=
  match c with
  | COpen _ => inr LJ_ERR_STRCAPU
  | CPos i => inl (VInt (Z.of_nat i + 1))
  | CSpan i n => inl (VStr (take n (drop i src)))
  end.

Definition span_text (s e : nat) : list Z := take (e - s) (drop s src).

(** The captures, or the whole match when there are none and it is asked for. *)
Definition match_values (whole : option (nat * nat)) (cs : list cap) : list lval + pat_error :=
  match cs, whole with
  | [], Some (s, e) => inl [VStr (span_text s e)]
  | _, _ => all_or_error (cap_value <$> cs)
  end.

(** The first of these places with a way to match, and that way *)
Definition first_match (p : list Z) (starts : list nat) : option (nat * way) :=
  head (starts ≫= fun s => pair s <$> pattern_ways src p s).

(** The places from [init] on *)
Definition places (init : nat) : list nat := seq init (S (length src) - init).

(** The pattern without its anchor *)
Definition pat_body (pat : list Z) : list Z := drop (pat_start pat) pat.

(** What a search for a pattern gives *)
Definition pattern_find (pat : list Z) (find : bool) (init : nat) : list lval + pat_error :=
  match first_match (pat_body pat) (if anchored pat then [init] else places init) with
  | None => inl [VNil]
  | Some (_, inr e) => inr e
  | Some (s, inl (e, cs)) =>
      match match_values (if find then None else Some (s, e)) cs with
      | inl vs => inl (if find then VInt (Z.of_nat s + 1) :: VInt (Z.of_nat e) :: vs else vs)
      | inr e => inr e
      end
  end.

(** What a search for a text gives *)
Definition plain_find (text : list Z) (init : nat) : list lval :=
  match list_find (fun i => text `prefix_of` drop i src) (places init) with
  | Some (_, i) => [VInt (Z.of_nat i + 1); VInt (Z.of_nat (i + length text))]
  | None => [VNil]
  end.

(** What the iterator of [gmatch] gives at [pos], and where it goes on *)
Definition next_match (pat : list Z) (pos : nat) : (list lval * nat) + pat_error :=
  match first_match pat (places pos) with
  | None => inl ([], pos)
  | Some (_, inr e) => inr e
  | Some (s, inl (e, cs)) =>
      match match_values (Some (s, e)) cs with
      | inl vs => inl (vs, if decide (e = s) then S e else e)
      | inr e => inr e
      end
  end.
End Answers.

(** ** One match *)

Lemma pat_start_le pat : (pat_start pat <= length pat)%nat.
Proof. unfold pat_start, anchored. destruct pat; [done|]. simpl. case_match; lia. Qed.

Section Find.
Context (src pat : list Z).
Hypothesis Hsrc : Forall is_byte src.
Hypothesis Hpat : Forall is_byte pat.
Hypothesis Hlen : Z.of_nat (length src) < 2 ^ 31.

Lemma rep_ready d cs ms : rep d cs ms -> ready ms.
Proof. by intros (_ & _ & _ & H). Qed.

Lemma fresh_match_run s p ms :
  ready ms -> (s <= length src)%nat -> (p <= length pat)%nat ->
  match head (pattern_ways src (drop p pat) s) with
  | Some (inl (e, cs)) => exists ms', fresh_match src pat s p ms = Ret (Some e) ms' /\ rep LJ_MAX_XLEVEL cs ms'
  | Some (inr err) => exists ms', fresh_match src pat s p ms = Raise err ms'
  | None => exists ms', fresh_match src pat s p ms = Ret None ms' /\ rep LJ_MAX_XLEVEL [] ms'
  end.
Proof.
  intros Hms Hs Hp. unfold fresh_match, bind at 1 2 3, modify, lj_match.
  assert (Hrep : rep LJ_MAX_XLEVEL [] (set_depth 0 (set_level 0 ms))) by done.
  refine ((_ : agrees LJ_MAX_XLEVEL [] _ _) _ Hrep). apply agrees_nested.
  apply match_init_agrees; [done..| | |done|by constructor].
  - done.
  - rewrite length_drop. unfold pat_fuel. lia.
Qed.

Lemma places_cons s : (s <= length src)%nat -> places src s = s :: places src (S s).
Proof. intros Hs. unfold places. by replace (S (length src) - s)%nat with (S (S (length src) - S s)) by lia. Qed.

Lemma first_match_cons p s starts :
  first_match src p (s :: starts) =
    match head (pattern_ways src p s) with Some w => Some (s, w) | None => first_match src p starts end.
Proof. unfold first_match. rewrite bind_cons. by destruct (pattern_ways src p s). Qed.

(** What a search leaves *)
Definition finds (m : mprog (option (nat * nat))) (r : option (nat * way)) : Prop :=
  forall ms, ready ms ->
    match r with
    | Some (s, inl (e, cs)) => exists ms', m ms = Ret (Some (s, e)) ms' /\ rep LJ_MAX_XLEVEL cs ms'
    | Some (_, inr err) => exists ms', m ms = Raise err ms'
    | None => exists ms', m ms = Ret None ms' /\ ready ms'
    end.

Lemma finds_step s p starts m :
  (s <= length src)%nat -> (p <= length pat)%nat -> finds m (first_match src (drop p pat) starts) ->
  finds (res <- fresh_match src pat s p ;; match res with Some e => ret (Some (s, e)) | None => m end)
    (first_match src (drop p pat) (s :: starts)).
Proof.
  intros Hs Hp Hm ms Hms. rewrite first_match_cons. pose proof (fresh_match_run s p ms Hms Hs Hp) as H.
  destruct (head (pattern_ways src (drop p pat) s)) as [[[e cs]|err]|].
  - destruct H as (ms' & H & Hr). exists ms'. by rewrite (bind_step _ _ _ _ _ H).
  - destruct H as (ms' & H). exists ms'. unfold bind. by rewrite H.
  - destruct H as (ms' & H & Hr). rewrite (bind_step _ _ _ _ _ H). by apply Hm, (rep_ready _ _ _ Hr).
Qed.

Lemma finds_none : finds (ret None) None.
Proof. intros ms Hms. by exists ms. Qed.

Lemma find_loop_finds fuel s :
  (s <= length src)%nat -> (length src - s < fuel)%nat ->
  finds (find_loop src pat fuel s) (first_match src (pat_body pat) (if anchored pat then [s] else places src s)).
Proof.
  revert s. induction fuel as [|fuel IH]; intros s Hs Hf; [lia|]. cbn [find_loop].
  pose proof (pat_start_le pat). unfold pat_body in *. destruct (anchored pat) eqn:Ha.
  - apply finds_step; [done..|]. case_decide; apply finds_none.
  - rewrite places_cons by done. apply finds_step; [done..|]. case_decide.
    + apply IH; lia.
    + unfold places. replace (S (length src) - S s)%nat with 0%nat by lia. apply finds_none.
Qed.

Lemma gmatch_loop_finds fuel s :
  (s <= S (length src))%nat -> (S (length src) - s < fuel)%nat ->
  finds (gmatch_loop src pat fuel s) (first_match src pat (places src s)).
Proof.
  revert s. induction fuel as [|fuel IH]; intros s Hs Hf; [lia|]. cbn [gmatch_loop]. case_decide.
  - rewrite places_cons by done. rewrite <- (drop_0 pat) at 2. apply finds_step; [done | lia |].
    rewrite drop_0. apply IH; lia.
  - unfold places. replace (S (length src) - s)%nat with 0%nat by lia. apply finds_none.
Qed.

Lemma first_match_elem p starts s w :
  first_match src p starts = Some (s, w) -> s ∈ starts /\ w ∈ pattern_ways src p s.
Proof.
  induction starts as [|s' starts IH]; [done|]. rewrite first_match_cons.
  destruct (pattern_ways src p s') as [|w' l] eqn:E; simpl.
  - intros [? ?]%IH. split; [by right | done].
  - intros [= <- <-]. rewrite E. split; by left.
Qed.

Lemma pattern_way_ok p s e cs :
  (s <= length src)%nat -> inl (e, cs) ∈ pattern_ways src p s ->
  (s <= e <= length src)%nat /\ Forall (cap_ok (length src)) cs.
Proof.
  intros Hs H. apply ways_ok in H as [? H]; [|done..]. split; [lia|]. eapply cap_ok_le; [|done]. lia.
Qed.

(** ** The values of captures *)

Lemma push_onecapture_run d cs ms i c s e :
  rep d cs ms -> cs !! i = Some c -> cap_ok (length src) c ->
  push_onecapture src (Z.of_nat i) s e ms =
    match cap_value src c with inl v => Ret v ms | inr err => Raise err ms end.
Proof.
  intros Hrep Hc Hok. pose proof Hrep as (_ & Hl & _). pose proof (lookup_lt_Some _ _ _ Hc) as Hi.
  unfold push_onecapture, bind at 1, get. replace (Z.of_nat (level ms) <=? Z.of_nat i) with false by lia.
  replace (Z.of_nat i <? 0) with false by lia.
  rewrite Nat2Z.id, (bind_step _ _ _ _ _ (get_capture_run _ _ _ _ _ Hrep Hc)), cap_unfinished.
  destruct c as [j|j|j n]; [done..|]. cbn [cap_of c_len c_init cap_value] in *. simpl in Hok.
  replace (Z.of_nat n =? CAP_POSITION) with false by (unfold CAP_POSITION; lia).
  replace (0 <=? Z.of_nat n) with true by lia. rewrite Nat2Z.id, bool_decide_true by lia. done.
Qed.

Lemma push_loop_run d cs ms n i s e :
  rep d cs ms -> Forall (cap_ok (length src)) cs -> (i + n = length cs)%nat ->
  push_loop src n i s e ms =
    match all_or_error (cap_value src <$> drop i cs) with inl vs => Ret vs ms | inr err => Raise err ms end.
Proof.
  intros Hrep Hok. revert i. induction n as [|n IH]; intros i Hi.
  { by rewrite drop_ge by lia. }
  destruct (lookup_lt_is_Some_2 cs i) as [c Hc]; [lia|]. rewrite (drop_S _ _ _ Hc). cbn [push_loop fmap list_fmap].
  pose proof (push_onecapture_run d cs ms i c s e Hrep Hc (proj1 (Forall_lookup _ _) Hok _ _ Hc)) as HP.
  unfold bind. rewrite HP. destruct (cap_value src c); [|done]. rewrite IH by lia. simpl.
  by destruct (all_or_error _).
Qed.

Lemma push_captures_run d cs ms whole :
  rep d cs ms -> Forall (cap_ok (length src)) cs ->
  push_captures src whole ms =
    match match_values src whole cs with inl vs => Ret vs ms | inr err => Raise err ms end.
Proof.
  intros Hrep Hok. pose proof Hrep as (_ & Hl & _). unfold push_captures, bind at 1, get. rewrite Hl.
  destruct whole as [[s e]|].
  - case_decide as H0.
    + apply nil_length_inv in H0. subst cs. cbn [push_loop]. unfold push_onecapture, bind, get. by rewrite Hl.
    + rewrite (push_loop_run d cs) by done. rewrite drop_0. by destruct cs.
  - rewrite (push_loop_run d cs) by done. rewrite drop_0. by destruct cs.
Qed.

Lemma answers_ret {A} (v : A) : answers (ret v) (inl v).
Proof. intros ms H. by exists ms. Qed.

(** A search, and what is made of the match *)
Lemma answers_search {A} m starts p k (r : A + pat_error) :
  finds m (first_match src p starts) -> Forall (fun s => s <= length src)%nat starts ->
  match first_match src p starts with
  | None => answers (k None) r
  | Some (_, inr e) => r = inr e
  | Some (s, inl (e, cs)) =>
      Forall (cap_ok (length src)) cs -> forall ms, rep LJ_MAX_XLEVEL cs ms ->
      match r with inl v => k (Some (s, e)) ms = Ret v ms | inr err => k (Some (s, e)) ms = Raise err ms end
  end ->
  answers (bind m k) r.
Proof.
  intros Hm Hst Hk ms Hms. specialize (Hm ms Hms).
  destruct (first_match src p starts) as [[s [[e cs]|err]]|] eqn:E.
  - destruct Hm as (ms' & Hm & Hrep). rewrite (bind_step _ _ _ _ _ Hm).
    apply first_match_elem in E as [Hs E]. apply (proj1 (Forall_forall _ _) Hst) in Hs.
    apply pattern_way_ok in E as [_ Hok]; [|done]. specialize (Hk Hok ms' Hrep).
    apply rep_ready in Hrep. destruct r; eauto.
  - subst r. destruct Hm as [ms' Hm]. exists ms'. unfold bind. by rewrite Hm.
  - destruct Hm as (ms' & Hm & Hr). rewrite (bind_step _ _ _ _ _ Hm). by apply Hk.
Qed.

Lemma places_le s : Forall (fun s => s <= length src)%nat (places src s).
Proof. apply Forall_forall. intros x. unfold places. rewrite elem_of_seq. lia. Qed.

Lemma find_init_le init : (find_init src init <= length src)%nat.
Proof. unfold find_init. repeat case_match; lia. Qed.

(** ** Searching for a pattern *)

Lemma pattern_find_answers (find : bool) init :
  (init <= length src)%nat ->
  answers
    (r <- find_loop src pat (S (length src)) init ;;
     match r with
     | Some (s1, e) =>
         if find then
           cs <- push_captures src None ;;
           ret (VInt (Z.of_nat s1 + 1) :: VInt (Z.of_nat e) :: cs)
         else push_captures src (Some (s1, e))
     | None => ret [VNil]
     end)
    (pattern_find src pat find init).
Proof.
  intros Hi. eapply answers_search; [apply find_loop_finds; lia | |].
  - destruct (anchored pat); [by apply Forall_singleton | apply places_le].
  - unfold pattern_find. destruct (first_match _ _ _) as [[s [[e cs]|err]]|]; [|done|apply answers_ret].
    intros Hok ms Hrep. destruct find.
    + unfold bind. rewrite (push_captures_run _ _ _ _ Hrep Hok). by destruct (match_values _ _ _).
    + rewrite (push_captures_run _ _ _ _ Hrep Hok). by destruct (match_values _ _ _).
Qed.
End Find.

(** ** Searching for a text *)

(** [r] is the first of the [n] places from [lo] on where [P] holds. *)
Definition is_first (P : nat -> Prop) (lo n : nat) (r : option nat) : Prop :=
  match r with
  | Some k => (lo <= k < lo + n)%nat /\ P k /\ forall j, (lo <= j < k)%nat -> ~ P j
  | None => forall j, (lo <= j < lo + n)%nat -> ~ P j
  end.

Lemma list_find_first (P : nat -> Prop) `{forall n, Decision (P n)} lo n r :
  is_first P lo n r -> snd <$> list_find P (seq lo n) = r.
Proof.
  revert lo. induction n as [|n IH]; intros lo Hr.
  { destruct r as [k|]; [destruct Hr; lia | done]. }
  cbn [seq list_find]. case_decide as HP; simpl.
  - destruct r as [k|]; [|by destruct (Hr lo); [lia|]]. destruct Hr as (Hk & _ & Hj).
    destruct (decide (k = lo)) as [->|]; [done|]. by destruct (Hj lo); [lia|].
  - assert (Hr' : is_first P (S lo) n r).
    { destruct r as [k|]; [|intros j Hj; apply Hr; lia]. destruct Hr as (Hk & HPk & Hj).
      destruct (decide (k = lo)) as [->|]; [done|]. split_and!; [lia | lia | done | intros j Hjk; apply Hj; lia]. }
    rewrite <- (IH _ Hr'). by destruct (list_find _ _) as [[]|].
Qed.

Lemma prefix_cons_drop c (u t : list Z) k :
  (c :: u) `prefix_of` drop k t <-> t !! k = Some c /\ take (length u) (drop (S k) t) = u.
Proof.
  split.
  - intros [v Hv]. assert (Hc : t !! k = Some c).
    { rewrite <- (Nat.add_0_r k), <- lookup_drop, Hv. done. }
    split; [done|]. rewrite (drop_S _ _ _ Hc) in Hv. injection Hv as ->. by rewrite take_app_length.
  - intros [Hc Hu]. rewrite (drop_S _ _ _ Hc). apply prefix_cons. rewrite <- Hu. apply prefix_take.
Qed.

Lemma lmemfind_loop_first fuel off l1 c u t :
  (l1 < fuel)%nat -> (off + l1 + length u <= length t)%nat ->
  is_first (fun k => (c :: u) `prefix_of` drop k t) off l1 (lmemfind_loop fuel (drop off t) off l1 c u).
Proof.
  revert off l1. induction fuel as [|fuel IH]; intros off l1 Hf Ht; [lia|]. cbn [lmemfind_loop].
  destruct (list_find (eq c) (take l1 (drop off t))) as [[i x]|] eqn:E.
  - apply list_find_Some in E as (Hi & <- & Hj). pose proof (lookup_lt_Some _ _ _ Hi) as Hil.
    rewrite length_take, length_drop in Hil. rewrite lookup_take_lt, lookup_drop in Hi by lia.
    assert (Hbefore : forall j, (off <= j < off + i)%nat -> ~ (c :: u) `prefix_of` drop j t).
    { intros j Hoj [Hc _]%prefix_cons_drop. apply (Hj (j - off)%nat c); [|lia | done].
      rewrite lookup_take_lt, lookup_drop by lia. by replace (off + (j - off))%nat with j by lia. }
    rewrite drop_drop. replace (off + S i)%nat with (S (off + i)) by lia. case_decide as Hu.
    + split_and!; [lia | lia | by apply prefix_cons_drop | done].
    + assert (Hno : ~ (c :: u) `prefix_of` drop (off + i) t) by (by intros [_ ?]%prefix_cons_drop).
      specialize (IH (S (off + i)) (l1 - S i)%nat). destruct (lmemfind_loop _ _ _ _ _ _) as [k|].
      * destruct IH as (Hk & HP & Hjk); [lia..|]. split_and!; [lia | lia | done |].
        intros j Hj'. destruct (decide (j < off + i)%nat); [apply Hbefore; lia|].
        destruct (decide (j = off + i)%nat) as [->|]; [done | apply Hjk; lia].
      * intros j Hj'. destruct (decide (j < off + i)%nat); [apply Hbefore; lia|].
        destruct (decide (j = off + i)%nat) as [->|]; [done | apply IH; lia].
  - apply list_find_None in E. intros j Hj [Hc _]%prefix_cons_drop.
    apply (proj1 (Forall_lookup _ _) E (j - off)%nat c); [|done].
    rewrite lookup_take_lt, lookup_drop by lia. by replace (off + (j - off))%nat with j by lia.
Qed.

Lemma lmemfind_first t u : is_first (fun k => u `prefix_of` drop k t) 0 (S (length t)) (lmemfind t u).
Proof.
  destruct u as [|c u]; unfold lmemfind.
  { split_and!; [lia | lia | apply prefix_nil | lia]. }
  assert (Hlate : forall j, (length t < j + S (length u))%nat -> ~ (c :: u) `prefix_of` drop j t).
  { intros j Hj H%prefix_length. rewrite length_drop in H. simpl in H. lia. }
  cbn [length]. case_decide as Hl; [intros j _; apply Hlate; lia|].
  pose proof (lmemfind_loop_first (S (length t)) 0 (length t - length u) c u t) as HF. rewrite drop_0 in HF.
  destruct (lmemfind_loop _ _ _ _ _ _) as [k|].
  - destruct HF as (Hk & HP & Hj); [lia..|]. split_and!; [lia | lia | done..].
  - intros j Hj. destruct (decide (j < length t - length u)%nat); [apply HF; lia | apply Hlate; lia].
Qed.

Lemma plain_find_first src u init :
  (init <= length src)%nat ->
  snd <$> list_find (fun i => u `prefix_of` drop i src) (places src init) =
    Nat.add init <$> lmemfind (drop init src) u.
Proof.
  intros Hi. apply list_find_first. pose proof (lmemfind_first (drop init src) u) as HF.
  rewrite length_drop in HF. destruct (lmemfind _ _) as [k|]; cbn [is_first fmap option_fmap option_map] in *.
  - destruct HF as (Hk & HP & Hj). rewrite drop_drop in HP. split_and!; [lia | lia | done |].
    intros j Hj'. specialize (Hj (j - init)%nat). rewrite drop_drop in Hj.
    replace (init + (j - init))%nat with j in Hj by lia. apply Hj. lia.
  - intros j Hj. specialize (HF (j - init)%nat). rewrite drop_drop in HF.
    replace (init + (j - init))%nat with j in HF by lia. apply HF. lia.
Qed.

(** A pattern of characters that mean themselves *)
Definition plain_char (c : Z) : Prop := c <> 0 /\ c <> ch_rpar /\ c ∉ SPECIALS.

Lemma plain_items p : Forall plain_char p -> items p = (fun c => One (SChar c)) <$> p.
Proof.
  induction 1 as [|c p (H0 & Hr & Hc) Hp IH]; [done|]. rewrite items_cons by done.
  assert (HS : forall d, bool_decide (d ∈ SPECIALS) = true -> (c =? d) = false)
    by (intros d Hd%bool_decide_eq_true_1; apply Z.eqb_neq; intros ->; done).
  assert (HE : read_item c p = (One (SChar c), p)).
  { unfold read_item, read_plain, read_single.
    rewrite (HS ch_lpar), (proj2 (Z.eqb_neq _ _) Hr), (HS L_ESC), (HS ch_dollar), (HS ch_dot), (HS ch_lbrk) by done.
    unfold read_repeat. simpl. destruct Hp as [|q p (_ & _ & Hq) _]; [done|].
    assert (HQ : forall d, bool_decide (d ∈ SPECIALS) = true -> (q =? d) = false)
      by (intros d Hd%bool_decide_eq_true_1; apply Z.eqb_neq; intros ->; done).
    by rewrite (HQ ch_quest), (HQ ch_star), (HQ ch_plus), (HQ ch_minus) by done. }
  rewrite HE. simpl. by rewrite IH.
Qed.

Lemma plain_ways src p d s cs :
  ways src ((fun c => One (SChar c)) <$> p) d s cs =
    if decide (p `prefix_of` drop s src) then [inl (s + length p, cs)%nat] else [].
Proof.
  revert s. induction p as [|c p IH]; intros s.
  { rewrite decide_True by apply prefix_nil. simpl. by rewrite Nat.add_0_r. }
  cbn [fmap list_fmap]. rewrite ways_cons. cbn [steps].
  destruct (src !! s) as [x|] eqn:Hx.
  - rewrite (reps_lookup _ _ _ _ Hx), (drop_S _ _ _ Hx). cbn [single_sem]. case (Z.eqb_spec c x); intros Hcx.
    + subst x. rewrite decide_True by lia. simpl. rewrite app_nil_r, IH.
      destruct (decide (p `prefix_of` drop (S s) src)) as [H|H].
      * rewrite decide_True by (by apply prefix_cons). simpl. do 3 f_equal. lia.
      * rewrite decide_False; [done|]. by intros ?%prefix_cons_inv_2.
    + rewrite !decide_False; [done | by intros ?%prefix_cons_inv_1 | lia].
  - apply lookup_ge_None in Hx. rewrite reps_none, drop_ge by lia. rewrite !decide_False; [done | | lia].
    by intros ?%prefix_nil_not.
Qed.

Lemma first_match_plain src p starts :
  Forall plain_char p ->
  first_match src p starts =
    (fun i => (i, inl (i + length p, [])%nat)) <$> (snd <$> list_find (fun i => p `prefix_of` drop i src) starts).
Proof.
  intros Hp. induction starts as [|s starts IH]; [done|]. rewrite first_match_cons. unfold pattern_ways.
  rewrite (plain_items _ Hp), plain_ways. cbn [list_find]. case_decide; [done|]. simpl. rewrite IH.
  by destruct (list_find _ _) as [[]|].
Qed.

(** ** The properties *)

Section Properties.
Context (src pat : list Z).

(** C13 [string.find] and [string.match] ([str_find_aux]) answer, for every subject,
    pattern, third and fourth argument: the first place from the given one on, or
    the given one alone under an anchor, that has a way to match, the end of its
    first way and its captures; or the error that comes first; or nil.  A plain
    search gives the first place where the text stands.  The functions always
    return or raise one of their errors. *)
Theorem str_find_aux_correct (find plain : bool) (init : Z) :
  Forall is_byte src -> Forall is_byte pat -> Z.of_nat (length src) < 2 ^ 31 ->
  answers (str_find_aux src pat find init plain)
    (if find && (plain || negb (has_specials pat))
     then inl (plain_find src pat (find_init src init))
     else pattern_find src pat find (find_init src init)).
Proof.
  intros Hsrc Hpat Hlen. unfold str_find_aux. pose proof (find_init_le src init) as Hi.
  destruct (find && _).
  - pose proof (plain_find_first src pat _ Hi) as HP. unfold plain_find.
    destruct (lmemfind _ _) as [k|], (list_find _ _) as [[i x]|]; simpl in HP; simplify_eq; apply answers_ret.
  - by apply pattern_find_answers.
Qed.

(** C16 The plain search that [string.find] makes for a pattern without special
    characters answers what matching that pattern answers, where the pattern has
    no NUL and no closing parenthesis (which is not one of the special characters
    of the check). *)
Theorem plain_shortcut_correct (init : Z) :
  Forall is_byte src -> Forall is_byte pat -> Z.of_nat (length src) < 2 ^ 31 ->
  has_specials pat = false -> 0 ∉ pat -> ch_rpar ∉ pat ->
  answers (str_find_aux src pat true init false) (pattern_find src pat true (find_init src init)).
Proof.
  intros Hsrc Hpat Hlen Hs H0 Hr.
  assert (Hp : Forall plain_char pat).
  { clear Hpat. induction pat as [|c p IH]; [done|]. simpl in Hs. apply not_elem_of_cons in H0 as [H0 H0'], Hr as [Hr Hr'].
    replace (c =? 0) with false in Hs by lia. case_decide; [done|]. constructor; [|by apply IH]. by split_and!. }
  assert (Ha : anchored pat = false).
  { unfold anchored. destruct Hp as [|c p (_ & _ & Hc) _]; [done|]. apply Z.eqb_neq. intros ->. by apply Hc; left. }
  assert (HE : pattern_find src pat true (find_init src init) = inl (plain_find src pat (find_init src init))).
  { unfold pattern_find, pat_body, pat_start. rewrite Ha, drop_0, (first_match_plain _ _ _ Hp). unfold plain_find.
    by destruct (list_find _ _) as [[i x]|]. }
  rewrite HE. unfold str_find_aux. rewrite Hs. simpl.
  pose proof (plain_find_first src pat _ (find_init_le src init)) as HP. unfold plain_find.
  destruct (lmemfind _ _) as [k|], (list_find _ _) as [[i x]|]; simpl in HP; simplify_eq; apply answers_ret.
Qed.

(** C15 The iterator of [string.gmatch] gives the captures of the first match from its
    position on, without an anchor, and moves on: past the match, or by one when
    the match is empty, so that it ends; when there is none it gives nothing. *)
Theorem string_gmatch_correct (pos : nat) :
  Forall is_byte src -> Forall is_byte pat -> Z.of_nat (length src) < 2 ^ 31 -> (pos <= S (length src))%nat ->
  answers (string_gmatch_aux src pat pos) (next_match src pat pos) /\
  match next_match src pat pos with
  | inl ([], pos') => pos' = pos
  | inl (_ :: _, pos') => (pos < pos' <= S (length src))%nat
  | inr _ => True
  end.
Proof.
  intros Hsrc Hpat Hlen Hpos. split.
  - eapply answers_search; [apply gmatch_loop_finds; lia || done | apply places_le |].
    unfold next_match. destruct (first_match _ _ _) as [[s [[e cs]|err]]|]; [|done|apply answers_ret].
    intros Hok ms Hrep. unfold bind. rewrite (push_captures_run _ _ _ _ _ Hrep Hok).
    by destruct (match_values _ _ _).
  - unfold next_match. destruct (first_match _ _ _) as [[s [[e cs]|err]]|] eqn:E; [|done..].
    apply first_match_elem in E as [Hs E]. unfold places in Hs. apply elem_of_seq in Hs.
    apply pattern_way_ok in E as [He _]; [|lia].
    assert (HV : match match_values src (Some (s, e)) cs with inl [] => False | _ => True end).
    { destruct cs as [|c cs]; [done|]. simpl. destruct (cap_value src c); [|done]. by destruct (all_or_error _). }
    destruct (match_values _ _ _) as [[|v vs]|]; [done| |done]. case_decide; lia.
Qed.
End Properties.

(** [find] and [match] of the pattern of [demo_pat]; a search for a text *)
Lemma str_find_aux_correct_witness :
  answers (str_find_aux demo_text demo_pat true 1 false) (inl [VInt 1; VInt 5; VStr [97; 97]]) /\
  answers (str_find_aux demo_text demo_pat false (-2) false) (inl [VNil]) /\
  answers (str_find_aux demo_text [98; 97] true 2 false) (inl [VInt 3; VInt 4]).
Proof.
  split_and!.
  1: refine (str_find_aux_correct demo_text demo_pat true false 1 _ _ _).
  4: refine (str_find_aux_correct demo_text demo_pat false false (-2) _ _ _).
  7: refine (str_find_aux_correct demo_text [98; 97] true false 2 _ _ _).
  1, 2, 4, 5, 7, 8: apply (bool_decide_unpack _); vm_compute; exact I.
  all: reflexivity.
Defined.

Lemma plain_shortcut_correct_witness :
  answers (str_find_aux demo_text [98; 97] true 2 false) (inl [VInt 3; VInt 4]).
Proof.
  refine (plain_shortcut_correct demo_text [98; 97] 2 _ _ _ _ _ _).
  1, 2, 5, 6: apply (bool_decide_unpack _); vm_compute; exact I.
  all: reflexivity.
Defined.

Lemma string_gmatch_correct_witness :
  answers (string_gmatch_aux demo_text [97; 43] 1) (inl ([VStr [97]], 2%nat)) /\ (1 < 2 <= 6)%nat.
Proof.
  refine (string_gmatch_correct demo_text [97; 43] 1 _ _ _ _).
  1, 2: apply (bool_decide_unpack _); vm_compute; exact I.
  - reflexivity.
  - vm_compute. lia.
Defined.
