(* ===== verification/LjPatGsub.v ===== *)
(** * Replacing matches

    [string.gsub] of [LjPatLib]: the matches of a pattern that do not overlap, from
    left to right, each replaced by what its replacement says. *)

From Stdlib Require Import ZArith Lia.
From stdpp Require Import base option list.
From S2P Require Import Prelude LjPat LjPatLib LjPatSem LjPatRead LjPatCap LjPatItem LjPatProps LjPatFind.

Local Open Scope Z_scope.
Local Open Scope prog_scope.

(** ** Replacements *)

(** A text for replacement in pieces: characters, and what was captured; piece 0
    is the whole match. *)
Inductive piece := Lit (c : Z) | Ref (i : nat).

Fixpoint pieces (news : list Z) : list piece :=
  match news with
  | [] => []
  | c :: news =>
      if c =? L_ESC then
        match news with
        | [] => [Lit 0]
        | d :: news => (if is_digit d then Ref (Z.to_nat (d - 48)) else Lit d) :: pieces news
        end
      else Lit c :: pieces news
  end.

Section Gsub.
Context {W : Type} (call : W -> list lval -> lval * W) (src : list Z).

(** Capture [i]; the whole match stands for the first when there is none. *)
Definition nth_value (i s e : nat) (cs : list cap) : lval + pat_error :=
  match cs !! i with
  | Some c => cap_value src c
  | None => if decide (i = 0%nat) then inl (VStr (span_text src s e)) else inr LJ_ERR_STRCAPI
  end.

Definition piece_text (s e : nat) (cs : list cap) (p : piece) : list Z + pat_error :=
  match p with
  | Lit c => inl [c]
  | Ref O => inl (span_text src s e)
  | Ref (S i) =>
      match nth_value i s e cs with
      | inl v => inl (default [] (value_text v))
      | inr err => inr err
      end
  end.

(** The text for a value: of a string or number; the match is kept for nil and
    false. *)
Definition kept_text (s e : nat) (v : lval) : list Z + pat_error :=
  match v with
  | VNil | VFalse => inl (span_text src s e)
  | _ => match value_text v with Some t => inl t | None => inr LJ_ERR_STRGSRV end
  end.

Definition with_world (t : list Z + pat_error) (w : W) : (list Z * W) + pat_error :=
  match t with inl t => inl (t, w) | inr err => inr err end.

Definition replaced (r : replacement) (s e : nat) (cs : list cap) (w : W) : (list Z * W) + pat_error :=
  match r with
  | RepText news =>
      with_world (match all_or_error (piece_text s e cs <$> pieces news) with
                  | inl ts => inl (concat ts)
                  | inr err => inr err
                  end) w
  | RepFunction =>
      match match_values src (Some (s, e)) cs with
      | inl args => let '(v, w) := call w args in with_world (kept_text s e v) w
      | inr err => inr err
      end
  | RepTable get =>
      match nth_value 0 s e cs with
      | inl k => with_world (kept_text s e (get k)) w
      | inr err => inr err
      end
  end.

(** ** The matches, and the text with them replaced *)

(** From [s] on: the match at a place or none, then the place after it. *)
Fixpoint matches_from (fuel : nat) (p : list Z) (once : bool) (s : nat) : list (nat * way) :=
  match fuel with
  | O => []
  | S fuel =>
      let later s := if once then [] else matches_from fuel p once s in
      let w := head (pattern_ways src p s) in
      option_list (pair s <$> w) ++
      match w with
      | Some (inr _) => []
      | Some (inl (e, _)) =>
          if decide (s < e)%nat then later e else if decide (s < length src)%nat then later (S s) else []
      | None => if decide (s < length src)%nat then later (S s) else []
      end
  end.

(** All the matches that do not overlap *)
Definition matches (pat : list Z) : list (nat * way) :=
  matches_from (S (S (length src))) (pat_body pat) (anchored pat) 0.

(** The text from [pos] on, with these matches replaced, and their number *)
Fixpoint splice (r : replacement) (pos : nat) (l : list (nat * way)) (w : W) : (list Z * Z * W) + pat_error :=
  match l with
  | [] => inl (drop pos src, 0, w)
  | (_, inr err) :: _ => inr err
  | (s, inl (e, cs)) :: l =>
      match replaced r s e cs w with
      | inr err => inr err
      | inl (t, w) =>
          match splice r e l w with
          | inl (rest, n, w) => inl (span_text src pos s ++ t ++ rest, n + 1, w)
          | inr err => inr err
          end
      end
  end.
End Gsub.

(** ** One replacement *)

Section Proofs.
Context {W : Type} (call : W -> list lval -> lval * W) (src pat : list Z).
Hypothesis Hsrc : Forall is_byte src.
Hypothesis Hpat : Forall is_byte pat.
Hypothesis Hlen : Z.of_nat (length src) < 2 ^ 31.

(** What a result is in a state *)
Definition result {A} (r : A + pat_error) (ms : match_state) : outcome match_state pat_error A :=
  match r with inl v => Ret v ms | inr err => Raise err ms end.

Lemma push_nth_run d cs ms i s e :
  rep d cs ms -> Forall (cap_ok (length src)) cs ->
  push_onecapture src (Z.of_nat i) s e ms = result (nth_value src i s e cs) ms.
Proof.
  intros Hrep Hok. unfold nth_value. destruct (cs !! i) as [c|] eqn:Hc.
  - exact (push_onecapture_run src d cs ms i c s e Hrep Hc (proj1 (Forall_lookup _ _) Hok _ _ Hc)).
  - apply lookup_ge_None in Hc. pose proof Hrep as (_ & Hl & _).
    unfold push_onecapture, bind at 1, get. replace (Z.of_nat (level ms) <=? Z.of_nat i) with true by lia.
    case_decide; case_match; [done | lia | lia | done].
Qed.

Lemma cap_value_text c v : cap_value src c = inl v -> exists t, value_text v = Some t.
Proof. destruct c; intros [= <-]; simpl; eauto. Qed.

Lemma nth_value_text i s e cs v : nth_value src i s e cs = inl v -> exists t, value_text v = Some t.
Proof.
  unfold nth_value. destruct (cs !! i); [apply cap_value_text|]. case_decide; [|done]. intros [= <-]. simpl. eauto.
Qed.

Lemma add_s_run d cs ms news s e b :
  rep d cs ms -> Forall (cap_ok (length src)) cs -> Forall is_byte news ->
  add_s src news s e b ms =
    result (match all_or_error (piece_text src s e cs <$> pieces news) with
            | inl ts => inl (b ++ concat ts)
            | inr err => inr err
            end) ms.
Proof.
  intros Hrep Hok. revert b. induction news as [news IH] using length_ind. intros b Hn.
  destruct news as [|c news]; [simpl; by rewrite app_nil_r|]. apply Forall_cons in Hn as [_ Hn].
  assert (HI : forall news' t, (length news' <= length news)%nat -> Forall is_byte news' ->
    add_s src news' s e (b ++ t) ms =
    result (match (match all_or_error (piece_text src s e cs <$> pieces news') with
                   | inl ts => inl (t :: ts) | inr err => inr err end) with
            | inl ts => inl (b ++ concat ts) | inr err => inr err end) ms).
  { intros news' t Hl Hn'. rewrite IH by (done || simpl; lia).
    destruct (all_or_error _); simpl; [by rewrite <- app_assoc | done]. }
  cbn [add_s pieces]. destruct (c =? L_ESC); cbn [negb]; [|by apply HI].
  destruct news as [|d' news]; [done|]. apply Forall_cons in Hn as [Hd Hn].
  rewrite isdigit_sem by done. destruct (is_digit d') eqn:Hdig; cbn [negb]; [|by apply HI; [simpl; lia|]].
  unfold is_digit, between in Hdig. cbn [fmap list_fmap]. case (Z.eqb_spec d' 48); intros H48.
  { subst d'. by apply HI; [simpl; lia|]. }
  replace (Z.to_nat (d' - 48)) with (S (Z.to_nat (d' - 49))) by lia. cbn [piece_text].
  replace (d' - ch_1) with (Z.of_nat (Z.to_nat (d' - 49))) by (unfold ch_1; lia).
  pose proof (push_nth_run _ _ _ (Z.to_nat (d' - 49)) s e Hrep Hok) as HP.
  destruct (nth_value src (Z.to_nat (d' - 49)) s e cs) as [v|err] eqn:Hv.
  - rewrite (bind_step _ _ _ _ _ HP). apply nth_value_text in Hv as [t Ht]. rewrite Ht. simpl.
    apply HI; [simpl; lia | done].
  - unfold bind. by rewrite HP.
Qed.

(** The bytes of a text for replacement *)
Definition rep_bytes (r : replacement) : Prop :=
  match r with RepText news => Forall is_byte news | _ => True end.

Lemma add_value_run d cs ms r s e b w :
  rep d cs ms -> Forall (cap_ok (length src)) cs -> rep_bytes r ->
  add_value src call r s e b w ms =
    result (match replaced call src r s e cs w with inl (t, w) => inl (b ++ t, w) | inr err => inr err end) ms.
Proof.
  intros Hrep Hok Hr.
  assert (HK : forall v w, (match v with
      | VNil | VFalse => ret (b ++ take (e - s) (drop s src), w)
      | _ => match value_text v with Some t => ret (b ++ t, w) | None => raise LJ_ERR_STRGSRV end
      end : mprog (list Z * W)) ms =
      result (match with_world (kept_text src s e v) w with inl (t, w) => inl (b ++ t, w) | inr err => inr err end) ms)
    by (by intros []).
  destruct r as [news| |get]; unfold add_value; cbn [replaced].
  - unfold bind. rewrite (add_s_run d cs) by done. by destruct (all_or_error _).
  - unfold bind. rewrite (push_captures_run src d cs) by done. destruct (match_values _ _ _) as [args|]; [|done].
    simpl. destruct (call w args) as [v w']. apply HK.
  - unfold bind. pose proof (push_nth_run _ _ _ 0 s e Hrep Hok) as HP. change (Z.of_nat 0) with 0 in HP. rewrite HP.
    destruct (nth_value src 0 s e cs) as [k|]; [apply HK | done].
Qed.

(** ** The loop *)

Lemma matches_from_le fuel p once s s' w : (s', w) ∈ matches_from src fuel p once s -> (s <= s')%nat.
Proof.
  revert s. induction fuel as [|fuel IH]; intros s; [by intros ?%not_elem_of_nil|].
  cbn [matches_from]. set (later := fun s => if once then [] else matches_from src fuel p once s).
  assert (HL : forall s1, (s <= s1)%nat -> (s', w) ∈ later s1 -> (s <= s')%nat).
  { unfold later. intros s1 Hs1. destruct once; [by intros ?%not_elem_of_nil|]. intros ?%IH. lia. }
  intros [H|H]%elem_of_app.
  - destruct (head _); simpl in H; [|by apply not_elem_of_nil in H].
    apply list_elem_of_singleton in H. injection H as <- _. lia.
  - destruct (head _) as [[[e cs]|err]|]; [| by apply not_elem_of_nil in H|]; repeat case_decide;
      solve [eapply HL; [|exact H]; lia | by apply not_elem_of_nil in H].
Qed.

Lemma span_text_cons s s' c : src !! s = Some c -> (S s <= s')%nat ->
  span_text src s s' = c :: span_text src (S s) s'.
Proof.
  intros Hc Hs. unfold span_text. rewrite (drop_S _ _ _ Hc).
  by replace (s' - s)%nat with (S (s' - S s)) by lia.
Qed.

(** The result with a text before it, and matches counted before it *)
Definition prepend (b : list Z) (n : Z) (r : (list Z * Z * W) + pat_error) : (list Z * Z * W) + pat_error :=
  match r with inl (t, k, w) => inl (b ++ t, n + k, w) | inr err => inr err end.

Lemma splice_skip r s c l w :
  src !! s = Some c -> (forall x, x ∈ l -> (S s <= x.1)%nat) ->
  splice call src r s l w = prepend [c] 0 (splice call src r (S s) l w).
Proof.
  intros Hc Hl. destruct l as [|[s' [[e cs]|err]] l]; simpl; [by rewrite (drop_S _ _ _ Hc) | | done].
  destruct (replaced _ _ _ _ _ _ _) as [[t w']|]; [|done]. destruct (splice _ _ _ _ _ _) as [[[rest n] w1]|]; [|done].
  simpl. rewrite (span_text_cons _ _ _ Hc); [done|]. exact (Hl (s', inl (e, cs)) ltac:(left)).
Qed.

Lemma prepend_prepend b b' n n' r : prepend b n (prepend b' n' r) = prepend (b ++ b') (n + n') r.
Proof. destruct r as [[[t k] w]|]; [|done]. simpl. by rewrite app_assoc, Z.add_assoc. Qed.

Context (r : replacement) (max_s : Z).
Hypothesis Hr : rep_bytes r.

Let rest (fuel : nat) (s : nat) : list (nat * way) :=
  if anchored pat then [] else matches_from src fuel (pat_body pat) (anchored pat) s.

Let todo (n : Z) (l : list (nat * way)) : list (nat * way) := take (Z.to_nat (max_s - n)) l.

Lemma answers_done b n s w : answers (ret (b ++ drop s src, n, w)) (prepend b n (splice call src r s [] w)).
Proof. simpl. rewrite Z.add_0_r. apply answers_ret. Qed.

Lemma gsub_loop_answers fuel s n b w :
  (s <= length src)%nat -> (length src - s < fuel)%nat ->
  answers (gsub_loop src pat call fuel r max_s n s b w)
    (prepend b n (splice call src r s (todo n (matches_from src fuel (pat_body pat) (anchored pat) s)) w)).
Proof.
  revert s n b w. induction fuel as [|fuel IH]; intros s n b w Hs Hf; [lia|]. cbn [gsub_loop matches_from].
  destruct (n <? max_s) eqn:Hn.
  2: { unfold todo. replace (Z.to_nat (max_s - n)) with 0%nat by lia. apply answers_done. }
  set (l1 := if decide (s < length src)%nat then rest fuel (S s) else []).
  set (next := fun (n : Z) (w : W) (s : nat) (b : list Z) =>
    if anchored pat then ret (b ++ drop s src, n, w) else gsub_loop src pat call fuel r max_s n s b w).
  assert (HN : forall s' n' b' w', (s < s' <= length src)%nat ->
    answers (next n' w' s' b') (prepend b' n' (splice call src r s' (todo n' (rest fuel s')) w'))).
  { intros s' n' b' w' Hs'. unfold next, rest. destruct (anchored pat) eqn:Ha.
    - unfold todo. rewrite take_nil. apply answers_done.
    - apply IH; lia. }
  assert (HK : forall n' b' w',
    answers (match src !! s with Some c => next n' w' (S s) (b' ++ [c]) | None => ret (b' ++ drop s src, n', w') end)
      (prepend b' n' (splice call src r s (todo n' l1) w'))).
  { intros n' b' w'. unfold l1. destruct (src !! s) as [c|] eqn:Hc.
    - pose proof (lookup_lt_Some _ _ _ Hc). rewrite decide_True by done.
      rewrite (splice_skip _ _ _ _ _ Hc), prepend_prepend, Z.add_0_r.
      + apply HN. lia.
      + intros [s' x] (i & Hx%list_elem_of_lookup_2 & _)%elem_of_take. unfold rest in Hx.
        destruct (anchored pat); [by apply not_elem_of_nil in Hx | by apply matches_from_le in Hx].
    - apply lookup_ge_None in Hc. rewrite decide_False by lia. unfold todo. rewrite take_nil. apply answers_done. }
  assert (HT : forall x l, todo n (x :: l) = x :: todo (n + 1) l).
  { intros x l. unfold todo. by replace (Z.to_nat (max_s - n)) with (S (Z.to_nat (max_s - (n + 1)))) by lia. }
  intros ms Hms. pose proof (fresh_match_run src pat Hsrc Hpat Hlen s _ ms Hms Hs (pat_start_le pat)) as HF.
  change (drop (pat_start pat) pat) with (pat_body pat) in HF.
  destruct (head (pattern_ways src (pat_body pat) s)) as [[[e cs]|err]|] eqn:Ew.
  - destruct HF as (ms' & HF & Hrep). rewrite (bind_step _ _ _ _ _ HF).
    assert (Hel : inl (e, cs) ∈ pattern_ways src (pat_body pat) s).
    { destruct (pattern_ways _ _ _); [done|]. injection Ew as ->. left. }
    apply pattern_way_ok in Hel as [He Hok]; [|done].
    pose proof (add_value_run _ cs ms' r s e b w Hrep Hok Hr) as HV.
    match goal with |- context [option_list ?o ++ ?l] =>
      change (option_list o ++ l) with ((s, inl (e, cs) : way) :: l) end.
    rewrite HT. cbn [splice].
    destruct (replaced call src r s e cs w) as [[t w']|err]; simpl result in HV.
    2: { exists ms'. unfold bind. by rewrite HV. }
    rewrite (bind_step _ _ _ _ _ HV). apply rep_ready in Hrep.
    assert (HP : forall q l, prepend b n (match splice call src r q l w' with
        | inl (rest, n, w) => inl (span_text src s s ++ t ++ rest, n + 1, w) | inr err => inr err end) =
      prepend (b ++ t) (n + 1) (splice call src r q l w')).
    { intros q l. destruct (splice _ _ _ _ _ _) as [[[rest' k] w1]|]; [|done]. unfold span_text.
      simpl. rewrite Nat.sub_diag, <- app_assoc. simpl. do 2 f_equal. f_equal. lia. }
    rewrite HP. destruct (decide (s < e)%nat).
    + by apply HN; [lia|].
    + replace e with s by lia. by apply HK.
  - destruct HF as (ms' & HF).
    match goal with |- context [option_list ?o ++ ?l] => change (option_list o ++ l) with [(s, inr err : way)] end.
    rewrite HT. exists ms'. unfold bind. by rewrite HF.
  - destruct HF as (ms' & HF & Hrep). rewrite (bind_step _ _ _ _ _ HF). apply rep_ready in Hrep. by apply HK.
Qed.
End Proofs.

(** ** How many *)

Lemma splice_count {W} (call : W -> list lval -> lval * W) src r pos l w t n w' :
  splice call src r pos l w = inl (t, n, w') -> n = Z.of_nat (length l).
Proof.
  revert pos w t n w'. induction l as [|[s [[e cs]|err]] l IH]; intros pos w t n w'; simpl; [naive_solver| |done].
  destruct (replaced _ _ _ _ _ _ _) as [[u w1]|]; [|done].
  destruct (splice _ _ _ _ _ _) as [[[u' k] w2]|] eqn:E; [|done]. intros [= _ <- _]. apply IH in E. lia.
Qed.

Lemma matches_from_length src fuel p once s :
  (s <= length src)%nat -> (length (matches_from src fuel p once s) <= S (length src - s))%nat.
Proof.
  revert s. induction fuel as [|fuel IH]; intros s Hs; [simpl; lia|].
  cbn [matches_from]. set (later := fun s => if once then [] else matches_from src fuel p once s).
  assert (HL : forall s1, (s1 <= length src)%nat -> (length (later s1) <= S (length src - s1))%nat).
  { unfold later. intros s1 Hs1. destruct once; [simpl; lia | by apply IH]. }
  unfold later in *. cbv beta in HL. rewrite length_app. destruct (pattern_ways src p s) as [|[[e cs]|err] ws] eqn:E; simpl.
  - case_decide; [|simpl; lia]. specialize (HL (S s)). lia.
  - assert (Hel : inl (e, cs) ∈ pattern_ways src p s) by (rewrite E; left).
    apply pattern_way_ok in Hel as [He _]; [|done].
    repeat case_decide; [specialize (HL e); lia | specialize (HL (S s)); lia | simpl; lia].
  - lia.
Qed.

(** ** The property *)

(** C14 [string.gsub] gives the subject with the first matches of the pattern that do
    not overlap, [max_s] of them at most, replaced from left to right, each by the
    text, the answer of the function or the entry of the table for it, and the
    number of them: no more than one per place; or the first error of a match or
    of a replacement. *)
Theorem string_gsub_correct {W} (call : W -> list lval -> lval * W) (src pat : list Z) (r : replacement)
    (max_s : option Z) (w : W) :
  Forall is_byte src -> Forall is_byte pat -> rep_bytes r -> Z.of_nat (length src) < 2 ^ 31 ->
  let most := Z.to_nat (default (Z.of_nat (length src) + 1) max_s) in
  let result := splice call src r 0 (take most (matches src pat)) w in
  answers (string_gsub src pat call r max_s w) result /\
  match result with inl (_, n, _) => 0 <= n <= Z.of_nat (most `min` S (length src)) | inr _ => True end.
Proof.
  intros Hsrc Hpat Hr Hlen. cbv zeta. set (most := default _ _). split.
  - pose proof (gsub_loop_answers call src pat Hsrc Hpat Hlen r most Hr (S (S (length src))) 0 0 [] w) as H.
    cbv beta in H. rewrite Z.sub_0_r in H. unfold string_gsub. fold most. unfold matches.
    destruct (splice _ _ _ _ _ _) as [[[t n] w']|]; apply H; lia.
  - destruct (splice _ _ _ _ _ _) as [[[t n] w']|] eqn:E; [|done].
    apply splice_count in E. rewrite length_take in E. unfold matches in E.
    pose proof (matches_from_length src (S (S (length src))) (pat_body pat) (anchored pat) 0 ltac:(lia)). lia.
Qed.

(** An [x] before each run of [a] *)
Lemma string_gsub_correct_witness :
  answers (string_gsub (W := unit) demo_text [97; 43] (fun w _ => (VNil, w)) (RepText [120; 37; 48]) None tt)
    (inl ([120; 97; 97; 98; 120; 97; 97], 2, tt)).
Proof.
  refine (proj1 (string_gsub_correct (W := unit) (fun w _ => (VNil, w)) demo_text [97; 43] (RepText [120; 37; 48]) None tt
    _ _ _ _)).
  1, 2, 3: apply (bool_decide_unpack _); vm_compute; exact I.
  reflexivity.
Defined.
